(* ===== verification/_CoqProject ===== *)
-Q . S2P
Prelude.v
Io.v
GoStd.v
Codec.v
JsonText.v
JsonRound.v
MediaType.v
Base64.v
Errors.v
Ident.v
Money.v
Wallet.v
Ledger.v
Wager.v
Evaluate.v
Command.v
Config.v
Oidc.v
Events.v
Timestamps.v
Transport.v
Documents.v
Session.v
Rules.v
Framing.v
Machine.v
Database.v
Sql.v
Jsonb.v
Envelopes.v
Store.v
Work.v
Read.v
Rows.v
Books.v
Settle.v
Pending.v
Reference.v
Verdict.v
Applying.v
Emitting.v
Apply.v
Committing.v
Delivering.v
Replaying.v
Admitting.v
Processing.v
Opening.v
Reading.v
Paging.v
Auditing.v
Tending.v
Leases.v
Waiting.v
Retry.v
System.v
Guards.v
Tasks.v
Service.v
Tracing.v
Metrics.v
Engine.v
Http.v
Identity.v
Writer.v
Answers.v
Program.v
Conduct.v
Scenario.v
Rehearsal.v
Delivery.v
Stopping.v
Broker.v
Runtime.v
Guarantees.v
