(* ===== verification/Prelude.v ===== *)
(** * Verification of the wallet and wager engine

    The program is a Go service for player wallets: game providers place
    wagers over HTTP or over an SQS queue, each moves money in at most one
    PostgreSQL transaction together with its ledger entry and its outbox events,
    and background workers consume the queue, publish the outbox, and retry the
    refunds and rollbacks whose reference has not arrived.  Several processes
    share one database.

    ** How the files follow the program

    Foundations.  Prelude.v has notations, the [result] monad, tactics and hint
    databases.  GoStd.v (strings, [int64], time, [strconv], hex), Codec.v
    (SHA-256, JSON text), JsonText.v (JSON read into structs), MediaType.v (MIME
    types, [strings.Fields]), Base64.v and Timestamps.v (RFC 3339) are the
    parts of Go's library the code uses.  JsonRound.v proves of JSON that what
    is written is read back: literals, numbers, nested objects, for every text
    of UTF-8, and that what is read is UTF-8.

    Domain ([internal/domain]).  Errors.v, Ident.v, Money.v, Wallet.v, Ledger.v,
    Wager.v (the aggregate), Evaluate.v (the financial decision), Events.v (the
    envelopes).  One definition per function, every error branch included.

    Application boundary ([internal/application]).  Command.v has commands,
    results, [NormalizeCommand] and [PayloadHash]; [InboxHash] is in Transport.v
    with [workers.Decode] and the bodies the HTTP adapter reads.  Documents.v
    has the trees these documents parse to; Identity.v what their hashes say and
    which messages [Decode] understands.

    Store ([internal/adapters/postgres], [migrations]).  Session.v is a language
    of database programs: a method is a tree of statements, clock readings,
    savepoints and commits, over explicit Go computation; it has the execution
    [run], the weakest precondition [wp] and the [Discipline] class, which is
    what a database must promise a proof rule about locks.  Database.v has the
    tables, constraints and triggers, and the instance of that class; Sql.v the
    statements; Store.v [CreateWallet], [ProcessWager] and what they call
    (process.go, store.go, events.go); Work.v the workers' methods (work.go);
    Read.v ledger pages and reconciliation (read.go).  Envelopes.v shows that
    the events of the domain pass the CHECKs of the outbox on their payload.

    Proofs about the store.  Machine.v interleaves any number of sessions, with
    failed statements, crashes and lost acknowledgements, and lifts [wp] of one
    session to every reachable state.  Rows.v, Books.v, Settle.v: what every
    committed database satisfies ([consistent]), how it may evolve ([evolves]),
    and the one transition that moves money ([settle_db]).  Pending.v to
    Retry.v: the triple of each method, helper by helper.  Rules.v and Framing.v
    are the rules they share.  System.v lists the methods as operations with the
    commits each may make ([spec]) and what its reply promises ([promise]), and
    says where transactions, wallets and publications come from.  Guards.v walks
    every statement a method can issue past the row triggers.

    The rest of a process.  Config.v is [config.Load], with
    [time.ParseDuration]; Oidc.v the verifier of access tokens
    ([internal/adapters/auth]).  Tasks.v models goroutines as trees of requests
    to the outside, and worlds in which any number of them run over one store;
    Service.v and Tracing.v ([internal/adapters/observability]), Engine.v
    ([internal/workers]) and Http.v ([internal/adapters/httpapi]) are the
    goroutines; Metrics.v has the collectors their measurements are for, and
    Writer.v what the response writer under a handler sends, panics included.  Program.v shows, by induction over runs, what each of them may
    ask of the outside; Conduct.v follows one goroutine to its end, and
    Stopping.v shows that all of them end once the intake is cancelled.  Broker.v
    is the client of the queues ([internal/adapters/sqs]) as the calls of the
    SDK it makes for those requests, and Runtime.v the life of a process
    ([internal/modules/app.go]): the hooks that start and drain it beside its
    requests, its loops and its deadline; both are trees of calls (Io.v).

    Results.  Guarantees.v has the theorems about every reachable state and
    every reply of the store, with Scenario.v as the run their witnesses use;
    Delivery.v those about the whole program, on the run of Rehearsal.v, in
    which an operator opens a wallet, a message places a bet, the outbox is
    published and the provider reads the bet back, all from text to text.

    ** What the theorems show

    - Money: balances are the sum of their ledgers, never negative, exact in
      [int64]; each transaction moves money at most once, in one commit, as
      [Evaluate] decides; reversals undo what they refer to, once.
    - Identity: one answer per idempotency key and per delivery, whatever the
      interleaving; replies stand; errors change nothing.
    - Refinement: the interleaved store is a sequence of atomic transitions.
    - Events: every state is announced; published events are the outbox, were
      accepted by the broker, and stay published; their payload says what the
      columns beside it say.
    - Workers: leases are exclusive, waits end, no message is acknowledged before
      its outcome is in the books, none is lost, and no event is dropped.
    - Processes: a process is ready only while all it needs is up; it drains
      before it closes, cutting work only past the deadline; its engine stops
      when told to, and only then; every call of the queues is one SQS accepts.
    - Clients: each request is answered exactly once, in one piece, truthfully,
      and only to a principal whose token was verified for the route; money moves only for
      commands somebody entitled asked for.
    - Text: amounts, timestamps, cursors, messages and the payloads of events
      read back what is written; equal hashes are equal operations, unless
      SHA-256 collides.
    - Measurements: whatever a run measures is a declared collector with its
      labels, within their limits.

    ** Bounds and fuel

    Integers are [Z] with Go's wrap-around written out where it can matter
    ([Int64], [Since], [Milliseconds]).  Fuel is always a length of the text
    read: [2 * len + 1] values for JSON (each consumes a character), the length
    for durations, fields and media types.  A walk over a ledger takes one page
    more than there are entries.  [perform] in Rehearsal.v takes 60, which is
    more than any branch of the rehearsal uses; theorems do not depend on it.

    ** Assumptions

    PostgreSQL: row locks exclude, a statement sees a committed snapshot and its
    own writes, constraint triggers run at commit, [uuidv7] gives unused
    identifiers ([cx_ok], [clock_ok] in Database.v).  Third parties (the JWT
    library, the SQS SDK, chi, net/http's connections) are answers of the
    outside, any answer allowed, or parameters.  fx calls the hooks in the
    order it documents (Runtime.v).

    ** Not modelled

    Logs, test hooks, the durations and readings that are observed; panics,
    except for what a request whose handler panics is sent (Writer.v);
    deadlines, except as errors any call may answer and as the
    deadline of a shutdown; the grammar of [net/url], a parameter of Oidc.v and
    Broker.v; of [modules/app.go] the wiring and the options of the pool and the
    server, and [cmd]; the generated glue of sqlc; the load tests.  PostgreSQL
    refuses a zero byte and what is not UTF-8 in a text: here such a refusal is
    one of the errors any statement may answer. *)

From stdpp Require Export base tactics numbers list strings gmap.
From stdpp Require Export options.
From Stdlib Require Export Lia ZArith.

#[global] Open Scope Z_scope.

(** ** Notations

    [x == y] is Go's [==] on comparable values: a boolean, decided by the
    [EqDecision] instance of the type (strings, identities, times, flags). *)
Declare Scope go_scope.
Delimit Scope go_scope with go.
Notation "x == y" := (bool_decide (x = y)) (at level 70, no associativity) : go_scope.
Notation "x != y" := (negb (bool_decide (x = y))) (at level 70, no associativity) : go_scope.
#[global] Open Scope go_scope.

(** ** Fallible computations

    A Go function returning [(T, error)] is modelled by a value of
    [result E T]; the zero value Go returns beside a non-nil error carries no
    information and is dropped. *)
Inductive result (E A : Type) : Type :=
| Ok (a : A)
| Err (e : E).
Arguments Ok {_ _} _.
Arguments Err {_ _} _.

#[global] Instance result_ret {E} : MRet (result E) := fun _ a => Ok a.
#[global] Instance result_bind {E} : MBind (result E) := fun _ _ f m =>
  match m with Ok a => f a | Err e => Err e end.
#[global] Instance result_fmap {E} : FMap (result E) := fun _ _ f m =>
  match m with Ok a => Ok (f a) | Err e => Err e end.

#[global] Instance result_eq_dec {E A} `{EqDecision E, EqDecision A} :
  EqDecision (result E A).
Proof. solve_decision. Defined.

Definition is_ok {E A} (r : result E A) : bool :=
  match r with Ok _ => true | Err _ => false end.

(** [guard_err b e]: Go's [if b { return zero, e }]. *)
Definition guard_err {E} (b : bool) (e : E) : result E unit :=
  if b then Err e else Ok tt.

(** The value a fallible computation promises: [r] succeeds with a value
    satisfying [P]. *)
Definition ok_with {E A} (r : result E A) (P : A -> Prop) : Prop :=
  exists a, r = Ok a /\ P a.

Section result_lemmas.
Context {E A B : Type}.
Implicit Types (m : result E A) (f : A -> result E B).

Lemma bind_Ok m f b : (m ≫= f) = Ok b <-> exists a, m = Ok a /\ f a = Ok b.
Proof. destruct m; cbn; naive_solver. Qed.

Lemma bind_Err m f e :
  (m ≫= f) = Err e <-> m = Err e \/ exists a, m = Ok a /\ f a = Err e.
Proof. destruct m; cbn; naive_solver. Qed.

Lemma Ok_bind (a : A) f : (Ok a ≫= f) = f a.
Proof. done. Qed.

Lemma is_ok_spec m : is_ok m = true <-> exists a, m = Ok a.
Proof. destruct m; cbn; naive_solver. Qed.

Lemma ok_with_impl m (P Q : A -> Prop) :
  ok_with m P -> (forall a, P a -> Q a) -> ok_with m Q.
Proof. unfold ok_with; naive_solver. Qed.
End result_lemmas.

Lemma guard_err_Ok {E} (b : bool) (e : E) : guard_err b e = Ok tt <-> b = false.
Proof. unfold guard_err. by destruct b. Qed.

Lemma guard_err_Err {E} (b : bool) (e e' : E) :
  guard_err b e = Err e' <-> b = true /\ e' = e.
Proof. unfold guard_err. destruct b; naive_solver. Qed.

Lemma seq_Ok {E B} (m : result E unit) (k : result E B) b :
  (m ≫= fun _ => k) = Ok b <-> m = Ok tt /\ k = Ok b.
Proof. destruct m as [[]|]; cbn; naive_solver. Qed.

Lemma guard_else_Ok {E B} (b : bool) (e : E) (k : result E B) r :
  (if b then Err e else k) = Ok r <-> b = false /\ k = Ok r.
Proof. destruct b; naive_solver. Qed.

Lemma none_test {A} `{EqDecision A} (o : option A) : bool_decide (o <> None) = false <-> o = None.
Proof. rewrite bool_decide_eq_false. destruct o; naive_solver. Qed.

(** ** Automation

    [inv_ok] walks a hypothesis that says a chain of binds succeeded, naming
    nothing: each step's success becomes a hypothesis. *)
Ltac inv_ok_step :=
  match goal with
  | H : (_ ≫= _) = Ok _ |- _ =>
      apply bind_Ok in H; destruct H as (? & ? & H)
  | H : guard_err _ _ = Ok ?u |- _ => destruct u; apply guard_err_Ok in H
  | H : Ok _ = Ok _ |- _ => injection H as H; try subst
  | H : Err _ = Ok _ |- _ => discriminate H
  | H : Ok _ = Err _ |- _ => discriminate H
  end.
Ltac inv_ok := repeat inv_ok_step.

(** [skip_if H]: the guard at the head of [H] did not fire. *)
Ltac skip_if H :=
  lazymatch type of H with
  | (if ?b then _ else _) = _ => let E := fresh "E" in destruct b eqn:E; [discriminate H|]
  end.

(** [bools] turns boolean tests of hypotheses into propositions. *)
Ltac bools :=
  repeat match goal with
  | H : (_ && _)%bool = true |- _ => apply andb_prop in H; destruct H
  | H : (_ || _)%bool = false |- _ => apply orb_false_elim in H; destruct H
  | H : negb _ = true |- _ => apply negb_true_iff in H
  | H : negb _ = false |- _ => apply negb_false_iff in H
  | H : bool_decide _ = true |- _ => apply bool_decide_eq_true in H
  | H : bool_decide _ = false |- _ => apply bool_decide_eq_false in H
  | H : (_ <? _) = true |- _ => apply Z.ltb_lt in H
  | H : (_ <? _) = false |- _ => apply Z.ltb_ge in H
  | H : (_ <=? _) = true |- _ => apply Z.leb_le in H
  | H : (_ <=? _) = false |- _ => apply Z.leb_gt in H
  | H : (_ >? _) = true |- _ => rewrite Z.gtb_ltb in H
  | H : (_ >? _) = false |- _ => rewrite Z.gtb_ltb in H
  | H : (_ >=? _) = true |- _ => rewrite Z.geb_leb in H
  | H : (_ >=? _) = false |- _ => rewrite Z.geb_leb in H
  | H : (_ =? _) = true |- _ => apply Z.eqb_eq in H
  | H : (_ =? _) = false |- _ => apply Z.eqb_neq in H
  end.

(** [eval_tests] evaluates the equality tests between closed literals that
    appear once an enumeration has been split into its constants. *)
Ltac eval_tests :=
  repeat match goal with
  | |- context [bool_decide (?a = ?b)] =>
      let v := eval vm_compute in (bool_decide (a = b)) in
      lazymatch v with
      | true => change (bool_decide (a = b)) with true
      | false => change (bool_decide (a = b)) with false
      end
  | H : context [bool_decide (?a = ?b)] |- _ =>
      let v := eval vm_compute in (bool_decide (a = b)) in
      lazymatch v with
      | true => change (bool_decide (a = b)) with true in H
      | false => change (bool_decide (a = b)) with false in H
      end
  end.

Lemma bool_decide_refl {A} `{EqDecision A} (x : A) : (x == x) = true.
Proof. by apply bool_decide_eq_true. Qed.

Lemma bool_decide_neq {A} `{EqDecision A} (x y : A) : x <> y -> (x == y) = false.
Proof. by intros; apply bool_decide_eq_false. Qed.

Create HintDb go.
(** [later]: what a run has said stays said. *)
Create HintDb later.
Create Rewrite HintDb go_rw.
#[export] Hint Rewrite @bool_decide_refl : go_rw.
