(* ===== verification/Io.v ===== *)
(** * Calls of an outside interface

    A method that calls an interface outside the program, one call after
    another: a tree that branches on the answers.  Shared by the client of the
    queues (the AWS SDK) and the runtime (its server, its engine). *)

From S2P Require Import Prelude.

#[warnings="-register-all,-automation"]
Inductive io (Q : Type) (output : Q -> Type) (A : Type) : Type :=
| Return (a : A)
| Invoke (q : Q) (k : output q -> io Q output A).
Arguments Return {Q output A} _.
Arguments Invoke {Q output A} _ _.

Declare Scope io_scope.
Delimit Scope io_scope with io.
Bind Scope io_scope with io.
Notation "x <~ q ;; k" := (Invoke q (fun x => k))
  (at level 90, q at level 89, right associativity) : io_scope.
Notation "q ~;; k" := (Invoke q (fun _ => k)) (at level 90, right associativity) : io_scope.

(** An exchange of the interface. *)
Inductive exchange (Q : Type) (output : Q -> Type) : Type := Exchange (q : Q) (r : output q).
Arguments Exchange {Q output} _ _.

Section io.
Context {Q : Type} {output : Q -> Type}.
Local Notation io := (io Q output).

Fixpoint io_bind {A B} (p : io A) (f : A -> io B) : io B :=
  match p with Return a => f a | Invoke q k => Invoke q (fun r => io_bind (k r) f) end.
Definition io_map {A B} (f : A -> B) (p : io A) : io B := io_bind p (fun a => Return (f a)).

(** It may make the call, for some answers. *)
Fixpoint invokes {A} (p : io A) (q : Q) : Prop :=
  match p with
  | Return _ => False
  | Invoke q' k => q = q' \/ exists r, invokes (k r) q
  end.

(** It returns [a] after these exchanges, the first first. *)
Fixpoint returns {A} (p : io A) (l : list (exchange Q output)) (a : A) : Prop :=
  match p with
  | Return b => l = [] /\ a = b
  | Invoke q k => exists r l', l = Exchange q r :: l' /\ returns (k r) l' a
  end.

(** The call it makes next, after these exchanges. *)
Fixpoint next_call {A} (p : io A) (l : list (exchange Q output)) (q : Q) : Prop :=
  match p with
  | Return _ => False
  | Invoke q' k => (l = [] /\ q = q') \/ exists r l', l = Exchange q' r :: l' /\ next_call (k r) l' q
  end.

Lemma returns_total {A} (p : io A) (answer : forall q, output q) : exists l a, returns p l a.
Proof using Type.
  induction p as [a|q k IH]; [by exists [], a|]. destruct (IH (answer q)) as (l & a & H). by eexists _, a, _, l.
Qed.

Lemma io_map_invokes {A B} (f : A -> B) p q : invokes (io_map f p) q <-> invokes p q.
Proof using Type. induction p as [a|q' k IH]; cbn; [done|]. by setoid_rewrite IH. Qed.

Lemma invokes_next {A} (p : io A) q : invokes p q -> exists l, next_call p l q.
Proof using Type.
  induction p as [a|q' k IH]; cbn; [done|]. intros [->|[r H]]; [exists []; by left|].
  apply IH in H as [l H]. exists (Exchange q' r :: l). right. by exists r, l.
Qed.

Lemma io_map_next {A B} (f : A -> B) p l q : next_call (io_map f p) l q -> next_call p l q.
Proof using Type.
  revert l. induction p as [a|q' k IH]; intros l; cbn; [done|].
  intros [?|(r & l' & -> & H)]; [by left|right]. exists r, l'. split; [done|by apply IH].
Qed.

Lemma io_map_returns {A B} (f : A -> B) p l b :
  returns (io_map f p) l b -> exists a, returns p l a /\ b = f a.
Proof using Type.
  revert l. induction p as [a|q k IH]; intros l; cbn.
  - intros [-> ->]. by exists a.
  - intros (r & l' & -> & H). apply IH in H as (a & H & ->). exists a. split; [|done]. by exists r, l'.
Qed.
End io.
