(* ===== verification/GoStd.v ===== *)
(** * The part of Go's language and standard library the engine uses

    Go strings and byte slices are byte sequences: both are [string] here, one
    [ascii] per byte.  [int64] values are [Z] with the wrap-around of every
    operation written out; [time.Time] and [time.Duration] are [Z] nanoseconds
    (a time counts from year 1, so the zero [time.Time] is [0]). *)

From S2P Require Import Prelude.
From Stdlib Require Import Ascii.

(** ** int64 *)
Module Int64.
Definition MaxInt64 : Z := 9223372036854775807.
Definition MinInt64 : Z := -9223372036854775808.

(** Two's-complement wrap of an exact result. *)
Definition wrap (z : Z) : Z := (z + 2 ^ 63) mod 2 ^ 64 - 2 ^ 63.
Definition in_range (z : Z) : Prop := MinInt64 <= z <= MaxInt64.

Definition add (a b : Z) : Z := wrap (a + b).
Definition sub (a b : Z) : Z := wrap (a - b).
Definition neg (a : Z) : Z := wrap (- a).
Definition mul (a b : Z) : Z := wrap (a * b).

#[global] Instance in_range_dec z : Decision (in_range z).
Proof. unfold in_range. apply _. Defined.

Lemma wrap_id z : in_range z -> wrap z = z.
Proof.
  unfold in_range, wrap, MinInt64, MaxInt64; intros.
  rewrite Z.mod_small; lia.
Qed.

Lemma wrap_range z : in_range (wrap z).
Proof.
  unfold in_range, wrap, MinInt64, MaxInt64.
  pose proof (Z.mod_pos_bound (z + 2 ^ 63) (2 ^ 64)). lia.
Qed.

Lemma wrap_above z : MaxInt64 < z <= 2 * MaxInt64 + 1 -> wrap z = z - 2 ^ 64.
Proof.
  unfold wrap, MaxInt64; intros.
  replace (z + 2 ^ 63) with ((z - 2 ^ 63) + 1 * 2 ^ 64) by lia.
  rewrite Z.mod_add, Z.mod_small; lia.
Qed.
End Int64.

(** ** time *)
Module Time.
Definition IsZero (t : Z) : bool := t =? 0.
Definition Before (t u : Z) : bool := t <? u.
Definition After (t u : Z) : bool := u <? t.
Definition Millisecond : Z := 1000000.
Definition Second : Z := 1000000000.
Definition Minute : Z := 60 * Second.
Definition Hour : Z := 60 * Minute.
(** [Duration.Milliseconds]: truncated division. *)
Definition Milliseconds (d : Z) : Z := Z.quot d Millisecond.
(** [time.Time.MarshalJSON] fails outside years 0 to 9999. *)
Definition year_zero : Z := - (366 * 86400 * Second).
Definition year_10000 : Z := 3652059 * 86400 * Second.
Definition json_ok (t : Z) : bool := (year_zero <=? t) && (t <? year_10000).
End Time.

(** ** strings *)
Module Str.
Notation len := String.length.

Fixpoint all_chars (p : ascii -> bool) (s : string) : bool :=
  match s with
  | EmptyString => true
  | String c s' => p c && all_chars p s'
  end.

(** [strings.Split(s, sep)] for a one-byte separator. *)
Fixpoint Split (sep : ascii) (s : string) : list string :=
  match s with
  | EmptyString => [""]
  | String c s' =>
      if c == sep then "" :: Split sep s'
      else match Split sep s' with
           | p :: ps => String c p :: ps
           | [] => [String c ""]
           end
  end.

(** [strings.TrimLeft(s, cutset)] for a one-byte cutset. *)
Fixpoint TrimLeft (c : ascii) (s : string) : string :=
  match s with
  | String d s' => if d == c then TrimLeft c s' else s
  | EmptyString => ""
  end.

Definition HasPrefix (s p : string) : bool := String.prefix p s.

Definition bytes (l : list Z) : string :=
  String.string_of_list_ascii (map (fun z => ascii_of_N (Z.to_N z)) l).

(** The UTF-8 encodings of the runes [unicode.IsSpace] accepts. *)
Definition space_runes : list string :=
  map bytes
    ([[9]; [10]; [11]; [12]; [13]; [32]; [194; 133]; [194; 160]; [225; 154; 128];
      [226; 128; 168]; [226; 128; 169]; [226; 128; 175]; [226; 129; 159]; [227; 128; 128]]
     ++ map (fun k => [226; 128; 128 + k]) [0; 1; 2; 3; 4; 5; 6; 7; 8; 9; 10]).

Definition drop (n : nat) (s : string) : string := String.substring n (len s - n) s.

Fixpoint strip_any (ps : list string) (s : string) : option string :=
  match ps with
  | [] => None
  | p :: ps => if String.prefix p s then Some (drop (len p) s) else strip_any ps s
  end.

Fixpoint trim_start (fuel : nat) (ps : list string) (s : string) : string :=
  match fuel with
  | O => s
  | S fuel => match strip_any ps s with
              | Some s' => trim_start fuel ps s'
              | None => s
              end
  end.

Definition reverse (s : string) : string :=
  String.string_of_list_ascii (rev (String.list_ascii_of_string s)).

(** [strings.TrimSpace].  A rune boundary is where an encoding of
    [space_runes] starts or ends, because UTF-8 is self-synchronizing; each
    round removes at least a byte, so [len s] rounds reach the end. *)
Definition TrimSpace (s : string) : string :=
  let l := trim_start (len s) space_runes s in
  reverse (trim_start (len l) (map reverse space_runes) (reverse l)).

Definition upper_char (c : ascii) : ascii :=
  let n := N_of_ascii c in
  if (97 <=? n)%N && (n <=? 122)%N then ascii_of_N (n - 32) else c.

(** [strings.ToUpper], exact on ASCII and on the two other runes whose upper
    case is ASCII (U+0131 is [I], U+017F is [S]).  Every other rune has a
    non-ASCII upper case and is left as it is here: a string that holds one
    equals no ASCII constant before or after, which is all the callers ask. *)
Fixpoint ToUpper (s : string) : string :=
  match s with
  | EmptyString => ""
  | String c s' =>
      match s' with
      | String d s'' =>
          if (c == ascii_of_N 196) && (d == ascii_of_N 177) then String "I" (ToUpper s'')
          else if (c == ascii_of_N 197) && (d == ascii_of_N 191) then String "S" (ToUpper s'')
          else String (upper_char c) (ToUpper s')
      | EmptyString => String (upper_char c) ""
      end
  end.

Lemma app_cons c s t : String c s +:+ t = String c (s +:+ t).
Proof. done. Qed.

Lemma app_nil t : "" +:+ t = t.
Proof. done. Qed.

Lemma app_nil_r t : t +:+ "" = t.
Proof. induction t as [|c t IH]; [done|]. by rewrite app_cons, IH. Qed.

Lemma app_assoc s t u : (s +:+ t) +:+ u = s +:+ (t +:+ u).
Proof. induction s as [|c s IH]; [done|]. by rewrite !app_cons, IH. Qed.

Lemma length_app s t : len (s +:+ t) = (len s + len t)%nat.
Proof. induction s as [|c s IH]; [done|]. rewrite app_cons; cbn. by rewrite IH. Qed.

Lemma all_chars_app p s t : all_chars p (s +:+ t) = all_chars p s && all_chars p t.
Proof.
  induction s as [|c s IH]; [done|]. rewrite app_cons; cbn. by rewrite IH, andb_assoc.
Qed.

Lemma TrimSpace_empty : TrimSpace "" = "".
Proof. reflexivity. Qed.

Lemma TrimSpace_nonempty s : TrimSpace s <> "" -> s <> "".
Proof. by intros H ->. Qed.

Lemma Split_nosep sep s :
  all_chars (fun c => c != sep) s = true -> Split sep s = [s].
Proof.
  induction s as [|c s IH]; cbn; [done|]. intros H. bools.
  rewrite bool_decide_eq_false_2 by done. by rewrite IH.
Qed.

Lemma Split_sep sep s t :
  all_chars (fun c => c != sep) s = true ->
  Split sep (s +:+ String sep t) = s :: Split sep t.
Proof.
  induction s as [|c s IH]; rewrite ?app_nil, ?app_cons; cbn; intros H.
  - by rewrite bool_decide_refl.
  - bools. rewrite bool_decide_eq_false_2 by done. by rewrite IH.
Qed.

Lemma Split_not_nil sep s : Split sep s <> [].
Proof. destruct s; cbn; [done|]. case_bool_decide; [done|]. by destruct (Split sep s). Qed.

Lemma Split_one sep s t : Split sep s = [t] -> s = t.
Proof.
  revert t; induction s as [|c s IH]; cbn; intros t; [by intros [= <-]|].
  pose proof (Split_not_nil sep s). case_bool_decide; [by destruct (Split sep s)|].
  destruct (Split sep s) as [|p [|q ps]]; intros [= <-]; [done|by rewrite (IH p)].
Qed.

Lemma Split_two sep s t u : Split sep s = [t; u] -> s = t +:+ String sep u.
Proof.
  revert t u; induction s as [|c s IH]; cbn; intros t u; [done|].
  case_bool_decide; subst.
  - destruct (Split sep s) as [|p [|q ps]] eqn:E; intros [= <- <-].
    by apply Split_one in E as ->.
  - destruct (Split sep s) as [|p [|q ps]] eqn:E; intros [= <- <-]; subst.
    by rewrite app_cons, (IH p q).
Qed.
End Str.

(** ** encoding/hex *)
Module Hex.
Definition digit (n : N) : ascii :=
  if (n <? 10)%N then ascii_of_N (48 + n) else ascii_of_N (87 + n).
Definition value (c : ascii) : option N :=
  let n := N_of_ascii c in
  if (48 <=? n)%N && (n <=? 57)%N then Some (n - 48)%N
  else if (97 <=? n)%N && (n <=? 102)%N then Some (n - 87)%N
  else if (65 <=? n)%N && (n <=? 70)%N then Some (n - 55)%N
  else None.

Definition hi (c : ascii) : ascii := digit (N_of_ascii c / 16).
Definition lo (c : ascii) : ascii := digit (N_of_ascii c mod 16).

(** [hex.EncodeToString]. *)
Fixpoint encode (s : string) : string :=
  match s with
  | EmptyString => ""
  | String c s' => String (hi c) (String (lo c) (encode s'))
  end.

(** [hex.DecodeString]: [None] on an odd length or a byte that is no digit. *)
Fixpoint decode (s : string) : option string :=
  match s with
  | EmptyString => Some ""
  | String c (String d s') =>
      match value c, value d with
      | Some h, Some l => String (ascii_of_N (16 * h + l)) <$> decode s'
      | _, _ => None
      end
  | String _ EmptyString => None
  end.

Lemma byte_roundtrip c :
  value (hi c) = Some (N_of_ascii c / 16)%N /\ value (lo c) = Some (N_of_ascii c mod 16)%N
  /\ ascii_of_N (16 * (N_of_ascii c / 16) + N_of_ascii c mod 16) = c.
Proof. by destruct c as [[] [] [] [] [] [] [] []]. Qed.

Lemma decode_encode s : decode (encode s) = Some s.
Proof.
  induction s as [|c s IH]; [done|]. cbn [encode decode].
  destruct (byte_roundtrip c) as (-> & -> & E). by rewrite IH, E.
Qed.

Lemma decode_length s b : decode s = Some b -> String.length s = (2 * String.length b)%nat.
Proof.
  revert b. induction s as [s IH] using (induction_ltof1 _ String.length).
  destruct s as [|c [|d s]]; cbn; intros b; [by intros [= <-]|done|].
  destruct (value c), (value d); try done.
  destruct (decode s) as [t|] eqn:E; [|done]. intros [= <-].
  apply IH in E; [cbn; lia|]. unfold ltof; cbn; lia.
Qed.

Lemma encode_length s : String.length (encode s) = (2 * String.length s)%nat.
Proof. induction s as [|c s IH]; cbn; [done|]. lia. Qed.
End Hex.

(** ** strconv *)
Module Strconv.
Import Str.

Definition is_digit (c : ascii) : bool :=
  (48 <=? Z.of_N (N_of_ascii c)) && (Z.of_N (N_of_ascii c) <=? 57).
Definition digit_val (c : ascii) : Z := Z.of_N (N_of_ascii c) - 48.
Definition digit_char (d : Z) : ascii := ascii_of_N (Z.to_N (d + 48)).

(** Value of a digit string read after a prefix of value [acc]. *)
Fixpoint dec_value (acc : Z) (s : string) : Z :=
  match s with
  | EmptyString => acc
  | String c s' => dec_value (10 * acc + digit_val c) s'
  end.

Inductive NumError := ErrSyntax | ErrRange.

(** [strconv.ParseInt(s, 10, 64)]. *)
Definition ParseInt (s : string) : result NumError Z :=
  let '(neg, d) :=
    match s with
    | String "+" s' => (false, s')
    | String "-" s' => (true, s')
    | _ => (false, s)
    end in
  if (d == "") || negb (all_chars is_digit d) then Err ErrSyntax
  else
    let v := if neg : bool then - dec_value 0 d else dec_value 0 d in
    if bool_decide (Int64.in_range v) then Ok v else Err ErrRange.

Fixpoint dec_digits (fuel : nat) (n : Z) (acc : string) : string :=
  match fuel with
  | O => acc
  | S fuel =>
      let acc' := String (digit_char (n mod 10)) acc in
      if n <? 10 then acc' else dec_digits fuel (n / 10) acc'
  end.

(** A number has at most one decimal digit per bit, so the fuel is enough
    (see [dec_string_value]). *)
Definition dec_string (n : Z) : string := dec_digits (S (Z.to_nat (Z.log2 n))) n "".

(** [strconv.FormatInt(i, 10)]. *)
Definition FormatInt (i : Z) : string :=
  if i <? 0 then String "-" (dec_string (- i)) else dec_string i.

Lemma digit_char_spec d : 0 <= d < 10 ->
  is_digit (digit_char d) = true /\ digit_val (digit_char d) = d.
Proof.
  intros H. assert (d = 0 \/ d = 1 \/ d = 2 \/ d = 3 \/ d = 4 \/ d = 5 \/ d = 6 \/ d = 7
    \/ d = 8 \/ d = 9) as Hd by lia.
  by repeat destruct Hd as [->|Hd]; [..|subst].
Qed.

Lemma digit_val_range c : is_digit c = true -> 0 <= digit_val c <= 9.
Proof. unfold is_digit, digit_val. intros; bools; lia. Qed.

Lemma dec_value_app acc s t : dec_value acc (s +:+ t) = dec_value (dec_value acc s) t.
Proof. revert acc; induction s as [|c s IH]; [done|]. intros; rewrite app_cons; cbn. apply IH. Qed.

Lemma dec_value_acc acc s :
  dec_value acc s = acc * 10 ^ Z.of_nat (len s) + dec_value 0 s.
Proof.
  revert acc; induction s as [|c s IH]; intros acc; cbn [dec_value String.length]; [lia|].
  rewrite IH, (IH (10 * 0 + _)).
  rewrite Nat2Z.inj_succ, Z.pow_succ_r; lia.
Qed.

Lemma dec_value_nonneg acc s : 0 <= acc -> all_chars is_digit s = true -> 0 <= dec_value acc s.
Proof.
  revert acc; induction s as [|c s IH]; cbn [all_chars dec_value]; intros acc ? H; [done|].
  bools. apply IH; [|done]. pose proof (digit_val_range c ltac:(done)). lia.
Qed.

Lemma dec_value_lt s :
  all_chars is_digit s = true -> dec_value 0 s < 10 ^ Z.of_nat (len s).
Proof.
  induction s as [|c s IH]; cbn [dec_value all_chars String.length]; intros H; [done|]. bools.
  pose proof (digit_val_range c ltac:(done)). rewrite dec_value_acc.
  rewrite Nat2Z.inj_succ, Z.pow_succ_r by lia. specialize (IH ltac:(done)). nia.
Qed.


Lemma TrimLeft_value s : dec_value 0 (TrimLeft "0" s) = dec_value 0 s.
Proof.
  induction s as [|c s IH]; cbn; [done|]. case_bool_decide; [subst|done]. done.
Qed.

Lemma TrimLeft_digits s :
  all_chars is_digit s = true -> all_chars is_digit (TrimLeft "0" s) = true.
Proof. induction s as [|c s IH]; cbn; [done|]. case_bool_decide; intros; bools; cbn; auto with bool. Qed.

Lemma TrimLeft_head s c t : TrimLeft "0" s = String c t -> c <> "0"%char.
Proof. induction s as [|d s IH]; cbn; [done|]. case_bool_decide; naive_solver. Qed.

Lemma dec_value_pos_head c s :
  all_chars is_digit (String c s) = true -> c <> "0"%char -> 0 < dec_value 0 (String c s).
Proof.
  cbn [dec_value all_chars]; intros H Hc; bools. rewrite dec_value_acc.
  pose proof (digit_val_range c ltac:(done)). pose proof (dec_value_nonneg 0 s ltac:(lia) ltac:(done)).
  pose proof (Z.pow_pos_nonneg 10 (Z.of_nat (len s)) ltac:(lia) ltac:(lia)).
  assert (digit_val c <> 0); [|nia].
  intros E; apply Hc. revert E. by destruct c as [[] [] [] [] [] [] [] []].
Qed.

Lemma TrimLeft_zero s :
  all_chars is_digit s = true -> TrimLeft "0" s = "" <-> dec_value 0 s = 0.
Proof.
  intros H. rewrite <- TrimLeft_value. pose proof (TrimLeft_digits s H) as Hd.
  destruct (TrimLeft "0" s) as [|c t] eqn:E; [done|].
  pose proof (dec_value_pos_head c t Hd (TrimLeft_head _ _ _ E)). split; [done|lia].
Qed.

(** A nonempty string of digits parses to its value, or overflows. *)
Lemma ParseInt_digits s :
  s <> "" -> all_chars is_digit s = true ->
  ParseInt s = if bool_decide (Int64.in_range (dec_value 0 s))
               then Ok (dec_value 0 s) else Err ErrRange.
Proof.
  intros Hs Hd. unfold ParseInt.
  destruct s as [|c s]; [done|]. pose proof Hd as Hc. cbn [all_chars] in Hc. bools.
  assert (is_digit c = true) as Hc by done.
  destruct c as [[] [] [] [] [] [] [] []]; try discriminate Hc;
    rewrite bool_decide_eq_false_2 by done; rewrite Hd; done.
Qed.

Lemma dec_digits_spec fuel n acc :
  0 <= n < 2 ^ Z.of_nat fuel -> (0 < fuel)%nat -> all_chars is_digit acc = true ->
  all_chars is_digit (dec_digits fuel n acc) = true
  /\ dec_value 0 (dec_digits fuel n acc) = n * 10 ^ Z.of_nat (len acc) + dec_value 0 acc
  /\ (len acc < len (dec_digits fuel n acc))%nat.
Proof.
  revert n acc; induction fuel as [|fuel IH]; intros n acc Hn Hf Hacc; [lia|].
  cbn [dec_digits].
  pose proof (Z.mod_pos_bound n 10 ltac:(lia)) as Hm.
  destruct (digit_char_spec (n mod 10)) as [Hd Hv]; [lia|].
  pose proof (Z.div_mod n 10 ltac:(lia)).
  rewrite Nat2Z.inj_succ, Z.pow_succ_r in Hn by lia.
  destruct (n <? 10) eqn:E; bools.
  - cbn [all_chars dec_value String.length]. rewrite Hd, Hv, dec_value_acc.
    rewrite (Z.mod_small n) by lia. split_and!; [by rewrite Hacc|lia|lia].
  - assert (0 <= n / 10 < 2 ^ Z.of_nat fuel).
    { split; [apply Z.div_pos; lia|]. apply Z.div_lt_upper_bound; lia. }
    destruct fuel as [|fuel]; [cbn in *; lia|].
    destruct (IH (n / 10) (String (digit_char (n mod 10)) acc)) as (? & Hval & Hl);
      [done|lia|cbn; by rewrite Hd|].
    split_and!; [done| |cbn [String.length] in Hl |- *; lia]. rewrite Hval.
    cbn [dec_value String.length]. rewrite dec_value_acc, Hv.
    rewrite Nat2Z.inj_succ, Z.pow_succ_r by lia. nia.
Qed.

Lemma dec_string_spec n : 0 <= n ->
  all_chars is_digit (dec_string n) = true /\ dec_value 0 (dec_string n) = n
  /\ dec_string n <> "".
Proof.
  intros Hn. unfold dec_string.
  destruct (dec_digits_spec (S (Z.to_nat (Z.log2 n))) n "") as (H1 & H2 & H3).
  - rewrite Nat2Z.inj_succ, Z2Nat.id by apply Z.log2_nonneg.
    destruct (decide (n = 0)) as [->|]; [cbn; lia|].
    pose proof (Z.log2_spec n). lia.
  - lia.
  - done.
  - split_and!; [done|rewrite H2; cbn [String.length dec_value]; lia|]. intros E. rewrite E in H3. cbn in H3. lia.
Qed.

Lemma digit_not c d : is_digit d = false -> is_digit c = true -> (c != d) = true.
Proof. intros. rewrite bool_decide_eq_false_2; [done|]. intros ->. congruence. Qed.

Lemma digits_nosep sep s :
  is_digit sep = false -> all_chars is_digit s = true ->
  all_chars (fun c => c != sep) s = true.
Proof.
  intros Hsep; induction s as [|c s IH]; cbn; [done|]. intros H; bools.
  rewrite digit_not, IH by done. done.
Qed.
End Strconv.
