(* ===== verification/Codec.v ===== *)
(** * Encodings of the Go standard library the hashes rest on

    [crypto/sha256.Sum256] (FIPS 180-4, on 32-bit words as [Z] modulo [2^32])
    and the strings and objects [encoding/json.Marshal] writes. *)

From S2P Require Import Prelude GoStd.
From Stdlib Require Import Ascii.
Import Str.

(** ** SHA-256 *)
Module Sha256.
Definition mask : Z := 4294967295.
Definition add (a b : Z) : Z := Z.land (a + b) mask.
Definition rotr (n x : Z) : Z :=
  Z.lor (Z.shiftr x n) (Z.land (Z.shiftl x (32 - n)) mask).
Definition xor3 (a b c : Z) : Z := Z.lxor a (Z.lxor b c).
Definition ch (x y z : Z) : Z := Z.lxor (Z.land x y) (Z.land (Z.lxor x mask) z).
Definition maj (x y z : Z) : Z := xor3 (Z.land x y) (Z.land x z) (Z.land y z).
Definition Sigma0 (x : Z) : Z := xor3 (rotr 2 x) (rotr 13 x) (rotr 22 x).
Definition Sigma1 (x : Z) : Z := xor3 (rotr 6 x) (rotr 11 x) (rotr 25 x).
Definition sigma0 (x : Z) : Z := xor3 (rotr 7 x) (rotr 18 x) (Z.shiftr x 3).
Definition sigma1 (x : Z) : Z := xor3 (rotr 17 x) (rotr 19 x) (Z.shiftr x 10).

(** The constants are the first 32 bits of the fractional parts of the square
    roots (of the first 8 primes) and cube roots (of the first 64 primes). *)
Definition is_prime (n : nat) : bool :=
  forallb (fun d => negb (n mod d =? 0)%nat) (seq 2 (n - 2)).
Definition primes : list Z := Z.of_nat <$> List.filter is_prime (seq 2 310).

Fixpoint cube_root_bits (bits : nat) (r n : Z) : Z :=
  match bits with
  | O => r
  | S b =>
      let r' := r + 2 ^ Z.of_nat b in
      cube_root_bits b (if r' ^ 3 <=? n then r' else r) n
  end.
Definition cube_root (n : Z) : Z := cube_root_bits 36 0 n.

Definition K : list Z :=
  Eval vm_compute in (fun p => Z.land (cube_root (p * 2 ^ 96)) mask) <$> primes.
Definition H0 : list Z :=
  Eval vm_compute in (fun p => Z.land (Z.sqrt (p * 2 ^ 64)) mask) <$> take 8 primes.

(** Big-endian bytes of a word, and words of a byte list. *)
Definition word_bytes (w : Z) : list Z :=
  [Z.land (Z.shiftr w 24) 255; Z.land (Z.shiftr w 16) 255; Z.land (Z.shiftr w 8) 255; Z.land w 255].
Fixpoint words (l : list Z) : list Z :=
  match l with
  | a :: b :: c :: d :: l => (a * 16777216 + b * 65536 + c * 256 + d) :: words l
  | _ => []
  end.

(** The message, a one bit, zeros up to 56 modulo 64, the length in bits. *)
Definition pad (l : list Z) : list Z :=
  let n := Z.of_nat (length l) in
  l ++ [128] ++ replicate (Z.to_nat ((55 - n) mod 64)) 0
    ++ word_bytes (Z.shiftr (8 * n) 32) ++ word_bytes (Z.land (8 * n) mask).

(** The 64-word schedule, newest word first. *)
Fixpoint schedule (n : nat) (w : list Z) : list Z :=
  match n with
  | O => w
  | S n =>
      let at_ i := nth i w 0 in
      schedule n (add (add (sigma1 (at_ 1%nat)) (at_ 6%nat))
                      (add (sigma0 (at_ 14%nat)) (at_ 15%nat)) :: w)
  end.

Definition round (s : list Z) (kw : Z * Z) : list Z :=
  match s with
  | [a; b; c; d; e; f; g; h] =>
      let t1 := add (add (add h (Sigma1 e)) (ch e f g)) (add (fst kw) (snd kw)) in
      let t2 := add (Sigma0 a) (maj a b c) in
      [add t1 t2; a; b; c; add d t1; e; f; g]
  | _ => s
  end.

Definition block (h : list Z) (ws : list Z) : list Z :=
  zip_with add h (fold_left round (zip K (rev (schedule 48 (rev ws)))) h).

(** One block per sixteen words; the fuel is the number of words. *)
Fixpoint blocks (fuel : nat) (h : list Z) (ws : list Z) : list Z :=
  match fuel with
  | O => h
  | S fuel => match ws with
              | [] => h
              | _ => blocks fuel (block h (take 16 ws)) (List.skipn 16 ws)
              end
  end.

Definition byte_list (s : string) : list Z :=
  map (fun c => Z.of_N (N_of_ascii c)) (String.list_ascii_of_string s).

Definition Sum256 (s : string) : string :=
  let ws := words (pad (byte_list s)) in
  bytes (concat (map word_bytes (blocks (length ws) H0 ws))).

Example sum_abc :
  Hex.encode (Sum256 "abc") = "ba7816bf8f01cfea414140de5dae2223b00361a396177a9cb410ff61f20015ad".
Proof. vm_compute. reflexivity. Qed.

Example sum_two_blocks :
  Hex.encode (Sum256 "abcdbcdecdefdefgefghfghighijhijkijkljklmklmnlmnomnopnopq")
  = "248d6a61d20638b8e5c026930c3e6039a33ce45964ff2167f6ecedd419db06c1".
Proof. vm_compute. reflexivity. Qed.

Lemma block_length h ws : length h = 8%nat -> length (block h ws) = 8%nat.
Proof.
  intros Hh. unfold block. rewrite length_zip_with, Hh.
  assert (forall l s, length s = 8%nat -> length (fold_left round l s) = 8%nat) as ->; [|done..].
  induction l as [|kw l IH]; intros s Hs; [done|]. cbn. apply IH.
  by do 9 (destruct s as [|? s]; try done).
Qed.

Lemma blocks_length fuel h ws : length h = 8%nat -> length (blocks fuel h ws) = 8%nat.
Proof.
  revert h ws; induction fuel as [|fuel IH]; intros h ws Hh; cbn; [done|].
  destruct ws; [done|]. by apply IH, block_length.
Qed.

Lemma string_of_list_length l : len (String.string_of_list_ascii l) = length l.
Proof. induction l as [|c l IH]; cbn; [done|]. by rewrite IH. Qed.

(** A digest has 32 bytes. *)
Lemma Sum256_length s : len (Sum256 s) = 32%nat.
Proof.
  unfold Sum256, bytes. rewrite string_of_list_length, length_map.
  generalize (blocks_length (length (words (pad (byte_list s)))) H0 (words (pad (byte_list s))) eq_refl).
  generalize (blocks (length (words (pad (byte_list s)))) H0 (words (pad (byte_list s)))).
  intros l Hl. by do 9 (destruct l as [|? l]; try done).
Qed.
End Sha256.

(** ** encoding/json *)
Module Json.
Definition code (c : ascii) : Z := Z.of_N (N_of_ascii c).

(** Continuation byte, and the length of the valid UTF-8 sequence at the head
    of a string ([None]: the first byte starts none). *)
Definition cont (lo hi : Z) (s : string) : bool :=
  match s with
  | String c _ => (lo <=? code c) && (code c <=? hi)
  | EmptyString => false
  end.
Definition rest (s : string) : string :=
  match s with String _ s' => s' | EmptyString => "" end.

Definition utf8_length (s : string) : option nat :=
  match s with
  | EmptyString => None
  | String c s1 =>
      let b := code c in
      let c1 lo hi := cont lo hi s1 in
      let c2 := cont 128 191 (rest s1) in
      let c3 := cont 128 191 (rest (rest s1)) in
      if b <? 128 then Some 1%nat
      else if (194 <=? b) && (b <=? 223) then if c1 128 191 then Some 2%nat else None
      else if b =? 224 then if c1 160 191 && c2 then Some 3%nat else None
      else if b =? 237 then if c1 128 159 && c2 then Some 3%nat else None
      else if (225 <=? b) && (b <=? 239) then if c1 128 191 && c2 then Some 3%nat else None
      else if b =? 240 then if c1 144 191 && c2 && c3 then Some 4%nat else None
      else if (241 <=? b) && (b <=? 243) then if c1 128 191 && c2 && c3 then Some 4%nat else None
      else if b =? 244 then if c1 128 143 && c2 && c3 then Some 4%nat else None
      else None
  end.

Definition quote : string := String (ascii_of_N 34) "".
Definition backslash : string := String (ascii_of_N 92) "".

(** The escape of one byte below 128, with HTML escaping on (the default). *)
Definition escape_ascii (c : ascii) : string :=
  let b := code c in
  if b =? 34 then backslash +:+ quote
  else if b =? 92 then backslash +:+ backslash
  else if b =? 8 then backslash +:+ "b"
  else if b =? 12 then backslash +:+ "f"
  else if b =? 10 then backslash +:+ "n"
  else if b =? 13 then backslash +:+ "r"
  else if b =? 9 then backslash +:+ "t"
  else if (b <? 32) || (b =? 60) || (b =? 62) || (b =? 38)
  then backslash +:+ "u00" +:+ Hex.encode (String c "")
  else String c "".

(** Rune by rune; an invalid byte becomes U+FFFD, and the two line separators
    are escaped.  Each step consumes at least one byte of the fuel [len s]. *)
Fixpoint escape (fuel : nat) (s : string) : string :=
  match fuel, s with
  | S fuel, String c s' =>
      match utf8_length s with
      | None => backslash +:+ "ufffd" +:+ escape fuel s'
      | Some 1%nat => escape_ascii c +:+ escape fuel s'
      | Some n =>
          let r := String.substring 0 n s in
          (if r == bytes [226; 128; 168] then backslash +:+ "u2028"
           else if r == bytes [226; 128; 169] then backslash +:+ "u2029"
           else r) +:+ escape fuel (drop n s)
      end
  | _, _ => ""
  end.

Definition string_lit (s : string) : string := quote +:+ escape (len s) s +:+ quote.

(** An object from its members, already in the order they are written. *)
Fixpoint members (l : list (string * string)) : string :=
  match l with
  | [] => ""
  | [(k, v)] => string_lit k +:+ ":" +:+ v
  | (k, v) :: l => string_lit k +:+ ":" +:+ v +:+ "," +:+ members l
  end.
Definition object (l : list (string * string)) : string := "{" +:+ members l +:+ "}".
End Json.
