(* ===== verification/JsonText.v ===== *)
(** * Reading JSON: [encoding/json.Unmarshal] into structs

    The syntax of JSON as Go's scanner accepts it, how a string literal is
    unquoted, and how the members of an object are stored in the fields of a
    struct.  Every error of a decoder is one [None]: the callers only ask
    whether there was one. *)

From Stdlib Require Import Ascii.
From S2P Require Import Prelude GoStd Codec.
Import Str Json.

(** ** Syntax *)

(** Numbers and string literals keep the text between their delimiters. *)
#[warnings="-register-all,-automation"]
Inductive json : Type :=
| JNull
| JBool (b : bool)
| JNum (text : string)
| JStr (raw : string)
| JArr (l : list json)
| JObj (l : list (string * json)).

Definition is_ws (c : ascii) : bool :=
  let n := code c in (n =? 32) || (n =? 9) || (n =? 10) || (n =? 13).

Fixpoint skip (s : string) : string :=
  match s with
  | String c s' => if is_ws c then skip s' else s
  | EmptyString => ""
  end.

Definition is_hex (c : ascii) : bool := match Hex.value c with Some _ => true | None => false end.
Definition dquote : ascii := ascii_of_N 34.
Definition bslash : ascii := ascii_of_N 92.

(** The character after a backslash. *)
Definition simple_escape (c : ascii) : bool :=
  existsb (fun d => c == d) [dquote; bslash; "/"; "b"; "f"; "n"; "r"; "t"]%char.

(** After the opening quote: the literal, and what follows the closing one. *)
Fixpoint scan_string (s : string) : option (string * string) :=
  match s with
  | EmptyString => None
  | String c s1 =>
      if c == dquote then Some ("", s1)
      else if c == bslash then
        match s1 with
        | String e s2 =>
            if simple_escape e then
              '(l, r) ← scan_string s2; Some (String c (String e l), r)
            else if e == "u"%char then
              match s2 with
              | String h1 (String h2 (String h3 (String h4 s3))) =>
                  if is_hex h1 && is_hex h2 && is_hex h3 && is_hex h4 then
                    '(l, r) ← scan_string s3;
                    Some (String c (String e (String h1 (String h2 (String h3 (String h4 l))))), r)
                  else None
              | _ => None
              end
            else None
        | EmptyString => None
        end
      else if code c <? 32 then None
      else '(l, r) ← scan_string s1; Some (String c l, r)
  end.

Fixpoint span_digits (s : string) : string * string :=
  match s with
  | String c s' =>
      if Strconv.is_digit c then let '(l, r) := span_digits s' in (String c l, r) else ("", s)
  | EmptyString => ("", "")
  end.

(** One digit or more. *)
Definition digits1 (s : string) : option (string * string) :=
  let '(l, r) := span_digits s in if l == "" then None else Some (l, r).

Definition scan_integer (s : string) : option (string * string) :=
  match s with
  | String "0" r => Some ("0", r)
  | _ => digits1 s
  end.

Definition scan_fraction (s : string) : option (string * string) :=
  match s with
  | String "." r => '(l, r) ← digits1 r; Some (String "." l, r)
  | _ => Some ("", s)
  end.

Definition scan_exponent (s : string) : option (string * string) :=
  match s with
  | String c r =>
      if (c == "e"%char) || (c == "E"%char) then
        let '(sign, r) :=
          match r with
          | String d r' => if (d == "+"%char) || (d == "-"%char) then (String d "", r') else ("", r)
          | EmptyString => ("", r)
          end in
        '(l, r) ← digits1 r; Some (String c (sign +:+ l), r)
      else Some ("", s)
  | EmptyString => Some ("", s)
  end.

Definition scan_number (s : string) : option (string * string) :=
  let '(sign, s) := match s with String "-" r => ("-", r) | _ => ("", s) end in
  '(i, s) ← scan_integer s;
  '(f, s) ← scan_fraction s;
  '(e, s) ← scan_exponent s;
  Some (sign +:+ i +:+ f +:+ e, s).

Definition word (w : string) (v : json) (s : string) : option (json * string) :=
  if String.prefix w s then Some (v, drop (len w) s) else None.

(** [maxNestingDepth]. *)
Definition max_depth : Z := 10000.

(** A value, at the head of a text with its white space skipped; the members of
    an object, the elements of an array.  Each call consumes a character or
    hands the same text to a value, so twice the length of the text is fuel
    enough. *)
Fixpoint value (fuel : nat) (depth : Z) (s : string) : option (json * string) :=
  match fuel with
  | O => None
  | S fuel =>
      match skip s with
      | EmptyString => None
      | String c r =>
          if c == "{"%char then
            if max_depth <=? depth then None
            else match skip r with
                 | String "}" r => Some (JObj [], r)
                 | r => '(l, r) ← object_members fuel (depth + 1) r; Some (JObj l, r)
                 end
          else if c == "["%char then
            if max_depth <=? depth then None
            else match skip r with
                 | String "]" r => Some (JArr [], r)
                 | r => '(l, r) ← elements fuel (depth + 1) r; Some (JArr l, r)
                 end
          else if c == dquote then '(raw, r) ← scan_string r; Some (JStr raw, r)
          else if c == "t"%char then word "true" (JBool true) (String c r)
          else if c == "f"%char then word "false" (JBool false) (String c r)
          else if c == "n"%char then word "null" JNull (String c r)
          else '(n, r) ← scan_number (String c r); Some (JNum n, r)
      end
  end
with object_members (fuel : nat) (depth : Z) (s : string) : option (list (string * json) * string) :=
  match fuel with
  | O => None
  | S fuel =>
      match skip s with
      | String c r =>
          if c == dquote then
            '(key, r) ← scan_string r;
            match skip r with
            | String ":" r =>
                '(v, r) ← value fuel depth r;
                match skip r with
                | String "," r => '(l, r) ← object_members fuel depth r; Some ((key, v) :: l, r)
                | String "}" r => Some ([(key, v)], r)
                | _ => None
                end
            | _ => None
            end
          else None
      | EmptyString => None
      end
  end
with elements (fuel : nat) (depth : Z) (s : string) : option (list json * string) :=
  match fuel with
  | O => None
  | S fuel =>
      '(v, r) ← value fuel depth s;
      match skip r with
      | String "," r => '(l, r) ← elements fuel depth r; Some (v :: l, r)
      | String "]" r => Some ([v], r)
      | _ => None
      end
  end.

(** The whole text is one value. *)
Definition parse (s : string) : option json :=
  '(v, r) ← value (2 * len s + 1) 0 s;
  if skip r == "" then Some v else None.

(** ** String literals *)

Definition hex_code (s : string) : Z :=
  match Hex.decode s with
  | Some (String a (String b "")) => 256 * code a + code b
  | _ => -1
  end.

(** [getu4]: a [\uXXXX] at the head of the text, or -1. *)
Definition getu4 (s : string) : Z :=
  match s with
  | String c (String "u" (String h1 (String h2 (String h3 (String h4 _))))) =>
      if c == bslash then hex_code (String h1 (String h2 (String h3 (String h4 "")))) else -1
  | _ => -1
  end.

(** [utf8.AppendRune]. *)
Definition rune (r : Z) : string :=
  bytes
    (if r <? 128 then [r]
     else if r <? 2048 then [192 + r / 64; 128 + r mod 64]
     else if r <? 65536 then [224 + r / 4096; 128 + r / 64 mod 64; 128 + r mod 64]
     else [240 + r / 262144; 128 + r / 4096 mod 64; 128 + r / 64 mod 64; 128 + r mod 64]).
Definition replacement : string := bytes [239; 191; 189].

Definition surrogate (r : Z) : bool := (55296 <=? r) && (r <? 57344).
(** [utf16.DecodeRune], [None] for U+FFFD. *)
Definition surrogate_pair (r1 r2 : Z) : option Z :=
  if (55296 <=? r1) && (r1 <? 56320) && (56320 <=? r2) && (r2 <? 57344)
  then Some ((r1 - 55296) * 1024 + (r2 - 56320) + 65536) else None.

Definition simple_unescape (c : ascii) : ascii :=
  if c == "b"%char then ascii_of_N 8 else if c == "f"%char then ascii_of_N 12
  else if c == "n"%char then ascii_of_N 10 else if c == "r"%char then ascii_of_N 13
  else if c == "t"%char then ascii_of_N 9 else c.

(** [unquote]: escapes resolved, and what is not UTF-8 replaced by U+FFFD.
    Each step consumes at least one character of the fuel [len s]. *)
Fixpoint unquote_from (fuel : nat) (s : string) : string :=
  match fuel, s with
  | S fuel, String c s1 =>
      if c == bslash then
        match s1 with
        | String e s2 =>
            if e == "u"%char then
              let r := getu4 s in
              if surrogate r then
                match surrogate_pair r (getu4 (drop 6 s)) with
                | Some p => rune p +:+ unquote_from fuel (drop 12 s)
                | None => replacement +:+ unquote_from fuel (drop 6 s)
                end
              else rune r +:+ unquote_from fuel (drop 6 s)
            else String (simple_unescape e) (unquote_from fuel s2)
        | EmptyString => ""
        end
      else
        match utf8_length s with
        | None => replacement +:+ unquote_from fuel s1
        | Some n => String.substring 0 n s +:+ unquote_from fuel (drop n s)
        end
  | _, _ => ""
  end.
Definition unquote (raw : string) : string := unquote_from (len raw) raw.

(** ** Structs *)

(** [foldName], on the runes whose fold is ASCII (U+017F is [S], U+212A is
    [K]); a key that holds another rune beyond ASCII equals no field. *)
Fixpoint fold_name (s : string) : string :=
  match s with
  | String c1 s1 =>
      match s1 with
      | String c2 s2 =>
          if (code c1 =? 197) && (code c2 =? 191) then String "S" (fold_name s2)
          else
            match s2 with
            | String c3 s3 =>
                if (code c1 =? 226) && (code c2 =? 132) && (code c3 =? 170)
                then String "K" (fold_name s3)
                else String (upper_char c1) (fold_name s1)
            | EmptyString => String (upper_char c1) (fold_name s1)
            end
      | EmptyString => String (upper_char c1) (fold_name s1)
      end
  | EmptyString => ""
  end.

(** How a value of JSON is stored in a place of type [A]. *)
Definition decoder (A : Type) : Type := json -> A -> option A.
Notation fields A := (list (string * decoder A)).

Definition into_string : decoder string := fun v old =>
  match v with JStr raw => Some (unquote raw) | JNull => Some old | _ => None end.
Definition into_int : decoder Z := fun v old =>
  match v with
  | JNum n => match Strconv.ParseInt n with Ok i => Some i | Err _ => None end
  | JNull => Some old
  | _ => None
  end.

(** A member of a struct. *)
Definition field {A B} (get : A -> B) (set : B -> A -> A) (d : decoder B) : decoder A := fun v a =>
  (fun b => set b a) <$> d v (get a).

(** The field a key names: exactly, or else up to case. *)
Definition find_field {A} (key : string) (fs : fields A) : option (decoder A) :=
  match List.find (fun f => f.1 == key) fs with
  | Some f => Some f.2
  | None => snd <$> List.find (fun f => fold_name f.1 == fold_name key) fs
  end.

(** The members in their order, each stored over what the ones before left;
    [strict] is [DisallowUnknownFields]. *)
Fixpoint store_members {A} (strict : bool) (fs : fields A) (l : list (string * json)) (a : A) : option A :=
  match l with
  | [] => Some a
  | (key, v) :: l =>
      match find_field (unquote key) fs with
      | Some d => d v a ≫= store_members strict fs l
      | None => if strict then None else store_members strict fs l a
      end
  end.

Definition into_struct {A} (strict : bool) (fs : fields A) : decoder A := fun v a =>
  match v with JObj l => store_members strict fs l a | JNull => Some a | _ => None end.

(** [json.Unmarshal(data, &a)]. *)
Definition Unmarshal {A} (d : decoder A) (data : string) (zero : A) : option A :=
  v ← parse data; d v zero.

(** ** Reading back what is written

    Texts without anything to escape: identifiers, timestamps, names. *)

Definition plain_char (c : ascii) : bool :=
  let n := code c in
  (32 <=? n) && (n <? 128) && negb (n =? 34) && negb (n =? 92) && negb (n =? 60) && negb (n =? 62)
  && negb (n =? 38).
Notation plain s := (all_chars plain_char s = true).

Lemma plain_cons c s : plain (String c s) -> plain_char c = true /\ plain s.
Proof. cbn. by rewrite andb_true_iff. Qed.

Lemma code_ne c d : code c <> code d -> (c == d) = false.
Proof. intros H. apply bool_decide_eq_false_2. by intros ->. Qed.

Lemma plain_char_spec c : plain_char c = true ->
  32 <= code c < 128 /\ (c == dquote) = false /\ (c == bslash) = false /\ escape_ascii c = String c "".
Proof.
  unfold plain_char. intros H. bools.
  assert (H' : 32 <= code c < 128 /\ code c <> 34 /\ code c <> 92 /\ code c <> 60 /\ code c <> 62 /\ code c <> 38) by lia.
  clear H H0 H1 H2 H3 H4 H5. destruct H' as (Hr & H34 & H92 & H60 & H62 & H38).
  split_and!; [lia|lia|by apply code_ne|by apply code_ne|].
  unfold escape_ascii. repeat (match goal with |- context [code c =? ?k] =>
    replace (code c =? k) with false by (symmetry; apply Z.eqb_neq; lia) end).
  by replace (code c <? 32) with false by (symmetry; apply Z.ltb_ge; lia).
Qed.

Lemma plain_utf8 c s : plain_char c = true -> utf8_length (String c s) = Some 1%nat.
Proof.
  intros H. apply plain_char_spec in H as ([_ H] & _). cbn. by apply Z.ltb_lt in H as ->.
Qed.

Lemma escape_plain s : plain s -> escape (len s) s = s.
Proof.
  induction s as [|c s IH]; [done|]. intros H. apply plain_cons in H as [Hc Hs].
  cbn [len escape]. rewrite plain_utf8 by done. apply plain_char_spec in Hc as (_ & _ & _ & ->).
  rewrite app_cons, app_nil. by rewrite IH.
Qed.

Lemma scan_plain s r : plain s -> scan_string (s +:+ String dquote r) = Some (s, r).
Proof.
  induction s as [|c s IH]; [done|]. intros H. apply plain_cons in H as [Hc Hs].
  apply plain_char_spec in Hc as ([Hc _] & H1 & H2 & _). rewrite app_cons. cbn [scan_string].
  rewrite H1, H2. replace (code c <? 32) with false by (symmetry; apply Z.ltb_ge; lia). by rewrite IH.
Qed.

Lemma drop_one c s : drop 1 (String c s) = s.
Proof.
  unfold drop. cbn [len]. replace (S (len s) - 1)%nat with (len s) by lia.
  cbn [String.substring]. induction s as [|d s IH]; [done|]. cbn. by rewrite IH.
Qed.

Lemma unquote_plain s : plain s -> unquote s = s.
Proof.
  unfold unquote. induction s as [|c s IH]; [done|]. intros H. apply plain_cons in H as [Hc Hs].
  cbn [len unquote_from]. rewrite plain_utf8 by done. apply plain_char_spec in Hc as (_ & _ & -> & _).
  rewrite drop_one, IH by done. by destruct s.
Qed.

Lemma string_lit_plain s : plain s -> string_lit s = String dquote (s +:+ String dquote "").
Proof. intros H. unfold string_lit. by rewrite escape_plain. Qed.

(** ** Storing the members *)

Lemma store_known {A} strict (fs : fields A) k v d l a :
  plain k -> find_field k fs = Some d ->
  store_members strict fs ((k, v) :: l) a = d v a ≫= store_members strict fs l.
Proof. intros Hk Hf. cbn. by rewrite unquote_plain, Hf. Qed.

Lemma into_plain s old : plain s -> into_string (JStr s) old = Some s.
Proof. intros H. cbn. by rewrite unquote_plain. Qed.
