(* ===== verification/JsonRound.v ===== *)
(** * JSON written and read back

    What [json.Marshal] writes, [json.Unmarshal] reads: every text is written as
    a literal the scanner accepts, a text of UTF-8 is unquoted to itself, and
    objects of such members, nested, parse to the tree they were written from. *)

From Stdlib Require Import Ascii.
From S2P Require Import Prelude GoStd Codec JsonText.
Import Str Strconv Json.

(** ** Runes *)

Lemma drop_length n s : len (drop n s) = (len s - n)%nat.
Proof.
  unfold drop. assert (H : forall m k t, (m + k <= len t)%nat -> len (String.substring m k t) = k).
  { induction m as [|m IHm].
    - induction k as [|k IHk]; intros [|c t] Ht; cbn in *; [done|lia|lia|]; try lia. by rewrite IHk by lia.
    - intros k [|c t] Ht; cbn in *; [destruct k; lia|]. apply IHm. lia. }
  destruct (decide (n <= len s)%nat) as [Hn|Hn]; [by apply H; lia|].
  replace (len s - n)%nat with 0%nat by lia. clear H. revert n Hn.
  induction s as [|c s IH]; intros [|n] Hn; cbn in *; try done. apply IH. lia.
Qed.

Lemma substring_app r t : String.substring 0 (len r) (r +:+ t) = r.
Proof. induction r as [|c r IH]; [by destruct t|]. rewrite app_cons. cbn [String.length String.substring]. by rewrite IH. Qed.

Lemma drop_app r t : drop (len r) (r +:+ t) = t.
Proof.
  unfold drop. rewrite length_app. replace (len r + len t - len r)%nat with (len t) by lia.
  induction r as [|c r IH]; [|exact IH]. pose proof (substring_app t "") as H. by rewrite app_nil_r in H.
Qed.

Lemma drop_app_more r k t : drop (len r + k) (r +:+ t) = drop k t.
Proof.
  unfold drop. rewrite length_app. replace (len r + len t - (len r + k))%nat with (len t - k)%nat by lia.
  by induction r as [|c r IH].
Qed.

(** A rune beyond ASCII, in its 2 to 4 bytes. *)
Definition wide (r : string) : Prop :=
  (len r <> 1)%nat /\ r <> "" /\ all_chars (fun c => 128 <=? code c) r = true
  /\ forall t, utf8_length (r +:+ t) = Some (len r).

Lemma cont_inv lo hi s : cont lo hi s = true ->
  exists c t, s = String c t /\ lo <= code c /\ forall u, cont lo hi (String c u) = true.
Proof. destruct s as [|c t]; [done|]. intros H. exists c, t. split; [done|]. split; [|done]. cbn in H. by bools. Qed.

(** The tail of a rune, byte by byte. *)
Ltac tails :=
  repeat match goal with
  | H : (if ?b then Some _ else None) = Some _ |- _ => destruct b eqn:?; [|done]
  | H : _ && _ = true |- _ => apply andb_true_iff in H as [? ?]
  | H : cont _ _ (rest (rest ?s)) = true, H' : cont _ _ (rest ?s) = true, H'' : cont _ _ ?s = true |- _ =>
      let c := fresh "c" in let t := fresh "t" in
      apply cont_inv in H'' as (c & t & -> & ? & ?); cbn [rest] in *
  | H : cont _ _ (rest ?s) = true, H' : cont _ _ ?s = true |- _ =>
      let c := fresh "c" in let t := fresh "t" in
      apply cont_inv in H' as (c & t & -> & ? & ?); cbn [rest] in *
  | H : cont _ _ ?s = true |- _ =>
      let c := fresh "c" in let t := fresh "t" in
      is_var s; apply cont_inv in H as (c & t & -> & ? & ?)
  end.

Ltac rune_of r :=
  exists r; eexists; split; [reflexivity|]; split; [reflexivity|]; unfold wide;
  split; [done|]; split; [done|]; split;
  [cbn [all_chars]; rewrite !andb_true_iff, !Z.leb_le; repeat split; lia|];
  intros u; rewrite !app_cons, app_nil; unfold utf8_length; cbn [rest];
  repeat match goal with H : _ = _ |- _ => rewrite H | H : forall v, cont _ _ _ = true |- _ => rewrite H end;
  reflexivity.

Lemma utf8_length_wide s n : utf8_length s = Some n -> n <> 1%nat ->
  exists r t, s = r +:+ t /\ len r = n /\ wide r.
Proof.
  destruct s as [|c s1]; [done|]. unfold utf8_length. intros H Hn.
  destruct (code c <? 128) eqn:E0; [by injection H as <-|].
  assert (Hc : 128 <= code c) by (bools; lia).
  repeat match type of H with (if ?b then (if _ then Some _ else None) else _) = _ => destruct b eqn:? end;
    [..|done]; tails; injection H as <-.
  - rune_of (String c (String c0 "")).
  - rune_of (String c (String c0 (String c1 ""))).
  - rune_of (String c (String c0 (String c1 ""))).
  - rune_of (String c (String c0 (String c1 ""))).
  - rune_of (String c (String c0 (String c1 (String c2 "")))).
  - rune_of (String c (String c0 (String c1 (String c2 "")))).
  - rune_of (String c (String c0 (String c1 (String c2 "")))).
Qed.

(** A text is read rune by rune: an ASCII one, a wide one, or a byte that starts
    none. *)
Lemma text_ind (P : string -> Prop) :
  P "" -> (forall c t, code c < 128 -> P t -> P (String c t)) ->
  (forall r t, wide r -> P t -> P (r +:+ t)) ->
  (forall c t, utf8_length (String c t) = None -> P t -> P (String c t)) ->
  forall s, P s.
Proof.
  intros H0 H1 H2 H3 s. remember (len s) as n eqn:E. revert s E.
  induction n as [n IH] using lt_wf_ind. intros [|c t] ->; [done|].
  assert (Ht : P t) by (eapply IH; [|reflexivity]; cbn; lia).
  destruct (utf8_length (String c t)) as [m|] eqn:Em; [|by apply H3].
  destruct (decide (m = 1%nat)) as [->|Hm].
  - apply H1; [|done]. unfold utf8_length in Em. destruct (code c <? 128) eqn:E0; [bools; lia|].
    by repeat case_match.
  - apply utf8_length_wide in Em as (r & u & E & <- & Hr); [|done]. rewrite E. apply H2; [done|].
    eapply IH; [|reflexivity]. rewrite E, length_app. destruct Hr as (_ & Hne & _).
    destruct r; [done|cbn; lia].
Qed.

(** The texts Go's [utf8.ValidString] accepts. *)
Inductive utf8 : string -> Prop :=
| utf8_empty : utf8 ""
| utf8_ascii c t : code c < 128 -> utf8 t -> utf8 (String c t)
| utf8_wide r t : wide r -> utf8 t -> utf8 (r +:+ t).

Lemma plain_valid s : plain s -> utf8 s.
Proof.
  induction s as [|c s IH]; intros H; [constructor|]. apply plain_cons in H as [Hc Hs].
  apply utf8_ascii; [by apply plain_char_spec in Hc as [[_ Hc] _]|by apply IH].
Qed.

(** ** Escaping *)

Notation escaped s := (escape (len s) s).

Lemma ascii_length c t : code c < 128 -> utf8_length (String c t) = Some 1%nat.
Proof. intros H. unfold utf8_length. by apply Z.ltb_lt in H as ->. Qed.

Definition separator (r : string) : string :=
  if r == bytes [226; 128; 168] then backslash +:+ "u2028"
  else if r == bytes [226; 128; 169] then backslash +:+ "u2029" else r.

(** One step, with any fuel. *)
Lemma escape_ascii_step fuel c t : code c < 128 ->
  escape (S fuel) (String c t) = escape_ascii c +:+ escape fuel t.
Proof. intros H. cbn [escape]. by rewrite ascii_length. Qed.

Lemma escape_wide_step fuel r t : wide r ->
  escape (S fuel) (r +:+ t) = separator r +:+ escape fuel t.
Proof.
  intros (H1 & Hne & _ & Hl). specialize (Hl t). destruct r as [|c r]; [done|].
  rewrite app_cons in *. cbn [escape]. rewrite Hl. rewrite <- app_cons, substring_app, drop_app.
  destruct (len (String c r)) as [|[|n]] eqn:E; [done|done|]. reflexivity.
Qed.

Lemma escape_fuel s : forall fuel, (len s <= fuel)%nat -> escape fuel s = escaped s.
Proof.
  induction s as [|c t Hc IH|r t Hr IH|c t Hl IH] using text_ind; intros fuel Hf.
  - by destruct fuel.
  - cbn [String.length] in *. destruct fuel as [|fuel]; [lia|]. rewrite !escape_ascii_step by done.
    by rewrite (IH fuel) by lia.
  - rewrite length_app in *. assert (Hn : (len r <> 0)%nat) by (destruct Hr as (_ & Hr & _); by destruct r).
    destruct fuel as [|fuel]; [lia|]. destruct (len r + len t)%nat as [|n] eqn:E; [lia|].
    rewrite !escape_wide_step by done. by rewrite (IH fuel), (IH n) by lia.
  - cbn [String.length] in *. destruct fuel as [|fuel]; [lia|]. cbn [escape]. rewrite Hl.
    by rewrite (IH fuel) by lia.
Qed.

Lemma escaped_ascii c t : code c < 128 -> escaped (String c t) = escape_ascii c +:+ escaped t.
Proof. apply (escape_ascii_step (len t)). Qed.

Lemma escaped_wide r t : wide r -> escaped (r +:+ t) = separator r +:+ escaped t.
Proof.
  intros Hr. rewrite length_app. assert (Hn : (len r <> 0)%nat) by (destruct Hr as (_ & Hr & _); by destruct r).
  destruct (len r + len t)%nat as [|n] eqn:E; [lia|]. rewrite escape_wide_step by done.
  by rewrite escape_fuel by lia.
Qed.

Lemma escaped_invalid c t : utf8_length (String c t) = None ->
  escaped (String c t) = (backslash +:+ "ufffd") +:+ escaped t.
Proof. intros H. cbn [String.length escape]. rewrite H. by rewrite app_assoc. Qed.

(** ** Scanning *)

(** A piece of a literal. *)
Definition scans (p : string) : Prop :=
  forall t, scan_string (p +:+ t) = '(l, r) ← scan_string t; Some (p +:+ l, r).

Lemma scans_app p q : scans p -> scans q -> scans (p +:+ q).
Proof.
  intros Hp Hq t. rewrite app_assoc, Hp, Hq. destruct (scan_string t) as [[l r]|]; [|done]. cbn.
  by rewrite app_assoc.
Qed.

Lemma scans_char c : 32 <= code c -> (c == dquote) = false -> (c == bslash) = false -> scans (String c "").
Proof.
  intros H H1 H2 t. rewrite app_cons, app_nil. cbn [scan_string]. rewrite H1, H2.
  replace (code c <? 32) with false by (symmetry; apply Z.ltb_ge; lia). by destruct (scan_string t) as [[l r]|].
Qed.

Lemma scans_high r : all_chars (fun c => 128 <=? code c) r = true -> scans r.
Proof.
  induction r as [|c r IH]; intros H t.
  - rewrite app_nil. by destruct (scan_string t) as [[l r]|].
  - cbn [all_chars] in H. apply andb_true_iff in H as [Hc Hr]. apply Z.leb_le in Hc.
    change (String c r) with (String c "" +:+ r). apply scans_app; [|by apply IH].
    apply scans_char; [lia|apply code_ne..]; change (code dquote) with 34; change (code bslash) with 92; lia.
Qed.

Lemma escape_ascii_scans c : code c < 128 -> scans (escape_ascii c).
Proof.
  intros H. destruct c as [[] [] [] [] [] [] [] []]; try (by vm_compute in H); intros t; reflexivity.
Qed.

Lemma separator_scans r : wide r -> scans (separator r).
Proof.
  intros (_ & _ & Hr & _). unfold separator. destruct (_ == _); [by intros t|].
  destruct (_ == _); [by intros t|]. by apply scans_high.
Qed.

(** Every text is written as a literal that ends where it should. *)
Lemma escaped_scans s : scans (escaped s).
Proof.
  induction s as [|c t Hc IH|r t Hr IH|c t Hl IH] using text_ind.
  - by apply scans_high.
  - rewrite escaped_ascii by done. apply scans_app; [by apply escape_ascii_scans|done].
  - rewrite escaped_wide by done. apply scans_app; [by apply separator_scans|done].
  - rewrite escaped_invalid by done. apply scans_app; [by intros u|done].
Qed.

Lemma scan_escaped s r : scan_string (escaped s +:+ String dquote r) = Some (escaped s, r).
Proof. rewrite escaped_scans. change (scan_string (String dquote r)) with (Some ("", r)). cbn. by rewrite app_nil_r. Qed.

(** ** Unquoting *)

Lemma utf8_length_pos s n : utf8_length s = Some n -> (1 <= n)%nat.
Proof.
  intros H. destruct (decide (n = 1%nat)) as [->|Hn]; [lia|].
  apply utf8_length_wide in H as (r & t & _ & <- & _ & Hr & _); [|done]. destruct r; [done|cbn; lia].
Qed.

Lemma unquote_enough n : forall s f g, (len s <= n)%nat -> (len s <= f)%nat -> (len s <= g)%nat ->
  unquote_from f s = unquote_from g s.
Proof.
  induction n as [|n IH]; intros [|c s1] f g Hn Hf Hg; cbn [String.length] in *; try lia; try by destruct f, g.
  destruct f as [|f], g as [|g]; try lia. cbn [unquote_from].
  assert (Hd : forall k, (1 <= k)%nat -> unquote_from f (drop k (String c s1)) = unquote_from g (drop k (String c s1))).
  { intros k Hk. apply IH; rewrite drop_length; cbn [String.length]; lia. }
  destruct (c == bslash).
  - destruct s1 as [|e s2]; [done|]. cbn [String.length] in *. cbv zeta. rewrite !Hd by lia.
    by rewrite (IH s2 f g) by lia.
  - destruct (utf8_length _) as [k|] eqn:E.
    + apply utf8_length_pos in E. by rewrite Hd.
    + by rewrite (IH s1 f g) by lia.
Qed.

Lemma unquote_fuel s fuel : (len s <= fuel)%nat -> unquote_from fuel s = unquote s.
Proof. intros H. by apply (unquote_enough (len s)). Qed.

(** A piece of a literal, and the text it stands for. *)
Definition unquotes (p r : string) : Prop := forall t, unquote (p +:+ t) = r +:+ unquote t.

(** The three steps taken on what is written. *)
Lemma unquote_simple_step fuel e t : (e == "u"%char) = false ->
  unquote_from (S fuel) (String bslash (String e t)) = String (simple_unescape e) (unquote_from fuel t).
Proof. intros He. cbn [unquote_from]. rewrite bool_decide_eq_true_2 by done. by rewrite He. Qed.

Lemma unquote_code_step fuel h1 h2 h3 h4 t :
  let h := String h1 (String h2 (String h3 (String h4 ""))) in
  surrogate (hex_code h) = false ->
  unquote_from (S fuel) (String bslash (String "u" (h +:+ t))) = rune (hex_code h) +:+ unquote_from fuel t.
Proof.
  intros h Hs. cbn [unquote_from]. rewrite !bool_decide_eq_true_2 by done. cbv zeta.
  change (getu4 (String bslash (String "u" (h +:+ t)))) with (hex_code h). rewrite Hs.
  change (String bslash (String "u" (h +:+ t))) with (String bslash (String "u" h) +:+ t).
  change 6%nat with (len (String bslash (String "u" h))). by rewrite drop_app.
Qed.

Lemma unquote_pair_step fuel h1 h2 h3 h4 t :
  let h := String h1 (String h2 (String h3 (String h4 ""))) in
  surrogate (hex_code h) = true ->
  unquote_from (S fuel) (String bslash (String "u" (h +:+ t))) =
  match surrogate_pair (hex_code h) (getu4 t) with
  | Some p => rune p +:+ unquote_from fuel (drop 6 t)
  | None => replacement +:+ unquote_from fuel t
  end.
Proof.
  intros h Hs. cbn [unquote_from]. rewrite !bool_decide_eq_true_2 by done. cbv zeta.
  change (getu4 (String bslash (String "u" (h +:+ t)))) with (hex_code h). rewrite Hs.
  change (String bslash (String "u" (h +:+ t))) with (String bslash (String "u" h) +:+ t).
  change 12%nat with (len (String bslash (String "u" h)) + 6)%nat. rewrite drop_app_more.
  change 6%nat with (len (String bslash (String "u" h))) at 1 3. by rewrite drop_app.
Qed.

Lemma unquote_rune_step fuel c r t :
  (c == bslash) = false -> utf8_length (String c r +:+ t) = Some (len (String c r)) ->
  unquote_from (S fuel) (String c r +:+ t) = String c r +:+ unquote_from fuel t.
Proof.
  intros Hb Hl. rewrite (app_cons c r t) in *. cbn [unquote_from]. rewrite Hb, Hl.
  by rewrite <- app_cons, substring_app, drop_app.
Qed.

Lemma unquotes_simple e : (e == "u"%char) = false ->
  unquotes (String bslash (String e "")) (String (simple_unescape e) "").
Proof.
  intros He t. rewrite !app_cons, !app_nil. unfold unquote at 1. cbn [String.length].
  rewrite unquote_simple_step by done. by rewrite unquote_fuel by lia.
Qed.

Lemma unquotes_code h1 h2 h3 h4 :
  let h := String h1 (String h2 (String h3 (String h4 ""))) in
  surrogate (hex_code h) = false -> unquotes (String bslash (String "u" h)) (rune (hex_code h)).
Proof.
  intros h Hs t. rewrite (app_cons bslash (String "u" h) t), (app_cons "u" h t). unfold unquote at 1.
  cbn [String.length]. unfold h at 2. rewrite unquote_code_step by done. fold h. rewrite unquote_fuel by (rewrite length_app; lia). done.
Qed.

Lemma unquotes_rune c r :
  (c == bslash) = false -> (forall t, utf8_length (String c r +:+ t) = Some (len (String c r))) ->
  unquotes (String c r) (String c r).
Proof.
  intros Hb Hl t. unfold unquote at 1. rewrite length_app. cbn [String.length Nat.add].
  rewrite unquote_rune_step by done. by rewrite unquote_fuel by lia.
Qed.

Lemma unquotes_char c : code c < 128 -> (c == bslash) = false -> unquotes (String c "") (String c "").
Proof. intros Hc Hb. apply unquotes_rune; [done|]. intros t. by apply ascii_length. Qed.

Lemma unquotes_wide r : wide r -> unquotes r r.
Proof.
  intros (_ & Hne & Hh & Hl). destruct r as [|c r]; [done|]. cbn [all_chars] in Hh.
  apply andb_true_iff in Hh as [Hc _]. apply Z.leb_le in Hc. apply unquotes_rune; [|done].
  apply code_ne. change (code bslash) with 92. lia.
Qed.

(** The piece computed, and read by its shape. *)
Ltac by_shape :=
  match goal with |- unquotes ?p ?r =>
    let q := eval vm_compute in p in
    change (unquotes q r);
    match q with
    | String _ (String "u" (String ?h1 (String ?h2 (String ?h3 (String ?h4 ""))))) =>
        exact (unquotes_code h1 h2 h3 h4 eq_refl)
    | String _ (String ?e "") => exact (unquotes_simple e eq_refl)
    | String ?c "" => exact (unquotes_char c eq_refl eq_refl)
    end
  end.

Lemma escape_ascii_unquotes c : code c < 128 -> unquotes (escape_ascii c) (String c "").
Proof. intros H. destruct c as [[] [] [] [] [] [] [] []]; try (by vm_compute in H); by_shape. Qed.

Lemma separator_unquotes r : wide r -> unquotes (separator r) r.
Proof.
  intros Hr. unfold separator. destruct (r == bytes [226; 128; 168]) eqn:E1.
  { bools. subst r. exact (unquotes_code "2" "0" "2" "8" eq_refl). }
  destruct (r == bytes [226; 128; 169]) eqn:E2; [|by apply unquotes_wide].
  bools. subst r. exact (unquotes_code "2" "0" "2" "9" eq_refl).
Qed.

(** What is written of a text is read back as the text. *)
Lemma unquote_escaped s : utf8 s -> unquote (escaped s) = s.
Proof.
  induction 1 as [|c t Hc Ht IH|r t Hr Ht IH]; [done|..].
  - rewrite escaped_ascii, (escape_ascii_unquotes c), IH by done. done.
  - rewrite escaped_wide, (separator_unquotes r), IH by done. done.
Qed.

Lemma escaped_inj s t : utf8 s -> utf8 t -> escaped s = escaped t -> s = t.
Proof. intros Hs Ht E. rewrite <- (unquote_escaped s), <- (unquote_escaped t) by done. by rewrite E. Qed.

(** ** What is unquoted is UTF-8 *)

(** The literals the scanner accepts. *)
Inductive literal : string -> Prop :=
| literal_empty : literal ""
| literal_char c s : (c == bslash) = false -> literal s -> literal (String c s)
| literal_simple e s : simple_escape e = true -> literal s -> literal (String bslash (String e s))
| literal_code h1 h2 h3 h4 s :
    is_hex h1 && is_hex h2 && is_hex h3 && is_hex h4 = true -> literal s ->
    literal (String bslash (String "u" (String h1 (String h2 (String h3 (String h4 s)))))).

Lemma scan_literal s : forall raw r, scan_string s = Some (raw, r) -> literal raw.
Proof.
  remember (len s) as n eqn:E. revert s E. induction n as [n IH] using lt_wf_ind.
  intros [|c s1] -> raw r H; [done|]. cbn [scan_string] in H.
  destruct (c == dquote); [injection H as <- <-; constructor|]. destruct (c == bslash) eqn:Eb.
  - bools. subst c. destruct s1 as [|e s2]; [done|]. destruct (simple_escape e) eqn:Ee.
    + destruct (scan_string s2) as [[l r2]|] eqn:E2; [|done]. injection H as <- <-.
      apply literal_simple; [done|]. eapply IH; [|reflexivity|exact E2]. cbn. lia.
    + destruct (e == "u"%char) eqn:Eu; [|done]. bools. subst e.
      destruct s2 as [|h1 [|h2 [|h3 [|h4 s3]]]]; try done. destruct (is_hex h1 && _ && _ && _) eqn:Eh; [|done].
      destruct (scan_string s3) as [[l r3]|] eqn:E3; [|done]. injection H as <- <-.
      apply literal_code; [done|]. eapply IH; [|reflexivity|exact E3]. cbn. lia.
  - destruct (code c <? 32); [done|]. destruct (scan_string s1) as [[l r1]|] eqn:E1; [|done].
    injection H as <- <-. apply literal_char; [done|]. eapply IH; [|reflexivity|exact E1]. cbn. lia.
Qed.

Lemma code_of z : 0 <= z < 256 -> code (ascii_of_N (Z.to_N z)) = z.
Proof. intros H. unfold code. rewrite N_ascii_embedding by lia. lia. Qed.

Lemma bytes_cons z l : bytes (z :: l) = String (ascii_of_N (Z.to_N z)) (bytes l).
Proof. reflexivity. Qed.

(** The scalar values. *)
Definition scalar (r : Z) : Prop := 0 <= r < 55296 \/ 57344 <= r < 1114112.

Lemma cont_byte lo hi z t : lo <= z <= hi -> 0 <= z < 256 -> cont lo hi (String (ascii_of_N (Z.to_N z)) t) = true.
Proof. intros H Hz. cbn. rewrite code_of by done. destruct H as [H1 H2]. apply Z.leb_le in H1, H2. by rewrite H1, H2. Qed.

Ltac decide_bytes :=
  repeat match goal with
  | |- context [(?a <? ?b)] => first
      [ replace (a <? b) with true by (symmetry; apply Z.ltb_lt; lia)
      | replace (a <? b) with false by (symmetry; apply Z.ltb_ge; lia) ]
  | |- context [(?a <=? ?b)] => first
      [ replace (a <=? b) with true by (symmetry; apply Z.leb_le; lia)
      | replace (a <=? b) with false by (symmetry; apply Z.leb_gt; lia) ]
  | |- context [(?a =? ?b)] => first
      [ replace (a =? b) with true by (symmetry; apply Z.eqb_eq; lia)
      | replace (a =? b) with false by (symmetry; apply Z.eqb_neq; lia) ]
  end; cbn [andb].

Ltac wide_bytes :=
  unfold wide; rewrite !bytes_cons; change (bytes []) with "";
  split; [done|]; split; [done|]; split;
  [cbn [all_chars]; rewrite !code_of by lia; by decide_bytes|];
  intros t; rewrite !app_cons, app_nil; unfold utf8_length; cbn [rest cont String.length]; rewrite !code_of by lia.

Lemma wide_two a b : 194 <= a <= 223 -> 128 <= b <= 191 -> wide (bytes [a; b]).
Proof. intros Ha Hb. wide_bytes. by decide_bytes. Qed.

Lemma wide_three a b c : 224 <= a <= 239 -> 128 <= b <= 191 -> 128 <= c <= 191 ->
  (a = 224 -> 160 <= b) -> (a = 237 -> b <= 159) -> wide (bytes [a; b; c]).
Proof.
  intros Ha Hb Hc H1 H2. wide_bytes.
  destruct (Z.eq_dec a 224) as [E|E]; [specialize (H1 E); by decide_bytes|].
  destruct (Z.eq_dec a 237) as [E'|E']; [specialize (H2 E'); by decide_bytes|]. by decide_bytes.
Qed.

Lemma wide_four a b c d : 240 <= a <= 244 -> 128 <= b <= 191 -> 128 <= c <= 191 -> 128 <= d <= 191 ->
  (a = 240 -> 144 <= b) -> (a = 244 -> b <= 143) -> wide (bytes [a; b; c; d]).
Proof.
  intros Ha Hb Hc Hd H1 H2. wide_bytes.
  destruct (Z.eq_dec a 240) as [E|E]; [specialize (H1 E); by decide_bytes|].
  destruct (Z.eq_dec a 244) as [E'|E']; [specialize (H2 E'); by decide_bytes|]. by decide_bytes.
Qed.

(** [utf8.AppendRune] writes UTF-8. *)
Lemma rune_valid r t : scalar r -> utf8 t -> utf8 (rune r +:+ t).
Proof.
  unfold scalar, rune. intros Hr Ht.
  destruct (r <? 128) eqn:E1; [|destruct (r <? 2048) eqn:E2; [|destruct (r <? 65536) eqn:E3]]; bools.
  - rewrite bytes_cons. change (bytes []) with "". rewrite app_cons, app_nil.
    apply utf8_ascii; [by rewrite code_of by lia|done].
  - apply utf8_wide; [|done]. apply wide_two; Z.to_euclidean_division_equations; lia.
  - apply utf8_wide; [|done]. apply wide_three; Z.to_euclidean_division_equations; lia.
  - apply utf8_wide; [|done]. apply wide_four; Z.to_euclidean_division_equations; lia.
Qed.

Lemma replacement_valid t : utf8 t -> utf8 (replacement +:+ t).
Proof. intros H. apply utf8_wide; [|done]. apply (wide_three 239 191 189); lia. Qed.

(** ** The literals read *)

Lemma Hex_value_range c n : Hex.value c = Some n -> (n < 16)%N.
Proof.
  destruct c as [[] [] [] [] [] [] [] []]; intros H; vm_compute in H; try done; injection H as <-; done.
Qed.

Lemma hex_code_range h1 h2 h3 h4 : 
  -1 <= hex_code (String h1 (String h2 (String h3 (String h4 "")))) < 65536
  /\ (is_hex h1 && is_hex h2 && is_hex h3 && is_hex h4 = true ->
      0 <= hex_code (String h1 (String h2 (String h3 (String h4 ""))))).
Proof.
  unfold hex_code, is_hex. cbn [Hex.decode].
  destruct (Hex.value h1) eqn:E1; [|done]. destruct (Hex.value h2) eqn:E2; [|done].
  destruct (Hex.value h3) eqn:E3; [|done]. destruct (Hex.value h4) eqn:E4; [|done].
  cbn. apply Hex_value_range in E1, E2, E3, E4. unfold code. rewrite !N_ascii_embedding by lia.
  split; [lia|]. intros _. lia.
Qed.

Lemma surrogate_pair_range r1 r2 p : surrogate_pair r1 r2 = Some p -> scalar p /\ 0 <= r2.
Proof.
  unfold surrogate_pair. intros H.
  match type of H with (if ?b then _ else _) = _ => destruct b eqn:E; [|done] end.
  injection H as <-. bools. unfold scalar. lia.
Qed.

Lemma literal_tail c s : (c == bslash) = false -> literal (String c s) -> literal s.
Proof. intros Hc H. inversion H as [| ? ? ? Hs | |]; subst; [done|by rewrite bool_decide_eq_true_2 in Hc..]. Qed.

Lemma literal_wide r t : all_chars (fun c => 128 <=? code c) r = true -> literal (r +:+ t) -> literal t.
Proof.
  induction r as [|c r IH]; [done|]. cbn [all_chars]. intros H. apply andb_true_iff in H as [Hc Hr].
  apply Z.leb_le in Hc. rewrite app_cons. intros Hl. apply IH; [done|]. eapply literal_tail; [|exact Hl].
  apply code_ne. change (code bslash) with 92. lia.
Qed.

(** A second half found is a second escape. *)
Lemma getu4_escape s : 0 <= getu4 s -> exists h1 h2 h3 h4 t,
  s = String bslash (String "u" (String h1 (String h2 (String h3 (String h4 t)))))
  /\ getu4 s = hex_code (String h1 (String h2 (String h3 (String h4 "")))).
Proof.
  intros H. destruct s as [|c [|u [|h1 [|h2 [|h3 [|h4 t]]]]]]; try (cbn in H; lia);
    try (destruct u as [[] [] [] [] [] [] [] []]; cbn in H; lia).
  destruct (decide (u = "u"%char)) as [->|Hu].
  - cbn [getu4] in *. destruct (c == bslash) eqn:E; [|lia]. bools. subst c. by exists h1, h2, h3, h4, t.
  - exfalso. assert (E : getu4 (String c (String u (String h1 (String h2 (String h3 (String h4 t)))))) = -1).
    { destruct u as [[] [] [] [] [] [] [] []]; try done. }
    rewrite E in H. lia.
Qed.

Lemma unquote_valid s : literal s -> utf8 (unquote s).
Proof.
  remember (len s) as n eqn:E. revert s E. induction n as [n IH] using lt_wf_ind. intros s -> Hs.
  assert (Hrec : forall t, literal t -> (len t < len s)%nat -> forall f, (len t <= f)%nat -> utf8 (unquote_from f t)).
  { intros t Ht Hl f Hf. rewrite unquote_fuel by done. by apply (IH (len t)). }
  clear IH. inversion Hs as [|c t Hc Ht|e t He Ht|h1 h2 h3 h4 t Hh Ht]; subst s; [constructor|..].
  - destruct (utf8_length (String c t)) as [k|] eqn:Ek.
    + destruct (decide (k = 1%nat)) as [->|Hk].
      * assert (Hcode : code c < 128).
        { unfold utf8_length in Ek. destruct (code c <? 128) eqn:E0; [by bools|]. by repeat case_match. }
        unfold unquote. cbn [String.length]. change (String c t) with (String c "" +:+ t).
        rewrite unquote_rune_step by done. rewrite app_cons, app_nil. apply utf8_ascii; [done|].
        apply Hrec; [done|cbn; lia|lia].
      * apply utf8_length_wide in Ek as (r & u & E & <- & Hr); [|done]. rewrite E in *.
        rewrite (unquotes_wide r Hr). apply utf8_wide; [done|]. apply Hrec; [|rewrite length_app|lia].
        { destruct Hr as (_ & _ & Hr & _). by eapply literal_wide. }
        destruct Hr as (_ & Hr & _). destruct r; [done|cbn; lia].
    + unfold unquote. cbn [String.length unquote_from]. rewrite Hc, Ek. apply replacement_valid.
      apply Hrec; [done|cbn; lia|lia].
  - assert (Heu : (e == "u"%char) = false /\ code (simple_unescape e) < 128).
    { destruct e as [[] [] [] [] [] [] [] []]; vm_compute in He; try done; split; reflexivity. }
    destruct Heu as [Heu Hcode]. unfold unquote. cbn [String.length]. rewrite unquote_simple_step by done.
    apply utf8_ascii; [done|]. apply Hrec; [done|cbn; lia|lia].
  - set (h := String h1 (String h2 (String h3 (String h4 "")))).
    destruct (hex_code_range h1 h2 h3 h4) as [Hr1 Hr2]. specialize (Hr2 Hh). fold h in Hr1, Hr2.
    change (String h1 (String h2 (String h3 (String h4 t)))) with (h +:+ t) in *.
    destruct (surrogate (hex_code h)) eqn:Es.
    + unfold unquote. cbn [String.length]. unfold h at 2. rewrite unquote_pair_step by done. fold h.
      destruct (surrogate_pair _ _) as [p|] eqn:Ep.
      * apply surrogate_pair_range in Ep as [Hp Hg].
        destruct (getu4_escape t) as (g1 & g2 & g3 & g4 & u & -> & _); [done|]. apply rune_valid; [done|].
        change (drop 6 _) with (drop (len (String bslash (String "u" (String g1 (String g2 (String g3 (String g4 ""))))))) (String bslash (String "u" (String g1 (String g2 (String g3 (String g4 ""))))) +:+ u)).
        rewrite drop_app.
        inversion Ht as [|? ? Hc _|? ? He _|? ? ? ? ? _ Hu]; subst; [done|done|].
        apply Hrec; [done|cbn [String.length]; rewrite length_app; cbn [String.length]; lia..].
      * apply replacement_valid. apply Hrec; [done|cbn [String.length]; rewrite length_app; lia..].
    + unfold unquote. cbn [String.length]. unfold h at 2. rewrite unquote_code_step by done. fold h. apply rune_valid.
      { unfold scalar. unfold surrogate in Es. apply andb_false_iff in Es as [Es|Es]; bools; lia. }
      apply Hrec; [done|cbn [String.length]; rewrite length_app; lia|rewrite length_app; lia].
Qed.

(** ** Values and objects *)

Definition delimiter (c : ascii) : Prop := c = ","%char \/ c = "}"%char.

(** [text] is read as [v], nested [h] deep, whatever delimiter follows it. *)
Definition reads_as (h : Z) (text : string) (v : json) : Prop :=
  forall fuel depth c r, delimiter c -> (2 * len text < fuel)%nat -> depth + h <= max_depth ->
  value fuel depth (text +:+ String c r) = Some (v, String c r).

Lemma reads_weaken h h' text v : h <= h' -> reads_as h text v -> reads_as h' text v.
Proof. intros Hh H fuel depth c r Hc Hf Hd. apply H; [done..|lia]. Qed.

Lemma string_lit_app s t : string_lit s +:+ t = String dquote (escaped s +:+ String dquote t).
Proof. unfold string_lit. rewrite !app_assoc. reflexivity. Qed.

Lemma value_string fuel depth r :
  value (S fuel) depth (String dquote r) = ('(raw, r) ← scan_string r; Some (JStr raw, r)).
Proof. reflexivity. Qed.

Lemma string_reads s : reads_as 0 (string_lit s) (JStr (escaped s)).
Proof.
  intros [|fuel] depth c r _ Hf _; [lia|]. rewrite string_lit_app, value_string. by rewrite scan_escaped.
Qed.

Lemma plain_reads s : plain s -> reads_as 0 (string_lit s) (JStr s).
Proof. intros H. rewrite <- (escape_plain s) at 2 by done. apply string_reads. Qed.

(** Members, and where they stand. *)
Notation member := (string * string * json)%type.
Definition member_ok (h : Z) (x : member) : Prop := plain x.1.1 /\ reads_as h x.1.2 x.2.
Definition tree (l : list member) : json := JObj ((fun x => (x.1.1, x.2)) <$> l).
Definition written (l : list member) : string := object (fst <$> l).

Lemma member_reads h fuel depth k text v c r :
  member_ok h (k, text, v) -> delimiter c -> (2 * len text < fuel)%nat -> depth + h <= max_depth ->
  object_members (S fuel) depth (string_lit k +:+ ":" +:+ text +:+ String c r)
  = match c with
    | ","%char => '(l, r) ← object_members fuel depth r; Some ((k, v) :: l, r)
    | _ => Some ([(k, v)], r)
    end.
Proof.
  intros [Hk Hv] Hc Hf Hd. cbn [fst snd] in *. rewrite string_lit_app.
  change (object_members (S fuel) depth (String dquote ?x)) with
    ('(key, r) ← scan_string x;
     match skip r with
     | String ":" r =>
         '(v, r) ← value fuel depth r;
         match skip r with
         | String "," r => '(l, r) ← object_members fuel depth r; Some ((key, v) :: l, r)
         | String "}" r => Some ([(key, v)], r)
         | _ => None
         end
     | _ => None
     end).
  rewrite scan_escaped, escape_plain by done. cbn [mbind option_bind].
  change (skip (":" +:+ ?x)) with (String ":" x). cbn match. rewrite Hv by done.
  by destruct Hc as [->| ->].
Qed.

(** The members [object] writes. *)
Lemma members_read h l fuel depth r :
  l <> [] -> Forall (member_ok h) l -> (2 * len (members (fst <$> l)) < fuel)%nat -> depth + h <= max_depth ->
  object_members fuel depth (members (fst <$> l) +:+ String "}" r) = Some ((fun x => (x.1.1, x.2)) <$> l, r).
Proof.
  intros Hne Hl Hf Hd. revert fuel Hf. induction Hl as [|[[k text] v] l Hx Hl IH]; [done|]. clear Hne.
  intros [|fuel] Hf; [lia|]. destruct l as [|y l].
  - cbn [fmap list_fmap fst members] in *. rewrite !app_assoc. rewrite !length_app in Hf. cbn [String.length] in Hf.
    rewrite (member_reads h _ _ _ _ v); [done|done|by right|lia|done].
  - change (members (fst <$> (k, text, v) :: y :: l)) with
      (string_lit k +:+ ":" +:+ text +:+ "," +:+ members (fst <$> (y :: l))) in *.
    rewrite !app_assoc. rewrite !length_app in Hf. cbn [String.length] in Hf.
    change ("," +:+ ?y) with (String "," y). rewrite (member_reads h _ _ _ _ v); [|done|by left|lia|done].
    by rewrite IH by (done || lia).
Qed.

Lemma members_head l : l <> [] -> exists x, members l = String dquote x.
Proof.
  destruct l as [|[k v] [|y l]]; [done|..]; intros _; cbn [members]; rewrite string_lit_app; by eexists.
Qed.

Lemma object_value h l fuel depth r :
  l <> [] -> Forall (member_ok h) l -> (2 * len (written l) <= fuel + 1)%nat -> depth + h < max_depth -> 0 <= h ->
  value fuel depth (written l +:+ r) = Some (tree l, r).
Proof.
  intros Hne Hl Hf Hd Hh. unfold written, object in *. rewrite !length_app in Hf. cbn [String.length] in Hf.
  pose proof (members_read h l (fuel - 1) (depth + 1) r Hne Hl ltac:(lia) ltac:(lia)) as H.
  destruct fuel as [|fuel]; [lia|]. replace (S fuel - 1)%nat with fuel in H by lia.
  destruct (members_head (fst <$> l)) as (x & Hx); [by destruct l|]. rewrite Hx in *. rewrite !app_assoc.
  change ("}" +:+ r) with (String "}" r).
  change (value (S fuel) depth ("{" +:+ String dquote x +:+ ?z)) with
    (if max_depth <=? depth then None
     else '(l, r) ← object_members fuel (depth + 1) (String dquote x +:+ z); Some (JObj l, r)).
  replace (max_depth <=? depth) with false by (symmetry; apply Z.leb_gt; lia). by rewrite H.
Qed.

Lemma object_reads h l : l <> [] -> Forall (member_ok h) l -> 0 <= h -> reads_as (h + 1) (written l) (tree l).
Proof. intros Hne Hl Hh fuel depth c r _ Hf Hd. apply (object_value h); [done|done|lia..]. Qed.

Lemma object_parses h l :
  l <> [] -> Forall (member_ok h) l -> 0 <= h < max_depth -> parse (written l) = Some (tree l).
Proof.
  intros Hne Hl Hh. unfold parse. rewrite <- (app_nil_r (written l)) at 2.
  by rewrite (object_value h) by (done || lia).
Qed.

(** ** Numbers *)

Lemma dec_digits_head fuel n acc : 0 < n < 2 ^ Z.of_nat fuel ->
  exists d s, dec_digits fuel n acc = String (digit_char d) s /\ 0 < d < 10.
Proof.
  revert n acc. induction fuel as [|fuel IH]; intros n acc Hn; [cbn in Hn; lia|]. cbn [dec_digits].
  rewrite Nat2Z.inj_succ, Z.pow_succ_r in Hn by lia. destruct (n <? 10) eqn:E; bools.
  - rewrite Z.mod_small by lia. exists n, acc. split; [done|lia].
  - apply IH. split; [apply Z.div_str_pos; lia|apply Z.div_lt_upper_bound; lia].
Qed.

Lemma dec_string_head n : 0 < n -> exists d s, dec_string n = String (digit_char d) s /\ 0 < d < 10.
Proof.
  intros Hn. apply dec_digits_head. rewrite Nat2Z.inj_succ, Z2Nat.id by apply Z.log2_nonneg.
  pose proof (Z.log2_spec n Hn). lia.
Qed.

Lemma span_digits_end ds c r : all_chars is_digit ds = true -> is_digit c = false ->
  span_digits (ds +:+ String c r) = (ds, String c r).
Proof.
  intros Hd Hc. induction ds as [|d ds IH]; [rewrite app_nil; cbn [span_digits]; by rewrite Hc|].
  cbn [all_chars] in Hd. apply andb_true_iff in Hd as [H1 H2]. rewrite app_cons. cbn [span_digits].
  by rewrite H1, IH.
Qed.

(** A number after its sign. *)
Lemma scan_unsigned n c r : 0 < n -> delimiter c ->
  exists d s, dec_string n = String (digit_char d) s /\ 0 < d < 10
  /\ ('(i, s) ← scan_integer (dec_string n +:+ String c r);
      '(f, s) ← scan_fraction s; '(e, s) ← scan_exponent s; Some (i +:+ f +:+ e, s))
     = Some (dec_string n, String c r).
Proof.
  intros Hn Hc. destruct (dec_string_head n) as (d & s & E & Hd); [done|].
  destruct (dec_string_spec n) as (Hds & _ & _); [lia|]. exists d, s. split; [done|]. split; [done|].
  rewrite E in *.
  assert (Hs : span_digits (String (digit_char d) s +:+ String c r) = (String (digit_char d) s, String c r)).
  { apply span_digits_end; [done|]. by destruct Hc as [->| ->]. }
  assert (Hi : scan_integer (String (digit_char d) s +:+ String c r) = digits1 (String (digit_char d) s +:+ String c r)).
  { rewrite app_cons. assert (Hcases : d = 1 \/ d = 2 \/ d = 3 \/ d = 4 \/ d = 5 \/ d = 6 \/ d = 7 \/ d = 8 \/ d = 9) by lia.
    by repeat destruct Hcases as [->|Hcases]; [..|subst]. }
  rewrite Hi. unfold digits1. rewrite Hs. change (String (digit_char d) s == "") with false. cbn [mbind option_bind].
  assert (Hf : scan_fraction (String c r) = Some ("", String c r)) by (destruct Hc as [->| ->]; reflexivity).
  assert (He : scan_exponent (String c r) = Some ("", String c r)) by (destruct Hc as [->| ->]; reflexivity).
  rewrite Hf. cbn [mbind option_bind]. rewrite He. cbn [mbind option_bind]. by rewrite !app_nil, app_nil_r.
Qed.

(** Integers, as they are written. *)
Lemma number_reads n : reads_as 0 (FormatInt n) (JNum (FormatInt n)).
Proof.
  intros [|fuel] depth c r Hc Hf _; [lia|]. unfold FormatInt in *.
  destruct (Z.eq_dec n 0) as [->|Hz]; [destruct Hc as [->| ->]; reflexivity|].
  destruct (n <? 0) eqn:En; bools.
  - destruct (scan_unsigned (- n) c r) as (d & s & _ & _ & Hu); [lia|done|].
    change (value (S fuel) depth (String "-" (dec_string (- n)) +:+ String c r)) with
      ('(n, r) ← ('(i, s) ← scan_integer (dec_string (- n) +:+ String c r);
        '(f, s) ← scan_fraction s; '(e, s) ← scan_exponent s; Some ("-" +:+ i +:+ f +:+ e, s)); Some (JNum n, r)).
    revert Hu. destruct (scan_integer _) as [[i s1]|]; [|done]. cbn [mbind option_bind].
    destruct (scan_fraction s1) as [[f s2]|]; [|done]. cbn [mbind option_bind].
    destruct (scan_exponent s2) as [[e s3]|]; [|done]. cbn [mbind option_bind]. by intros [= -> ->].
  - destruct (scan_unsigned n c r) as (d & s & E & Hd & Hu); [lia|done|]. rewrite E in *. rewrite app_cons in *.
    assert (Hcases : d = 1 \/ d = 2 \/ d = 3 \/ d = 4 \/ d = 5 \/ d = 6 \/ d = 7 \/ d = 8 \/ d = 9) by lia.
    generalize dependent (s +:+ String c r). intros u Hu.
    assert (Hv : value (S fuel) depth (String (digit_char d) u) = ('(n, r) ← ('(i, s) ← scan_integer (String (digit_char d) u);
        '(f, s) ← scan_fraction s; '(e, s) ← scan_exponent s; Some (i +:+ f +:+ e, s)); Some (JNum n, r))).
    { clear -Hcases. by repeat destruct Hcases as [->|Hcases]; [..|subst]. }
    by rewrite Hv, Hu.
Qed.

(** ** Texts that are read, whatever the tree *)

Definition readable (h : Z) (text : string) : Prop := exists v, reads_as h text v.

Lemma object_readable h (l : list (string * string)) :
  l <> [] -> Forall (fun x => plain x.1 /\ readable h x.2) l -> 0 <= h -> readable (h + 1) (object l).
Proof.
  intros Hne Hl Hh. assert (H : exists m : list member, l = fst <$> m /\ Forall (member_ok h) m).
  { clear Hne. induction Hl as [|[k t] l [Hk [v Hv]] Hl (m & -> & Hm)]; [by exists []|].
    exists ((k, t, v) :: m). split; [done|]. by apply Forall_cons. }
  destruct H as (m & -> & Hm). exists (tree m). apply object_reads; [by destruct m|done|done].
Qed.

(** ** What a decoder stores *)

(** Every literal of the tree is one the scanner accepted. *)
Fixpoint well_read (v : json) : Prop :=
  match v with
  | JStr raw => literal raw
  | JArr l => fold_right (fun x P => well_read x /\ P) True l
  | JObj l => fold_right (fun x P => well_read x.2 /\ P) True l
  | _ => True
  end.

Lemma word_well_read w v s x r : well_read v -> word w v s = Some (x, r) -> well_read x.
Proof. unfold word. destruct (String.prefix w s); [|done]. by intros Hv [= <- _]. Qed.

Lemma value_well_read fuel :
  (forall depth s v r, value fuel depth s = Some (v, r) -> well_read v)
  /\ (forall depth s l r, object_members fuel depth s = Some (l, r) -> well_read (JObj l))
  /\ (forall depth s l r, elements fuel depth s = Some (l, r) -> well_read (JArr l)).
Proof.
  induction fuel as [|fuel (IHv & IHm & IHe)]; [done|]. split_and!.
  - intros depth s v r. cbn [value]. destruct (skip s) as [|c t]; [done|]. intros H.
    destruct (c == "{"%char); [|destruct (c == "["%char); [|destruct (c == dquote);
      [|destruct (c == "t"%char); [|destruct (c == "f"%char); [|destruct (c == "n"%char)]]]]].
    + destruct (max_depth <=? depth); [done|].
      assert (Hm : forall u, ('(l, r) ← object_members fuel (depth + 1) u; Some (JObj l, r)) = Some (v, r) -> well_read v).
      { intros u Hu. destruct (object_members _ _ u) as [[l r']|] eqn:E; [|done]. injection Hu as <- <-. by eapply IHm. }
      revert H. destruct (skip t) as [|d u]; [apply Hm|].
      destruct (decide (d = "}"%char)) as [->|Hd]; [by intros [= <- _]|].
      destruct d as [[] [] [] [] [] [] [] []]; first [done|apply Hm].
    + destruct (max_depth <=? depth); [done|].
      assert (Hm : forall u, ('(l, r) ← elements fuel (depth + 1) u; Some (JArr l, r)) = Some (v, r) -> well_read v).
      { intros u Hu. destruct (elements _ _ u) as [[l r']|] eqn:E; [|done]. injection Hu as <- <-. by eapply IHe. }
      revert H. destruct (skip t) as [|d u]; [apply Hm|].
      destruct (decide (d = "]"%char)) as [->|Hd]; [by intros [= <- _]|].
      destruct d as [[] [] [] [] [] [] [] []]; first [done|apply Hm].
    + destruct (scan_string t) as [[raw r']|] eqn:E; [|done]. injection H as <- <-. by eapply scan_literal.
    + by eapply word_well_read in H.
    + by eapply word_well_read in H.
    + by eapply word_well_read in H.
    + destruct (scan_number _) as [[n r']|]; [|done]. by injection H as <- <-.
  - intros depth s l r. cbn [object_members]. destruct (skip s) as [|c t]; [done|]. intros H.
    destruct (c == dquote); [|done]. destruct (scan_string t) as [[key u]|]; [|done]. cbn [mbind option_bind] in H.
    destruct (skip u) as [|d u']; [done|].
    destruct (decide (d = ":"%char)) as [->|Hd];
      [|destruct d as [[] [] [] [] [] [] [] []]; done].
    destruct (value fuel depth u') as [[v w]|] eqn:Ev; [|done]. cbn [mbind option_bind] in H.
    apply IHv in Ev. destruct (skip w) as [|d w']; [done|].
    destruct (decide (d = ","%char)) as [->|Hd1].
    + destruct (object_members fuel depth w') as [[l' r']|] eqn:Em; [|done]. injection H as <- <-.
      split; [done|]. by apply IHm in Em.
    + destruct (decide (d = "}"%char)) as [->|Hd2]; [by injection H as <- _|].
      destruct d as [[] [] [] [] [] [] [] []]; done.
  - intros depth s l r. cbn [elements]. intros H.
    destruct (value fuel depth s) as [[v w]|] eqn:Ev; [|done]. cbn [mbind option_bind] in H.
    apply IHv in Ev. destruct (skip w) as [|d w']; [done|].
    destruct (decide (d = ","%char)) as [->|Hd1].
    + destruct (elements fuel depth w') as [[l' r']|] eqn:Em; [|done]. injection H as <- <-.
      split; [done|]. by apply IHe in Em.
    + destruct (decide (d = "]"%char)) as [->|Hd2]; [by injection H as <- _|].
      destruct d as [[] [] [] [] [] [] [] []]; done.
Qed.

(** A decoder keeps a property of the place it stores into. *)
Definition keeps {A} (P : A -> Prop) (d : decoder A) : Prop :=
  forall v a b, well_read v -> P a -> d v a = Some b -> P b.

Lemma string_keeps : keeps utf8 into_string.
Proof. intros v a a' Hv Ha H; destruct v; try done; injection H as <-; [done|by apply unquote_valid]. Qed.

Lemma field_keeps {A B} (P : A -> Prop) (Q : B -> Prop) get set (d : decoder B) :
  keeps Q d -> (forall a, P a -> Q (get a)) -> (forall a b, P a -> Q b -> P (set b a)) -> keeps P (field get set d).
Proof.
  intros Hd Hg Hs v a b Hv Ha. unfold field. destruct (d v (get a)) as [x|] eqn:E; [|done]. intros [= <-].
  apply Hs; [done|]. eapply Hd; [exact Hv|by apply Hg|exact E].
Qed.

Lemma struct_keeps {A} (P : A -> Prop) strict (fs : fields A) :
  Forall (fun f => keeps P f.2) fs -> keeps P (into_struct strict fs).
Proof.
  intros Hf v a b Hv Ha. unfold into_struct. destruct v as [| | | | |l]; try done; [by intros [= <-]|].
  revert a Ha. induction l as [|[k v] l IH]; intros a Ha; [by intros [= <-]|]. destruct Hv as [Hv Hl].
  cbn [store_members]. destruct (find_field (unquote k) fs) as [d|] eqn:Ed.
  - assert (Hd : keeps P d).
    { rewrite Forall_forall in Hf. unfold find_field in Ed.
      destruct (List.find _ fs) as [f|] eqn:E1 in Ed.
      - injection Ed as <-. apply Hf. apply List.find_some in E1 as [E1 _]. by apply list_elem_of_In.
      - destruct (List.find _ fs) as [f|] eqn:E2 in Ed; [|done]. injection Ed as <-. apply Hf.
        apply List.find_some in E2 as [E2 _]. by apply list_elem_of_In. }
    destruct (d v a) as [a'|] eqn:E; [|done]. apply IH; [done|]. by eapply Hd.
  - destruct strict; [done|]. by apply IH.
Qed.

Lemma Unmarshal_keeps {A} (P : A -> Prop) (d : decoder A) data zero a :
  keeps P d -> P zero -> Unmarshal d data zero = Some a -> P a.
Proof.
  intros Hd Hz. unfold Unmarshal, parse. destruct (value _ _ _) as [[v r]|] eqn:Ev; [|done]. cbn.
  destruct (_ == ""); [|done]. cbn. intros H. eapply Hd; [|exact Hz|exact H]. by eapply value_well_read.
Qed.
