(* ===== verification/MediaType.v ===== *)
(** * Headers: what [net/http] handlers read of them

    [mime.ParseMediaType], [strings.Fields] and the case folding the HTTP
    adapter applies to its headers. *)

From Stdlib Require Import Ascii.
From S2P Require Import Prelude GoStd Codec JsonText.
Import Str Json.

(** ** Case *)

Definition lower_char (c : ascii) : ascii :=
  let n := N_of_ascii c in
  if (65 <=? n)%N && (n <=? 90)%N then ascii_of_N (n + 32) else c.

(** [strings.ToLower], exact on ASCII and on the two other runes whose lower
    case is ASCII (U+0130 is [i], U+212A is [k]); any other rune is left as it
    is, and a text that holds one equals no ASCII constant. *)
Fixpoint ToLower (s : string) : string :=
  match s with
  | String c1 s1 =>
      match s1 with
      | String c2 s2 =>
          if (code c1 =? 196) && (code c2 =? 176) then String "i" (ToLower s2)
          else
            match s2 with
            | String c3 s3 =>
                if (code c1 =? 226) && (code c2 =? 132) && (code c3 =? 170)
                then String "k" (ToLower s3)
                else String (lower_char c1) (ToLower s1)
            | EmptyString => String (lower_char c1) (ToLower s1)
            end
      | EmptyString => String (lower_char c1) (ToLower s1)
      end
  | EmptyString => ""
  end.

Fixpoint ascii_lower (s : string) : string :=
  match s with String c r => String (lower_char c) (ascii_lower r) | EmptyString => "" end.

(** [strings.EqualFold(s, t)] for an ASCII [t] without [k] or [s]: no other
    rune folds to one of its letters. *)
Definition EqualFold (s t : string) : bool := ascii_lower s == ascii_lower t.

(** ** [strings.Fields] *)

(** Each round consumes a character of the fuel; [cur] is the field so far,
    reversed. *)
Fixpoint fields_from (fuel : nat) (cur s : string) : list string :=
  let flush := if cur == "" then [] else [reverse cur] in
  match fuel, s with
  | S fuel, String c r =>
      match strip_any space_runes s with
      | Some rest => flush ++ fields_from fuel "" rest
      | None => fields_from fuel (String c cur) r
      end
  | _, _ => flush
  end.
Definition Fields (s : string) : list string := fields_from (len s) "" s.

Example fields_example : Fields " Bearer   abc " = ["Bearer"; "abc"].
Proof. vm_compute. reflexivity. Qed.

(** [strings.TrimLeftFunc(s, unicode.IsSpace)]. *)
Definition TrimLeftSpace (s : string) : string := trim_start (len s) space_runes s.

(** ** [mime.ParseMediaType]: the media type, [None] on an error *)

Definition isTSpecial (c : ascii) : bool :=
  existsb (fun d => c == d) ["("; ")"; "<"; ">"; "@"; ","; ";"; ":"; bslash; dquote; "/"; "["; "]"; "?"; "="]%char.
Definition isTokenChar (c : ascii) : bool := (32 <? code c) && (code c <? 127) && negb (isTSpecial c).

Fixpoint consumeToken (s : string) : string * string :=
  match s with
  | String c r =>
      if isTokenChar c then let '(t, rest) := consumeToken r in (String c t, rest) else ("", s)
  | EmptyString => ("", "")
  end.

(** After the opening quote of a quoted string. *)
Fixpoint quoted (s : string) : option (string * string) :=
  match s with
  | EmptyString => None
  | String c r =>
      if c == dquote then Some ("", r)
      else
        let plain :=
          if (code c =? 13) || (code c =? 10) then None
          else '(v, rest) ← quoted r; Some (String c v, rest) in
        if c == bslash then
          match r with
          | String d r' =>
              if isTSpecial d then '(v, rest) ← quoted r'; Some (String d v, rest) else plain
          | EmptyString => plain
          end
        else plain
  end.

(** [None] where Go returns an empty value and the whole text. *)
Definition consumeValue (s : string) : option (string * string) :=
  match s with
  | String c r =>
      if c == dquote then quoted r
      else let '(t, rest) := consumeToken s in if t == "" then None else Some (t, rest)
  | EmptyString => None
  end.

Definition consumeMediaParam (v : string) : option (string * string * string) :=
  match TrimLeftSpace v with
  | String ";" r =>
      let '(param, rest) := consumeToken (TrimLeftSpace r) in
      if param == "" then None
      else match TrimLeftSpace rest with
           | String "=" r =>
               '(value, rest) ← consumeValue (TrimLeftSpace r);
               Some (ToLower param, value, rest)
           | _ => None
           end
  | _ => None
  end.

(** Each parameter consumes at least a character of the fuel; a parameter may
    be repeated with the same value only. *)
Fixpoint params_ok (fuel : nat) (seen : list (string * string)) (v : string) : bool :=
  match fuel with
  | O => true
  | S fuel =>
      let v := TrimLeftSpace v in
      if v == "" then true
      else match consumeMediaParam v with
           | None => TrimSpace v == ";"
           | Some (key, value, rest) =>
               match List.find (fun p => p.1 == key) seen with
               | Some p => (p.2 == value) && params_ok fuel seen rest
               | None => params_ok fuel ((key, value) :: seen) rest
               end
           end
  end.

Fixpoint cut_semicolon (s : string) : string * string :=
  match s with
  | String ";" _ => ("", s)
  | String c r => let '(b, rest) := cut_semicolon r in (String c b, rest)
  | EmptyString => ("", "")
  end.

Definition type_ok (s : string) : bool :=
  let '(type, rest) := consumeToken s in
  negb (type == "") &&
  match rest with
  | EmptyString => true
  | String "/" r => let '(subtype, rest) := consumeToken r in negb (subtype == "") && (rest == "")
  | _ => false
  end.

Definition ParseMediaType (v : string) : option string :=
  let '(base, rest) := cut_semicolon v in
  let mediatype := TrimSpace (ToLower base) in
  if type_ok mediatype && params_ok (S (len rest)) [] rest then Some mediatype else None.

Example media_plain : ParseMediaType "application/json" = Some "application/json".
Proof. vm_compute. reflexivity. Qed.
Example media_charset : ParseMediaType "Application/JSON; charset=utf-8;" = Some "application/json".
Proof. vm_compute. reflexivity. Qed.
Example media_broken : ParseMediaType "application/json; charset" = None.
Proof. vm_compute. reflexivity. Qed.
