(* ===== verification/Base64.v ===== *)
(** * [encoding/base64.RawURLEncoding]

    The URL alphabet without padding, and that decoding inverts encoding. *)

From Stdlib Require Import Ascii.
From S2P Require Import Prelude GoStd Codec.
Import Str Json.

Module Base64.
Definition byte (z : Z) : ascii := ascii_of_N (Z.to_N z).

(** [A-Z a-z 0-9 - _]. *)
Definition digit (v : Z) : ascii :=
  if v <? 26 then byte (v + 65) else if v <? 52 then byte (v + 71)
  else if v <? 62 then byte (v - 4) else if v <? 63 then "-"%char else "_"%char.

Definition value (c : ascii) : option Z :=
  let n := code c in
  if (65 <=? n) && (n <=? 90) then Some (n - 65)
  else if (97 <=? n) && (n <=? 122) then Some (n - 71)
  else if (48 <=? n) && (n <=? 57) then Some (n + 4)
  else if n =? 45 then Some 62 else if n =? 95 then Some 63 else None.

(** Three bytes are four digits; the last one or two bytes, two or three. *)
Fixpoint encode_bytes (l : list Z) : list Z :=
  match l with
  | a :: b :: c :: l =>
      a / 4 :: 16 * (a mod 4) + b / 16 :: 4 * (b mod 16) + c / 64 :: c mod 64 :: encode_bytes l
  | [a; b] => [a / 4; 16 * (a mod 4) + b / 16; 4 * (b mod 16)]
  | [a] => [a / 4; 16 * (a mod 4)]
  | [] => []
  end.

Fixpoint decode_digits (l : list Z) : option (list Z) :=
  match l with
  | a :: b :: c :: d :: l =>
      l ← decode_digits l;
      Some (4 * a + b / 16 :: 16 * (b mod 16) + c / 4 :: 64 * (c mod 4) + d :: l)
  | [a; b; c] => Some [4 * a + b / 16; 16 * (b mod 16) + c / 4]
  | [a; b] => Some [4 * a + b / 16]
  | [_] => None
  | [] => Some []
  end.

Definition of_bytes (l : list Z) : string := String.string_of_list_ascii (byte <$> l).
Definition to_bytes (s : string) : list Z := code <$> String.list_ascii_of_string s.

Definition encode (s : string) : string :=
  String.string_of_list_ascii (digit <$> encode_bytes (to_bytes s)).

(** Line breaks are skipped. *)
Definition line_break (c : ascii) : bool := (code c =? 10) || (code c =? 13).
Definition decode (s : string) : option string :=
  digits ← mapM value (List.filter (fun c => negb (line_break c)) (String.list_ascii_of_string s));
  of_bytes <$> decode_digits digits.

Example encode_foob : encode "foob" = "Zm9vYg".
Proof. vm_compute. reflexivity. Qed.
Example decode_padding : decode "Zm9vYg==" = None.
Proof. vm_compute. reflexivity. Qed.

Definition is_byte (z : Z) : Prop := 0 <= z < 256.

Lemma digits_range l : Forall is_byte l -> Forall (fun v => 0 <= v < 64) (encode_bytes l).
Proof.
  revert l. fix IH 1. intros [|a [|b [|c l]]] H; cbn; rewrite ?Forall_cons, ?Forall_nil in *; unfold is_byte in *.
  - done.
  - split_and!; try done; Z.to_euclidean_division_equations; lia.
  - split_and!; try done; Z.to_euclidean_division_equations; lia.
  - destruct H as (? & ? & ? & H). split_and!; [try (Z.to_euclidean_division_equations; lia)..|by apply IH].
Qed.

Lemma decode_encoded l : Forall is_byte l -> decode_digits (encode_bytes l) = Some l.
Proof.
  revert l. fix IH 1. intros [|a [|b [|c l]]] H; cbn; rewrite ?Forall_cons, ?Forall_nil in *; unfold is_byte in *.
  - done.
  - do 2 f_equal. Z.to_euclidean_division_equations; lia.
  - do 2 f_equal; [|f_equal]; Z.to_euclidean_division_equations; lia.
  - destruct H as (? & ? & ? & H). rewrite IH by done. cbn. repeat f_equal; Z.to_euclidean_division_equations; lia.
Qed.

Lemma value_digit v : 0 <= v < 64 -> value (digit v) = Some v /\ line_break (digit v) = false.
Proof.
  intros Hv. assert (H : forallb (fun n => bool_decide (value (digit (Z.of_nat n)) = Some (Z.of_nat n))
    && negb (line_break (digit (Z.of_nat n)))) (seq 0 64) = true) by (vm_compute; reflexivity).
  rewrite forallb_forall in H. specialize (H (Z.to_nat v)). rewrite Z2Nat.id in H by lia.
  assert (Hin : In (Z.to_nat v) (seq 0 64)) by (apply in_seq; lia). specialize (H Hin). by bools.
Qed.

Lemma byte_code c : byte (code c) = c.
Proof. unfold byte, code. by rewrite N2Z.id, ascii_N_embedding. Qed.

Lemma code_range c : is_byte (code c).
Proof. unfold is_byte, code. pose proof (N_ascii_bounded c). lia. Qed.

Lemma of_to_bytes s : of_bytes (to_bytes s) = s.
Proof.
  unfold of_bytes, to_bytes. rewrite <- list_fmap_compose. 
  rewrite <- (String.string_of_list_ascii_of_string s) at 2. f_equal.
  induction (String.list_ascii_of_string s) as [|c l IH]; [done|]. cbn. by rewrite byte_code, IH.
Qed.

Lemma text_roundtrip s : decode (encode s) = Some s.
Proof.
  unfold decode, encode. rewrite String.list_ascii_of_string_of_list_ascii.
  assert (Hb : Forall is_byte (to_bytes s)).
  { apply Forall_fmap, Forall_true. intros c. apply code_range. }
  pose proof (digits_range _ Hb) as Hd. pose proof (decode_encoded _ Hb) as He.
  assert (Hm : mapM value (List.filter (fun c => negb (line_break c)) (digit <$> encode_bytes (to_bytes s)))
    = Some (encode_bytes (to_bytes s))).
  { clear He. induction Hd as [|v l Hv Hd IH]; [done|]. destruct (value_digit v Hv) as [H1 H2].
    cbn. rewrite H2. cbn. rewrite H1. cbn. by rewrite IH. }
  rewrite Hm. cbn. rewrite He. cbn. by rewrite of_to_bytes.
Qed.

Lemma encode_bytes_length l : (length l <= length (encode_bytes l) <= 2 * length l)%nat.
Proof. revert l. fix IH 1. intros [|a [|b [|c l]]]; cbn; [lia..|]. specialize (IH l). lia. Qed.

Lemma encoded_length s : (len s <= len (encode s) <= 2 * len s)%nat.
Proof.
  unfold encode. rewrite Sha256.string_of_list_length, length_fmap.
  pose proof (encode_bytes_length (to_bytes s)) as H. unfold to_bytes in *. rewrite length_fmap in H.
  replace (length (String.list_ascii_of_string s)) with (len s) in H; [done|].
  clear H. induction s as [|c s IH]; [done|]. cbn. by rewrite IH.
Qed.
End Base64.
