(* ===== verification/Errors.v ===== *)
(** * Errors: [internal/domain/errors.go], [application.Error] and [dbError]

    A Go [error] is a chain of wrapped errors.  [errors.As] looks for the first
    error of a type along the chain. *)

From S2P Require Import Prelude GoStd.

Inductive GoError : Type :=
| DomainError (code message : string)      (* *domain.Error *)
| AppError (code : string)                 (* *application.Error *)
| NoRows                                   (* pgx.ErrNoRows *)
| PgError (sqlstate constraint : string)   (* *pgconn.PgError *)
| OtherError (text : string)               (* anything else: I/O, context, ... *)
| Wrapped (text : string) (e : GoError).   (* fmt.Errorf(text + ": %w", e) *)

#[global] Instance GoError_eq_dec : EqDecision GoError.
Proof. solve_decision. Defined.

Notation res := (result GoError).

(** [invalid(code, message)]. *)
Definition invalid (code message : string) : GoError := DomainError code message.

Definition CodeInvalidMoney := "INVALID_MONEY".
Definition CodeInvalidCurrency := "INVALID_CURRENCY".
Definition CodeInvalidAmount := "INVALID_AMOUNT".
Definition CodeInvalidScale := "INVALID_SCALE".
Definition CodeOverflow := "OVERFLOW".
Definition CodeInvalidID := "INVALID_ID".
Definition CodeInvalidWallet := "INVALID_WALLET".
Definition CodeInvalidWager := "INVALID_WAGER".
Definition CodeInvalidState := "INVALID_STATE".
Definition CodeInvalidLedger := "INVALID_LEDGER".
Definition CodeInvalidEvent := "INVALID_EVENT".
Definition CodeInsufficientFunds := "INSUFFICIENT_FUNDS".
Definition CodeInsufficientFundsForReversal := "INSUFFICIENT_FUNDS_FOR_REVERSAL".
Definition CodeCurrencyMismatch := "CURRENCY_MISMATCH".
Definition CodeReferenceNotFound := "REFERENCE_NOT_FOUND".
Definition CodeReferenceNotProcessed := "REFERENCE_NOT_PROCESSED".
Definition CodeReferenceMismatch := "REFERENCE_MISMATCH".
Definition CodeReferenceAlreadyReversed := "REFERENCE_ALREADY_REVERSED".
Definition CodeInvalidAmountForKind := "INVALID_AMOUNT_FOR_KIND".
Definition CodeIdempotencyKeyReused := "IDEMPOTENCY_KEY_REUSED".
Definition CodeExternalTransactionIDReused := "EXTERNAL_TRANSACTION_ID_REUSED".

(** [errors.As(err, &e)] for the three concrete types and [errors.Is(err, pgx.ErrNoRows)]. *)
Fixpoint as_app (e : GoError) : option string :=
  match e with AppError c => Some c | Wrapped _ e => as_app e | _ => None end.
Fixpoint as_domain (e : GoError) : option string :=
  match e with DomainError c _ => Some c | Wrapped _ e => as_domain e | _ => None end.
Fixpoint as_pg (e : GoError) : option (string * string) :=
  match e with PgError s c => Some (s, c) | Wrapped _ e => as_pg e | _ => None end.
Fixpoint is_no_rows (e : GoError) : bool :=
  match e with NoRows => true | Wrapped _ e => is_no_rows e | _ => false end.

(** [application.Code]. *)
Definition Code (err : GoError) : string :=
  match as_app err with
  | Some c => c
  | None => match as_domain err with Some c => c | None => "UNAVAILABLE" end
  end.

(** [postgres.dbError]. *)
Definition dbError (err : GoError) : GoError :=
  if is_no_rows err then AppError "NOT_FOUND"
  else match as_pg err with
       | Some (s, c) =>
           if (s == "23505") && (c == "wallet_player_currency_key")
           then AppError "WALLET_ALREADY_EXISTS"
           else Wrapped "postgres operation" err
       | None => Wrapped "postgres operation" err
       end.

(** Go's [if err != nil { return dbError(err) }]. *)
Definition db_wrap {A} (r : res A) : res A :=
  match r with Ok a => Ok a | Err e => Err (dbError e) end.

Lemma as_domain_dbError e : is_no_rows e = false -> as_pg e = None ->
  as_domain (dbError e) = as_domain e.
Proof. unfold dbError. by intros -> ->. Qed.

Lemma Code_dbError_domain c m : Code (dbError (DomainError c m)) = c.
Proof. done. Qed.
