(* ===== verification/Ident.v ===== *)
(** * Identities: [internal/domain/id.go]

    [ID] and its five nominal variants are 16-byte arrays; Go converts between
    them without change, so all are the type [ID] here. *)

From S2P Require Import Prelude GoStd Errors.
From Stdlib Require Import Ascii.

Record ID : Type := mkID {
  id_bytes : string;
  id_len : (String.length id_bytes =? 16)%nat = true
}.
Notation WalletID := ID.
Notation WagerTransactionID := ID.
Notation LedgerEntryID := ID.
Notation EventID := ID.
Notation PlayerID := ID.

Lemma ID_eq (a b : ID) : id_bytes a = id_bytes b -> a = b.
Proof.
  destruct a as [a Ha], b as [b Hb]; cbn; intros ->.
  f_equal. apply (proof_irrel Ha Hb).
Qed.

#[global] Instance ID_eq_dec : EqDecision ID.
Proof.
  intros a b. destruct (decide (id_bytes a = id_bytes b)) as [E|E];
    [left; by apply ID_eq|right; by intros ->].
Defined.

Definition ID_of_bytes (b : string) : option ID :=
  match bool_dec (String.length b =? 16)%nat true with
  | left H => Some (mkID b H)
  | right _ => None
  end.

#[global] Program Instance ID_countable : Countable ID :=
  inj_countable id_bytes ID_of_bytes _.
Next Obligation.
  intros [b Hb]; cbn. unfold ID_of_bytes.
  destruct (bool_dec _ _); [|congruence]. f_equal. by apply ID_eq.
Qed.

(** The zero value [ID{}]. *)
Definition zeroID : ID := mkID (Str.bytes (replicate 16 0)) eq_refl.

(** [ID.String]. *)
Definition ID_String (id : ID) : string :=
  let b := id_bytes id in
  Hex.encode (String.substring 0 4 b) +:+ "-" +:+
  Hex.encode (String.substring 4 2 b) +:+ "-" +:+
  Hex.encode (String.substring 6 2 b) +:+ "-" +:+
  Hex.encode (String.substring 8 2 b) +:+ "-" +:+
  Hex.encode (String.substring 10 6 b).

(** [ID.MarshalText]. *)
Definition ID_MarshalText (id : ID) : res string := Ok (ID_String id).

Definition compact_uuid (value : string) : string :=
  String.substring 0 8 value +:+ String.substring 9 4 value +:+
  String.substring 14 4 value +:+ String.substring 19 4 value +:+
  String.substring 24 (String.length value - 24) value.

Definition ParseID (value : string) : res ID :=
  if negb (String.length value =? 36)%nat
     || (String.get 8 value != Some "-"%char) || (String.get 13 value != Some "-"%char)
     || (String.get 18 value != Some "-"%char) || (String.get 23 value != Some "-"%char)
  then Err (invalid CodeInvalidID "expected canonical UUID")
  else
    match Hex.decode (compact_uuid value) ≫= ID_of_bytes with
    | Some id =>
        if id == zeroID then Err (invalid CodeInvalidID "UUID must be nonzero hexadecimal")
        else Ok id
    | None => Err (invalid CodeInvalidID "UUID must be nonzero hexadecimal")
    end.

(** ** Lemmas *)

Lemma ID_of_bytes_Some b id : ID_of_bytes b = Some id -> id_bytes id = b.
Proof. unfold ID_of_bytes. destruct (bool_dec _ _); [|done]. by intros [= <-]. Qed.

Lemma ID_of_bytes_id id : ID_of_bytes (id_bytes id) = Some id.
Proof.
  unfold ID_of_bytes. destruct (bool_dec _ _) as [H|H]; [|by destruct id].
  f_equal. by apply ID_eq.
Qed.

(** A 16-byte string, spelled out. *)
Ltac split_string16 b H :=
  do 16 (destruct b as [|? b]; [done|]); destruct b; [|done].

Lemma ID_String_shape id :
  String.length (ID_String id) = 36%nat
  /\ String.get 8 (ID_String id) = Some "-"%char
  /\ String.get 13 (ID_String id) = Some "-"%char
  /\ String.get 18 (ID_String id) = Some "-"%char
  /\ String.get 23 (ID_String id) = Some "-"%char
  /\ compact_uuid (ID_String id) = Hex.encode (id_bytes id).
Proof. destruct id as [b Hb]. split_string16 b Hb. split_and!; reflexivity. Qed.

Lemma ParseID_String id : id <> zeroID -> ParseID (ID_String id) = Ok id.
Proof.
  intros Hz. destruct (ID_String_shape id) as (H1 & H2 & H3 & H4 & H5 & H6).
  unfold ParseID. rewrite H1, H2, H3, H4, H5, H6, Hex.decode_encode, !bool_decide_refl.
  cbn [negb orb Nat.eqb mbind option_bind].
  by rewrite ID_of_bytes_id, bool_decide_eq_false_2.
Qed.

Lemma ParseID_nonzero s id : ParseID s = Ok id -> id <> zeroID.
Proof.
  unfold ParseID. destruct (_ || _); [done|].
  destruct (_ ≫= _); [|done]. case_bool_decide; [done|]. by intros [= <-].
Qed.

(** Parsing is idempotent through the canonical rendering. *)
Lemma ParseID_canonical s id : ParseID s = Ok id -> ParseID (ID_String id) = Ok id.
Proof. intros H. eapply ParseID_String, ParseID_nonzero, H. Qed.

#[global] Instance ID_String_inj : Inj (=) (=) ID_String.
Proof.
  intros a b E.
  destruct (ID_String_shape a) as (_ & _ & _ & _ & _ & Ha).
  destruct (ID_String_shape b) as (_ & _ & _ & _ & _ & Hb).
  rewrite E, Hb in Ha. apply (f_equal Hex.decode) in Ha.
  rewrite !Hex.decode_encode in Ha. apply ID_eq. congruence.
Qed.
