(* ===== verification/Money.v ===== *)
(** * Money: [internal/domain/money.go]

    Signed 64-bit minor units with a currency.  Arithmetic is checked before it
    is done, so no operation ever wraps; parsing and printing are exact. *)

From S2P Require Import Prelude GoStd Errors.
From Stdlib Require Import Ascii.
Import Int64 Str Strconv.

Record Money : Type := mkMoney { minor : Z; currency : string }.

#[global] Instance Money_eq_dec : EqDecision Money.
Proof. solve_decision. Defined.

(** Go's zero value, which no constructor returns. *)
Definition Money0 : Money := mkMoney 0 "".

Definition validCurrency (currency : string) : bool :=
  (currency == "BRL") || (currency == "USD") || (currency == "EUR").

Definition NewMoney (minor : Z) (currency : string) : res Money :=
  if negb (validCurrency currency)
  then Err (invalid CodeInvalidCurrency "unsupported ISO 4217 currency")
  else Ok (mkMoney minor currency).

Definition Zero (currency : string) : res Money := NewMoney 0 currency.

(** The loop over the parts of the amount: the first offending part decides
    the message, the code is the same. *)
Fixpoint check_parts (parts : list string) : res unit :=
  match parts with
  | [] => Ok tt
  | part :: rest =>
      if part == "" then Err (invalid CodeInvalidAmount "expected decimal digits")
      else if negb (all_chars is_digit part)
      then Err (invalid CodeInvalidAmount "expected unsigned decimal amount")
      else check_parts rest
  end.

(** Ranging over runes rejects exactly the parts that ranging over bytes does:
    a byte that is no ASCII digit belongs to a rune that is none. *)
Definition ParseMoney (amount currency : string) : res Money :=
  if negb (validCurrency currency)
  then Err (invalid CodeInvalidCurrency "unsupported ISO 4217 currency")
  else if amount == "" then Err (invalid CodeInvalidAmount "amount is required")
  else
    let parts := Split "."%char amount in
    let part0 := default "" (parts !! 0%nat) in
    if (2 <? Z.of_nat (length parts)) || (part0 == "")
    then Err (invalid CodeInvalidAmount "expected unsigned decimal amount")
    else
      _ ← check_parts parts;
      fraction ←
        match parts !! 1%nat with
        | Some part1 =>
            if 2 <? Z.of_nat (len part1)
            then Err (invalid CodeInvalidScale "at most two fractional digits allowed")
            else Ok (if (len part1 =? 1)%nat then part1 +:+ "0" else part1)
        | None => Ok "00"
        end;
      let digits := TrimLeft "0"%char (part0 +:+ fraction) in
      let parsed := ParseInt digits in
      if digits == "" then Zero currency
      else match parsed with
           | Err _ => Err (invalid CodeOverflow "amount exceeds int64 minor units")
           | Ok minor => NewMoney minor currency
           end.

Definition Valid (m : Money) : bool := validCurrency (currency m).

Definition check (m other : Money) : res unit :=
  if negb (Valid m) || negb (Valid other)
  then Err (invalid CodeInvalidMoney "uninitialized monetary value")
  else if currency m != currency other
  then Err (invalid CodeCurrencyMismatch "currencies must match")
  else Ok tt.

Definition Add (m other : Money) : res Money :=
  _ ← check m other;
  if ((0 <? minor other) && (Int64.sub MaxInt64 (minor other) <? minor m))
     || ((minor other <? 0) && (minor m <? Int64.sub MinInt64 (minor other)))
  then Err (invalid CodeOverflow "monetary addition overflows")
  else NewMoney (Int64.add (minor m) (minor other)) (currency m).

Definition Subtract (m other : Money) : res Money :=
  _ ← check m other;
  if ((0 <? minor other) && (minor m <? Int64.add MinInt64 (minor other)))
     || ((minor other <? 0) && (Int64.add MaxInt64 (minor other) <? minor m))
  then Err (invalid CodeOverflow "monetary subtraction overflows")
  else NewMoney (Int64.sub (minor m) (minor other)) (currency m).

Definition Negate (m : Money) : res Money :=
  if negb (Valid m) then Err (invalid CodeInvalidMoney "uninitialized monetary value")
  else if minor m =? MinInt64
  then Err (invalid CodeOverflow "monetary negation overflows")
  else NewMoney (Int64.neg (minor m)) (currency m).

Definition Compare (m other : Money) : res Z :=
  _ ← check m other;
  if minor m <? minor other then Ok (-1)
  else if minor other <? minor m then Ok 1
  else Ok 0.

(** The loop [for len(s) < 3 { s = "0" + s }]: three rounds reach length 3. *)
Fixpoint pad3 (fuel : nat) (s : string) : string :=
  match fuel with
  | O => s
  | S fuel => if (len s <? 3)%nat then pad3 fuel (String "0" s) else s
  end.

Definition Money_String (m : Money) : string :=
  if negb (Valid m) then "<invalid money>"
  else
    let s := FormatInt (minor m) in
    let '(prefix, s) :=
      match s with
      | String "-" s' => ("-", s')
      | _ => ("", s)
      end in
    let s := pad3 3 s in
    prefix +:+ String.substring 0 (len s - 2) s +:+ "." +:+ String.substring (len s - 2) 2 s.

(** [MarshalJSON]: the amount is the canonical text, never a JSON number. *)
Definition Money_MarshalJSON (m : Money) : res (string * string) :=
  if negb (Valid m)
  then Err (invalid CodeInvalidMoney "cannot serialize uninitialized money")
  else Ok (Money_String m, currency m).

(** ** Specification of amounts *)

(** The decimal texts the engine accepts, each with the hundredths it denotes:
    digits, then at most two fractional digits. *)
Inductive amount_text : string -> Z -> Prop :=
| amount_whole w :
    w <> "" -> all_chars is_digit w = true ->
    amount_text w (100 * dec_value 0 w)
| amount_tenths w d :
    w <> "" -> all_chars is_digit w = true -> is_digit d = true ->
    amount_text (w +:+ String "." (String d "")) (100 * dec_value 0 w + 10 * digit_val d)
| amount_cents w d e :
    w <> "" -> all_chars is_digit w = true -> is_digit d = true -> is_digit e = true ->
    amount_text (w +:+ String "." (String d (String e "")))
      (100 * dec_value 0 w + 10 * digit_val d + digit_val e).

Definition valid_money (m : Money) : Prop :=
  Valid m = true /\ Int64.in_range (minor m).

Lemma check_parts_Ok parts :
  check_parts parts = Ok tt <->
  Forall (fun p => p <> "" /\ all_chars is_digit p = true) parts.
Proof.
  induction parts as [|p ps IH]; cbn; [done|]. rewrite Forall_cons, <- IH.
  case_bool_decide; [naive_solver|].
  destruct (all_chars is_digit p) eqn:E; cbn; naive_solver.
Qed.

Lemma check_parts_Err parts e :
  check_parts parts = Err e -> as_domain e = Some CodeInvalidAmount.
Proof.
  induction parts as [|p ps IH]; cbn; [done|].
  case_bool_decide; [by intros [= <-]|].
  destruct (all_chars is_digit p); cbn; [done|]. by intros [= <-].
Qed.

(** The money of [v] minor units, if [v] fits. *)
Definition capped (v : Z) (currency : string) : res Money :=
  if bool_decide (v <= MaxInt64) then Ok (mkMoney v currency)
  else Err (invalid CodeOverflow "amount exceeds int64 minor units").

(** What [ParseMoney] does with a whole part and a two-digit fraction that
    passed the checks. *)
Lemma parse_digits s currency :
  validCurrency currency = true -> all_chars is_digit s = true ->
  (let digits := TrimLeft "0"%char s in
   if digits == "" then Zero currency
   else match ParseInt digits with
        | Err _ => Err (invalid CodeOverflow "amount exceeds int64 minor units")
        | Ok minor => NewMoney minor currency
        end)
  = capped (dec_value 0 s) currency.
Proof.
  intros Hc Hs. cbv zeta. unfold capped.
  pose proof (dec_value_nonneg 0 s ltac:(lia) Hs) as Hnn.
  case_bool_decide as Hz.
  - apply TrimLeft_zero in Hz; [|done]. rewrite Hz, bool_decide_eq_true_2 by done.
    unfold Zero, NewMoney. by rewrite Hc.
  - rewrite ParseInt_digits by auto using TrimLeft_digits.
    rewrite TrimLeft_value.
    rewrite (bool_decide_ext _ (dec_value 0 s <= MaxInt64))
      by (unfold Int64.in_range, MinInt64; lia).
    case_bool_decide; [|done]. unfold NewMoney. by rewrite Hc.
Qed.

Lemma digit_dot : is_digit "."%char = false.
Proof. done. Qed.

Lemma Split_digits w : all_chars is_digit w = true -> Split "."%char w = [w].
Proof. intros. by apply Split_nosep, digits_nosep. Qed.

Lemma Split_digits_dot w f :
  all_chars is_digit w = true -> all_chars is_digit f = true ->
  Split "."%char (w +:+ String "." f) = [w; f].
Proof. intros. rewrite Split_sep, Split_digits; [done|done|by apply digits_nosep]. Qed.

Lemma digits_app2 w f :
  all_chars is_digit w = true -> all_chars is_digit f = true ->
  all_chars is_digit (w +:+ f) = true.
Proof. intros Hw Hf. by rewrite all_chars_app, Hw, Hf. Qed.

Lemma value_app2 w f :
  dec_value 0 (w +:+ f) = dec_value 0 w * 10 ^ Z.of_nat (len f) + dec_value 0 f.
Proof. by rewrite dec_value_app, dec_value_acc. Qed.

Lemma nonempty_app w t : w <> "" -> w +:+ t <> "".
Proof. by destruct w. Qed.

Lemma ParseMoney_split a c parts :
  validCurrency c = true -> a <> "" -> Split "."%char a = parts ->
  ParseMoney a c =
    let part0 := default "" (parts !! 0%nat) in
    if (2 <? Z.of_nat (length parts)) || (part0 == "")
    then Err (invalid CodeInvalidAmount "expected unsigned decimal amount")
    else
      _ ← check_parts parts;
      fraction ←
        match parts !! 1%nat with
        | Some part1 =>
            if 2 <? Z.of_nat (len part1)
            then Err (invalid CodeInvalidScale "at most two fractional digits allowed")
            else Ok (if (len part1 =? 1)%nat then part1 +:+ "0" else part1)
        | None => Ok "00"
        end;
      capped (dec_value 0 (part0 +:+ fraction)) c.
Proof.
  intros Hc Ha <-. unfold ParseMoney. rewrite Hc, (bool_decide_eq_false_2 (a = "")) by done.
  cbn [negb]. cbv zeta. destruct (_ || _) eqn:E0; [done|].
  destruct (check_parts _) as [[]|e] eqn:Ep; [|done]. rewrite !Ok_bind.
  apply check_parts_Ok in Ep. destruct (Split _ a) as [|w [|f [|]]] eqn:Es; cbn in *; bools.
  - done.
  - apply Forall_singleton in Ep as [_ Hw].
    by rewrite parse_digits by auto using digits_app2.
  - apply Forall_cons in Ep as [[_ Hw] [[_ Hf] _]%Forall_cons].
    destruct (2 <? _); [done|]. rewrite !Ok_bind.
    assert (all_chars is_digit (if (len f =? 1)%nat then f +:+ "0" else f) = true)
      by (case_match; auto using digits_app2).
    by rewrite parse_digits by auto using digits_app2.
  - lia.
Qed.

(** [ParseMoney] on an accepted text. *)
Lemma ParseMoney_amount a c v :
  validCurrency c = true -> amount_text a v -> ParseMoney a c = capped v c.
Proof.
  intros Hc Ha. inversion Ha as [w Hw Hd|w d Hw Hd H1|w d e Hw Hd H1 H2]; subst.
  - assert (check_parts [a] = Ok tt) as Hp by (apply check_parts_Ok; by repeat constructor).
    rewrite (ParseMoney_split _ _ [a]) by auto using Split_digits. cbv zeta.
    cbn [lookup list_lookup length default from_option id Z.of_nat Z.ltb orb].
    rewrite Hp, (bool_decide_eq_false_2 (a = "")), !Ok_bind, value_app2 by done.
    change (2 <? Z.of_nat 1) with false. cbn [orb].
    change (10 ^ Z.of_nat (len "00")) with 100. change (dec_value 0 "00") with 0.
    by replace (dec_value 0 a * 100 + 0) with (100 * dec_value 0 a) by lia.
  - assert (all_chars is_digit (String d "") = true) as Hf by (cbn; by rewrite H1).
    assert (check_parts [w; String d ""] = Ok tt) as Hp
      by (apply check_parts_Ok; by repeat constructor).
    rewrite (ParseMoney_split _ _ [w; String d ""])
      by auto using Split_digits_dot, nonempty_app. cbv zeta.
    cbn [lookup list_lookup length default from_option id].
    change (2 <? Z.of_nat 2) with false. change (2 <? Z.of_nat (len (String d ""))) with false.
    cbn [orb String.length Nat.eqb].
    rewrite Hp, (bool_decide_eq_false_2 (w = "")), !Ok_bind, value_app2 by done.
    change (String d "" +:+ "0") with (String d "0").
    change (10 ^ Z.of_nat (len (String d "0"))) with 100. cbn [dec_value].
    change (digit_val "0") with 0. f_equal. lia.
  - assert (all_chars is_digit (String d (String e "")) = true) as Hf
      by (cbn; by rewrite H1, H2).
    assert (check_parts [w; String d (String e "")] = Ok tt) as Hp
      by (apply check_parts_Ok; by repeat constructor).
    rewrite (ParseMoney_split _ _ [w; String d (String e "")])
      by auto using Split_digits_dot, nonempty_app. cbv zeta.
    cbn [lookup list_lookup length default from_option id].
    change (2 <? Z.of_nat 2) with false.
    change (2 <? Z.of_nat (len (String d (String e "")))) with false.
    cbn [orb String.length Nat.eqb].
    rewrite Hp, (bool_decide_eq_false_2 (w = "")), !Ok_bind, value_app2 by done.
    change (10 ^ Z.of_nat (len (String d (String e "")))) with 100. cbn [dec_value].
    f_equal. lia.
Qed.

(** [ParseMoney] succeeds on accepted texts only. *)
Lemma ParseMoney_inv a c m :
  ParseMoney a c = Ok m ->
  validCurrency c = true /\ exists v, amount_text a v /\ v <= MaxInt64 /\ m = mkMoney v c.
Proof.
  intros H. destruct (validCurrency c) eqn:Hc; [|unfold ParseMoney in H; by rewrite Hc in H].
  split; [done|].
  assert (a <> "") as Ha.
  { intros ->. unfold ParseMoney in H. by rewrite Hc in H. }
  assert (exists v, amount_text a v) as [v Hv].
  { rewrite (ParseMoney_split a c _ Hc Ha eq_refl) in H. cbv zeta in H.
    destruct (_ || _) eqn:E0 in H; [done|]. apply bind_Ok in H as ([] & Hp & H).
    apply check_parts_Ok in Hp.
    destruct (Split "."%char a) as [|w [|f [|]]] eqn:Es; cbn in E0, H; bools; [done| | |lia].
    - apply Split_one in Es as ->. apply Forall_singleton in Hp as [??].
      eexists; by constructor.
    - apply Split_two in Es as ->. apply Forall_cons in Hp as [[??] [[??] _]%Forall_cons].
      destruct (2 <? _) eqn:E2; [done|]. bools.
      destruct f as [|d [|e [|]]]; cbn in *; bools; [done| | |lia];
        eexists; by constructor. }
  exists v. split; [done|]. rewrite (ParseMoney_amount _ _ _ Hc Hv) in H. unfold capped in H.
  case_bool_decide; naive_solver.
Qed.

Lemma amount_text_nonneg a v : amount_text a v -> 0 <= v.
Proof.
  intros [w ? Hw|w d ? Hw Hd|w d e ? Hw Hd He]; pose proof (dec_value_nonneg 0 w ltac:(lia) Hw);
    repeat match goal with H : is_digit ?c = true |- _ =>
      apply digit_val_range in H end; lia.
Qed.

(** ** Rendering *)

Lemma pad3_spec s :
  all_chars is_digit s = true -> s <> "" ->
  all_chars is_digit (pad3 3 s) = true /\ dec_value 0 (pad3 3 s) = dec_value 0 s
  /\ (3 <= len (pad3 3 s))%nat.
Proof.
  intros Hd Hs. destruct s as [|c [|d [|e s]]]; [done|..]; cbn [pad3 len Nat.ltb Nat.leb];
    cbn in Hd |- *; rewrite ?Hd; (split_and!; [done|done|lia]).
Qed.

Lemma substring_take c k s :
  String.substring 0 (S k) (String c s) = String c (String.substring 0 k s).
Proof. done. Qed.

Lemma substring_skip c j k s : String.substring (S j) k (String c s) = String.substring j k s.
Proof. done. Qed.

Lemma split_last2 s :
  (3 <= len s)%nat ->
  exists w d e, s = w +:+ String d (String e "") /\ w <> ""
    /\ String.substring 0 (len s - 2) s = w
    /\ String.substring (len s - 2) 2 s = String d (String e "").
Proof.
  intros H. destruct s as [|c s]; [cbn in H; lia|].
  revert c H. induction s as [|d s IH]; intros c H; [cbn in H; lia|].
  destruct s as [|e s]; [cbn in H; lia|].
  destruct s as [|f s].
  - exists (String c ""), d, e. done.
  - destruct (IH d) as (w & x & y & E & Hw & H1 & H2); [cbn; lia|].
    exists (String c w), x, y.
    assert (forall n t, (2 <= len t)%nat -> n = len t ->
      (len (String c t) - 2 = S (n - 2))%nat) as Hlen by (intros n t ? ->; cbn; lia).
    rewrite (Hlen _ (String d (String e (String f s))) ltac:(cbn; lia) eq_refl).
    rewrite substring_take, substring_skip.
    rewrite H1, H2. split_and!; [|done..]. by rewrite app_cons, <- E.
Qed.

(** The canonical text of a nonnegative amount denotes it. *)
Lemma Money_String_amount m :
  Valid m = true -> 0 <= minor m -> amount_text (Money_String m) (minor m).
Proof.
  intros Hv Hm. unfold Money_String. rewrite Hv. cbn [negb]. unfold FormatInt.
  destruct (minor m <? 0) eqn:E; bools; [lia|].
  destruct (dec_string_spec (minor m) Hm) as (Hd & Hval & Hne).
  assert (match dec_string (minor m) with String "-" s' => ("-", s') | _ => ("", dec_string (minor m)) end
    = ("", dec_string (minor m))) as ->.
  { destruct (dec_string (minor m)) as [|c s]; [done|].
    destruct c as [[] [] [] [] [] [] [] []]; try done; by cbn in Hd. }
  cbv beta iota zeta. rewrite app_nil.
  destruct (pad3_spec _ Hd Hne) as (Hpd & Hpv & Hpl).
  destruct (split_last2 _ Hpl) as (w & d & e & Es & Hw & H1 & H2). rewrite H1, H2.
  rewrite Es, all_chars_app in Hpd. cbn in Hpd. bools.
  rewrite Es, value_app2 in Hpv. cbn [dec_value String.length] in Hpv.
  replace (minor m) with (100 * dec_value 0 w + 10 * digit_val d + digit_val e)
    by (change (10 ^ Z.of_nat 2) with 100 in Hpv; lia).
  change ("." +:+ String d (String e "")) with (String "." (String d (String e ""))).
  constructor; try done.
Qed.

(** ** Arithmetic: the guards are the exact range tests *)

Lemma check_Ok m o :
  check m o = Ok tt <-> Valid m = true /\ Valid o = true /\ currency m = currency o.
Proof.
  unfold check. destruct (Valid m), (Valid o); cbn; try naive_solver.
  case_bool_decide; naive_solver.
Qed.

Lemma check_refl m : Valid m = true -> check m m = Ok tt.
Proof. intros. by apply check_Ok. Qed.

Lemma check_sym m o : check m o = Ok tt <-> check o m = Ok tt.
Proof. rewrite !check_Ok. naive_solver. Qed.

Lemma NewMoney_valid n c : validCurrency c = true -> NewMoney n c = Ok (mkMoney n c).
Proof. unfold NewMoney. by intros ->. Qed.

Lemma NewMoney_Ok n c m : NewMoney n c = Ok m <-> validCurrency c = true /\ m = mkMoney n c.
Proof. unfold NewMoney. destruct (validCurrency c); cbn; naive_solver. Qed.

(** The reference: exact integer arithmetic, then a range test. *)
Definition exact (text : string) (m o : Money) (z : Z) : res Money :=
  _ ← check m o;
  if bool_decide (Int64.in_range z) then Ok (mkMoney z (currency m))
  else Err (invalid CodeOverflow text).

(** Splits the guards of a checked operation; in each branch the machine
    operations that occur do not wrap. *)
Ltac range_cases :=
  unfold Int64.add, Int64.sub, Int64.neg, Int64.in_range, MinInt64, MaxInt64 in *;
  case_bool_decide;
  repeat match goal with
  | |- context [?a <? ?b] => let E := fresh in destruct (a <? b) eqn:E
  | |- context [?a =? ?b] => let E := fresh in destruct (a =? b) eqn:E
  end; bools; cbn [andb orb];
  repeat match goal with
  | H : context [Int64.wrap ?z] |- _ =>
      rewrite (Int64.wrap_id z) in H by (unfold Int64.in_range, MinInt64, MaxInt64; lia)
  | |- context [Int64.wrap ?z] =>
      rewrite (Int64.wrap_id z) by (unfold Int64.in_range, MinInt64, MaxInt64; lia)
  end; rewrite ?NewMoney_valid by done; try done; try lia.

Section arithmetic.
Context (m o : Money).
Hypothesis (Hm : Int64.in_range (minor m)) (Ho : Int64.in_range (minor o)).

Lemma Add_ref : Add m o = exact "monetary addition overflows" m o (minor m + minor o).
Proof using Hm Ho.
  unfold Add, exact. destruct (check m o) as [[]|] eqn:Hc; [|done]. rewrite !Ok_bind.
  apply check_Ok in Hc as (Hv & _ & _). range_cases.
Qed.

Lemma Subtract_ref :
  Subtract m o = exact "monetary subtraction overflows" m o (minor m - minor o).
Proof using Hm Ho.
  unfold Subtract, exact. destruct (check m o) as [[]|] eqn:Hc; [|done]. rewrite !Ok_bind.
  apply check_Ok in Hc as (Hv & _ & _). range_cases.
Qed.

Lemma Negate_ref : Valid m = true ->
  Negate m = exact "monetary negation overflows" m m (- minor m).
Proof using Hm.
  intros Hv. unfold Negate, exact. rewrite check_refl, Hv, !Ok_bind by done. cbn [negb].
  range_cases.
Qed.
End arithmetic.

Lemma exact_Ok text m o z r :
  exact text m o z = Ok r <-> check m o = Ok tt /\ Int64.in_range z /\ r = mkMoney z (currency m).
Proof.
  unfold exact. destruct (check m o) as [[]|]; cbn; [|naive_solver].
  case_bool_decide; naive_solver.
Qed.

Lemma Add_Ok m o r :
  Int64.in_range (minor m) -> Int64.in_range (minor o) ->
  Add m o = Ok r <-> check m o = Ok tt /\ Int64.in_range (minor m + minor o)
    /\ r = mkMoney (minor m + minor o) (currency m).
Proof. intros. by rewrite Add_ref, exact_Ok. Qed.

Lemma Subtract_Ok m o r :
  Int64.in_range (minor m) -> Int64.in_range (minor o) ->
  Subtract m o = Ok r <-> check m o = Ok tt /\ Int64.in_range (minor m - minor o)
    /\ r = mkMoney (minor m - minor o) (currency m).
Proof. intros. by rewrite Subtract_ref, exact_Ok. Qed.

Lemma Compare_Ok m o c :
  Compare m o = Ok c <-> check m o = Ok tt /\
    c = match minor m ?= minor o with Lt => -1 | Eq => 0 | Gt => 1 end.
Proof.
  unfold Compare. destruct (check m o) as [[]|]; cbn; [|naive_solver].
  destruct (Z.compare_spec (minor m) (minor o)) as [E|E|E].
  - rewrite (proj2 (Z.ltb_ge _ _)), (proj2 (Z.ltb_ge _ _)) by lia. naive_solver.
  - rewrite (proj2 (Z.ltb_lt _ _)) by lia. naive_solver.
  - rewrite (proj2 (Z.ltb_ge _ _)), (proj2 (Z.ltb_lt _ _)) by lia. naive_solver.
Qed.

Lemma Compare_zero m o : Compare m o = Ok 0 <-> check m o = Ok tt /\ m = o.
Proof.
  rewrite Compare_Ok. split; intros [Hc E]; (split; [done|]).
  - apply check_Ok in Hc as (_ & _ & Hcur). destruct m as [a c], o as [b d]; cbn in *.
    destruct (Z.compare_spec a b); naive_solver.
  - subst. by rewrite Z.compare_refl.
Qed.

(** ** Properties *)

(** C39: the parser accepts exactly the decimal texts with at most two fractional
    digits whose value in minor units fits int64, and returns that value
    exactly: nothing is rounded, truncated or wrapped. *)
Theorem ParseMoney_exact a c m :
  ParseMoney a c = Ok m <->
  validCurrency c = true /\ exists v, amount_text a v /\ v <= MaxInt64 /\ m = mkMoney v c.
Proof.
  split; [apply ParseMoney_inv|]. intros (Hc & v & Ha & Hv & ->).
  rewrite (ParseMoney_amount _ _ _ Hc Ha). unfold capped. by rewrite bool_decide_eq_true_2.
Qed.

(** A text with more than two fractional digits, otherwise well formed. *)
Definition scale_text (a : string) : Prop :=
  exists w f, a = w +:+ String "." f /\ w <> "" /\ all_chars is_digit w = true
    /\ all_chars is_digit f = true /\ (2 < len f)%nat.

Lemma ParseMoney_scale a c e :
  validCurrency c = true -> ParseMoney a c = Err e ->
  (scale_text a -> as_domain e = Some CodeInvalidScale) /\
  (~ scale_text a -> (forall v, ~ amount_text a v) -> as_domain e = Some CodeInvalidAmount).
Proof.
  intros Hc H. destruct (decide (a = "")) as [->|Ha].
  { unfold ParseMoney in H. rewrite Hc in H. injection H as <-.
    split; [intros (w & f & E & Hw & _); by destruct w|done]. }
  rewrite (ParseMoney_split a c _ Hc Ha eq_refl) in H. cbv zeta in H. split.
  - intros (w & f & -> & Hw & Hd & Hf & Hl). rewrite Split_digits_dot in H by done.
    assert (check_parts [w; f] = Ok tt) as Hp.
    { apply check_parts_Ok. repeat constructor; try done. by destruct f; [cbn in Hl; lia|]. }
    cbn [lookup list_lookup length default from_option id] in H.
    change (2 <? Z.of_nat 2) with false in H. rewrite Hp, (bool_decide_eq_false_2 (w = "")) in H by done.
    rewrite (proj2 (Z.ltb_lt 2 (Z.of_nat (len f)))) in H by lia. by injection H as <-.
  - intros Hs Hv. destruct (_ || _) eqn:E0 in H; [by injection H as <-|].
    destruct (check_parts _) as [[]|e'] eqn:Hp in H;
      [|injection H as <-; by eapply check_parts_Err].
    exfalso. rewrite Ok_bind in H. apply check_parts_Ok in Hp.
    destruct (Split "."%char a) as [|w [|f [|]]] eqn:Es; cbn in E0, H; bools; [done| | |lia].
    + apply Split_one in Es as ->. apply Forall_singleton in Hp as [??].
      eapply Hv. by constructor.
    + apply Split_two in Es as ->. apply Forall_cons in Hp as [[??] [[??] _]%Forall_cons].
      destruct f as [|d [|e' [|g f]]]; [done|..].
      1,2: cbn in *; bools; eapply Hv; by constructor.
      apply Hs. exists w, (String d (String e' (String g f))).
      split_and!; [done..|cbn; lia].
Qed.

(** Every refusal of the parser carries the code of its cause: an unknown
    currency before anything else, then too many fractional digits, then an
    amount beyond int64, and [INVALID_AMOUNT] for every other text. *)
Theorem ParseMoney_errors a c e :
  ParseMoney a c = Err e ->
  (validCurrency c = false -> as_domain e = Some CodeInvalidCurrency) /\
  (validCurrency c = true ->
     (scale_text a -> as_domain e = Some CodeInvalidScale) /\
     (forall v, amount_text a v -> as_domain e = Some CodeOverflow /\ MaxInt64 < v) /\
     (~ scale_text a -> (forall v, ~ amount_text a v) -> as_domain e = Some CodeInvalidAmount)).
Proof.
  intros H. split; intros Hc.
  - unfold ParseMoney in H. rewrite Hc in H. by injection H as <-.
  - destruct (ParseMoney_scale _ _ _ Hc H) as [H1 H2]. split_and!; [done| |done].
    intros v Ha. rewrite (ParseMoney_amount _ _ _ Hc Ha) in H. unfold capped in H.
    case_bool_decide; [done|]. injection H as <-. split; [done|lia].
Qed.

Lemma ParseMoney_errors_witness :
  as_domain (invalid CodeOverflow "amount exceeds int64 minor units") = Some CodeOverflow
  /\ MaxInt64 < 9223372036854775808.
Proof.
  refine (proj1 (proj2 (proj2 (ParseMoney_errors "92233720368547758.08" "BRL" _ _) _)) _ _).
  - vm_compute; reflexivity.
  - reflexivity.
  - exact (amount_cents "92233720368547758" "0" "8" ltac:(discriminate) eq_refl eq_refl eq_refl).
Defined.

(** Printing then parsing returns the amount, for every nonnegative amount
    an int64 holds; printed amounts of distinct values are distinct. *)
Theorem Money_roundtrip m :
  valid_money m -> 0 <= minor m ->
  ParseMoney (Money_String m) (currency m) = Ok m.
Proof.
  intros [Hv Hr] Hm.
  rewrite (ParseMoney_amount _ _ (minor m)) by auto using Money_String_amount.
  unfold capped. unfold Int64.in_range in Hr.
  rewrite bool_decide_eq_true_2 by lia. by destruct m.
Qed.

Lemma Money_roundtrip_witness :
  ParseMoney (Money_String (mkMoney 2505 "USD")) "USD" = Ok (mkMoney 2505 "USD").
Proof. apply (Money_roundtrip (mkMoney 2505 "USD")); [by split|done]. Defined.

(** C40: checked arithmetic is exact integer arithmetic with a range test: on
    int64 operands [Add], [Subtract] and [Negate] return the exact result when
    it fits and [OVERFLOW] otherwise, and never a wrapped value. *)
Theorem arithmetic_exact m o :
  Int64.in_range (minor m) -> Int64.in_range (minor o) ->
  Add m o = exact "monetary addition overflows" m o (minor m + minor o)
  /\ Subtract m o = exact "monetary subtraction overflows" m o (minor m - minor o)
  /\ (Valid m = true -> Negate m = exact "monetary negation overflows" m m (- minor m)).
Proof. intros. split_and!; auto using Add_ref, Subtract_ref, Negate_ref. Qed.

Lemma arithmetic_exact_witness :
  Subtract (mkMoney 0 "EUR") (mkMoney MinInt64 "EUR")
  = Err (invalid CodeOverflow "monetary subtraction overflows").
Proof.
  rewrite (proj1 (proj2 (arithmetic_exact (mkMoney 0 "EUR") (mkMoney MinInt64 "EUR")
    ltac:(vm_compute; split; discriminate) ltac:(vm_compute; split; discriminate)))).
  reflexivity.
Defined.
