(* ===== verification/Wallet.v ===== *)
(** * Wallet: [internal/domain/wallet.go]

    A wallet changes only through [move], which checks the stored state, the
    movement and the clock before it computes, and bumps the version exactly
    when it moves money. *)

From S2P Require Import Prelude GoStd Errors Ident Money.
Import Int64.

Record WalletData : Type := mkWalletData {
  wID : WalletID;
  wPlayerID : PlayerID;
  wBalance : Money;
  wVersion : Z;
  wCreatedAt : Z;
  wUpdatedAt : Z
}.

#[global] Instance WalletData_eq_dec : EqDecision WalletData.
Proof. solve_decision. Defined.

Record Wallet : Type := mkWallet { wallet_data : WalletData }.

Definition validateWallet (data : WalletData) : res unit :=
  guard_err
    ((wID data == zeroID) || (wPlayerID data == zeroID) || negb (Valid (wBalance data))
     || (minor (wBalance data) <? 0) || (wVersion data <? 1)
     || Time.IsZero (wCreatedAt data) || Time.Before (wUpdatedAt data) (wCreatedAt data))
    (invalid CodeInvalidWallet
       "wallet identity, nonnegative balance, version and timestamps are required").

Definition RehydrateWallet (data : WalletData) : res Wallet :=
  _ ← validateWallet data; Ok (mkWallet data).

Definition NewWallet (data : WalletData) : res Wallet :=
  if negb (wVersion data =? 1)
  then Err (invalid CodeInvalidWallet "initial wallet version must be one")
  else RehydrateWallet data.

(** [Wallet.Snapshot]. *)
Definition Wallet_Snapshot (w : Wallet) : WalletData := wallet_data w.

(** [Wallet.move]: the receiver is a pointer, [None] being nil; on an error
    the wallet it points to is left as it was. *)
Definition move (w : option Wallet) (money : Money) (now : Z) (debit : bool) : res Wallet :=
  match w with
  | None => Err (invalid CodeInvalidWallet "wallet is nil")
  | Some w =>
      let d := wallet_data w in
      _ ← validateWallet d;
      _ ← check (wBalance d) money;
      if minor money <? 0
      then Err (invalid CodeInvalidAmount "movement must be nonnegative")
      else if Time.IsZero now || Time.Before now (wUpdatedAt d)
      then Err (invalid CodeInvalidWallet "movement timestamp precedes wallet state")
      else if minor money =? 0 then Ok w
      else if wVersion d =? MaxInt64
      then Err (invalid CodeOverflow "wallet version overflows")
      else
        next ←
          (if debit then
             if minor (wBalance d) <? minor money
             then Err (invalid CodeInsufficientFunds "insufficient wallet balance")
             else Subtract (wBalance d) money
           else Add (wBalance d) money);
        Ok (mkWallet (mkWalletData (wID d) (wPlayerID d) next
                        (Int64.add (wVersion d) 1) (wCreatedAt d) now))
  end.

Definition Credit (w : option Wallet) (money : Money) (now : Z) : res Wallet :=
  move w money now false.
Definition Debit (w : option Wallet) (money : Money) (now : Z) : res Wallet :=
  move w money now true.

(** ** The wallet invariant *)

(** What [validateWallet] checks, with the ranges the int64 fields have. *)
Record wallet_ok (d : WalletData) : Prop := {
  wok_id : wID d <> zeroID;
  wok_player : wPlayerID d <> zeroID;
  wok_balance : valid_money (wBalance d);
  wok_nonneg : 0 <= minor (wBalance d);
  wok_version : 1 <= wVersion d <= MaxInt64;
  wok_created : wCreatedAt d <> 0;
  wok_updated : wCreatedAt d <= wUpdatedAt d
}.

(** The fields that hold machine integers hold them. *)
Definition wallet_ranged (d : WalletData) : Prop :=
  Int64.in_range (minor (wBalance d)) /\ Int64.in_range (wVersion d).

Lemma validateWallet_Ok d :
  validateWallet d = Ok tt <->
  wID d <> zeroID /\ wPlayerID d <> zeroID /\ Valid (wBalance d) = true
  /\ 0 <= minor (wBalance d) /\ 1 <= wVersion d /\ wCreatedAt d <> 0
  /\ wCreatedAt d <= wUpdatedAt d.
Proof.
  unfold validateWallet. rewrite guard_err_Ok, !orb_false_iff, !bool_decide_eq_false.
  unfold Time.IsZero, Time.Before. rewrite negb_false_iff, Z.eqb_neq, !Z.ltb_ge. naive_solver.
Qed.

Lemma validateWallet_ok d : wallet_ranged d -> validateWallet d = Ok tt <-> wallet_ok d.
Proof.
  intros [Hb Hv]. rewrite validateWallet_Ok. split.
  - intros (?&?&?&?&?&?&?). constructor; try done; unfold Int64.in_range in Hv; lia.
  - intros [? ? [? ?] ? [? ?] ? ?]. split_and!; done.
Qed.

Lemma wallet_ok_ranged d : wallet_ok d -> wallet_ranged d.
Proof. intros [? ? [? ?] ? ? ? ?]. split; [done|]. unfold Int64.in_range, MinInt64. lia. Qed.

Lemma wallet_ok_valid d : wallet_ok d -> validateWallet d = Ok tt.
Proof. intros H. by apply validateWallet_ok; [apply wallet_ok_ranged|]. Qed.

Lemma RehydrateWallet_ok d : wallet_ok d -> RehydrateWallet d = Ok (mkWallet d).
Proof. intros H. unfold RehydrateWallet. by rewrite wallet_ok_valid. Qed.

#[export] Hint Resolve wallet_ok_ranged wallet_ok_valid RehydrateWallet_ok : go.

(** The signed effect of a movement. *)
Definition signed (debit : bool) (n : Z) : Z := if debit then - n else n.

(** ** Abstract specification of a movement

    A movement of [n >= 0] units either is refused with the wallet unchanged or
    changes the balance by exactly [signed debit n]. *)
Definition moved (d d' : WalletData) (n : Z) (now : Z) (debit : bool) : Prop :=
  wID d' = wID d /\ wPlayerID d' = wPlayerID d /\ wCreatedAt d' = wCreatedAt d
  /\ currency (wBalance d') = currency (wBalance d)
  /\ minor (wBalance d') = minor (wBalance d) + signed debit n
  /\ if n =? 0 then d' = d
     else wVersion d' = wVersion d + 1 /\ wUpdatedAt d' = now.

Lemma move_Ok d money now debit w' :
  wallet_ok d -> Int64.in_range (minor money) ->
  move (Some (mkWallet d)) money now debit = Ok w' ->
  wallet_ok (wallet_data w') /\ moved d (wallet_data w') (minor money) now debit
  /\ check (wBalance d) money = Ok tt /\ 0 <= minor money /\ wUpdatedAt d <= now.
Proof.
  intros Hok Hr H. pose proof Hok as [? ? [Hv Hb] ? [? ?] ? ?].
  unfold move in H. cbn [wallet_data] in H. rewrite wallet_ok_valid, Ok_bind in H by done.
  destruct (check _ _) as [[]|] eqn:Hc in H; [|done]. rewrite Ok_bind in H.
  destruct (minor money <? 0) eqn:E1; [done|].
  destruct (_ || _) eqn:E2 in H; [done|]. unfold Time.IsZero, Time.Before in E2. bools.
  unfold moved. destruct (minor money =? 0) eqn:E3; bools.
  { injection H as <-. cbn. rewrite E3. split_and!; try done; destruct debit; cbn; lia. }
  destruct (wVersion d =? MaxInt64) eqn:E4; [done|]. bools.
  apply bind_Ok in H as (next & Hn & H). injection H as <-. cbn.
  assert (Int64.add (wVersion d) 1 = wVersion d + 1) as ->
    by (apply Int64.wrap_id; unfold Int64.in_range, MinInt64; lia).
  assert (0 <= minor (wBalance d) + signed debit (minor money)
    /\ next = mkMoney (minor (wBalance d) + signed debit (minor money)) (currency (wBalance d))
    /\ Int64.in_range (minor next)) as (Hnn & -> & Hin).
  { destruct debit; cbn [signed].
    - destruct (_ <? minor money) eqn:E5 in Hn; [done|]. bools.
      apply Subtract_Ok in Hn as (_ & ? & ->); [|done..]. split_and!; [lia|f_equal; lia|done].
    - apply Add_Ok in Hn as (_ & ? & ->); [|done..]. split_and!; [lia|done|done]. }
  cbn in *. split_and!; try done. constructor; cbn; try done; lia.
Qed.

(** ** Histories of movements *)

Record movement : Type := mkMovement { mvMoney : Money; mvNow : Z; mvDebit : bool }.

(** A caller's history: each movement is applied, a refused one leaves the
    wallet as it is.  The second component collects the accepted movements. *)
Fixpoint history (w : Wallet) (ms : list movement) : Wallet * list movement :=
  match ms with
  | [] => (w, [])
  | m :: ms =>
      match move (Some w) (mvMoney m) (mvNow m) (mvDebit m) with
      | Ok w' => let '(w'', acc) := history w' ms in (w'', m :: acc)
      | Err _ => history w ms
      end
  end.

Definition net (ms : list movement) : Z :=
  foldr (fun m s => signed (mvDebit m) (minor (mvMoney m)) + s) 0 ms.
Definition effective (ms : list movement) : list movement :=
  List.filter (fun m => negb (minor (mvMoney m) =? 0)) ms.

Lemma history_inv ms d w' acc :
  wallet_ok d -> Forall (fun m => Int64.in_range (minor (mvMoney m))) ms ->
  history (mkWallet d) ms = (w', acc) ->
  wallet_ok (wallet_data w')
  /\ minor (wBalance (wallet_data w')) = minor (wBalance d) + net acc
  /\ wVersion (wallet_data w') = wVersion d + Z.of_nat (length (effective acc))
  /\ wUpdatedAt d <= wUpdatedAt (wallet_data w').
Proof.
  revert d w' acc. induction ms as [|m ms IH]; cbn [history]; intros d w' acc Hok Hr H.
  { injection H as <- <-. cbn. split_and!; [done|lia..]. }
  apply Forall_cons in Hr as [Hm Hr].
  destruct (move _ _ _ _) as [[d1]|] eqn:Hmv; [|by apply IH].
  destruct (history (mkWallet d1) ms) as [w1 acc1] eqn:Hh. injection H as <- <-.
  apply move_Ok in Hmv as (Hok1 & (_ & _ & _ & _ & Hb & Hz) & _ & _ & Hnow); [|done..].
  cbn [wallet_data] in *. destruct (IH _ _ _ Hok1 Hr Hh) as (? & -> & -> & Hu).
  unfold net, effective. cbn [foldr List.filter].
  destruct (minor (mvMoney m) =? 0) eqn:Ez; cbn [negb length].
  - subst d1. split_and!; [done|lia|done|done].
  - destruct Hz as [Hv1 Hu1]. rewrite Hv1, Hb. split_and!; [done|lia|lia|lia].
Qed.

(** The movement as one function of its inputs, when they are well formed. *)
Lemma move_eval d money now debit :
  wallet_ok d -> valid_money money -> currency money = currency (wBalance d) ->
  0 <= minor money -> now <> 0 -> wUpdatedAt d <= now ->
  let balance := minor (wBalance d) + signed debit (minor money) in
  move (Some (mkWallet d)) money now debit =
    if minor money =? 0 then Ok (mkWallet d)
    else if wVersion d =? MaxInt64 then Err (invalid CodeOverflow "wallet version overflows")
    else if balance <? 0 then Err (invalid CodeInsufficientFunds "insufficient wallet balance")
    else if MaxInt64 <? balance then Err (invalid CodeOverflow "monetary addition overflows")
    else Ok (mkWallet (mkWalletData (wID d) (wPlayerID d)
               (mkMoney balance (currency (wBalance d))) (wVersion d + 1) (wCreatedAt d) now)).
Proof.
  intros Hok [Hv Hr] Hcur Hnn Hnow Hup balance. pose proof Hok as [? ? [Hvb Hb] ? [? ?] ? ?].
  assert (check (wBalance d) money = Ok tt) as Hc by (by apply check_Ok).
  unfold move. cbn [wallet_data]. rewrite wallet_ok_valid, Ok_bind, Hc, Ok_bind by done.
  unfold Time.IsZero, Time.Before.
  rewrite (proj2 (Z.ltb_ge (minor money) 0)), (proj2 (Z.eqb_neq now 0)),
    (proj2 (Z.ltb_ge now (wUpdatedAt d))) by lia. cbn [orb].
  destruct (minor money =? 0) eqn:E3; [done|]. bools.
  destruct (wVersion d =? MaxInt64) eqn:E4; [done|]. bools.
  assert (Int64.add (wVersion d) 1 = wVersion d + 1) as ->
    by (apply Int64.wrap_id; unfold Int64.in_range, MinInt64; lia).
  destruct debit; cbn [signed] in balance; subst balance.
  - destruct (_ <? minor money) eqn:E5; bools.
    { by rewrite (proj2 (Z.ltb_lt _ _)) by lia. }
    rewrite Subtract_ref by done. unfold exact. rewrite Hc, Ok_bind.
    unfold Int64.in_range in *. rewrite bool_decide_eq_true_2 by (unfold MinInt64; lia).
    rewrite (proj2 (Z.ltb_ge _ _)), (proj2 (Z.ltb_ge _ _)) by lia. done.
  - rewrite (proj2 (Z.ltb_ge _ 0)) by lia.
    rewrite Add_ref by done. unfold exact. rewrite Hc, Ok_bind. unfold Int64.in_range in *.
    destruct (MaxInt64 <? _) eqn:E5; bools.
    + by rewrite bool_decide_eq_false_2 by lia.
    + by rewrite bool_decide_eq_true_2 by (unfold MinInt64; lia).
Qed.


(** ** Properties *)

(** What a movement does on every branch.  For a well-formed wallet and a
    nonnegative amount in its currency, presented no earlier than its last
    update: a zero movement changes nothing, a movement at the last version is
    refused with [OVERFLOW], a debit beyond the balance with
    [INSUFFICIENT_FUNDS], a credit beyond int64 with [OVERFLOW], and any other
    movement succeeds with the exact new balance, one version more and the
    given time. *)
Theorem move_branches d money now debit :
  wallet_ok d -> valid_money money -> currency money = currency (wBalance d) ->
  0 <= minor money -> now <> 0 -> wUpdatedAt d <= now ->
  let balance := minor (wBalance d) + signed debit (minor money) in
  move (Some (mkWallet d)) money now debit =
    if minor money =? 0 then Ok (mkWallet d)
    else if wVersion d =? MaxInt64 then Err (invalid CodeOverflow "wallet version overflows")
    else if balance <? 0 then Err (invalid CodeInsufficientFunds "insufficient wallet balance")
    else if MaxInt64 <? balance then Err (invalid CodeOverflow "monetary addition overflows")
    else Ok (mkWallet (mkWalletData (wID d) (wPlayerID d)
               (mkMoney balance (currency (wBalance d))) (wVersion d + 1) (wCreatedAt d) now)).
Proof. apply move_eval. Qed.

Definition demo_id (n : Z) : ID :=
  default zeroID (ID_of_bytes (Str.bytes (replicate 15 0 ++ [n]))).
Definition demo_wallet : WalletData :=
  mkWalletData (demo_id 1) (demo_id 2) (mkMoney 10000 "BRL") 1 1000 1000.
Lemma demo_wallet_ok : wallet_ok demo_wallet.
Proof. by constructor; vm_compute. Qed.

Lemma move_branches_witness :
  move (Some (mkWallet demo_wallet)) (mkMoney 8000 "BRL") 2000 true
  = Ok (mkWallet (mkWalletData (demo_id 1) (demo_id 2) (mkMoney 2000 "BRL") 2 1000 2000)).
Proof.
  rewrite (move_branches demo_wallet (mkMoney 8000 "BRL") 2000 true demo_wallet_ok
    ltac:(vm_compute; split; [reflexivity|split; discriminate])
    eq_refl ltac:(vm_compute; discriminate) ltac:(discriminate) ltac:(vm_compute; discriminate)).
  reflexivity.
Defined.

(** Over any history of movements, accepted or refused, a wallet stays well
    formed (in particular its balance never goes negative), its balance is the
    opening balance plus the exact sum of the accepted movements, and its
    version counts the accepted movements that moved money. *)
Theorem wallet_history d ms w' acc :
  wallet_ok d -> Forall (fun m => Int64.in_range (minor (mvMoney m))) ms ->
  history (mkWallet d) ms = (w', acc) ->
  wallet_ok (wallet_data w')
  /\ minor (wBalance (wallet_data w')) = minor (wBalance d) + net acc
  /\ wVersion (wallet_data w') = wVersion d + Z.of_nat (length (effective acc)).
Proof. intros Hok Hr H. destruct (history_inv ms d w' acc Hok Hr H) as (?&?&?&?). done. Qed.

(** The mandatory case of the statement: 100.00 against two bets of 80.00. *)
Definition two_bets : list movement :=
  [mkMovement (mkMoney 8000 "BRL") 2000 true; mkMovement (mkMoney 8000 "BRL") 2000 true].
Lemma wallet_history_witness :
  minor (wBalance (wallet_data (fst (history (mkWallet demo_wallet) two_bets))))
  = 10000 + net [mkMovement (mkMoney 8000 "BRL") 2000 true].
Proof.
  refine (proj1 (proj2 (wallet_history demo_wallet two_bets _
    [mkMovement (mkMoney 8000 "BRL") 2000 true] demo_wallet_ok _ _))).
  - repeat constructor; vm_compute; discriminate.
  - vm_compute; reflexivity.
Defined.
