(* ===== verification/Ledger.v ===== *)
(** * Ledger entries: [internal/domain/ledger.go]

    An entry exists only if its before/amount/after equation balances. *)

From S2P Require Import Prelude GoStd Errors Ident Money Wallet.
Import Int64.

Notation Direction := string.
Definition DirectionDebit : Direction := "DEBIT".
Definition DirectionCredit : Direction := "CREDIT".
Definition DirectionNone : Direction := "NONE".

Record LedgerData : Type := mkLedgerData {
  leID : LedgerEntryID;
  leWalletID : WalletID;
  leTransactionID : WagerTransactionID;
  leDirection : Direction;
  leMoney : Money;
  leBalanceBefore : Money;
  leBalanceAfter : Money;
  leCreatedAt : Z
}.

#[global] Instance LedgerData_eq_dec : EqDecision LedgerData.
Proof. solve_decision. Defined.

(** [WalletLedgerEntry] wraps the data it validated; [Snapshot] returns it. *)
Record WalletLedgerEntry : Type := mkWalletLedgerEntry { ledger_data : LedgerData }.

Definition NewLedgerEntry (data : LedgerData) : res WalletLedgerEntry :=
  _ ← guard_err
    ((leID data == zeroID) || (leWalletID data == zeroID) || (leTransactionID data == zeroID)
     || Time.IsZero (leCreatedAt data)
     || negb (Valid (leMoney data)) || (minor (leMoney data) <=? 0)
     || negb (Valid (leBalanceBefore data)) || negb (Valid (leBalanceAfter data))
     || (minor (leBalanceBefore data) <? 0) || (minor (leBalanceAfter data) <? 0))
    (invalid CodeInvalidLedger
       "ledger requires identities, positive money, nonnegative balances and timestamp");
  expected ←
    (if leDirection data == DirectionDebit then Subtract (leBalanceBefore data) (leMoney data)
     else if leDirection data == DirectionCredit then Add (leBalanceBefore data) (leMoney data)
     else Err (invalid CodeInvalidLedger "ledger direction must be debit or credit"));
  comparison ← Compare expected (leBalanceAfter data);
  if negb (comparison =? 0)
  then Err (invalid CodeInvalidLedger "ledger before/amount/after equation does not balance")
  else Ok (mkWalletLedgerEntry data).

Definition RehydrateLedgerEntry (data : LedgerData) : res WalletLedgerEntry :=
  NewLedgerEntry data.

Definition ledger_Snapshot (entry : WalletLedgerEntry) : LedgerData := ledger_data entry.

(** ** Lemmas *)

(** The signed effect an entry records. *)
Definition entry_effect (e : LedgerData) : Z :=
  if leDirection e == DirectionCredit then minor (leMoney e) else - minor (leMoney e).

Record ledger_ok (e : LedgerData) : Prop := {
  lok_id : leID e <> zeroID;
  lok_wallet : leWalletID e <> zeroID;
  lok_tx : leTransactionID e <> zeroID;
  lok_created : leCreatedAt e <> 0;
  lok_direction : leDirection e = DirectionDebit \/ leDirection e = DirectionCredit;
  lok_money : valid_money (leMoney e);
  lok_positive : 0 < minor (leMoney e);
  lok_before : valid_money (leBalanceBefore e);
  lok_after : valid_money (leBalanceAfter e);
  lok_before_nonneg : 0 <= minor (leBalanceBefore e);
  lok_after_nonneg : 0 <= minor (leBalanceAfter e);
  lok_currency : currency (leMoney e) = currency (leBalanceBefore e)
    /\ currency (leBalanceAfter e) = currency (leBalanceBefore e);
  lok_equation : minor (leBalanceAfter e) = minor (leBalanceBefore e) + entry_effect e
}.

Definition ledger_ranged (e : LedgerData) : Prop :=
  Int64.in_range (minor (leMoney e)) /\ Int64.in_range (minor (leBalanceBefore e))
  /\ Int64.in_range (minor (leBalanceAfter e)).

Lemma ledger_guard e :
  guard_err
    ((leID e == zeroID) || (leWalletID e == zeroID) || (leTransactionID e == zeroID)
     || Time.IsZero (leCreatedAt e)
     || negb (Valid (leMoney e)) || (minor (leMoney e) <=? 0)
     || negb (Valid (leBalanceBefore e)) || negb (Valid (leBalanceAfter e))
     || (minor (leBalanceBefore e) <? 0) || (minor (leBalanceAfter e) <? 0))
    (invalid CodeInvalidLedger
       "ledger requires identities, positive money, nonnegative balances and timestamp") = Ok tt
  <-> leID e <> zeroID /\ leWalletID e <> zeroID /\ leTransactionID e <> zeroID
      /\ leCreatedAt e <> 0 /\ Valid (leMoney e) = true /\ 0 < minor (leMoney e)
      /\ Valid (leBalanceBefore e) = true /\ Valid (leBalanceAfter e) = true
      /\ 0 <= minor (leBalanceBefore e) /\ 0 <= minor (leBalanceAfter e).
Proof.
  rewrite guard_err_Ok, !orb_false_iff, !bool_decide_eq_false, !negb_false_iff.
  unfold Time.IsZero. rewrite Z.eqb_neq, Z.leb_gt, !Z.ltb_ge. naive_solver.
Qed.

(** The expected balance of an entry, when its direction is one of the two. *)
Lemma expected_ref e :
  leDirection e = DirectionDebit \/ leDirection e = DirectionCredit ->
  Int64.in_range (minor (leMoney e)) -> Int64.in_range (minor (leBalanceBefore e)) ->
  exists text,
  (if leDirection e == DirectionDebit then Subtract (leBalanceBefore e) (leMoney e)
   else if leDirection e == DirectionCredit then Add (leBalanceBefore e) (leMoney e)
   else Err (invalid CodeInvalidLedger "ledger direction must be debit or credit"))
  = exact text (leBalanceBefore e) (leMoney e) (minor (leBalanceBefore e) + entry_effect e).
Proof.
  unfold entry_effect. intros [-> | ->] Hm Hb; eval_tests; cbn iota; eexists.
  - rewrite Subtract_ref by done. by f_equal.
  - by rewrite Add_ref by done.
Qed.

Lemma NewLedgerEntry_Ok e r :
  ledger_ranged e -> NewLedgerEntry e = Ok r <-> ledger_ok e /\ r = mkWalletLedgerEntry e.
Proof.
  intros (Hm & Hb & Ha). unfold NewLedgerEntry. split.
  - intros H. apply bind_Ok in H as ([] & Hg & H). apply ledger_guard in Hg as (?&?&?&?&?&?&?&?&?&?).
    apply bind_Ok in H as (x & Hx & H). apply bind_Ok in H as (c & Hc & H).
    destruct (negb _) eqn:Ec in H; [done|]. injection H as <-. bools. subst c.
    apply Compare_zero in Hc as [_ ->].
    assert (leDirection e = DirectionDebit \/ leDirection e = DirectionCredit) as Hdir.
    { repeat case_bool_decide; naive_solver. }
    destruct (expected_ref e Hdir Hm Hb) as [text E]. rewrite E in Hx.
    apply exact_Ok in Hx as (Hck & Hin & Heq). apply check_Ok in Hck as (_ & _ & Hcur).
    split; [|done]. constructor; try done; rewrite Heq; cbn; auto.
  - intros [[? ? ? ? Hdir [? _] ? [Hvb _] [? _] ? ? [Hcm Hca] Heq] ->].
    rewrite (proj2 (ledger_guard e)) by (split_and!; done). rewrite Ok_bind.
    destruct (expected_ref e Hdir Hm Hb) as [text ->]. unfold exact.
    rewrite (proj2 (check_Ok (leBalanceBefore e) (leMoney e))), Ok_bind by (split_and!; done).
    rewrite bool_decide_eq_true_2 by (by rewrite <- Heq). rewrite Ok_bind.
    assert (Compare (mkMoney (minor (leBalanceBefore e) + entry_effect e)
      (currency (leBalanceBefore e))) (leBalanceAfter e) = Ok 0) as ->.
    { apply Compare_zero. rewrite <- Heq, <- Hca.
      assert (mkMoney (minor (leBalanceAfter e)) (currency (leBalanceAfter e))
        = leBalanceAfter e) as -> by (by destruct (leBalanceAfter e)).
      split; [by apply check_refl|done]. }
    done.
Qed.

(** ** Property *)

(** An entry is accepted exactly when it is well formed and its equation
    balances in exact integers: after = before + amount for a credit and
    before - amount for a debit, both balances nonnegative, the amount
    positive, all in one currency. *)
Theorem ledger_entry_exact e r :
  ledger_ranged e -> NewLedgerEntry e = Ok r <-> ledger_ok e /\ r = mkWalletLedgerEntry e.
Proof. apply NewLedgerEntry_Ok. Qed.

Definition demo_entry : LedgerData :=
  mkLedgerData (demo_id 5) (demo_id 1) (demo_id 7) DirectionDebit (mkMoney 8000 "BRL")
    (mkMoney 10000 "BRL") (mkMoney 2000 "BRL") 1500.
Lemma demo_entry_ok : ledger_ok demo_entry.
Proof.
  constructor; unfold valid_money, Int64.in_range; try (by vm_compute); [by left|..];
    vm_compute; repeat split; discriminate.
Qed.
Lemma ledger_entry_exact_witness : NewLedgerEntry demo_entry = Ok (mkWalletLedgerEntry demo_entry).
Proof.
  refine (proj2 (ledger_entry_exact demo_entry (mkWalletLedgerEntry demo_entry) _) _).
  - vm_compute; repeat split; discriminate.
  - exact (conj demo_entry_ok eq_refl).
Defined.
