(* ===== verification/Wager.v ===== *)
(** * Wager transactions: [internal/domain/wager.go], the aggregate

    Kinds and states are Go string types, so a value outside the constants is
    possible and the validator rejects it.  Transitions are all-or-nothing: the
    next snapshot replaces the current one only if it validates. *)

From S2P Require Import Prelude GoStd Errors Ident Money Wallet Ledger.
Import Int64 Str.

Notation Kind := string.
Definition KindOpening : Kind := "OPENING".
Definition KindBET : Kind := "BET".
Definition KindWIN : Kind := "WIN".
Definition KindLOSS : Kind := "LOSS".
Definition KindREFUND : Kind := "REFUND".
Definition KindROLLBACK : Kind := "ROLLBACK".

Notation Status := string.
Definition StatusPending : Status := "PENDING".
Definition StatusPendingReference : Status := "PENDING_REFERENCE".
Definition StatusProcessed : Status := "PROCESSED".
Definition StatusRejected : Status := "REJECTED".
Definition StatusFailed : Status := "FAILED".

Definition Terminal (s : Status) : bool :=
  (s == StatusProcessed) || (s == StatusRejected) || (s == StatusFailed).

Record WagerData : Type := mkWagerData {
  wgID : WagerTransactionID;
  wgWalletID : WalletID;
  wgPlayerID : PlayerID;
  wgProviderID : string;
  wgExternalTransactionID : string;
  wgIdempotencyKey : string;
  wgPayloadHash : string;
  wgRoundID : string;
  wgGameID : string;
  wgKind : Kind;
  wgMoney : Money;
  wgReferenceExternalTransactionID : string;
  wgReferenceID : WagerTransactionID;
  wgStatus : Status;
  wgFailureCode : string;
  wgResultBalance : Money;
  wgResultVersion : Z;
  wgCreatedAt : Z;
  wgUpdatedAt : Z;
  wgCompletedAt : option Z
}.

#[global] Instance WagerData_eq_dec : EqDecision WagerData.
Proof. solve_decision. Defined.

Record WagerTransaction : Type := mkWagerTransaction { wager_data : WagerData }.

Definition externalKind (kind : Kind) : bool :=
  (kind == KindBET) || (kind == KindWIN) || (kind == KindLOSS) || (kind == KindREFUND)
  || (kind == KindROLLBACK).

(** The [OPENING] branch and the external branch of [validateWager]. *)
Definition validate_opening (data : WagerData) : res unit :=
  guard_err
    ((minor (wgMoney data) <=? 0) || (wgProviderID data != "")
     || (wgExternalTransactionID data != "") || (wgIdempotencyKey data != "")
     || (wgPayloadHash data != "") || (wgRoundID data != "") || (wgGameID data != "")
     || (wgReferenceExternalTransactionID data != "") || (wgReferenceID data != zeroID))
    (invalid CodeInvalidWager "opening has positive money and no external metadata").

Definition validate_external (data : WagerData) : res unit :=
  _ ← guard_err
    (negb (externalKind (wgKind data)) || (TrimSpace (wgProviderID data) == "")
     || (TrimSpace (wgExternalTransactionID data) == "")
     || (TrimSpace (wgIdempotencyKey data) == "")
     || (TrimSpace (wgRoundID data) == "") || (TrimSpace (wgGameID data) == ""))
    (invalid CodeInvalidWager "external transaction metadata required");
  _ ← guard_err
    (match Hex.decode (wgPayloadHash data) with
     | Some decoded => negb (len decoded =? 32)%nat
     | None => true
     end)
    (invalid CodeInvalidWager "payload hash must be SHA-256 hexadecimal");
  _ ← guard_err
    (((wgKind data == KindREFUND) || (wgKind data == KindROLLBACK))
     && (TrimSpace (wgReferenceExternalTransactionID data) == ""))
    (invalid CodeInvalidWager "reversal reference required");
  guard_err
    (((wgKind data == KindBET) || (wgKind data == KindLOSS))
     && (wgReferenceExternalTransactionID data != ""))
    (invalid CodeInvalidWager "kind does not accept a reference").

(** Amounts a processed transaction of each kind may carry. *)
Definition amount_incompatible (kind : Kind) (amount : Z) : bool :=
  ((kind == KindLOSS) && negb (amount =? 0)) || ((kind != KindLOSS) && (amount <=? 0)).

(** The terminal branch of [validateWager]. *)
Definition validate_terminal (data : WagerData) : res unit :=
  _ ← guard_err
    (match wgCompletedAt data with
     | None => true
     | Some at_ => Time.Before at_ (wgCreatedAt data) || Time.After at_ (wgUpdatedAt data)
     end)
    (invalid CodeInvalidState "terminal state requires completion timestamp");
  _ ← guard_err
    ((wgStatus data == StatusProcessed)
     && ((wgFailureCode data != "") || negb (Valid (wgResultBalance data))
         || (minor (wgResultBalance data) <? 0)
         || (currency (wgResultBalance data) != currency (wgMoney data))
         || (wgResultVersion data <? 1)))
    (invalid CodeInvalidState "processed state requires a valid financial result");
  _ ← (if wgStatus data == StatusProcessed then
         _ ← guard_err (amount_incompatible (wgKind data) (minor (wgMoney data)))
           (invalid CodeInvalidAmountForKind "processed amount incompatible with transaction kind");
         guard_err ((wgReferenceExternalTransactionID data != "") && (wgReferenceID data == zeroID))
           (invalid CodeInvalidState "processed reference must be resolved")
       else Ok tt);
  _ ← guard_err
    (((wgStatus data == StatusRejected) || (wgStatus data == StatusFailed))
     && (TrimSpace (wgFailureCode data) == ""))
    (invalid CodeInvalidState "failure code required for terminal failure");
  guard_err
    (((wgStatus data == StatusRejected) || (wgStatus data == StatusFailed))
     && (negb (Valid (wgResultBalance data)) || (minor (wgResultBalance data) <? 0)
         || (wgResultVersion data <? 1)))
    (invalid CodeInvalidState "terminal failure requires original wallet result").

Definition validateWager (data : WagerData) : res unit :=
  _ ← guard_err
    ((wgID data == zeroID) || (wgWalletID data == zeroID) || (wgPlayerID data == zeroID)
     || negb (Valid (wgMoney data)) || (minor (wgMoney data) <? 0)
     || Time.IsZero (wgCreatedAt data) || Time.Before (wgUpdatedAt data) (wgCreatedAt data))
    (invalid CodeInvalidWager "identity, nonnegative money and timestamps required");
  _ ← (if wgKind data == KindOpening then validate_opening data else validate_external data);
  _ ← guard_err
    ((wgStatus data != StatusPending) && (wgStatus data != StatusPendingReference)
     && negb (Terminal (wgStatus data)))
    (invalid CodeInvalidState "unknown transaction state");
  _ ← guard_err
    ((wgStatus data == StatusPendingReference) && (wgReferenceExternalTransactionID data == ""))
    (invalid CodeInvalidState "pending reference requires external reference");
  if Terminal (wgStatus data) then validate_terminal data
  else guard_err
    (bool_decide (wgCompletedAt data <> None) || (wgFailureCode data != "")
     || negb (wgResultVersion data =? 0) || Valid (wgResultBalance data))
    (invalid CodeInvalidState "nonterminal state must not contain terminal result").

(** [cloneWager] copies the completion time behind its pointer; [option Z] has
    no sharing, so the copy is the value itself. *)
Definition cloneWager (data : WagerData) : WagerData := data.

Definition RehydrateWager (data : WagerData) : res WagerTransaction :=
  _ ← validateWager data; Ok (mkWagerTransaction (cloneWager data)).

Definition NewWager (data : WagerData) : res WagerTransaction :=
  if wgKind data == KindOpening then Err (invalid CodeInvalidWager "OPENING is internal only")
  else if wgStatus data != StatusPending
  then Err (invalid CodeInvalidState "new transaction must be PENDING")
  else RehydrateWager data.

Definition NewOpening (data : WagerData) : res WagerTransaction :=
  if (wgKind data != KindOpening) || (wgStatus data != StatusPending)
  then Err (invalid CodeInvalidWager "new opening must be PENDING OPENING")
  else RehydrateWager data.

(** [WagerTransaction.Snapshot]. *)
Definition wager_Snapshot (w : WagerTransaction) : WagerData := cloneWager (wager_data w).

(** The mutable part of a snapshot, replaced by a transition. *)
Definition with_outcome (d : WagerData) (status : Status) (code : string) (balance : Money)
    (version : Z) (reference : ID) : WagerData :=
  mkWagerData (wgID d) (wgWalletID d) (wgPlayerID d) (wgProviderID d)
    (wgExternalTransactionID d) (wgIdempotencyKey d) (wgPayloadHash d) (wgRoundID d) (wgGameID d)
    (wgKind d) (wgMoney d) (wgReferenceExternalTransactionID d) reference status code balance
    version (wgCreatedAt d) (wgUpdatedAt d) (wgCompletedAt d).

Definition with_times (d : WagerData) (updated : Z) (completed : option Z) : WagerData :=
  mkWagerData (wgID d) (wgWalletID d) (wgPlayerID d) (wgProviderID d)
    (wgExternalTransactionID d) (wgIdempotencyKey d) (wgPayloadHash d) (wgRoundID d) (wgGameID d)
    (wgKind d) (wgMoney d) (wgReferenceExternalTransactionID d) (wgReferenceID d) (wgStatus d)
    (wgFailureCode d) (wgResultBalance d) (wgResultVersion d) (wgCreatedAt d) updated completed.

(** [transition]: [None] is a nil receiver; on an error the transaction the
    receiver points to is left as it was. *)
Definition transition (w : option WagerTransaction) (now : Z) (change : WagerData -> WagerData) :
    res WagerTransaction :=
  match w with
  | None => Err (invalid CodeInvalidWager "transaction is nil")
  | Some w =>
      let d := wager_data w in
      _ ← validateWager d;
      if Terminal (wgStatus d)
      then Err (invalid CodeInvalidState "terminal transaction cannot transition")
      else if Time.IsZero now || Time.Before now (wgUpdatedAt d)
      then Err (invalid CodeInvalidState "transition timestamp precedes transaction state")
      else
        let next := change (with_times (cloneWager d) now (wgCompletedAt d)) in
        let next := if Terminal (wgStatus next) then with_times next (wgUpdatedAt next) (Some now)
                    else next in
        _ ← validateWager next;
        Ok (mkWagerTransaction next)
  end.

Definition PendingReference (w : option WagerTransaction) (now : Z) : res WagerTransaction :=
  transition w now (fun d =>
    with_outcome d StatusPendingReference (wgFailureCode d) (wgResultBalance d)
      (wgResultVersion d) (wgReferenceID d)).

Definition Process (w : option WagerTransaction) (balance : Money) (version : Z)
    (referenceID : ID) (now : Z) : res WagerTransaction :=
  transition w now (fun d =>
    with_outcome d StatusProcessed (wgFailureCode d) balance version referenceID).

Definition Reject (w : option WagerTransaction) (code : string) (balance : Money) (version : Z)
    (now : Z) : res WagerTransaction :=
  transition w now (fun d =>
    with_outcome d StatusRejected code balance version (wgReferenceID d)).

Definition Fail (w : option WagerTransaction) (code : string) (balance : Money) (version : Z)
    (now : Z) : res WagerTransaction :=
  transition w now (fun d =>
    with_outcome d StatusFailed code balance version (wgReferenceID d)).

(** ** What a valid snapshot is *)

(** The part of validity a transition cannot change: identity, amount, and the
    metadata the kind requires. *)
Record wager_base (d : WagerData) : Prop := {
  wb_id : wgID d <> zeroID;
  wb_wallet : wgWalletID d <> zeroID;
  wb_player : wgPlayerID d <> zeroID;
  wb_money : Valid (wgMoney d) = true;
  wb_nonneg : 0 <= minor (wgMoney d);
  wb_created : wgCreatedAt d <> 0;
  wb_kind : (if wgKind d == KindOpening then validate_opening d else validate_external d) = Ok tt
}.

(** No terminal result yet. *)
Definition clean (d : WagerData) : Prop :=
  wgCompletedAt d = None /\ wgFailureCode d = "" /\ wgResultVersion d = 0
  /\ Valid (wgResultBalance d) = false.

Definition completed (d : WagerData) : Prop :=
  exists at_, wgCompletedAt d = Some at_ /\ wgCreatedAt d <= at_ <= wgUpdatedAt d.

Definition has_result (d : WagerData) : Prop :=
  Valid (wgResultBalance d) = true /\ 0 <= minor (wgResultBalance d) /\ 1 <= wgResultVersion d.

Definition processed_ok (d : WagerData) : Prop :=
  wgFailureCode d = "" /\ has_result d
  /\ currency (wgResultBalance d) = currency (wgMoney d)
  /\ amount_incompatible (wgKind d) (minor (wgMoney d)) = false
  /\ (wgReferenceExternalTransactionID d <> "" -> wgReferenceID d <> zeroID).

Inductive state_ok (d : WagerData) : Prop :=
| st_pending : wgStatus d = StatusPending -> clean d -> state_ok d
| st_pending_reference :
    wgStatus d = StatusPendingReference -> wgReferenceExternalTransactionID d <> "" ->
    clean d -> state_ok d
| st_processed : wgStatus d = StatusProcessed -> completed d -> processed_ok d -> state_ok d
| st_refused :
    wgStatus d = StatusRejected \/ wgStatus d = StatusFailed -> completed d ->
    TrimSpace (wgFailureCode d) <> "" -> has_result d -> state_ok d.

Definition wager_valid (d : WagerData) : Prop :=
  wager_base d /\ wgCreatedAt d <= wgUpdatedAt d /\ state_ok d.

Lemma base_guard d :
  guard_err
    ((wgID d == zeroID) || (wgWalletID d == zeroID) || (wgPlayerID d == zeroID)
     || negb (Valid (wgMoney d)) || (minor (wgMoney d) <? 0)
     || Time.IsZero (wgCreatedAt d) || Time.Before (wgUpdatedAt d) (wgCreatedAt d))
    (invalid CodeInvalidWager "identity, nonnegative money and timestamps required") = Ok tt
  <-> wgID d <> zeroID /\ wgWalletID d <> zeroID /\ wgPlayerID d <> zeroID
      /\ Valid (wgMoney d) = true /\ 0 <= minor (wgMoney d) /\ wgCreatedAt d <> 0
      /\ wgCreatedAt d <= wgUpdatedAt d.
Proof.
  rewrite guard_err_Ok, !orb_false_iff, !bool_decide_eq_false, negb_false_iff.
  unfold Time.IsZero, Time.Before. rewrite Z.eqb_neq, !Z.ltb_ge. naive_solver.
Qed.

Lemma Terminal_spec s :
  Terminal s = true <-> s = StatusProcessed \/ s = StatusRejected \/ s = StatusFailed.
Proof. unfold Terminal. rewrite !orb_true_iff, !bool_decide_eq_true. naive_solver. Qed.

Lemma completed_guard d :
  guard_err
    (match wgCompletedAt d with
     | None => true
     | Some at_ => Time.Before at_ (wgCreatedAt d) || Time.After at_ (wgUpdatedAt d)
     end)
    (invalid CodeInvalidState "terminal state requires completion timestamp") = Ok tt
  <-> completed d.
Proof.
  rewrite guard_err_Ok. unfold completed, Time.Before, Time.After.
  destruct (wgCompletedAt d) as [t|].
  - rewrite orb_false_iff, !Z.ltb_ge. split; [eauto with lia|]. intros (? & [= <-] & ?). lia.
  - split; [done|]. by intros (? & ? & _).
Qed.

(** Turns the tests of a validator into propositions. *)
#[local] Ltac tests :=
  rewrite ?guard_err_Ok, ?orb_false_iff, ?negb_false_iff, ?none_test, ?bool_decide_eq_false,
    ?bool_decide_eq_true, ?Z.ltb_ge, ?Z.eqb_eq.

Lemma validate_processed d :
  wgStatus d = StatusProcessed ->
  validate_terminal d = Ok tt <-> completed d /\ processed_ok d.
Proof.
  intros Hs. unfold validate_terminal. rewrite Hs. eval_tests. cbn [andb orb].
  unfold processed_ok, has_result. rewrite !seq_Ok, completed_guard. tests.
  rewrite andb_false_iff. tests.
  destruct (decide (wgReferenceExternalTransactionID d = "")); naive_solver.
Qed.

Lemma validate_refused d :
  wgStatus d = StatusRejected \/ wgStatus d = StatusFailed ->
  validate_terminal d = Ok tt
  <-> completed d /\ TrimSpace (wgFailureCode d) <> "" /\ has_result d.
Proof.
  intros Hs. unfold validate_terminal, has_result.
  destruct Hs as [-> | ->]; eval_tests; cbn [andb orb]; rewrite !seq_Ok, completed_guard; tests;
    naive_solver.
Qed.

Lemma clean_guard d :
  guard_err
    (bool_decide (wgCompletedAt d <> None) || (wgFailureCode d != "")
     || negb (wgResultVersion d =? 0) || Valid (wgResultBalance d))
    (invalid CodeInvalidState "nonterminal state must not contain terminal result") = Ok tt
  <-> clean d.
Proof. unfold clean. tests. tauto. Qed.

Lemma state_guards d :
  (_ ← guard_err
    ((wgStatus d != StatusPending) && (wgStatus d != StatusPendingReference)
     && negb (Terminal (wgStatus d)))
    (invalid CodeInvalidState "unknown transaction state");
   _ ← guard_err
    ((wgStatus d == StatusPendingReference) && (wgReferenceExternalTransactionID d == ""))
    (invalid CodeInvalidState "pending reference requires external reference");
   if Terminal (wgStatus d) then validate_terminal d
   else guard_err
    (bool_decide (wgCompletedAt d <> None) || (wgFailureCode d != "")
     || negb (wgResultVersion d =? 0) || Valid (wgResultBalance d))
    (invalid CodeInvalidState "nonterminal state must not contain terminal result")) = Ok tt
  <-> state_ok d.
Proof.
  rewrite !seq_Ok, !guard_err_Ok. split.
  - intros (H1 & H2 & H3). rewrite !andb_false_iff, !negb_false_iff, !bool_decide_eq_true in H1.
    rewrite andb_false_iff, !bool_decide_eq_false in H2.
    destruct H1 as [[H1|H1]|H1]; rewrite H1 in H3; cbn in H3.
    + apply clean_guard in H3. by apply st_pending.
    + apply clean_guard in H3. apply st_pending_reference; naive_solver.
    + apply Terminal_spec in H1 as [Hs|Hs].
      * apply validate_processed in H3 as [??]; [|done]. by apply st_processed.
      * apply validate_refused in H3 as (?&?&?); [|done]. by apply st_refused.
  - intros [Hs Hc|Hs Hr Hc|Hs Hc Hp|Hs Hc Hf Hr].
    + rewrite Hs. split_and!; [done|done|by apply clean_guard].
    + rewrite Hs. split_and!; [done| |by apply clean_guard].
      rewrite bool_decide_eq_true_2, bool_decide_eq_false_2; done.
    + pose proof (validate_processed d Hs) as E. rewrite Hs in *. split_and!; [done|done|].
      by apply E.
    + pose proof (validate_refused d Hs) as E.
      destruct Hs as [Hs|Hs]; rewrite Hs in *; (split_and!; [done|done|]); by apply E.
Qed.

Lemma validateWager_Ok d : validateWager d = Ok tt <-> wager_valid d.
Proof.
  unfold validateWager, wager_valid. rewrite seq_Ok, base_guard, seq_Ok, state_guards.
  split.
  - intros ((?&?&?&?&?&?&?) & ? & ?). split_and!; [by constructor|done|done].
  - intros ([] & ? & ?). split_and!; done.
Qed.

Lemma RehydrateWager_Ok d w : RehydrateWager d = Ok w <-> wager_valid d /\ w = mkWagerTransaction d.
Proof. unfold RehydrateWager, cloneWager. rewrite seq_Ok, validateWager_Ok. naive_solver. Qed.

Lemma NewWager_Ok d w :
  NewWager d = Ok w <->
  wager_valid d /\ wgKind d <> KindOpening /\ wgStatus d = StatusPending
  /\ w = mkWagerTransaction d.
Proof.
  unfold NewWager. rewrite !guard_else_Ok, RehydrateWager_Ok, bool_decide_eq_false, negb_false_iff,
    bool_decide_eq_true. naive_solver.
Qed.

Lemma NewOpening_Ok d w :
  NewOpening d = Ok w <->
  wager_valid d /\ wgKind d = KindOpening /\ wgStatus d = StatusPending
  /\ w = mkWagerTransaction d.
Proof.
  unfold NewOpening. rewrite guard_else_Ok, RehydrateWager_Ok, orb_false_iff, !negb_false_iff,
    !bool_decide_eq_true. naive_solver.
Qed.

(** A valid snapshot's kind is one of the six constants. *)
Lemma wager_kind d :
  wager_base d ->
  wgKind d = KindOpening \/ wgKind d = KindBET \/ wgKind d = KindWIN \/ wgKind d = KindLOSS
  \/ wgKind d = KindREFUND \/ wgKind d = KindROLLBACK.
Proof.
  intros [? ? ? ? ? ? H]. case_bool_decide as Hk; [by left|].
  unfold validate_external in H. rewrite seq_Ok, guard_err_Ok in H. destruct H as [H _]. bools.
  match goal with H : externalKind _ = true |- _ => unfold externalKind in H;
    rewrite !orb_true_iff, !bool_decide_eq_true in H end. naive_solver.
Qed.

Lemma wager_status d :
  state_ok d ->
  wgStatus d = StatusPending \/ wgStatus d = StatusPendingReference
  \/ wgStatus d = StatusProcessed \/ wgStatus d = StatusRejected \/ wgStatus d = StatusFailed.
Proof. intros []; naive_solver. Qed.

Lemma state_ok_nonterminal d :
  state_ok d -> Terminal (wgStatus d) = false ->
  clean d /\ (wgStatus d = StatusPending \/ wgStatus d = StatusPendingReference
              /\ wgReferenceExternalTransactionID d <> "").
Proof. intros [Hs|Hs|Hs|[Hs|Hs]] Ht; rewrite Hs in Ht; naive_solver. Qed.

(** An external transaction of a kind that reverses names its reference, and
    one that does not accept a reference has none. *)
Lemma external_reference d :
  wager_base d ->
  ((wgKind d = KindREFUND \/ wgKind d = KindROLLBACK) ->
     wgReferenceExternalTransactionID d <> "") /\
  ((wgKind d = KindBET \/ wgKind d = KindLOSS) -> wgReferenceExternalTransactionID d = "").
Proof.
  intros [? ? ? ? ? ? H]. case_bool_decide as Hk.
  { rewrite Hk. split; intros [?|?]; discriminate. }
  unfold validate_external in H. rewrite !seq_Ok in H. destruct H as (_ & _ & H1 & H2).
  rewrite guard_err_Ok, andb_false_iff in H1, H2.
  split; intros Hd.
  - destruct H1 as [H1|H1]; bools; [naive_solver|]. by apply TrimSpace_nonempty.
  - destruct H2 as [H2|H2]; bools; naive_solver.
Qed.

(** ** Transitions *)

(** The fields a transition must not change: those the database protects too. *)
Definition same_request (d d' : WagerData) : Prop :=
  wgID d' = wgID d /\ wgWalletID d' = wgWalletID d /\ wgPlayerID d' = wgPlayerID d
  /\ wgProviderID d' = wgProviderID d
  /\ wgExternalTransactionID d' = wgExternalTransactionID d
  /\ wgIdempotencyKey d' = wgIdempotencyKey d /\ wgPayloadHash d' = wgPayloadHash d
  /\ wgRoundID d' = wgRoundID d /\ wgGameID d' = wgGameID d /\ wgKind d' = wgKind d
  /\ wgMoney d' = wgMoney d
  /\ wgReferenceExternalTransactionID d' = wgReferenceExternalTransactionID d
  /\ wgCreatedAt d' = wgCreatedAt d.

#[global] Instance same_request_equivalence : Equivalence same_request.
Proof.
  unfold same_request. split.
  - intros d. by split_and!.
  - intros d d' ?. destruct_and!. split_and!; congruence.
  - intros d d' d'' ??. destruct_and!. split_and!; congruence.
Qed.

(** The snapshot a transition at [now] installs. *)
Definition settle (d : WagerData) (status : Status) (code : string) (balance : Money)
    (version : Z) (reference : ID) (now : Z) : WagerData :=
  with_times (with_outcome d status code balance version reference) now
    (if Terminal status then Some now else wgCompletedAt d).

Lemma settle_same d s c b v r now : same_request d (settle d s c b v r now).
Proof. by unfold same_request. Qed.
#[export] Hint Resolve settle_same : go.

Lemma base_settle d s c b v r now :
  wager_base d -> (wgKind d = KindOpening -> r = zeroID) -> wager_base (settle d s c b v r now).
Proof.
  intros [? ? ? ? ? ? H] Hr. constructor; try done. cbn. revert H.
  case_bool_decide as Hk; [|done].
  unfold validate_opening. rewrite !guard_err_Ok, !orb_false_iff. cbn. rewrite (Hr Hk).
  rewrite (bool_decide_eq_true_2 (zeroID = zeroID)) by done. intuition.
Qed.

Lemma opening_reference d : wager_base d -> wgKind d = KindOpening -> wgReferenceID d = zeroID.
Proof.
  intros [? ? ? ? ? ? H] Hk. rewrite Hk in H. eval_tests. cbn in H.
  unfold validate_opening in H. rewrite guard_err_Ok, !orb_false_iff in H.
  destruct_and!. by bools.
Qed.

Section transition.
Context (d : WagerData) (now : Z).
Hypothesis (Hv : wager_valid d) (Ht : Terminal (wgStatus d) = false)
  (Hz : now <> 0) (Hnow : wgUpdatedAt d <= now).

Lemma created_before : wgCreatedAt d <= now.
Proof using Hv Hnow. destruct Hv as (_ & ? & _). lia. Qed.

(** A transition to a valid next snapshot succeeds with exactly it. *)
Lemma transition_settle s c b v r :
  wager_valid (settle d s c b v r now) ->
  transition (Some (mkWagerTransaction d)) now (fun d => with_outcome d s c b v r)
  = Ok (mkWagerTransaction (settle d s c b v r now)).
Proof using Hv Ht Hz Hnow.
  intros Hn. unfold transition. cbn [wager_data].
  rewrite (proj2 (validateWager_Ok d) Hv), Ok_bind, Ht. unfold Time.IsZero, Time.Before.
  rewrite (proj2 (Z.eqb_neq now 0)), (proj2 (Z.ltb_ge now (wgUpdatedAt d))) by done.
  cbn [orb]. cbv zeta. unfold cloneWager.
  assert ((if Terminal (wgStatus (with_outcome (with_times d now (wgCompletedAt d)) s c b v r))
     then with_times (with_outcome (with_times d now (wgCompletedAt d)) s c b v r)
            (wgUpdatedAt (with_outcome (with_times d now (wgCompletedAt d)) s c b v r)) (Some now)
     else with_outcome (with_times d now (wgCompletedAt d)) s c b v r)
    = settle d s c b v r now) as ->.
  { cbn. unfold settle. by destruct (Terminal s). }
  by rewrite (proj2 (validateWager_Ok _) Hn).
Qed.

Lemma settled_completed s c b v r :
  Terminal s = true -> completed (settle d s c b v r now).
Proof using Hv Hnow.
  intros Hs. exists now. pose proof created_before. unfold settle. rewrite Hs. cbn.
  split; [done|lia].
Qed.

Lemma PendingReference_succeeds :
  wgReferenceExternalTransactionID d <> "" ->
  PendingReference (Some (mkWagerTransaction d)) now
  = Ok (mkWagerTransaction (settle d StatusPendingReference (wgFailureCode d)
      (wgResultBalance d) (wgResultVersion d) (wgReferenceID d) now)).
Proof using Hv Ht Hz Hnow.
  intros Hr. destruct Hv as (Hb & _ & Hs).
  apply (transition_settle StatusPendingReference).
  split_and!; [by auto using base_settle, opening_reference|apply created_before|].
  apply st_pending_reference; [done|done|]. by apply state_ok_nonterminal in Hs as [? _].
Qed.

Lemma Process_succeeds balance version r :
  wager_valid (settle d StatusProcessed (wgFailureCode d) balance version r now) ->
  Process (Some (mkWagerTransaction d)) balance version r now
  = Ok (mkWagerTransaction (settle d StatusProcessed (wgFailureCode d) balance version r now)).
Proof using Hv Ht Hz Hnow. apply (transition_settle StatusProcessed). Qed.

Lemma processed_valid balance version r :
  Valid balance = true -> 0 <= minor balance -> 1 <= version ->
  currency balance = currency (wgMoney d) ->
  amount_incompatible (wgKind d) (minor (wgMoney d)) = false ->
  (wgReferenceExternalTransactionID d <> "" -> r <> zeroID) ->
  (wgKind d = KindOpening -> r = zeroID) ->
  wager_valid (settle d StatusProcessed (wgFailureCode d) balance version r now).
Proof using Hv Ht Hnow.
  intros. destruct Hv as (Hb & _ & Hs).
  apply state_ok_nonterminal in Hs as [(_ & Hf & _) _]; [|done].
  split_and!; [by apply base_settle|apply created_before|].
  apply st_processed; [done|by apply settled_completed|]. by repeat split.
Qed.

Lemma refused_valid s code balance version :
  s = StatusRejected \/ s = StatusFailed -> TrimSpace code <> "" ->
  Valid balance = true -> 0 <= minor balance -> 1 <= version ->
  wager_valid (settle d s code balance version (wgReferenceID d) now).
Proof using Hv Hnow.
  intros Hs. intros. destruct Hv as (Hb & _ & _).
  split_and!; [by auto using base_settle, opening_reference|apply created_before|].
  apply st_refused; [done| |done|done]. apply settled_completed. by destruct Hs as [-> | ->].
Qed.

Lemma Reject_succeeds code balance version :
  TrimSpace code <> "" -> Valid balance = true -> 0 <= minor balance -> 1 <= version ->
  Reject (Some (mkWagerTransaction d)) code balance version now
  = Ok (mkWagerTransaction
      (settle d StatusRejected code balance version (wgReferenceID d) now)).
Proof using Hv Ht Hz Hnow.
  intros. apply (transition_settle StatusRejected). by apply refused_valid; [left|..].
Qed.

Lemma Fail_succeeds code balance version :
  TrimSpace code <> "" -> Valid balance = true -> 0 <= minor balance -> 1 <= version ->
  Fail (Some (mkWagerTransaction d)) code balance version now
  = Ok (mkWagerTransaction (settle d StatusFailed code balance version (wgReferenceID d) now)).
Proof using Hv Ht Hz Hnow.
  intros. apply (transition_settle StatusFailed). by apply refused_valid; [right|..].
Qed.
End transition.

(** What a successful transition went through. *)
Lemma transition_inv w now change w' :
  transition (Some w) now change = Ok w' ->
  let d := wager_data w in
  let next := change (with_times d now (wgCompletedAt d)) in
  wager_valid d /\ Terminal (wgStatus d) = false /\ now <> 0 /\ wgUpdatedAt d <= now
  /\ wager_data w' = (if Terminal (wgStatus next) then with_times next (wgUpdatedAt next) (Some now)
                      else next)
  /\ wager_valid (wager_data w').
Proof.
  unfold transition, cloneWager. cbv zeta. rewrite seq_Ok, validateWager_Ok.
  rewrite !guard_else_Ok, seq_Ok, validateWager_Ok, orb_false_iff.
  unfold Time.IsZero, Time.Before. rewrite Z.eqb_neq, Z.ltb_ge.
  intros (? & ? & (? & ?) & ? & [= <-]). done.
Qed.

(** ** The state machine of a transaction *)

Inductive event : Type :=
| EvPendingReference
| EvProcess (balance : Money) (version : Z) (referenceID : ID)
| EvReject (code : string) (balance : Money) (version : Z)
| EvFail (code : string) (balance : Money) (version : Z).

Definition fire (w : WagerTransaction) (e : event) (now : Z) : res WagerTransaction :=
  match e with
  | EvPendingReference => PendingReference (Some w) now
  | EvProcess balance version referenceID => Process (Some w) balance version referenceID now
  | EvReject code balance version => Reject (Some w) code balance version now
  | EvFail code balance version => Fail (Some w) code balance version now
  end.

Definition target (e : event) : Status :=
  match e with
  | EvPendingReference => StatusPendingReference
  | EvProcess _ _ _ => StatusProcessed
  | EvReject _ _ _ => StatusRejected
  | EvFail _ _ _ => StatusFailed
  end.

(** The lifecycle the engine promises: PENDING may wait, a waiting or pending
    transaction may settle once, and a settled one never moves. *)
Inductive lifecycle : Status -> Status -> Prop :=
| lc_wait s :
    s = StatusPending \/ s = StatusPendingReference -> lifecycle s StatusPendingReference
| lc_settle s t :
    s = StatusPending \/ s = StatusPendingReference -> Terminal t = true -> lifecycle s t.

(** Snapshots reachable from [d] by transitions. *)
Inductive evolves : WagerData -> WagerData -> Prop :=
| ev_refl d : evolves d d
| ev_step d d' d'' e now :
    evolves d d' -> fire (mkWagerTransaction d') e now = Ok (mkWagerTransaction d'') ->
    evolves d d''.

Lemma fire_inv w e now w' :
  fire w e now = Ok w' ->
  wager_valid (wager_data w) /\ wager_valid (wager_data w')
  /\ same_request (wager_data w) (wager_data w')
  /\ lifecycle (wgStatus (wager_data w)) (target e)
  /\ wgStatus (wager_data w') = target e
  /\ wgUpdatedAt (wager_data w') = now /\ wgUpdatedAt (wager_data w) <= now
  /\ (wgCompletedAt (wager_data w') = if Terminal (target e) then Some now else None).
Proof.
  intros H.
  assert (exists change, transition (Some w) now change = Ok w'
    /\ (forall d, same_request d (change d) /\ wgStatus (change d) = target e
          /\ wgUpdatedAt (change d) = wgUpdatedAt d /\ wgCompletedAt (change d) = wgCompletedAt d))
    as (change & Ht & Hch).
  { destruct e; eexists; (split; [exact H|]); intros d; unfold same_request; by split_and!. }
  apply transition_inv in Ht as (Hv & Hnt & Hz & Hup & E & Hv'). cbv zeta in *.
  destruct (Hch (with_times (wager_data w) now (wgCompletedAt (wager_data w))))
    as (Hsame & Hst & Hu & Hc).
  pose proof Hv as (_ & _ & Hs). apply state_ok_nonterminal in Hs as [(Hco & _) Hs]; [|done].
  rewrite Hst in E. split_and!; [done|done|..].
  - rewrite E. etrans; [|destruct (Terminal (target e)); [|exact Hsame]].
    + unfold same_request. by split_and!.
    + rewrite Hsame at 1. unfold same_request. by split_and!.
  - assert (wgStatus (wager_data w) = StatusPending
      \/ wgStatus (wager_data w) = StatusPendingReference) as Hn by (clear -Hs; tauto).
    clear -Hn. by destruct e; [apply lc_wait|apply lc_settle..].
  - rewrite E. by destruct (Terminal (target e)).
  - rewrite E. by destruct (Terminal (target e)).
  - done.
  - rewrite E. destruct (Terminal (target e)); [done|]. by rewrite Hc.
Qed.

Lemma terminal_stuck w e now w' :
  Terminal (wgStatus (wager_data w)) = true -> fire w e now <> Ok w'.
Proof.
  intros Ht H. apply fire_inv in H as (_ & _ & _ & Hl & _).
  inversion Hl as [s Hs|s t Hs]; subst; destruct Hs as [E|E]; by rewrite E in Ht.
Qed.

Lemma nonterminal_code d :
  wager_valid d -> Terminal (wgStatus d) = false -> wgFailureCode d = "".
Proof. intros (_ & _ & Hs) Ht. by apply state_ok_nonterminal in Hs as [(_ & Hf & _) _]. Qed.

(** What [Process] asks of its arguments. *)
Definition processable (d : WagerData) (balance : Money) (version : Z) (referenceID : ID) : Prop :=
  Valid balance = true /\ 0 <= minor balance /\ 1 <= version
  /\ currency balance = currency (wgMoney d)
  /\ amount_incompatible (wgKind d) (minor (wgMoney d)) = false
  /\ (wgReferenceExternalTransactionID d <> "" -> referenceID <> zeroID)
  /\ (wgKind d = KindOpening -> referenceID = zeroID).

Lemma processed_inv d balance version r now :
  wager_valid (settle d StatusProcessed (wgFailureCode d) balance version r now) ->
  processable d balance version r.
Proof.
  intros (Hb & _ & Hs). pose proof (opening_reference _ Hb) as Ho.
  inversion Hs as [E ?|E ? ?|_ _ Hp|[E|E] ? ? ?]; try discriminate E.
  destruct Hp as (_ & (? & ? & ?) & ? & ? & ?). by repeat split.
Qed.

(** ** Properties *)

(** A transaction follows its lifecycle.  Whatever sequence of transitions
    is attempted on a valid snapshot, the snapshot reached is valid, carries
    the same request, never goes back in time, and is reached by lifecycle
    steps; a terminal snapshot is never left, so a result is written once. *)
Theorem wager_lifecycle d d' :
  wager_valid d -> evolves d d' ->
  wager_valid d' /\ same_request d d' /\ rtc lifecycle (wgStatus d) (wgStatus d')
  /\ wgUpdatedAt d <= wgUpdatedAt d'
  /\ (Terminal (wgStatus d) = true -> d' = d).
Proof.
  intros Hv H. induction H as [d|d d1 d2 e now H IH Hf].
  - split_and!; [done|done|apply rtc_refl|done|done].
  - specialize (IH Hv) as (Hv1 & Hs1 & Hr1 & Hu1 & Ht1). pose proof Hf as Hf'.
    apply fire_inv in Hf as (_ & Hv2 & Hs2 & Hl & Hst & Hup & Hle & _).
    cbn [wager_data] in *. split_and!.
    + done.
    + by rewrite Hs1.
    + eapply rtc_r; [exact Hr1|]. by rewrite Hst.
    + lia.
    + intros Ht. specialize (Ht1 Ht) as ->. exfalso.
      by eapply (terminal_stuck (mkWagerTransaction d)); [|exact Hf'].
Qed.

Definition demo_hash : string := Hex.encode (Str.bytes (replicate 32 7)).
Definition demo_bet : WagerData :=
  mkWagerData (demo_id 7) (demo_id 1) (demo_id 2) "provider-a" "bet-1" "provider-a:bet-1" demo_hash
    "round-1" "game-1" KindBET (mkMoney 8000 "BRL") "" zeroID StatusPending "" Money0 0 1500 1500
    None.
Definition demo_bet_processed : WagerData :=
  settle demo_bet StatusProcessed "" (mkMoney 2000 "BRL") 2 zeroID 1600.
Lemma demo_bet_valid : wager_valid demo_bet.
Proof. apply validateWager_Ok. vm_compute. reflexivity. Qed.

Lemma wager_lifecycle_witness :
  wager_valid demo_bet_processed /\ rtc lifecycle StatusPending StatusProcessed.
Proof.
  destruct (wager_lifecycle demo_bet demo_bet_processed demo_bet_valid) as (H1 & _ & H2 & _).
  - apply (ev_step _ demo_bet _ (EvProcess (mkMoney 2000 "BRL") 2 zeroID) 1600).
    + apply ev_refl.
    + vm_compute. reflexivity.
  - exact (conj H1 H2).
Defined.

(** Exactly when a transaction may be settled as processed: a valid
    non-terminal snapshot, a clock not behind it, a valid nonnegative balance
    in its currency, a positive version, an amount its kind allows, and its
    reference resolved if it names one (an OPENING carries none).  The snapshot
    installed keeps the request and stamps the completion. *)
Theorem Process_exact d balance version r now w' :
  Process (Some (mkWagerTransaction d)) balance version r now = Ok w' <->
  wager_valid d /\ Terminal (wgStatus d) = false /\ now <> 0 /\ wgUpdatedAt d <= now
  /\ processable d balance version r
  /\ w' = mkWagerTransaction (settle d StatusProcessed "" balance version r now).
Proof.
  split.
  - intros H. apply transition_inv in H as (Hv & Ht & Hz & Hup & E & Hv').
    cbv zeta in *. cbn [wager_data] in Hv, Ht, Hup.
    pose proof (nonterminal_code _ Hv Ht) as Hf.
    assert (wager_data w' = settle d StatusProcessed (wgFailureCode d) balance version r now) as E'
      by (rewrite E; reflexivity).
    rewrite E' in Hv'. apply processed_inv in Hv'. rewrite Hf in E'.
    split_and!; try done. destruct w' as [d']; cbn [wager_data] in E'. by rewrite E'.
  - intros (Hv & Ht & Hz & Hup & (?&?&?&?&?&?&?) & ->).
    pose proof (nonterminal_code _ Hv Ht) as Hf.
    rewrite <- Hf. apply Process_succeeds; try done. by apply processed_valid.
Qed.
