(* ===== verification/Evaluate.v ===== *)
(** * The decision: [Evaluate] of [internal/domain/wager.go]

    [Evaluate] decides the financial effect of a transaction on a wallet
    without changing either.  A business refusal is a [Decision] with a failure
    code, not an error, so that the caller can record it. *)

From S2P Require Import Prelude GoStd Errors Ident Money Wallet Ledger Wager.
Import Int64.

Record Decision : Type := mkDecision {
  dcDirection : Direction;
  dcPending : bool;
  dcFailureCode : string
}.

#[global] Instance Decision_eq_dec : EqDecision Decision.
Proof. solve_decision. Defined.

(** The closure [reject], and the waiting decision. *)
Definition reject (code : string) : res Decision := Ok (mkDecision DirectionNone false code).
Definition wait : res Decision := Ok (mkDecision DirectionNone true "").

(** Go panics when it reads through a nil pointer; the panic is an error no
    caller handles. *)
Definition nil_dereference : GoError := OtherError "invalid memory address or nil pointer dereference".

(** The reference names another transaction than the request says. *)
Definition reference_foreign (wager reference : WagerData) : bool :=
  (wgID reference == wgID wager) || (wgProviderID reference != wgProviderID wager)
  || (wgPlayerID reference != wgPlayerID wager)
  || (wgWalletID reference != wgWalletID wager)
  || (currency (wgMoney reference) != currency (wgMoney wager))
  || (wgRoundID reference != wgRoundID wager)
  || (wgExternalTransactionID reference != wgReferenceExternalTransactionID wager).

(** The reference is of a kind this kind cannot refer to. *)
Definition reference_kind_mismatch (wager reference : WagerData) : bool :=
  ((wgKind wager == KindREFUND) && (wgKind reference != KindBET))
  || ((wgKind wager == KindWIN) && (wgKind reference != KindBET))
  || ((wgKind wager == KindROLLBACK) && (wgKind reference != KindBET)
      && (wgKind reference != KindWIN) && (wgKind reference != KindREFUND)).

Definition is_reversal (kind : Kind) : bool := (kind == KindREFUND) || (kind == KindROLLBACK).

(** The block under [if wager.ReferenceExternalTransactionID != ""]: [Some] is
    an early return. *)
Definition check_reference (wager : WagerData) (reference : option WagerData)
    (alreadyReversed : bool) : option (res Decision) :=
  if wgReferenceExternalTransactionID wager != "" then
    match reference with
    | None => Some wait
    | Some reference =>
        if reference_foreign wager reference then Some (reject CodeReferenceMismatch)
        else if reference_kind_mismatch wager reference then Some (reject CodeReferenceMismatch)
        else if is_reversal (wgKind wager)
                && negb (minor (wgMoney reference) =? minor (wgMoney wager))
        then Some (reject CodeReferenceMismatch)
        else if (wgStatus reference == StatusPending)
                || (wgStatus reference == StatusPendingReference)
        then Some wait
        else if wgStatus reference != StatusProcessed
        then Some (reject CodeReferenceNotProcessed)
        else if is_reversal (wgKind wager) && alreadyReversed
        then Some (reject CodeReferenceAlreadyReversed)
        else None
    end
  else None.

(** The [switch wager.Kind] that picks the direction. *)
Definition kind_direction (wager : WagerData) (reference : option WagerData) : res Direction :=
  if wgKind wager == KindBET then Ok DirectionDebit
  else if (wgKind wager == KindWIN) || (wgKind wager == KindREFUND) then Ok DirectionCredit
  else if wgKind wager == KindROLLBACK then
    match reference with
    | None => Err nil_dereference
    | Some reference =>
        Ok (if wgKind reference == KindBET then DirectionCredit else DirectionDebit)
    end
  else Ok DirectionNone.

Definition Evaluate (wallet : WalletData) (wager : WagerData) (reference : option WagerData)
    (alreadyReversed : bool) : res Decision :=
  _ ← validateWallet wallet;
  _ ← validateWager wager;
  if Terminal (wgStatus wager)
  then Err (invalid CodeInvalidState "cannot evaluate terminal transaction")
  else if (wgWalletID wager != wID wallet) || (wgPlayerID wager != wPlayerID wallet)
  then Err (invalid CodeInvalidWager "transaction does not belong to wallet and player")
  else if currency (wgMoney wager) != currency (wBalance wallet) then reject CodeCurrencyMismatch
  else if amount_incompatible (wgKind wager) (minor (wgMoney wager))
  then reject CodeInvalidAmountForKind
  else if wgKind wager == KindOpening
  then Err (invalid CodeInvalidWager "opening must use wallet creation")
  else
    match check_reference wager reference alreadyReversed with
    | Some early => early
    | None =>
        direction ← kind_direction wager reference;
        if (direction == DirectionDebit) && (minor (wBalance wallet) <? minor (wgMoney wager))
        then if is_reversal (wgKind wager) then reject CodeInsufficientFundsForReversal
             else reject CodeInsufficientFunds
        else if (direction == DirectionCredit)
                && negb (is_ok (Add (wBalance wallet) (wgMoney wager)))
        then reject CodeOverflow
        else Ok (mkDecision direction false "")
    end.

(** ** Specification *)

(** The financial effect a kind has on its own. *)
Definition kind_effect (kind : Kind) (n : Z) : Z :=
  if kind == KindBET then - n
  else if (kind == KindWIN) || (kind == KindREFUND) then n
  else 0.

(** The effect of a transaction: a rollback inverts its reference. *)
Definition effect (wager : WagerData) (reference : option WagerData) : Z :=
  if wgKind wager == KindROLLBACK then
    match reference with
    | Some r => - kind_effect (wgKind r) (minor (wgMoney r))
    | None => 0
    end
  else kind_effect (wgKind wager) (minor (wgMoney wager)).

Definition direction_effect (dir : Direction) (n : Z) : Z :=
  if dir == DirectionDebit then - n else if dir == DirectionCredit then n else 0.

(** The reference a transaction names is the one it may act on. *)
Record reference_matches (wager r : WagerData) : Prop := {
  rm_other : wgID r <> wgID wager;
  rm_provider : wgProviderID r = wgProviderID wager;
  rm_player : wgPlayerID r = wgPlayerID wager;
  rm_wallet : wgWalletID r = wgWalletID wager;
  rm_currency : currency (wgMoney r) = currency (wgMoney wager);
  rm_round : wgRoundID r = wgRoundID wager;
  rm_external : wgExternalTransactionID r = wgReferenceExternalTransactionID wager;
  rm_kind :
    (wgKind wager = KindREFUND -> wgKind r = KindBET)
    /\ (wgKind wager = KindWIN -> wgKind r = KindBET)
    /\ (wgKind wager = KindROLLBACK ->
        wgKind r = KindBET \/ wgKind r = KindWIN \/ wgKind r = KindREFUND);
  rm_amount : is_reversal (wgKind wager) = true -> minor (wgMoney r) = minor (wgMoney wager)
}.

Lemma reference_matches_iff wager r :
  reference_matches wager r <->
  reference_foreign wager r = false /\ reference_kind_mismatch wager r = false
  /\ (is_reversal (wgKind wager) && negb (minor (wgMoney r) =? minor (wgMoney wager))) = false.
Proof.
  unfold reference_foreign, reference_kind_mismatch.
  rewrite !orb_false_iff, !andb_false_iff, !negb_false_iff, !bool_decide_eq_false,
    !bool_decide_eq_true, Z.eqb_eq. split.
  - intros [? ? ? ? ? ? ? (K1 & K2 & K3) Ha]. split_and!; try done.
    + destruct (decide (wgKind wager = KindREFUND)); tauto.
    + destruct (decide (wgKind wager = KindWIN)); tauto.
    + destruct (decide (wgKind wager = KindROLLBACK)); tauto.
    + destruct (is_reversal _); tauto.
  - intros ((((((?&?)&?)&?)&?)&?)&?); intros. destruct_and!. constructor; try done.
    + split_and!; tauto.
    + intros E. rewrite E in *. naive_solver.
Qed.

(** A transaction presented to the wallet it names. *)
Record presented (wallet : WalletData) (wager : WagerData) : Prop := {
  pr_wallet : wallet_ok wallet;
  pr_wager : wager_valid wager;
  pr_open : Terminal (wgStatus wager) = false;
  pr_owner : wgWalletID wager = wID wallet /\ wgPlayerID wager = wPlayerID wallet;
  pr_external : wgKind wager <> KindOpening
}.

(** Everything an approval has established. *)
Record approved (wallet : WalletData) (wager : WagerData) (reference : option WagerData)
    (alreadyReversed : bool) (dir : Direction) : Prop := {
  ap_currency : currency (wgMoney wager) = currency (wBalance wallet);
  ap_amount : amount_incompatible (wgKind wager) (minor (wgMoney wager)) = false;
  ap_reference : wgReferenceExternalTransactionID wager <> "" ->
    exists r, reference = Some r /\ reference_matches wager r /\ wgStatus r = StatusProcessed
      /\ (is_reversal (wgKind wager) = true -> alreadyReversed = false);
  ap_direction : kind_direction wager reference = Ok dir;
  ap_debit : dir = DirectionDebit -> minor (wgMoney wager) <= minor (wBalance wallet);
  ap_credit : dir = DirectionCredit -> is_ok (Add (wBalance wallet) (wgMoney wager)) = true
}.

(** ** Lemmas *)

Lemma check_reference_None wager reference rev :
  check_reference wager reference rev = None ->
  wgReferenceExternalTransactionID wager <> "" ->
  exists r, reference = Some r /\ reference_matches wager r /\ wgStatus r = StatusProcessed
    /\ (is_reversal (wgKind wager) = true -> rev = false).
Proof.
  unfold check_reference. intros H Hne. rewrite bool_decide_eq_false_2 in H by done. cbn [negb] in H.
  destruct reference as [r|]; [|done]. exists r. split; [done|].
  destruct (reference_foreign _ _) eqn:E1; [done|].
  destruct (reference_kind_mismatch _ _) eqn:E2; [done|].
  destruct (is_reversal _ && negb _) eqn:E3; [done|].
  destruct (_ || _); [done|]. destruct (wgStatus r != StatusProcessed) eqn:E4; [done|]. bools.
  destruct (is_reversal _ && rev) eqn:E5; [done|].
  split_and!; [by apply reference_matches_iff|done|].
  intros E. rewrite E in E5. exact E5.
Qed.

(** Reversals name a reference, so the direction never reads through nil. *)
Lemma kind_direction_total wager reference rev :
  wager_base wager -> check_reference wager reference rev = None ->
  exists dir, kind_direction wager reference = Ok dir.
Proof.
  intros Hb Hc. unfold kind_direction.
  destruct (wgKind wager == KindBET); [eauto|]. destruct (_ || _); [eauto|].
  case_bool_decide as Hk; [|eauto].
  destruct (external_reference _ Hb) as [Hx _].
  destruct (check_reference_None _ _ _ Hc (Hx (or_intror Hk))) as (r & -> & _). eauto.
Qed.

Lemma Evaluate_presented wallet wager reference rev :
  presented wallet wager ->
  Evaluate wallet wager reference rev =
    if currency (wgMoney wager) != currency (wBalance wallet) then reject CodeCurrencyMismatch
    else if amount_incompatible (wgKind wager) (minor (wgMoney wager))
    then reject CodeInvalidAmountForKind
    else match check_reference wager reference rev with
    | Some early => early
    | None =>
        direction ← kind_direction wager reference;
        if (direction == DirectionDebit) && (minor (wBalance wallet) <? minor (wgMoney wager))
        then if is_reversal (wgKind wager) then reject CodeInsufficientFundsForReversal
             else reject CodeInsufficientFunds
        else if (direction == DirectionCredit)
                && negb (is_ok (Add (wBalance wallet) (wgMoney wager)))
        then reject CodeOverflow
        else Ok (mkDecision direction false "")
    end.
Proof.
  intros [Hw Hg Ht [Ho1 Ho2] Hk]. unfold Evaluate.
  rewrite wallet_ok_valid, (proj2 (validateWager_Ok _) Hg), !Ok_bind, Ht by done.
  rewrite Ho1, Ho2, !bool_decide_refl. cbn [negb orb].
  by rewrite (bool_decide_eq_false_2 _ Hk).
Qed.

Lemma check_reference_early wager reference rev early :
  check_reference wager reference rev = Some early ->
  exists d, early = Ok d /\ dcDirection d = DirectionNone /\
    ((dcPending d = true /\ dcFailureCode d = "" /\ wgReferenceExternalTransactionID wager <> "") \/
     (dcPending d = false /\ dcFailureCode d <> "")).
Proof.
  unfold check_reference, wait, reject. intros H.
  repeat case_match; simplify_eq; eexists; (split; [done|]); (split; [done|]); cbn;
    first [by right | left]; by bools.
Qed.

(** A presented transaction always gets a decision, of one of three shapes. *)
Lemma Evaluate_decides wallet wager reference rev :
  presented wallet wager ->
  exists d, Evaluate wallet wager reference rev = Ok d /\
    ((dcPending d = true /\ dcDirection d = DirectionNone /\ dcFailureCode d = ""
      /\ wgReferenceExternalTransactionID wager <> "") \/
     (dcPending d = false /\ dcDirection d = DirectionNone /\ dcFailureCode d <> "") \/
     (dcPending d = false /\ dcFailureCode d = ""
      /\ approved wallet wager reference rev (dcDirection d))).
Proof.
  intros Hp. rewrite Evaluate_presented by done. unfold reject.
  destruct (_ != _) eqn:E1; [eexists; split; [done|]; right; by left|].
  destruct (amount_incompatible _ _) eqn:E2; [eexists; split; [done|]; right; by left|].
  destruct (check_reference _ _ _) as [early|] eqn:E3.
  { apply check_reference_early in E3 as (d & -> & Hd & [(?&?&?)|(?&?)]);
      exists d; (split; [done|]); [by left|right; by left]. }
  destruct (kind_direction_total _ _ _ (proj1 (pr_wager _ _ Hp)) E3) as [dir Hd].
  rewrite Hd, Ok_bind.
  destruct (_ && (_ <? _)) eqn:E4.
  { destruct (is_reversal _); (eexists; split; [done|]); right; by left. }
  destruct (_ && negb _) eqn:E5; [eexists; split; [done|]; right; by left|].
  eexists; split; [done|]. right; right. split_and!; [done|done|]. cbn. bools. constructor; try done.
  - by apply check_reference_None.
  - intros ->. rewrite bool_decide_refl in E4. cbn in E4. bools. done.
  - intros ->. rewrite bool_decide_refl in E5. cbn in E5. by bools.
Qed.

(** The direction of an approval is the sign of its effect. *)
Lemma approved_effect wallet wager reference rev dir :
  wager_base wager -> wgKind wager <> KindOpening ->
  approved wallet wager reference rev dir ->
  effect wager reference = direction_effect dir (minor (wgMoney wager))
  /\ (dir = DirectionDebit \/ dir = DirectionCredit \/ dir = DirectionNone)
  /\ (dir = DirectionNone <-> wgKind wager = KindLOSS)
  /\ (dir <> DirectionNone -> 0 < minor (wgMoney wager)).
Proof.
  intros Hb Hop [Hc Ha Hr Hd _ _].
  destruct (external_reference _ Hb) as [Hrev _].
  pose proof (wager_kind _ Hb) as Hk.
  unfold amount_incompatible in Ha. apply orb_false_iff in Ha as [Ha1 Ha2].
  unfold kind_direction in Hd. unfold effect, kind_effect, direction_effect.
  destruct Hk as [Hk|[Hk|[Hk|[Hk|[Hk|Hk]]]]]; [done|..]; rewrite Hk in *; eval_tests;
    cbn [andb orb negb] in *; bools.
  1-4: injection Hd as <-; eval_tests; split_and!; try tauto; try done; try lia.
  destruct (Hr (Hrev (or_intror eq_refl))) as (r & -> & Hm & _ & _).
  destruct Hm as [_ _ _ _ _ _ _ (_ & _ & K) Hamt].
  rewrite Hk in K, Hamt. specialize (Hamt eq_refl). injection Hd as <-.
  destruct (K eq_refl) as [E|[E|E]]; rewrite E; eval_tests; cbn iota; eval_tests;
    rewrite Hamt; split_and!; try tauto; try done; try lia.
Qed.

(** ** Executing a decision *)

(** The [switch decision.Direction] of [postgres.apply]: a direction that is
    neither leaves the wallet alone. *)
Definition move_wallet (w : Wallet) (dir : Direction) (money : Money) (now : Z) : res Wallet :=
  if dir == DirectionDebit then Debit (Some w) money now
  else if dir == DirectionCredit then Credit (Some w) money now
  else Ok w.

(** What executing direction [dir] for [n] units at [now] does to a wallet. *)
Record executed (d d' : WalletData) (dir : Direction) (n now : Z) : Prop := {
  ex_ok : wallet_ok d';
  ex_id : wID d' = wID d;
  ex_player : wPlayerID d' = wPlayerID d;
  ex_created : wCreatedAt d' = wCreatedAt d;
  ex_currency : currency (wBalance d') = currency (wBalance d);
  ex_balance : minor (wBalance d') = minor (wBalance d) + direction_effect dir n;
  ex_none : dir = DirectionNone -> d' = d;
  ex_some : dir <> DirectionNone -> wVersion d' = wVersion d + 1 /\ wUpdatedAt d' = now
}.

Lemma executed_none d n now : wallet_ok d -> executed d d DirectionNone n now.
Proof. intros. constructor; try done. unfold direction_effect. eval_tests. cbn iota. lia. Qed.

Lemma move_executed d money now debit w' dir :
  wallet_ok d -> Int64.in_range (minor money) -> 0 < minor money ->
  dir = (if debit : bool then DirectionDebit else DirectionCredit) ->
  move (Some (mkWallet d)) money now debit = Ok w' ->
  executed d (wallet_data w') dir (minor money) now.
Proof.
  intros Hok Hr Hpos -> H.
  apply move_Ok in H as (Hok' & (?&?&?&?&Hb&Hz) & _); [|done..].
  rewrite (proj2 (Z.eqb_neq _ 0)) in Hz by lia.
  constructor; try done; [|by destruct debit].
  rewrite Hb. unfold direction_effect, signed. by destruct debit.
Qed.

(** An approval can be executed: with a clock not behind the wallet and a
    version to spare, the movement succeeds. *)
Lemma move_wallet_succeeds wallet wager reference rev dir now :
  presented wallet wager -> Int64.in_range (minor (wgMoney wager)) ->
  approved wallet wager reference rev dir ->
  now <> 0 -> wUpdatedAt wallet <= now -> wVersion wallet <> MaxInt64 ->
  exists w', move_wallet (mkWallet wallet) dir (wgMoney wager) now = Ok w'
    /\ executed wallet (wallet_data w') dir (minor (wgMoney wager)) now.
Proof.
  intros [Hw Hg _ _ Hop] Hr Hap Hz Hnow Hver.
  destruct (approved_effect _ _ _ _ _ (proj1 Hg) Hop Hap) as (_ & Hd & _ & Hpos).
  pose proof Hap as [Hc _ _ _ Hdb Hcr].
  destruct Hg as ([_ _ _ Hmv Hmn _ _] & _ & _).
  pose proof Hw as [? ? [Hbv Hbr] ? [? ?] ? ?].
  unfold move_wallet, Debit, Credit.
  destruct Hd as [Ed|[Ed|Ed]]; subst dir; eval_tests; cbn iota;
    [| |by eexists; split; [done|apply executed_none]];
    specialize (Hpos ltac:(discriminate)).
  all: match goal with |- exists w', ?m = Ok w' /\ _ =>
    assert (exists w', m = Ok w') as [w' Hm];
      [|exists w'; split; [done|by eapply move_executed; [..|exact Hm]]] end.
  all: rewrite move_eval by done; cbv zeta; cbn [signed].
  all: rewrite (proj2 (Z.eqb_neq (minor _) 0)), (proj2 (Z.eqb_neq (wVersion _) MaxInt64)) by lia.
  - specialize (Hdb eq_refl). unfold Int64.in_range in *.
    rewrite (proj2 (Z.ltb_ge _ 0)), (proj2 (Z.ltb_ge MaxInt64 _)) by lia. eauto.
  - specialize (Hcr eq_refl). apply is_ok_spec in Hcr as [s Hs].
    apply Add_Ok in Hs as (_ & Hin & _); [|done..]. unfold Int64.in_range in Hin.
    rewrite (proj2 (Z.ltb_ge _ 0)), (proj2 (Z.ltb_ge MaxInt64 _)) by lia. eauto.
Qed.

(** The reference a transaction names may not be acted on yet. *)
Definition awaits (wager : WagerData) (reference : option WagerData) : Prop :=
  wgReferenceExternalTransactionID wager <> "" /\
  match reference with
  | None => True
  | Some r => reference_matches wager r
              /\ (wgStatus r = StatusPending \/ wgStatus r = StatusPendingReference)
  end.

Lemma check_reference_wait wager reference rev :
  check_reference wager reference rev = Some wait <-> awaits wager reference.
Proof.
  unfold check_reference, awaits. case_bool_decide as Hne; cbn [negb]; [naive_solver|].
  destruct reference as [r|]; [|naive_solver]. rewrite reference_matches_iff.
  destruct (reference_foreign _ _); [naive_solver|].
  destruct (reference_kind_mismatch _ _); [naive_solver|].
  destruct (is_reversal _ && negb _); [naive_solver|].
  destruct (_ || _) eqn:E.
  - rewrite orb_true_iff, !bool_decide_eq_true in E. naive_solver.
  - bools. split; [|naive_solver]. intros Hx. repeat case_match; discriminate.
Qed.

(** ** Properties *)



Lemma demo_presented : presented demo_wallet demo_bet.
Proof.
  constructor; [exact demo_wallet_ok|exact demo_bet_valid|reflexivity|by split|discriminate].
Qed.


(** An approved reversal exactly undoes one processed transaction.  An
    approved REFUND or ROLLBACK names a reference that exists, belongs to the
    same provider, player, wallet, round and currency, is PROCESSED, has not
    been reversed, moved the same amount, and is a BET (REFUND) or a BET, WIN
    or REFUND (ROLLBACK); and the reversal's effect is minus the reference's. *)
Theorem reversal_inverts wallet wager reference rev dir :
  Evaluate wallet wager reference rev = Ok (mkDecision dir false "") ->
  is_reversal (wgKind wager) = true ->
  exists r, reference = Some r /\ reference_matches wager r /\ wgStatus r = StatusProcessed
    /\ rev = false
    /\ effect wager reference = - kind_effect (wgKind r) (minor (wgMoney r))
    /\ kind_effect (wgKind r) (minor (wgMoney r)) <> 0.
Proof.
  intros H Hrev. unfold Evaluate in H.
  apply bind_Ok in H as ([] & Hw & H). apply bind_Ok in H as ([] & Hg & H).
  apply validateWager_Ok in Hg as (Hb & _ & _). do 5 skip_if H.
  destruct (check_reference _ _ _) as [early|] eqn:Hc.
  { subst early. apply check_reference_early in Hc as (d & [= <-] & _ & [[? _]|[_ ?]]); done. }
  clear H. destruct (external_reference _ Hb) as [Hne _].
  unfold is_reversal in Hrev. rewrite orb_true_iff, !bool_decide_eq_true in Hrev.
  destruct (check_reference_None _ _ _ Hc (Hne Hrev)) as (r & -> & Hm & Hs & Hnr).
  exists r. pose proof Hm as [_ _ _ _ _ _ _ (K1 & _ & K3) Ha].
  unfold amount_incompatible in *. unfold effect, kind_effect.
  destruct Hrev as [E'|E']; rewrite E' in *; eval_tests; cbn [andb orb negb] in *; bools;
    specialize (Hnr eq_refl); specialize (Ha eq_refl); rewrite Ha.
  - rewrite (K1 eq_refl). eval_tests. cbn iota. split_and!; done || lia.
  - destruct (K3 eq_refl) as [Ek|[Ek|Ek]]; rewrite Ek; eval_tests; cbn [orb]; cbn iota;
      split_and!; done || lia.
Qed.

Definition demo_refund : WagerData :=
  mkWagerData (demo_id 9) (demo_id 1) (demo_id 2) "provider-a" "refund-1" "provider-a:refund-1"
    demo_hash "round-1" "game-1" KindREFUND (mkMoney 8000 "BRL") "bet-1" zeroID StatusPending ""
    Money0 0 1700 1700 None.
Lemma reversal_inverts_witness :
  exists r, Some demo_bet_processed = Some r /\ reference_matches demo_refund r
    /\ wgStatus r = StatusProcessed /\ false = false
    /\ effect demo_refund (Some demo_bet_processed) = - kind_effect (wgKind r) (minor (wgMoney r))
    /\ kind_effect (wgKind r) (minor (wgMoney r)) <> 0.
Proof.
  refine (reversal_inverts demo_wallet demo_refund (Some demo_bet_processed) false
    DirectionCredit _ _); vm_compute; reflexivity.
Defined.

(** When a transaction waits.  A presented transaction of the wallet's
    currency and an amount its kind allows waits exactly when it names a
    reference that is missing, or matches but has not settled; in particular a
    mismatched reference is refused at once, even while it is pending. *)
Theorem waits_exactly wallet wager reference rev :
  presented wallet wager -> currency (wgMoney wager) = currency (wBalance wallet) ->
  amount_incompatible (wgKind wager) (minor (wgMoney wager)) = false ->
  (exists d, Evaluate wallet wager reference rev = Ok d /\ dcPending d = true)
  <-> awaits wager reference.
Proof.
  intros Hp Hc Ha. rewrite <- (check_reference_wait wager reference rev).
  rewrite Evaluate_presented, Ha, Hc, bool_decide_refl by done. cbn [negb]. split.
  - intros (d & H & Hd). destruct (check_reference _ _ _) as [early|] eqn:E.
    + subst early. pose proof (check_reference_early _ _ _ _ E)
        as (d' & [= <-] & Hdir & [(_ & Hf & _)|[Hn _]]); [|congruence].
      unfold wait. by destruct d as [dir p f]; cbn in *; subst.
    + apply bind_Ok in H as (dir & _ & H). unfold reject in H.
      repeat case_match; simplify_eq; done.
  - intros ->. by eexists.
Qed.

Lemma waits_exactly_witness :
  exists d, Evaluate demo_wallet demo_refund None false = Ok d /\ dcPending d = true.
Proof.
  refine (proj2 (waits_exactly demo_wallet demo_refund None false _ eq_refl eq_refl) _).
  - constructor; [exact demo_wallet_ok|apply validateWager_Ok; vm_compute; reflexivity
      |reflexivity|split; reflexivity|discriminate].
  - split; [discriminate|exact I].
Defined.
