(* ===== verification/Command.v ===== *)
(** * The transport-independent boundary: [internal/application]

    Commands and results, the normalization both transports share, and the hash
    that decides whether a replay asks for the same operation. *)

From S2P Require Import Prelude GoStd Codec Errors Ident Money Wallet Ledger Wager.
Import Str.

Record CreateWalletCommand : Type := mkCreateWalletCommand {
  cwPlayerID : string;
  cwInitialBalance : Money;
  cwCorrelationID : string
}.

Record Command : Type := mkCommand {
  cProviderID : string;
  cExternalTransactionID : string;
  cIdempotencyKey : string;
  cPlayerID : string;
  cWalletID : string;
  cRoundID : string;
  cGameID : string;
  cKind : string;
  cMoney : Money;
  cReferenceExternalTransactionID : string;
  cCorrelationID : string;
  cCausationID : string
}.

Record WalletView : Type := mkWalletView {
  wvID : string; wvPlayerID : string; wvBalance : Money; wvVersion : Z;
  wvCreatedAt : Z; wvUpdatedAt : Z
}.

Record Result : Type := mkResult {
  rsTransactionID : string;
  rsStatus : string;
  rsBalance : Money;
  rsWalletVersion : Z;
  rsFailureCode : string;
  rsIdempotentReplay : bool
}.

Record InboxMessage : Type := mkInboxMessage {
  imConsumerName : string; imMessageID : string; imPayloadHash : string
}.

#[global] Instance Command_eq_dec : EqDecision Command.
Proof. solve_decision. Defined.
#[global] Instance Result_eq_dec : EqDecision Result.
Proof. solve_decision. Defined.

Definition MaxOutboxBatch : Z := 100.

(** The loop over the mandatory texts: not trimmed, only refused. *)
Definition text_ok (value : string) : bool :=
  negb (len value =? 0)%nat && (Z.of_nat (len value) <=? 256) && (TrimSpace value == value).

Definition NormalizeCommand (c : Command) : res Command :=
  player ← ParseID (cPlayerID c);
  wallet ← ParseID (cWalletID c);
  let kind := ToUpper (cKind c) in
  _ ← guard_err
    (negb (forallb text_ok
       [cProviderID c; cExternalTransactionID c; cIdempotencyKey c; cRoundID c; cGameID c]))
    (AppError "INVALID_INPUT");
  _ ← guard_err (256 <? Z.of_nat (len (cReferenceExternalTransactionID c)))
    (AppError "INVALID_INPUT");
  _ ← NewMoney (minor (cMoney c)) (currency (cMoney c));
  _ ← guard_err (minor (cMoney c) <? 0) (AppError "INVALID_AMOUNT");
  _ ← guard_err
    (negb ((kind == "BET") || (kind == "WIN") || (kind == "LOSS") || (kind == "REFUND")
           || (kind == "ROLLBACK")))
    (AppError "INVALID_KIND");
  _ ← guard_err
    (((kind == "REFUND") || (kind == "ROLLBACK")) && (cReferenceExternalTransactionID c == ""))
    (AppError "REFERENCE_REQUIRED");
  Ok (mkCommand (cProviderID c) (cExternalTransactionID c) (cIdempotencyKey c)
        (ID_String player) (ID_String wallet) (cRoundID c) (cGameID c) kind (cMoney c)
        (cReferenceExternalTransactionID c)
        (if cCorrelationID c == "" then cExternalTransactionID c else cCorrelationID c)
        (cCausationID c)).

(** [json.Marshal] of a [Money]: a failing [MarshalJSON] is wrapped. *)
Definition money_json (m : Money) : res string :=
  match Money_MarshalJSON m with
  | Ok (amount, cur) =>
      Ok (Json.object [("amount", Json.string_lit amount); ("currency", Json.string_lit cur)])
  | Err e => Err (Wrapped "json: error calling MarshalJSON for type domain.Money" e)
  end.

(** The document [PayloadHash] hashes: a map, whose keys [json.Marshal] sorts. *)
Definition payload_document (c : Command) : res string :=
  money ← money_json (cMoney c);
  Ok (Json.object
        [("externalTransactionId", Json.string_lit (cExternalTransactionID c));
         ("gameId", Json.string_lit (cGameID c));
         ("kind", Json.string_lit (cKind c));
         ("money", money);
         ("playerId", Json.string_lit (cPlayerID c));
         ("providerId", Json.string_lit (cProviderID c));
         ("referenceExternalTransactionId",
            Json.string_lit (cReferenceExternalTransactionID c));
         ("roundId", Json.string_lit (cRoundID c));
         ("walletId", Json.string_lit (cWalletID c))]).

Definition PayloadHash (c : Command) : res string :=
  b ← payload_document c; Ok (Hex.encode (Sha256.Sum256 b)).

(** ** Lemmas *)

(** A command both transports may hand to the store. *)
Record normal (c : Command) : Prop := {
  nm_player : exists id, ParseID (cPlayerID c) = Ok id /\ cPlayerID c = ID_String id;
  nm_wallet : exists id, ParseID (cWalletID c) = Ok id /\ cWalletID c = ID_String id;
  nm_texts : Forall (fun v => v <> "" /\ (len v <= 256)%nat /\ TrimSpace v = v)
    [cProviderID c; cExternalTransactionID c; cIdempotencyKey c; cRoundID c; cGameID c];
  nm_reference : (len (cReferenceExternalTransactionID c) <= 256)%nat;
  nm_money : Valid (cMoney c) = true;
  nm_nonneg : 0 <= minor (cMoney c);
  nm_kind : externalKind (cKind c) = true;
  nm_reversal : cKind c = KindREFUND \/ cKind c = KindROLLBACK ->
    cReferenceExternalTransactionID c <> "";
  nm_correlation : cCorrelationID c <> ""
}.

Lemma text_ok_spec v : text_ok v = true <-> v <> "" /\ (len v <= 256)%nat /\ TrimSpace v = v.
Proof.
  unfold text_ok. rewrite !andb_true_iff, negb_true_iff, Nat.eqb_neq, Z.leb_le, bool_decide_eq_true.
  destruct v; cbn [len]; split; intros; destruct_and!; split_and!; try done; lia.
Qed.

Lemma texts_ok c :
  forallb text_ok
    [cProviderID c; cExternalTransactionID c; cIdempotencyKey c; cRoundID c; cGameID c] = true
  <-> Forall (fun v => v <> "" /\ (len v <= 256)%nat /\ TrimSpace v = v)
    [cProviderID c; cExternalTransactionID c; cIdempotencyKey c; cRoundID c; cGameID c].
Proof.
  rewrite forallb_forall, Forall_forall.
  split; intros H v Hv; specialize (H v); rewrite list_elem_of_In in *; by apply text_ok_spec, H.
Qed.

(** The upper-case kinds are fixed points of [ToUpper]. *)
Lemma externalKind_upper k : externalKind k = true -> ToUpper k = k.
Proof.
  unfold externalKind. rewrite !orb_true_iff, !bool_decide_eq_true.
  intros [[[[-> | ->] | ->] | ->] | ->]; vm_compute; reflexivity.
Qed.

Lemma NormalizeCommand_inv c c' :
  NormalizeCommand c = Ok c' ->
  normal c' /\ (exists player wallet, ParseID (cPlayerID c) = Ok player
    /\ ParseID (cWalletID c) = Ok wallet
    /\ c' = mkCommand (cProviderID c) (cExternalTransactionID c) (cIdempotencyKey c)
              (ID_String player) (ID_String wallet) (cRoundID c) (cGameID c) (ToUpper (cKind c))
              (cMoney c) (cReferenceExternalTransactionID c)
              (if cCorrelationID c == "" then cExternalTransactionID c else cCorrelationID c)
              (cCausationID c)).
Proof.
  intros H. unfold NormalizeCommand in H.
  apply bind_Ok in H as (player & Hp & H). apply bind_Ok in H as (wallet & Hw & H).
  cbv zeta in H. rewrite seq_Ok, guard_err_Ok, negb_false_iff, texts_ok in H.
  destruct H as (Ht & H). rewrite seq_Ok, guard_err_Ok, Z.ltb_ge in H. destruct H as (Hr & H).
  apply bind_Ok in H as (m & Hm & H). apply NewMoney_Ok in Hm as (Hm & _).
  rewrite !seq_Ok, !guard_err_Ok in H. destruct H as (Hn & Hk & Hrev & H).
  injection H as <-. bools. split; [|by eauto].
  pose proof (Forall_inv (Forall_inv_tail Ht)) as (Hext & _).
  constructor; cbn; try done.
  - exists player. split; [by eapply ParseID_canonical|done].
  - exists wallet. split; [by eapply ParseID_canonical|done].
  - lia.
  - intros Hk'. apply andb_false_iff in Hrev as [Hrev|Hrev]; bools; [|done]. by destruct Hk'.
  - destruct (cCorrelationID c == "") eqn:E; bools; done.
Qed.

(** A normal command is left as it is. *)
Lemma NormalizeCommand_normal c : normal c -> NormalizeCommand c = Ok c.
Proof.
  intros [(p & Hp & Ep) (w & Hw & Ew) Ht Hr Hm Hn Hk Hrev Hc].
  unfold NormalizeCommand. rewrite Hp, Ok_bind, Hw, Ok_bind. cbv zeta.
  rewrite (externalKind_upper _ Hk), (proj2 (texts_ok c) Ht), (proj2 (Z.ltb_ge 256 _)),
    (proj2 (Z.ltb_ge (minor _) 0)), NewMoney_valid by (done || lia).
  change ((cKind c == "BET") || (cKind c == "WIN") || (cKind c == "LOSS") || (cKind c == "REFUND")
    || (cKind c == "ROLLBACK")) with (externalKind (cKind c)).
  rewrite Hk, (bool_decide_eq_false_2 (cCorrelationID c = "")) by done.
  assert ((((cKind c == "REFUND") || (cKind c == "ROLLBACK"))
    && (cReferenceExternalTransactionID c == "")) = false) as ->.
  { apply andb_false_iff. destruct (_ || _) eqn:E; [right|by left].
    rewrite orb_true_iff, !bool_decide_eq_true in E. by apply bool_decide_eq_false, Hrev. }
  cbn. rewrite <- Ep, <- Ew. by destruct c.
Qed.

Lemma PayloadHash_length c h :
  PayloadHash c = Ok h -> exists d, Hex.decode h = Some d /\ len d = 32%nat.
Proof.
  unfold PayloadHash. intros H. apply bind_Ok in H as (b & _ & [= <-]).
  exists (Sha256.Sum256 b). split; [apply Hex.decode_encode|apply Sha256.Sum256_length].
Qed.

Lemma PayloadHash_valid c : Valid (cMoney c) = true -> exists h, PayloadHash c = Ok h.
Proof.
  intros Hv. unfold PayloadHash, payload_document, money_json, Money_MarshalJSON.
  rewrite Hv. by eexists.
Qed.

(** ** Properties *)

(** Normalization is a projection onto the well-formed commands: what it
    returns has canonical identities, an upper-case kind the engine knows, a
    valid nonnegative amount, mandatory texts of 1 to 256 bytes without space around them
    and a reference when it reverses; it is left unchanged by a second
    normalization; and its financial hash exists and is 32 bytes long. *)
Theorem normalize_projection c c' :
  NormalizeCommand c = Ok c' ->
  normal c' /\ NormalizeCommand c' = Ok c'
  /\ exists h d, PayloadHash c' = Ok h /\ Hex.decode h = Some d /\ len d = 32%nat.
Proof.
  intros H. apply NormalizeCommand_inv in H as [Hn _].
  split_and!; [done|by apply NormalizeCommand_normal|].
  destruct (PayloadHash_valid c') as [h Hh]; [by destruct Hn|].
  destruct (PayloadHash_length _ _ Hh) as (d & ? & ?). by exists h, d.
Qed.

Definition demo_command : Command :=
  mkCommand "provider-a" "bet-1" "provider-a:bet-1" (ID_String (demo_id 2)) (ID_String (demo_id 1))
    "round-1" "game-1" "bet" (mkMoney 8000 "BRL") "" "" "".
Definition demo_normal : Command :=
  mkCommand "provider-a" "bet-1" "provider-a:bet-1" (ID_String (demo_id 2)) (ID_String (demo_id 1))
    "round-1" "game-1" "BET" (mkMoney 8000 "BRL") "" "bet-1" "".
Lemma normalize_projection_witness : NormalizeCommand demo_normal = Ok demo_normal.
Proof.
  refine (proj1 (proj2 (normalize_projection demo_command demo_normal _))).
  vm_compute; reflexivity.
Defined.
