(* ===== verification/Config.v ===== *)
(** * Configuration: [internal/platform/config/config.go]

    What the environment may say, and the bounds every accepted configuration
    meets.  [time.ParseDuration] computes fractions in IEEE 754 double
    precision, here with the Standard Library's specification of it. *)

From Stdlib Require Import Ascii SpecFloat.
From S2P Require Import Prelude GoStd Codec Errors Ident Money Command.
Import Str.

(** ** [time.ParseDuration] *)
Module Duration.
(** [float64(n)] and [float64(f) * (float64(unit) / scale)], truncated. *)
Definition float64 (n : Z) : spec_float := binary_normalize 53 1024 n 0 false.
Definition truncate (x : spec_float) : Z :=
  match x with
  | S754_finite false m e => Z.shiftl (Z.pos m) e
  | _ => 0
  end.
Definition scaled (f unit scale : Z) : Z :=
  truncate (SFmul 53 1024 (float64 f) (SFdiv 53 1024 (float64 unit) (float64 scale))).

Definition unit_of (u : string) : option Z :=
  if u == "ns" then Some 1
  else if (u == "us") || (u == bytes [194; 181; 115]) || (u == bytes [206; 188; 115]) then Some 1000
  else if u == "ms" then Some Time.Millisecond
  else if u == "s" then Some Time.Second
  else if u == "m" then Some Time.Minute
  else if u == "h" then Some Time.Hour
  else None.

(** [leadingInt]: [None] on overflow. *)
Fixpoint leadingInt (x : Z) (s : string) : option (Z * string) :=
  match s with
  | String c r =>
      if Strconv.is_digit c then
        if 2 ^ 63 / 10 <? x then None
        else
          let y := x * 10 + Strconv.digit_val c in
          if 2 ^ 63 <? y then None else leadingInt y r
      else Some (x, s)
  | EmptyString => Some (x, "")
  end.

(** [leadingFraction]: digits past an overflow are dropped. *)
Fixpoint leadingFraction (x scale : Z) (overflow : bool) (s : string) : Z * Z * string :=
  match s with
  | String c r =>
      if Strconv.is_digit c then
        if overflow || ((2 ^ 63 - 1) / 10 <? x) then leadingFraction x scale true r
        else
          let y := x * 10 + Strconv.digit_val c in
          if 2 ^ 63 <? y then leadingFraction x scale true r
          else leadingFraction y (scale * 10) false r
      else (x, scale, s)
  | EmptyString => (x, scale, "")
  end.

(** The unit: what stands before a digit or a period. *)
Fixpoint span_unit (s : string) : string * string :=
  match s with
  | String c r =>
      if (c == "."%char) || Strconv.is_digit c then ("", s)
      else let '(u, r) := span_unit r in (String c u, r)
  | EmptyString => ("", "")
  end.

(** One number with its unit. *)
Definition component (s : string) : option (Z * string) :=
  '(v, s1) ← leadingInt 0 s;
  let pre := negb (len s1 =? len s)%nat in
  let '(f, scale, s2, post) :=
    match s1 with
    | String "." r =>
        let '(f, scale, s2) := leadingFraction 0 1 false r in (f, scale, s2, negb (len s2 =? len r)%nat)
    | _ => (0, 1, s1, false)
    end in
  if negb pre && negb post then None
  else
    let '(u, s3) := span_unit s2 in
    if u == "" then None
    else
      unit ← unit_of u;
      if 2 ^ 63 / unit <? v then None
      else
        let v := v * unit + (if 0 <? f then scaled f unit scale else 0) in
        if 2 ^ 63 <? v then None else Some (v, s3).

(** Each round consumes at least a character of the fuel. *)
Fixpoint components (fuel : nat) (d : Z) (s : string) : option Z :=
  if s == "" then Some d
  else match fuel with
       | O => None
       | S fuel =>
           '(v, r) ← component s;
           let d := (d + v) mod 2 ^ 64 in
           if 2 ^ 63 <? d then None else components fuel d r
       end.

Definition ParseDuration (s : string) : option Z :=
  let '(neg, s) :=
    match s with String "-" r => (true, r) | String "+" r => (false, r) | _ => (false, s) end in
  if s == "0" then Some 0
  else if s == "" then None
  else
    d ← components (len s) 0 s;
    if neg : bool then Some (- d) else if 2 ^ 63 - 1 <? d then None else Some d.

Example minute_and_half : ParseDuration "1m30s" = Some (90 * Time.Second).
Proof. vm_compute. reflexivity. Qed.
Example fractional : ParseDuration "1.5h" = Some (90 * Time.Minute).
Proof. vm_compute. reflexivity. Qed.
Example no_unit : ParseDuration "30" = None.
Proof. vm_compute. reflexivity. Qed.
End Duration.

(** [strconv.ParseBool]. *)
Definition ParseBool (s : string) : option bool :=
  if existsb (fun t => s == t) ["1"; "t"; "T"; "true"; "TRUE"; "True"] then Some true
  else if existsb (fun t => s == t) ["0"; "f"; "F"; "false"; "FALSE"; "False"] then Some false
  else None.

(** ** The configuration *)

Record Config : Type := mkConfig {
  DatabaseURL : string; HTTPAddr : string; InstanceID : string;
  OIDCIssuer : string; OIDCFetchIssuer : string; OIDCAudience : string; OIDCAllowHTTP : bool;
  AWSRegion : string; SQSEndpoint : string; InputQueue : string; OutputQueue : string;
  InputDLQ : string; OutputDLQ : string;
  TrustedProviders : list string;
  Concurrency : Z; PublishBatch : Z; MaxConns : Z;
  ProcessTimeout : Z; VisibilityTimeout : Z; ShutdownTimeout : Z; Lease : Z; PollInterval : Z;
  ReferenceTTL : Z; ReferenceMaxAttempts : Z
}.

Section Load.
Context (Getenv : string -> string) (hostname : option string) (pid : Z).

Definition env (key fallback : string) : string :=
  let value := Getenv key in if value != "" then value else fallback.

(** [if raw := os.Getenv(key); raw != "" { *p, err = parse(raw) }]. *)
Definition setting {A} (parse : string -> option A) (key : string) (initial : A) : res A :=
  let raw := Getenv key in
  if raw == "" then Ok initial
  else match parse raw with Some v => Ok v | None => Err (OtherError key) end.

Definition Atoi (s : string) : option Z :=
  match Strconv.ParseInt s with Ok v => Some v | Err _ => None end.

(** The checks of a parsed configuration; the first that fails. *)
Definition provider_ok (p : string) : bool := negb (p == "") && (TrimSpace p == p).

Definition invalid_bounds (c : Config) : option string :=
  if (DatabaseURL c == "") || (OIDCIssuer c == "") then Some "DATABASE_URL and OIDC_ISSUER are required"
  else if (Concurrency c <? 1) || (10 <? Concurrency c) || (ReferenceMaxAttempts c <? 1)
          || (ProcessTimeout c <=? 0) || (PollInterval c <=? 0) || (ReferenceTTL c <=? 0)
  then Some "invalid worker bounds"
  else if (PublishBatch c <? 1) || (MaxOutboxBatch <? PublishBatch c)
  then Some "OUTBOX_PUBLISH_BATCH must be between 1 and 100"
  else if (MaxConns c <? 2) || (50 <? MaxConns c)
  then Some "DB_MAX_CONNS must be between 2 and 50; max_replicas * DB_MAX_CONNS must still fit max_connections"
  else if (VisibilityTimeout c <=? Int64.wrap (ProcessTimeout c + 10 * Time.Second))
          || (VisibilityTimeout c <=? ShutdownTimeout c) || (ShutdownTimeout c <=? ProcessTimeout c)
          || (Lease c <? Int64.wrap (ProcessTimeout c + 10 * Time.Second))
  then Some "require process+10s < visibility, process < shutdown < visibility and lease >= process+10s"
  else if negb (Z.rem (VisibilityTimeout c) Time.Second =? 0) || (12 * Time.Hour <? VisibilityTimeout c)
  then Some "visibility must be integral seconds and <= 12h"
  else if negb (forallb provider_ok (TrustedProviders c)) then Some "invalid trusted provider allowlist"
  else None.

(** Go visits the settings of a map in no particular order: it decides which
    error is returned when several are wrong, nothing else. *)
Definition Load : res Config :=
  match hostname with
  | None => Err (OtherError "hostname")
  | Some host =>
      allow ← setting ParseBool "OIDC_ALLOW_INSECURE_HTTP" false;
      concurrency ← setting Atoi "WORKER_CONCURRENCY" 4;
      batch ← setting Atoi "OUTBOX_PUBLISH_BATCH" 100;
      conns ← setting Atoi "DB_MAX_CONNS" 20;
      attempts ← setting Atoi "REFERENCE_MAX_ATTEMPTS" 12;
      process ← setting Duration.ParseDuration "PROCESS_TIMEOUT" (30 * Time.Second);
      visibility ← setting Duration.ParseDuration "SQS_VISIBILITY_TIMEOUT" (60 * Time.Second);
      shutdown ← setting Duration.ParseDuration "SHUTDOWN_TIMEOUT" (45 * Time.Second);
      lease ← setting Duration.ParseDuration "CLAIM_LEASE" (60 * Time.Second);
      poll ← setting Duration.ParseDuration "POLL_INTERVAL" Time.Second;
      ttl ← setting Duration.ParseDuration "REFERENCE_TTL" (24 * Time.Hour);
      let c := mkConfig (Getenv "DATABASE_URL") (env "HTTP_ADDR" ":8080")
        (env "INSTANCE_ID" (host +:+ "-" +:+ Strconv.FormatInt pid))
        (Getenv "OIDC_ISSUER") (Getenv "OIDC_FETCH_ISSUER") (env "OIDC_AUDIENCE" "jungle-api") allow
        (env "AWS_REGION" "us-east-1") (Getenv "SQS_ENDPOINT")
        (env "SQS_INPUT_QUEUE" "wager-transactions.fifo") (env "SQS_OUTPUT_QUEUE" "wager-events.fifo")
        (env "SQS_INPUT_DLQ" "wager-transactions-dlq.fifo") (env "SQS_OUTPUT_DLQ" "wager-events-dlq.fifo")
        (Split "," (env "SQS_TRUSTED_PROVIDERS" "provider-a,provider-b"))
        concurrency batch conns process visibility shutdown lease poll ttl attempts in
      match invalid_bounds c with
      | Some text => Err (OtherError text)
      | None => Ok c
      end
  end.
End Load.

(** ** What every accepted configuration meets *)

Record config_ok (c : Config) : Prop := {
  cfg_owner : InstanceID c <> "";
  cfg_batch : 1 <= PublishBatch c <= MaxOutboxBatch;
  cfg_concurrency : 1 <= Concurrency c <= 10;
  cfg_conns : 2 <= MaxConns c <= 50;
  cfg_attempts : 1 <= ReferenceMaxAttempts c;
  cfg_times : 0 < PollInterval c /\ 0 < ReferenceTTL c /\ 0 < ProcessTimeout c;
  cfg_order : ProcessTimeout c < ShutdownTimeout c < VisibilityTimeout c;
  cfg_visibility : ProcessTimeout c + 10 * Time.Second < VisibilityTimeout c <= 12 * Time.Hour;
  cfg_seconds : Z.rem (VisibilityTimeout c) Time.Second = 0;
  cfg_lease : ProcessTimeout c + 10 * Time.Second <= Lease c;
  cfg_providers : Forall (fun p => p <> "" /\ TrimSpace p = p) (TrustedProviders c)
}.

Lemma bounds_ok c : InstanceID c <> "" -> invalid_bounds c = None -> config_ok c.
Proof.
  intros Hi H. unfold invalid_bounds in H.
  repeat match type of H with (if ?b then _ else _) = _ => destruct b eqn:?; [done|] end.
  rewrite ?orb_false_iff, ?Z.ltb_ge, ?Z.leb_gt in *. destruct_and?. bools.
  assert (Hw : Int64.wrap (ProcessTimeout c + 10 * Time.Second) = ProcessTimeout c + 10 * Time.Second).
  { apply Int64.wrap_id. unfold Int64.in_range, Int64.MinInt64, Int64.MaxInt64, Time.Hour, Time.Minute, Time.Second in *. lia. }
  rewrite Hw in *. constructor; try done; try lia.
  match goal with H : forallb provider_ok _ = true |- _ => rewrite forallb_forall in H; rename H into Hp end.
  apply Forall_forall. intros p Hin. apply list_elem_of_In in Hin. specialize (Hp p Hin).
  unfold provider_ok in Hp. by bools.
Qed.

Lemma env_nonempty Getenv key fallback : fallback <> "" -> env Getenv key fallback <> "".
Proof. intros H. unfold env. by case_bool_decide. Qed.

Lemma Load_ok Getenv host pid c : Load Getenv host pid = Ok c -> config_ok c.
Proof.
  intros H. unfold Load in H. destruct host as [host|]; [|done].
  do 11 (apply bind_Ok in H as (? & _ & H)). cbv zeta in H. destruct (invalid_bounds _) eqn:E; [done|].
  injection H as <-. apply bounds_ok; [|done]. cbn. apply env_nonempty. by destruct host.
Qed.
