(* ===== verification/Oidc.v ===== *)
(** * Access tokens: [internal/adapters/auth/oidc.go]

    The principal a token names, the verifier's cache of signing keys, and how
    it is refreshed from the identity provider.  The JWT library and the
    network are parameters, and so is the grammar of [net/url]: what [New] does
    with an address depends on the parts [url.Parse] finds in it. *)

From Stdlib Require Import Ascii.
From S2P Require Import Prelude GoStd Codec JsonText MediaType Base64 Errors.
Import Str.

(** ** Principals *)

(** [Scopes] is a set of scopes. *)
Record Principal : Type := mkPrincipal {
  prSubject : string; prProviderID : string; prScopes : gset string
}.

Definition HasScope (p : Principal) (scope : string) : bool := bool_decide (scope ∈ prScopes p).

(** ** The verifier *)

(** [auth.Config], as [New] leaves it. *)
Record AuthConfig : Type := mkAuthConfig {
  acIssuer : string; acFetchIssuer : string; acAudience : string; acCacheTTL : Z
}.

(** [url.URL], as far as [New] looks at it. *)
Record URL : Type := mkURL { uScheme : string; uUser : bool; uHost : string; uRawQuery : string; uFragment : string }.

(** [strings.TrimRight(s, "/")]. *)
Fixpoint drop_slashes (s : string) : string :=
  match s with String "/" r => drop_slashes r | _ => s end.
Definition trim_slashes (s : string) : string := reverse (drop_slashes (reverse s)).

Section new.
Context (Parse : string -> option URL) (AllowInsecureHTTP : bool).

Definition trusted_address (address : string) : bool :=
  match Parse address with
  | None => false
  | Some u =>
      negb ((uHost u == "") || uUser u || (uRawQuery u != "") || (uFragment u != "")
            || ((uScheme u != "https") && negb (AllowInsecureHTTP && (uScheme u == "http"))))
  end.

(** [New]: the configuration the verifier keeps. *)
Definition New (c : AuthConfig) : res AuthConfig :=
  if acAudience c == "" then Err (OtherError "OIDC audience is required")
  else
    let issuer := trim_slashes (acIssuer c) in
    let fetch := trim_slashes (if acFetchIssuer c == "" then issuer else acFetchIssuer c) in
    if negb (forallb trusted_address [issuer; fetch])
    then Err (OtherError "OIDC issuer must be a trusted HTTPS URL (HTTP requires explicit local setting)")
    else
      let ttl := if acCacheTTL c =? 0 then 5 * Time.Minute else acCacheTTL c in
      if ttl <? Time.Second then Err (OtherError "OIDC cache TTL must be at least one second")
      else Ok (mkAuthConfig issuer fetch (acAudience c) ttl).

(** What an accepted configuration trusts: addresses of a host, over TLS unless
    plain HTTP was allowed, with no credentials in them. *)
Lemma New_trusts c c' : New c = Ok c' ->
  acAudience c' <> "" /\ Time.Second <= acCacheTTL c'
  /\ Forall (fun address => exists u, Parse address = Some u /\ uHost u <> "" /\ uUser u = false
       /\ (uScheme u = "https" \/ (AllowInsecureHTTP = true /\ uScheme u = "http")))
     [acIssuer c'; acFetchIssuer c'].
Proof using Type.
  unfold New. destruct (acAudience c == "") eqn:Ea; [done|]. destruct (negb (forallb _ _)) eqn:Et; [done|].
  destruct (_ <? Time.Second) eqn:El; [done|]. intros [= <-]. cbn. bools. split_and!; [done|done|].
  cbn [forallb] in Et. apply andb_true_iff in Et as [H1 H2].
  apply andb_true_iff in H2 as [H2 _].
  assert (H : forall a, trusted_address a = true -> exists u, Parse a = Some u /\ uHost u <> "" /\ uUser u = false
       /\ (uScheme u = "https" \/ (AllowInsecureHTTP = true /\ uScheme u = "http"))).
  { intros a H. unfold trusted_address in H. destruct (Parse a) as [u|]; [|done]. exists u. split; [done|].
    destruct (uHost u == "") eqn:Eh; [done|]. destruct (uUser u); [done|]. cbn [orb] in H.
    destruct (uRawQuery u == ""); [|done]. destruct (uFragment u == ""); [|done]. cbn [orb negb] in H.
    bools. split_and!; [done|done|]. destruct (uScheme u == "https") eqn:Es; bools; [by left|right].
    by destruct AllowInsecureHTTP, (uScheme u == "http") eqn:E2; bools. }
  by repeat constructor; apply H.
Qed.
End new.

(** [rsa.PublicKey]. *)
Record PublicKey : Type := mkPublicKey { pkN : Z; pkE : Z }.

Record Verifier : Type := mkVerifier {
  vKeys : gmap string PublicKey; vLoadedAt : Z; vLastAttempt : Z
}.

(** As [New] makes it: both times are zero. *)
Definition new_verifier : Verifier := mkVerifier ∅ 0 0.

Definition ErrInvalidToken : GoError := OtherError "invalid access token".

(** [time.Since(t)] at [now]: a [time.Duration] saturates. *)
Definition Since (now t : Z) : Z := Z.max Int64.MinInt64 (Z.min Int64.MaxInt64 (now - t)).

(** ** The documents of the identity provider *)

Record discovery : Type := mkDiscovery { diIssuer : string; diJWKSURI : string }.
Definition discovery_fields : fields discovery :=
  [("issuer", field diIssuer (fun i d => mkDiscovery i (diJWKSURI d)) into_string);
   ("jwks_uri", field diJWKSURI (fun u d => mkDiscovery (diIssuer d) u) into_string)].

(** One member of [set.Keys]. *)
Record jwk : Type := mkJwk {
  jkKty : string; jkKid : string; jkUse : string; jkAlg : string; jkN : string; jkE : string
}.
Definition no_jwk : jwk := mkJwk "" "" "" "" "" "".
Definition jwk_fields : fields jwk :=
  [("kty", field jkKty (fun x k => mkJwk x (jkKid k) (jkUse k) (jkAlg k) (jkN k) (jkE k)) into_string);
   ("kid", field jkKid (fun x k => mkJwk (jkKty k) x (jkUse k) (jkAlg k) (jkN k) (jkE k)) into_string);
   ("use", field jkUse (fun x k => mkJwk (jkKty k) (jkKid k) x (jkAlg k) (jkN k) (jkE k)) into_string);
   ("alg", field jkAlg (fun x k => mkJwk (jkKty k) (jkKid k) (jkUse k) x (jkN k) (jkE k)) into_string);
   ("n", field jkN (fun x k => mkJwk (jkKty k) (jkKid k) (jkUse k) (jkAlg k) x (jkE k)) into_string);
   ("e", field jkE (fun x k => mkJwk (jkKty k) (jkKid k) (jkUse k) (jkAlg k) (jkN k) x) into_string)].

(** A slice while [encoding/json] fills it: its length, and all that was ever
    written to its array, which a second member of the same name writes over. *)
Record slice (A : Type) : Type := mkSlice { sl_len : nat; sl_array : list A }.
Arguments mkSlice {A}. Arguments sl_len {A}. Arguments sl_array {A}.
Definition sl_elements {A} (s : slice A) : list A := take (sl_len s) (sl_array s).

Fixpoint into_elements {A} (d : decoder A) (zero : A) (l : list json) (array : list A) : option (list A) :=
  match l with
  | [] => Some array
  | v :: l =>
      x ← d v (default zero (head array));
      xs ← into_elements d zero l (tail array);
      Some (x :: xs)
  end.
Definition into_slice {A} (d : decoder A) (zero : A) : decoder (slice A) := fun v old =>
  match v with
  | JArr [] | JNull => Some (mkSlice 0 [])
  | JArr l => mkSlice (length l) <$> into_elements d zero l (sl_array old)
  | _ => None
  end.
Definition set_fields : fields (slice jwk) :=
  [("keys", into_slice (into_struct false jwk_fields) no_jwk)].

(** ** Keys *)

(** [big.Int.SetBytes] and [BitLen]. *)
Definition SetBytes (s : string) : Z := foldl (fun z b => 256 * z + b) 0 (Base64.to_bytes s).
Definition BitLen (z : Z) : Z := if z =? 0 then 0 else Z.log2 z + 1.

(** A member of the set the service can use. *)
Definition usable (k : jwk) : option PublicKey :=
  if (jkKty k != "RSA") || (jkKid k == "") || ((jkUse k != "") && (jkUse k != "sig"))
     || ((jkAlg k != "") && (jkAlg k != "RS256"))
  then None
  else
    n ← Base64.decode (jkN k);
    e ← Base64.decode (jkE k);
    let exponent := SetBytes e in
    let modulus := SetBytes n in
    if (len e =? 0)%nat || (4 <? len e)%nat || (exponent <? 3) || (2147483647 <? exponent)
       || (Z.rem exponent 2 =? 0) || (BitLen modulus <? 2048)
    then None else Some (mkPublicKey modulus exponent).

Fixpoint collect (l : list jwk) (keys : gmap string PublicKey) : res (gmap string PublicKey) :=
  match l with
  | [] => Ok keys
  | k :: l =>
      match usable k with
      | None => collect l keys
      | Some key =>
          match keys !! jkKid k with
          | Some _ => Err (OtherError "duplicate OIDC signing key ID")
          | None => collect l (<[jkKid k := key]> keys)
          end
      end
  end.

Section verifier.
Context (config : AuthConfig).

(** One call under the lock: the [n]-th reading of the clock, and what a fetch
    of an address gives (its status and body, or an error of the client). *)
Context (clock : nat -> Z) (fetch : nat -> string -> res (Z * string)).

(** [get]: a body of at most a megabyte, read whole. *)
Definition get {A} (n : nat) (address : string) (d : decoder A) (zero : A) : res A :=
  match fetch n address with
  | Err e => Err (Wrapped "OIDC fetch" e)
  | Ok (status, body) =>
      if negb (status =? 200) then Err (OtherError ("OIDC returned status " +:+ Strconv.FormatInt status))
      else if 1048576 <? Z.of_nat (len body) then Err (OtherError "OIDC response exceeds limit")
      else match Unmarshal d body zero with
           | Some a => Ok a
           | None => Err (OtherError "OIDC JSON")
           end
  end.

Definition discovery_address : string := acFetchIssuer config +:+ "/.well-known/openid-configuration".

(** Where the keys are, beneath the issuer, as this service reaches it. *)
Definition keys_address (jwks_uri : string) : string :=
  acFetchIssuer config +:+ drop (len (acIssuer config)) jwks_uri.

Definition fetch_keys : res (gmap string PublicKey) :=
  d ← get 0 discovery_address (into_struct false discovery_fields) (mkDiscovery "" "");
  if diIssuer d != acIssuer config then Err (OtherError "OIDC discovery issuer mismatch")
  else if negb (HasPrefix (diJWKSURI d) (acIssuer config +:+ "/"))
  then Err (OtherError "OIDC JWKS location outside configured issuer")
  else
    set ← get 1 (keys_address (diJWKSURI d)) (into_struct false set_fields) (mkSlice 0 []);
    keys ← collect (sl_elements set) ∅;
    if bool_decide (keys = ∅) then Err (OtherError "OIDC has no usable RS256 signing key") else Ok keys.

(** [refresh]: the attempt is recorded even when it fails. *)
Definition refresh (v : Verifier) : Verifier * res unit :=
  match fetch_keys with
  | Err e => (mkVerifier (vKeys v) (vLoadedAt v) (clock 2), Err e)
  | Ok keys => (mkVerifier keys (clock 3) (clock 2), Ok tt)
  end.

Definition Check (v : Verifier) : Verifier * res unit := refresh v.

Definition fresh (v : Verifier) (kid : string) : option PublicKey :=
  match vKeys v !! kid with
  | Some k => if Since (clock 0) (vLoadedAt v) <? acCacheTTL config then Some k else None
  | None => None
  end.

Definition key (v : Verifier) (kid : string) : Verifier * res PublicKey :=
  match fresh v kid with
  | Some k => (v, Ok k)
  | None =>
      if Since (clock 1) (vLastAttempt v) <? Time.Second then (v, Err ErrInvalidToken)
      else
        let '(v', refreshed) := refresh v in
        (v', match refreshed with
             | Err e => Err e
             | Ok _ => match vKeys v' !! kid with Some k => Ok k | None => Err ErrInvalidToken end
             end)
  end.

(** ** [Validate] *)

(** What the JWT library reads_token of a token before it asks for the key, and the
    claims of one whose signature, issuer, audience and times it accepts_token. *)
Record Token : Type := mkToken { tkKid : option string; tkAlg : string }.
Record accessClaims : Type := mkClaims { clSubject : string; clProviderID : string; clScope : string }.
Context (unverified : string -> option Token).
Context (verified : string -> string -> PublicKey -> string -> res accessClaims).

Definition acceptable (t : Token) : option string :=
  match tkKid t with
  | Some kid =>
      if (kid == "") || (256 <? Z.of_nat (len kid)) || (tkAlg t != "RS256") then None else Some kid
  | None => None
  end.

Definition principal_of (c : accessClaims) : Principal :=
  mkPrincipal (clSubject c) (clProviderID c) (list_to_set (Fields (clScope c))).

Definition Validate (v : Verifier) (raw : string) : Verifier * res Principal :=
  if (len raw =? 0)%nat || (8192 <? Z.of_nat (len raw)) then (v, Err ErrInvalidToken)
  else
    match unverified raw ≫= acceptable with
    | None => (v, Err ErrInvalidToken)
    | Some kid =>
        let '(v', found) := key v kid in
        (v', match found with
             | Err _ => Err ErrInvalidToken
             | Ok k =>
                 match verified (acIssuer config) (acAudience config) k raw with
                 | Err _ => Err ErrInvalidToken
                 | Ok c => if clSubject c == "" then Err ErrInvalidToken else Ok (principal_of c)
                 end
             end)
    end.
End verifier.

(** ** What the cache holds *)

(** A key the service trusts: RSA, at least 2048 bits, an odd exponent. *)
Definition strong (k : PublicKey) : Prop :=
  2 ^ 2047 <= pkN k /\ 3 <= pkE k <= 2147483647 /\ Z.odd (pkE k) = true.

Lemma usable_strong k key : usable k = Some key ->
  strong key /\ jkKid k <> "" /\ jkKty k = "RSA" /\ (jkUse k = "" \/ jkUse k = "sig")
  /\ (jkAlg k = "" \/ jkAlg k = "RS256").
Proof.
  unfold usable. destruct (_ || _) eqn:E1; [done|]. intros H.
  apply bind_Some in H as (n & _ & H). apply bind_Some in H as (e & _ & H). cbv zeta in H.
  destruct (_ || _) eqn:E2 in H; [done|]. injection H as <-.
  rewrite !orb_false_iff in E1, E2. destruct_and?. rewrite !andb_false_iff in *. bools.
  unfold BitLen in *. case_match; bools; [lia|].
  assert (Hn : 0 <= SetBytes n).
  { destruct (Z.le_gt_cases 0 (SetBytes n)); [done|]. rewrite (Z.log2_nonpos (SetBytes n)) in * by lia. lia. }
  split; [split; [|split; [by split|]]|].
  - apply Z.log2_le_pow2; [cbn [pkN]; lia|]. cbn [pkN]. lia.
  - cbn [pkE]. rewrite Z.odd_spec. exists (SetBytes e ÷ 2). pose proof (Z.quot_rem' (SetBytes e) 2).
    pose proof (Z.rem_bound_pos (SetBytes e) 2). lia.
  - repeat match goal with H : _ = false \/ _ = false |- _ => destruct H end; bools; split_and!; auto.
Qed.

(** A key of the set. *)
Definition in_set (l : list jwk) (kid : string) (key : PublicKey) : Prop :=
  exists k, k ∈ l /\ jkKid k = kid /\ usable k = Some key.

Lemma collect_in_set l keys keys' :
  collect l keys = Ok keys' ->
  forall kid key, keys' !! kid = Some key -> keys !! kid = Some key \/ in_set l kid key.
Proof.
  revert keys. induction l as [|k l IH]; cbn; intros keys H kid key Hk; [injection H as <-; by left|].
  assert (Hl : in_set l kid key -> in_set (k :: l) kid key).
  { intros (x & Hx & ?). exists x. split; [by right|done]. }
  destruct (usable k) as [key0|] eqn:Eu; [|destruct (IH _ H _ _ Hk); auto].
  destruct (keys !! jkKid k); [done|]. destruct (IH _ H _ _ Hk) as [Hins|?]; [|auto].
  apply lookup_insert_Some in Hins as [[<- <-]|[_ ?]]; [right|by left]. exists k. split; [by left|done].
Qed.

Lemma collect_all l keys keys' :
  collect l keys = Ok keys' -> forall k key, k ∈ l -> usable k = Some key -> keys' !! jkKid k = Some key.
Proof.
  assert (Hkeep : forall l keys keys' kid key, collect l keys = Ok keys' -> keys !! kid = Some key -> keys' !! kid = Some key).
  { clear. induction l as [|k l IH]; cbn; intros keys keys' kid key H Hk; [by injection H as <-|].
    destruct (usable k) as [key0|]; [|by eapply IH]. destruct (keys !! jkKid k) eqn:E; [done|].
    eapply IH; [exact H|]. rewrite lookup_insert_ne; [done|]. intros <-. congruence. }
  revert keys. induction l as [|k0 l IH]; cbn; intros keys H k key Hin Hu; [by apply elem_of_nil in Hin|].
  apply elem_of_cons in Hin as [->|Hin].
  - rewrite Hu in H. destruct (keys !! jkKid k0); [done|]. eapply Hkeep; [exact H|apply lookup_insert_eq].
  - destruct (usable k0); [destruct (keys !! jkKid k0); [done|]|]; by eapply IH.
Qed.

(** ** The cache over time *)

(** A refresh: the clock, the answers of the network, and whether [Check] asked
    for it. *)
Record attempt : Type := mkAttempt {
  rd_clock : nat -> Z; rd_fetch : nat -> string -> res (Z * string); rd_check : bool
}.

(** A call refreshes when it knows no fresh key and made no attempt lately. *)
Definition refreshes (config : AuthConfig) (clock : nat -> Z) (v : Verifier) (kid : string) : bool :=
  match fresh config clock v kid with
  | Some _ => false
  | None => Time.Second <=? Since (clock 1%nat) (vLastAttempt v)
  end.

Section cache.
Context (config : AuthConfig).

Definition ticking (now : Z) (clock : nat -> Z) : Prop :=
  now <= clock 0%nat /\ forall i j, (i <= j)%nat -> clock i <= clock j.

(** The verifiers a process may come to have, with the refreshes of its past,
    the newest first.  [Validate] changes the verifier as [key] does. *)
Inductive verifies : Verifier -> list attempt -> Z -> Prop :=
| vf_new now : 0 <= now -> verifies new_verifier [] now
| vf_check v h now rd : verifies v h now -> ticking now (rd_clock rd) -> rd_check rd = true ->
    verifies (Check config (rd_clock rd) (rd_fetch rd) v).1 (rd :: h) (rd_clock rd 3%nat)
| vf_key v h now rd kid : verifies v h now -> ticking now (rd_clock rd) -> rd_check rd = false ->
    verifies (key config (rd_clock rd) (rd_fetch rd) v kid).1
      (if refreshes config (rd_clock rd) v kid then rd :: h else h) (rd_clock rd 3%nat).

(** The issuer published the key: its discovery document named a place beneath
    the issuer, and the document there, as fetched, lists it. *)
Definition issued (rd : attempt) (kid : string) (k : PublicKey) : Prop :=
  exists d path set,
    get (rd_fetch rd) 0 (discovery_address config) (into_struct false discovery_fields) (mkDiscovery "" "") = Ok d
    /\ diIssuer d = acIssuer config /\ diJWKSURI d = acIssuer config +:+ "/" +:+ path
    /\ get (rd_fetch rd) 1 (acFetchIssuer config +:+ "/" +:+ path) (into_struct false set_fields) (mkSlice 0 []) = Ok set
    /\ in_set (sl_elements set) kid k.

Lemma prefix_rest p s : HasPrefix s p = true -> exists r, s = p +:+ r.
Proof using Type.
  revert s. induction p as [|c p IH]; intros s H; [by exists s|]. destruct s as [|c' s]; [done|].
  unfold HasPrefix in *. cbn in H. destruct (ascii_dec c c') as [->|]; [|done].
  destruct (IH s H) as (r & ->). by exists r.
Qed.

Lemma drop_prefix p s : drop (len p) (p +:+ s) = s.
Proof using Type.
  unfold drop. induction p as [|c p IH]; [|exact IH].
  change (String.substring 0 (len s - 0) s = s). rewrite Nat.sub_0_r.
  induction s as [|c s IH]; cbn; [done|by rewrite IH].
Qed.

Lemma fetch_keys_issued rd keys :
  fetch_keys config (rd_fetch rd) = Ok keys ->
  forall kid k, keys !! kid = Some k -> issued rd kid k.
Proof using Type.
  unfold fetch_keys. intros H kid k Hk. apply bind_Ok in H as (d & Hd & H).
  destruct (diIssuer d != acIssuer config) eqn:E1; [done|]. destruct (negb (HasPrefix _ _)) eqn:E2; [done|].
  apply negb_false_iff, prefix_rest in E2 as (path & Epath). apply bind_Ok in H as (set & Hs & H).
  apply bind_Ok in H as (keys' & Hc & H). destruct (bool_decide _) in H; [done|]. injection H as ->.
  destruct (collect_in_set _ _ _ Hc _ _ Hk) as [Hn|Hl]; [by rewrite lookup_empty in Hn|].
  rewrite app_assoc in Epath. unfold keys_address in Hs. rewrite Epath, drop_prefix in Hs.
  exists d, path, set. bools. split_and!; done.
Qed.

Fixpoint spaced (h : list attempt) : Prop :=
  match h with
  | rd :: ((rd' :: _) as h') =>
      (rd_check rd = false -> rd_clock rd' 2%nat + Time.Second <= rd_clock rd 2%nat) /\ spaced h'
  | _ => True
  end.

Record verifier_ok (v : Verifier) (h : list attempt) (now : Z) : Prop := {
  vo_now : 0 <= vLastAttempt v <= now /\ vLoadedAt v <= now;
  vo_keys : forall kid k, vKeys v !! kid = Some k ->
    exists rd, rd ∈ h /\ issued rd kid k /\ vLoadedAt v = rd_clock rd 3%nat;
  vo_last : match h with rd :: _ => vLastAttempt v = rd_clock rd 2%nat | [] => True end;
  vo_spaced : spaced h
}.

Lemma refresh_ok v h now rd :
  verifier_ok v h now -> ticking now (rd_clock rd) ->
  (rd_check rd = false -> vLastAttempt v + Time.Second <= rd_clock rd 2%nat) ->
  verifier_ok (refresh config (rd_clock rd) (rd_fetch rd) v).1 (rd :: h) (rd_clock rd 3%nat).
Proof using Type.
  intros [[Hn Hl] Hk Hlast Hsp] [H0 Hc] Hwait. unfold refresh.
  pose proof (Hc 0 2 ltac:(lia))%nat. pose proof (Hc 2 3 ltac:(lia))%nat.
  assert (Hs : spaced (rd :: h)).
  { destruct h as [|rd' h]; [done|]. split; [|done]. intros Hq. rewrite <- Hlast. by apply Hwait. }
  destruct (fetch_keys _ _) as [keys|e] eqn:E; constructor; cbn; try done; try lia.
  - intros kid k Hin. exists rd. split; [by left|]. split; [by eapply fetch_keys_issued|done].
  - intros kid k Hin. destruct (Hk _ _ Hin) as (rd' & ? & ?). exists rd'. split; [by right|done].
Qed.

Lemma Since_second now t : Time.Second <= Since now t -> t + Time.Second <= now.
Proof using Type. unfold Since, Int64.MinInt64, Int64.MaxInt64, Time.Second. lia. Qed.

Lemma verifies_ok v h now : verifies v h now -> verifier_ok v h now.
Proof using Type.
  induction 1 as [now Hn|v h now rd _ IH Ht Hc|v h now rd kid _ IH Ht Hc].
  - constructor; cbn; try done; lia.
  - apply refresh_ok with now; [done|done|]. by rewrite Hc.
  - unfold key, refreshes. pose proof Ht as [H0 Hm]. pose proof (Hm 0 3 ltac:(lia))%nat as H3.
    assert (Hstay : verifier_ok v h (rd_clock rd 3%nat)).
    { destruct IH as [[Hn Hl] Hk Hlast Hsp]. constructor; try done; lia. }
    destruct (fresh _ _ _ _); [done|]. rewrite Z.leb_antisym. destruct (_ <? _) eqn:E; cbn [negb fst]; [done|].
    pose proof (refresh_ok v h now rd IH Ht) as Hr. destruct (refresh _ _ _ v) as [v' r]. apply Hr. intros _.
    bools. apply Since_second in E. pose proof (Hm 1 2 ltac:(lia))%nat. lia.
Qed.
End cache.

(** ** What the verifier guarantees *)

(** C21: in every state a verifier can come to be in, each cached signing key is
    a strong RSA key that the configured issuer published beneath its own
    address in a document fetched at the moment the cache was last loaded, and
    no token ever caused a fetch within a second of the attempt before it. *)
Theorem signing_keys_are_the_issuers config v h now :
  verifies config v h now ->
  spaced h
  /\ forall kid k, vKeys v !! kid = Some k -> kid <> "" /\ strong k
     /\ exists rd, rd ∈ h /\ issued config rd kid k /\ vLoadedAt v = rd_clock rd 3%nat.
Proof.
  intros H. apply verifies_ok in H as [_ Hk _ Hs]. split; [done|]. intros kid k Hin.
  destruct (Hk _ _ Hin) as (rd & Hrd & Hi & Hl).
  pose proof Hi as (d & path & set & _ & _ & _ & _ & x & _ & <- & Hu).
  apply usable_strong in Hu as (Hstrong & Hne & _). split; [done|]. split; [done|]. by exists rd.
Qed.

(** C20: a token names a principal only when the key it was verified with is
    the issuer's, published under the token's own key identifier, and came with
    a document fetched less than the cache's lifetime ago or by this very call;
    the principal is what the signed claims say, with exactly their scopes. *)
Theorem token_is_verified config unverified verified v h now rd raw v' p :
  verifies config v h now -> ticking now (rd_clock rd) -> rd_check rd = false ->
  Validate config (rd_clock rd) (rd_fetch rd) unverified verified v raw = (v', Ok p) ->
  exists token kid k claims source,
    unverified raw = Some token /\ tkKid token = Some kid /\ tkAlg token = "RS256"
    /\ issued config source kid k
    /\ (source = rd \/ source ∈ h /\ Since (rd_clock rd 0%nat) (rd_clock source 3%nat) < acCacheTTL config)
    /\ verified (acIssuer config) (acAudience config) k raw = Ok claims
    /\ prSubject p = clSubject claims /\ prSubject p <> "" /\ prProviderID p = clProviderID claims
    /\ forall scope, HasScope p scope = true <-> scope ∈ Fields (clScope claims).
Proof.
  intros Hv Ht Hc H. apply verifies_ok in Hv. unfold Validate in H. destruct (_ || _); [done|].
  destruct (unverified raw ≫= acceptable) as [kid|] eqn:Eu; [|done].
  apply bind_Some in Eu as (token & Eu & Ea). unfold acceptable in Ea.
  destruct (tkKid token) as [kid'|] eqn:Ekid; [|done]. destruct (_ || _) eqn:Eb in Ea; [done|]. injection Ea as ->.
  destruct (key _ _ _ _ _) as [v1 found] eqn:Ekey. injection H as <- H. destruct found as [k|]; [|done].
  destruct (verified _ _ _ _) as [claims|] eqn:Ever; [|done]. destruct (clSubject claims == "") eqn:Es; [done|].
  injection H as <-.
  assert (Hsource : exists source, issued config source kid k
    /\ (source = rd \/ source ∈ h /\ Since (rd_clock rd 0%nat) (rd_clock source 3%nat) < acCacheTTL config)).
  { unfold key in Ekey. destruct (fresh _ _ _ _) as [k'|] eqn:Ef.
    - injection Ekey as _ ->. unfold fresh in Ef. destruct (vKeys v !! kid) as [k'|] eqn:Ek; [|done].
      destruct (Since _ _ <? _) eqn:El; [|done]. injection Ef as ->.
      destruct (vo_keys _ _ _ _ Hv _ _ Ek) as (source & Hin & Hi & Hl). exists source. split; [done|]. right.
      split; [done|]. rewrite <- Hl. by apply Z.ltb_lt.
    - destruct (Since _ _ <? _); [done|]. unfold refresh in Ekey. destruct (fetch_keys _ _) as [keys|e] eqn:Efk; [|done].
      injection Ekey as _ Ekey. cbn in Ekey. destruct (keys !! kid) as [k'|] eqn:Ek; [|done].
      injection Ekey as ->. exists rd. split; [by eapply fetch_keys_issued|by left]. }
  destruct Hsource as (source & Hi & Hor). rewrite !orb_false_iff in Eb. destruct_and!. bools.
  exists token, kid, k, claims, source. split_and!; try done. intros scope.
  unfold HasScope, principal_of. cbn [prScopes]. by rewrite bool_decide_eq_true, elem_of_list_to_set.
Qed.

(** ** A verifier at work *)

Definition idp : AuthConfig := mkAuthConfig "https://idp.example/r" "http://idp:8080/r" "jungle-api" (300 * Time.Second).
Definition modulus_text : string := Base64.encode (Str.bytes (replicate 256 255)).
Definition idp_discovery : string :=
  Json.object [("issuer", Json.string_lit (acIssuer idp)); ("unknown", "[1, null]");
               ("jwks_uri", Json.string_lit "https://idp.example/r/certs")].
Definition idp_keys : string :=
  Json.object [("keys", "[" +:+ Json.object [("kty", Json.string_lit "EC"); ("kid", Json.string_lit "k-0")] +:+ ","
    +:+ Json.object [("kty", Json.string_lit "RSA"); ("kid", Json.string_lit "k-1"); ("use", Json.string_lit "sig");
                     ("n", Json.string_lit modulus_text); ("e", Json.string_lit "AQAB")] +:+ "]")].
Definition idp_answers (_ : nat) (address : string) : res (Z * string) :=
  if address == "http://idp:8080/r/.well-known/openid-configuration" then Ok (200, idp_discovery)
  else if address == "http://idp:8080/r/certs" then Ok (200, idp_keys)
  else Err (OtherError "unreachable").
Definition at_time (t : Z) (n : nat) : Z := t + Z.of_nat n.
Definition first_check : attempt := mkAttempt (at_time (2 * Time.Second)) idp_answers true.
Definition a_minute_later : attempt := mkAttempt (at_time (62 * Time.Second)) idp_answers false.
Definition checked : Verifier := (Check idp (rd_clock first_check) (rd_fetch first_check) new_verifier).1.
Definition one_key : PublicKey := mkPublicKey (2 ^ 2048 - 1) 65537.

(** A library that accepts_token one token, signed with [one_key]. *)
Definition reads_token (raw : string) : option Token :=
  if raw == "signed" then Some (mkToken (Some "k-1") "RS256") else None.
Definition accepts_token (issuer audience : string) (k : PublicKey) (raw : string) : res accessClaims :=
  if bool_decide (pkN k = pkN one_key) && (audience == "jungle-api")
  then Ok (mkClaims "client-7" "provider-a" "wager:write  wager:read") else Err ErrInvalidToken.

Lemma checked_key : match vKeys checked !! "k-1" with Some _ => true | None => false end = true.
Proof. vm_compute. reflexivity. Qed.

Lemma checked_verifies : verifies idp checked [first_check] (rd_clock first_check 3%nat).
Proof.
  apply (vf_check idp new_verifier [] 0 first_check); [by apply vf_new| |done].
  split; [by vm_compute|]. intros i j H. cbn. unfold at_time. lia.
Qed.

Lemma signing_keys_are_the_issuers_witness :
  exists k, vKeys checked !! "k-1" = Some k /\ strong k
    /\ exists rd, rd ∈ [first_check] /\ issued idp rd "k-1" k /\ vLoadedAt checked = rd_clock rd 3%nat.
Proof.
  destruct (vKeys checked !! "k-1") as [k|] eqn:E; [|pose proof checked_key as H; rewrite E in H; discriminate H]. exists k.
  split; [reflexivity|]. apply (signing_keys_are_the_issuers idp checked [first_check] _ checked_verifies) in E as (_ & H2).
  exact H2.
Defined.

Local Notation accepted :=
  (Validate idp (rd_clock a_minute_later) (rd_fetch a_minute_later) reads_token accepts_token checked "signed").

Lemma token_accepted : match accepted.2 with Ok p => prProviderID p = "provider-a" | Err _ => False end.
Proof. vm_compute. reflexivity. Qed.

Lemma token_is_verified_witness :
  exists v' p token kid k claims source,
    accepted = (v', Ok p) /\ reads_token "signed" = Some token /\ tkKid token = Some kid /\ issued idp source kid k
    /\ accepts_token (acIssuer idp) (acAudience idp) k "signed" = Ok claims /\ prProviderID p = "provider-a".
Proof.
  assert (H : exists v' p, accepted = (v', Ok p) /\ prProviderID p = "provider-a").
  { pose proof token_accepted as H. revert H. generalize accepted. intros [v' [p|]] H; [|done]. by exists v', p. }
  destruct H as (v' & p & E & H). exists v', p.
  destruct (token_is_verified idp reads_token accepts_token checked [first_check] _ a_minute_later "signed" v' p checked_verifies)
    as (token & kid & k & claims & source & H1 & H2 & _ & H3 & _ & H4 & _); [|reflexivity|exact E|].
  - split; [by vm_compute|]. intros i j Hij. cbn. unfold at_time. lia.
  - exists token, kid, k, claims, source. exact (conj E (conj H1 (conj H2 (conj H3 (conj H4 H))))).
Defined.
