(* ===== verification/Events.v ===== *)
(** * Integration events: [internal/domain/events.go]

    The versioned envelopes the outbox carries and their JSON text, with the
    RFC 3339 rendering of their timestamps. *)

From Stdlib Require Import Ascii.
From S2P Require Import Prelude GoStd Codec Errors Ident Money Wallet Ledger Wager Evaluate Command.
Import Str.

(** ** Timestamps in JSON: [time.Time.MarshalJSON] on a UTC time *)
Module Rfc3339.
(** Day, month and year of a day counted from 1 January of year 1 (proleptic
    Gregorian calendar, years starting in March inside a 400-year cycle). *)
Definition civil (days : Z) : Z * Z * Z :=
  let z := days + 306 in
  let era := z / 146097 in
  let doe := z mod 146097 in
  let yoe := (doe - doe / 1460 + doe / 36524 - doe / 146096) / 365 in
  let doy := doe - (365 * yoe + yoe / 4 - yoe / 100) in
  let mp := (5 * doy + 2) / 153 in
  let d := doy - (153 * mp + 2) / 5 + 1 in
  let m := if mp <? 10 then mp + 3 else mp - 9 in
  (yoe + era * 400 + (if m <=? 2 then 1 else 0), m, d).

(** [width] decimal digits, zero padded. *)
Fixpoint padded (width : nat) (n : Z) : string :=
  match width with
  | O => ""
  | S w => padded w (n / 10) +:+ String (Strconv.digit_char (n mod 10)) ""
  end.

(** The nine digits of the fraction without their trailing zeros. *)
Definition fraction (ns : Z) : string :=
  if ns =? 0 then ""
  else "." +:+ reverse (TrimLeft "0"%char (reverse (padded 9 ns))).

Definition nano (t : Z) : string :=
  let '(y, m, d) := civil (t / (86400 * Time.Second)) in
  let s := (t / Time.Second) mod 86400 in
  padded 4 y +:+ "-" +:+ padded 2 m +:+ "-" +:+ padded 2 d +:+ "T"
  +:+ padded 2 (s / 3600) +:+ ":" +:+ padded 2 (s / 60 mod 60) +:+ ":" +:+ padded 2 (s mod 60)
  +:+ fraction (t mod Time.Second) +:+ "Z".

(** 2000-01-01T00:00:00.1Z and the day Go's zero time falls on. *)
Example nano_2000 :
  nano (730119 * 86400 * Time.Second + 100000000) = "2000-01-01T00:00:00.1Z".
Proof. vm_compute. reflexivity. Qed.
Example nano_leap : nano (738944 * 86400 * Time.Second + 86399 * Time.Second) = "2024-02-29T23:59:59Z".
Proof. vm_compute. reflexivity. Qed.
Example nano_zero : nano 0 = "0001-01-01T00:00:00Z".
Proof. vm_compute. reflexivity. Qed.
End Rfc3339.

Definition time_json (t : Z) : res string :=
  if Time.json_ok t then Ok (Json.string_lit (Rfc3339.nano t))
  else Err (Wrapped "json: error calling MarshalJSON for type time.Time"
              (OtherError "Time.MarshalJSON: year outside of range [0,9999]")).

(** ** Event types *)
Definition EventWagerProcessed := "WagerTransactionProcessed".
Definition EventWagerRejected := "WagerTransactionRejected".
Definition EventWagerPendingReference := "WagerTransactionPendingReference".
Definition EventWagerFailed := "WagerTransactionFailed".
Definition EventWalletBalanceChanged := "WalletBalanceChanged".

Record EventMeta : Type := mkEventMeta {
  mtID : EventID; mtCorrelationID : string; mtCausationID : string; mtOccurredAt : Z
}.

Record Event : Type := mkEvent {
  ev_id : EventID; ev_aggregateID : WalletID; ev_type : string; ev_occurredAt : Z;
  ev_payload : string
}.

Definition Event_Version (e : Event) : Z := 1.

Definition Event_MarshalJSON (e : Event) : res string :=
  if (ev_id e == zeroID) || (len (ev_payload e) =? 0)%nat
  then Err (invalid CodeInvalidEvent "uninitialized event")
  else Ok (ev_payload e).

(** ** Payloads

    A payload type is given by its members in declaration order, [None] for an
    [omitempty] member with its zero value. *)
Definition id_json (id : ID) : string := Json.string_lit (ID_String id).
Definition omit_string (name value : string) : list (string * string) :=
  if value == "" then [] else [(name, Json.string_lit value)].
Definition omit_int (name : string) (value : Z) : list (string * string) :=
  if value =? 0 then [] else [(name, Strconv.FormatInt value)].

Record wagerEventData : Type := mkWagerEventData {
  edTransactionID : WagerTransactionID;
  edWalletID : WalletID;
  edPlayerID : PlayerID;
  edProviderID : string;
  edExternalTransactionID : string;
  edRoundID : string;
  edGameID : string;
  edKind : Kind;
  edMoney : Money;
  edStatus : Status;
  edFailureCode : string;
  edBalance : option Money;
  edWalletVersion : Z;
  edReferenceExternalTransactionID : string
}.

Definition wagerEventData_json (d : wagerEventData) : res string :=
  money ← money_json (edMoney d);
  balance ← match edBalance d with
            | None => Ok []
            | Some b => text ← money_json b; Ok [("balance", text)]
            end;
  Ok (Json.object
        ([("transactionId", id_json (edTransactionID d));
          ("walletId", id_json (edWalletID d)); ("playerId", id_json (edPlayerID d))]
         ++ omit_string "providerId" (edProviderID d)
         ++ omit_string "externalTransactionId" (edExternalTransactionID d)
         ++ omit_string "roundId" (edRoundID d)
         ++ omit_string "gameId" (edGameID d)
         ++ [("kind", Json.string_lit (edKind d)); ("money", money);
             ("status", Json.string_lit (edStatus d))]
         ++ omit_string "failureCode" (edFailureCode d)
         ++ balance
         ++ omit_int "walletVersion" (edWalletVersion d)
         ++ omit_string "referenceExternalTransactionId" (edReferenceExternalTransactionID d))).

Record WalletBalanceChangedData : Type := mkWalletBalanceChangedData {
  bcWalletID : WalletID;
  bcTransactionID : WagerTransactionID;
  bcDirection : Direction;
  bcMoney : Money;
  bcBalanceBefore : Money;
  bcBalanceAfter : Money;
  bcWalletVersion : Z
}.

Definition WalletBalanceChangedData_json (d : WalletBalanceChangedData) : res string :=
  money ← money_json (bcMoney d);
  before ← money_json (bcBalanceBefore d);
  after ← money_json (bcBalanceAfter d);
  Ok (Json.object
        [("walletId", id_json (bcWalletID d)); ("transactionId", id_json (bcTransactionID d));
         ("direction", Json.string_lit (bcDirection d)); ("money", money);
         ("balanceBefore", before); ("balanceAfter", after);
         ("walletVersion", Strconv.FormatInt (bcWalletVersion d))]).

(** [json.Marshal] of an [Envelope]: [data] is the encoding of its payload. *)
Definition envelope_json (meta : EventMeta) (aggregateID : WalletID) (eventType : string)
    (data : res string) : res string :=
  occurred ← time_json (mtOccurredAt meta);
  data ← data;
  Ok (Json.object
        ([("eventId", id_json (mtID meta)); ("eventType", Json.string_lit eventType);
          ("aggregateId", id_json aggregateID);
          ("correlationId", Json.string_lit (mtCorrelationID meta))]
         ++ omit_string "causationId" (mtCausationID meta)
         ++ [("occurredAt", occurred); ("version", "1"); ("data", data)])).

Definition newEvent (meta : EventMeta) (aggregateID : WalletID) (eventType : string)
    (data : res string) : res Event :=
  if (mtID meta == zeroID) || (aggregateID == zeroID) || Time.IsZero (mtOccurredAt meta)
     || (TrimSpace (mtCorrelationID meta) == "")
  then Err (invalid CodeInvalidEvent "event identity, aggregate, occurrence and correlation required")
  else
    payload ← envelope_json meta aggregateID eventType data;
    Ok (mkEvent (mtID meta) aggregateID eventType (mtOccurredAt meta) payload).

Definition wager_event_data (wager : WagerData) : wagerEventData :=
  mkWagerEventData (wgID wager) (wgWalletID wager) (wgPlayerID wager) (wgProviderID wager)
    (wgExternalTransactionID wager) (wgRoundID wager) (wgGameID wager) (wgKind wager)
    (wgMoney wager) (wgStatus wager) (wgFailureCode wager)
    (if Valid (wgResultBalance wager) then Some (wgResultBalance wager) else None)
    (wgResultVersion wager) (wgReferenceExternalTransactionID wager).

Definition newWagerEvent (meta : EventMeta) (wager : WagerData) (expected : Status)
    (eventType : string) : res Event :=
  _ ← validateWager wager;
  if wgStatus wager != expected
  then Err (invalid CodeInvalidEvent "event does not match transaction state")
  else newEvent meta (wgWalletID wager) eventType (wagerEventData_json (wager_event_data wager)).

Definition NewWagerProcessed (meta : EventMeta) (wager : WagerData) : res Event :=
  newWagerEvent meta wager StatusProcessed EventWagerProcessed.
Definition NewWagerRejected (meta : EventMeta) (wager : WagerData) : res Event :=
  newWagerEvent meta wager StatusRejected EventWagerRejected.
Definition NewWagerPendingReference (meta : EventMeta) (wager : WagerData) : res Event :=
  newWagerEvent meta wager StatusPendingReference EventWagerPendingReference.
Definition NewWagerFailed (meta : EventMeta) (wager : WagerData) : res Event :=
  newWagerEvent meta wager StatusFailed EventWagerFailed.

Definition NewWalletBalanceChanged (meta : EventMeta) (entry : LedgerData) (walletVersion : Z) :
    res Event :=
  _ ← NewLedgerEntry entry;
  if walletVersion <? 1
  then Err (invalid CodeInvalidEvent "wallet version must be positive")
  else
    newEvent meta (leWalletID entry) EventWalletBalanceChanged
      (WalletBalanceChangedData_json
         (mkWalletBalanceChangedData (leWalletID entry) (leTransactionID entry) (leDirection entry)
            (leMoney entry) (leBalanceBefore entry) (leBalanceAfter entry) walletVersion)).

(** ** Lemmas *)

(** What an event needs besides its subject. *)
Definition meta_ok (meta : EventMeta) : Prop :=
  mtID meta <> zeroID /\ mtOccurredAt meta <> 0 /\ TrimSpace (mtCorrelationID meta) <> ""
  /\ Time.json_ok (mtOccurredAt meta) = true.

Lemma money_json_valid m : Valid m = true -> is_ok (money_json m) = true.
Proof. unfold money_json, Money_MarshalJSON. by intros ->. Qed.

Lemma is_ok_bind {A B} (m : res A) (f : A -> res B) :
  is_ok m = true -> (forall a, is_ok (f a) = true) -> is_ok (m ≫= f) = true.
Proof. destruct m; cbn; [auto|done]. Qed.

Lemma newEvent_Ok meta agg ty data e :
  is_ok data = true ->
  newEvent meta agg ty data = Ok e <->
  meta_ok meta /\ agg <> zeroID
  /\ exists payload, envelope_json meta agg ty data = Ok payload
     /\ e = mkEvent (mtID meta) agg ty (mtOccurredAt meta) payload.
Proof.
  intros Hd. unfold newEvent. rewrite guard_else_Ok, bind_Ok, !orb_false_iff.
  unfold Time.IsZero, meta_ok. rewrite !bool_decide_eq_false, Z.eqb_neq. split.
  - intros ([[[? ?] ?] ?] & payload & Hp & [= <-]). split_and!; try done; [|by eauto].
    unfold envelope_json, time_json in Hp. by destruct (Time.json_ok _).
  - intros ((? & ? & ? & ?) & ? & payload & Hp & ->). split; [done|]. by eauto.
Qed.

Lemma wager_json_ok d : wager_valid d -> is_ok (wagerEventData_json (wager_event_data d)) = true.
Proof.
  intros Hv. apply is_ok_bind; [by apply money_json_valid, Hv|intros money].
  apply is_ok_bind; [|done]. cbn. destruct (Valid (wgResultBalance d)) eqn:E; [|done].
  by apply is_ok_bind; [apply money_json_valid|].
Qed.

(** [e] announces state [st] of [d] under [ty]: the identities of the envelope
    are the event's own, the aggregate is the wallet, and the payload is the
    envelope around the snapshot. *)
Definition announces (meta : EventMeta) (d : WagerData) (st : Status) (ty : string) (e : Event) :
    Prop :=
  wager_valid d /\ wgStatus d = st /\ meta_ok meta
  /\ ev_id e = mtID meta /\ ev_aggregateID e = wgWalletID d /\ ev_type e = ty
  /\ ev_occurredAt e = mtOccurredAt meta
  /\ envelope_json meta (wgWalletID d) ty (wagerEventData_json (wager_event_data d))
     = Ok (ev_payload e).

Lemma newWagerEvent_Ok meta d st ty e : newWagerEvent meta d st ty = Ok e <-> announces meta d st ty e.
Proof.
  unfold newWagerEvent, announces.
  rewrite seq_Ok, validateWager_Ok, guard_else_Ok, negb_false_iff, bool_decide_eq_true.
  split.
  - intros (Hv & Hs & H). apply newEvent_Ok in H; [|by apply wager_json_ok].
    destruct H as (Hm & _ & payload & Hp & ->). done.
  - intros (Hv & Hs & Hm & E1 & E2 & E3 & E4 & Hp). split_and!; [done..|].
    apply newEvent_Ok; [by apply wager_json_ok|]. split_and!; [done|apply Hv|].
    exists (ev_payload e). split; [done|]. destruct e; cbn in *. congruence.
Qed.

(** A valid snapshot in the state an event is for can always be announced. *)
Lemma newWagerEvent_total meta d st ty :
  wager_valid d -> wgStatus d = st -> meta_ok meta -> is_ok (newWagerEvent meta d st ty) = true.
Proof.
  intros Hv Hs Hm. pose proof (wager_json_ok d Hv) as Hj.
  destruct (wagerEventData_json (wager_event_data d)) as [j|] eqn:Ej; [|done].
  apply is_ok_spec. destruct Hm as (? & ? & ? & Ht).
  eexists (mkEvent (mtID meta) (wgWalletID d) ty (mtOccurredAt meta) _).
  apply newWagerEvent_Ok. unfold announces, meta_ok. cbn. split_and!; try done.
  unfold envelope_json, time_json. rewrite Ht, Ej. reflexivity.
Qed.

Definition balance_data (entry : LedgerData) (version : Z) : WalletBalanceChangedData :=
  mkWalletBalanceChangedData (leWalletID entry) (leTransactionID entry) (leDirection entry)
    (leMoney entry) (leBalanceBefore entry) (leBalanceAfter entry) version.

Lemma balance_json_ok entry version :
  Valid (leMoney entry) = true -> Valid (leBalanceBefore entry) = true ->
  Valid (leBalanceAfter entry) = true ->
  is_ok (WalletBalanceChangedData_json (balance_data entry version)) = true.
Proof.
  intros. apply is_ok_bind; [by apply money_json_valid|intros ?].
  apply is_ok_bind; [by apply money_json_valid|intros ?].
  by apply is_ok_bind; [apply money_json_valid|].
Qed.

Lemma NewLedgerEntry_valid entry r :
  NewLedgerEntry entry = Ok r ->
  Valid (leMoney entry) = true /\ Valid (leBalanceBefore entry) = true
  /\ Valid (leBalanceAfter entry) = true /\ leWalletID entry <> zeroID.
Proof. unfold NewLedgerEntry. rewrite seq_Ok, guard_err_Ok. intros [H _]. by bools. Qed.

Lemma NewWalletBalanceChanged_Ok meta entry version e :
  NewWalletBalanceChanged meta entry version = Ok e <->
  is_ok (NewLedgerEntry entry) = true /\ 1 <= version /\ meta_ok meta
  /\ ev_id e = mtID meta /\ ev_aggregateID e = leWalletID entry
  /\ ev_type e = EventWalletBalanceChanged /\ ev_occurredAt e = mtOccurredAt meta
  /\ envelope_json meta (leWalletID entry) EventWalletBalanceChanged
       (WalletBalanceChangedData_json (balance_data entry version)) = Ok (ev_payload e).
Proof.
  unfold NewWalletBalanceChanged. rewrite bind_Ok. split.
  - intros (r & Hr & H). rewrite guard_else_Ok, Z.ltb_ge in H. destruct H as [Hv H].
    pose proof (NewLedgerEntry_valid _ _ Hr) as (V1 & V2 & V3 & V4).
    apply newEvent_Ok in H; [|by apply balance_json_ok].
    destruct H as (Hm & _ & payload & Hp & ->). rewrite Hr. done.
  - intros (Hr & Hv & Hm & E1 & E2 & E3 & E4 & Hp). apply is_ok_spec in Hr as [r Hr].
    pose proof (NewLedgerEntry_valid _ _ Hr) as (V1 & V2 & V3 & V4).
    exists r. split; [done|]. rewrite guard_else_Ok, Z.ltb_ge. split; [done|].
    apply newEvent_Ok; [by apply balance_json_ok|]. split_and!; [done..|].
    exists (ev_payload e). split; [done|]. destruct e; cbn in *. congruence.
Qed.

(** ** Properties *)

(** An event constructor succeeds exactly on a valid snapshot in the state
    the event announces, with an identity, an occurrence JSON can carry and a
    correlation; the event then carries the identity and occurrence it was
    given, the wallet as its aggregate, the event's own type, and as payload the
    version 1 envelope around that snapshot.  A balance change is announced
    exactly for an entry that balances and a positive version. *)
Theorem events_announce meta d entry version e :
  (NewWagerProcessed meta d = Ok e <->
     announces meta d StatusProcessed EventWagerProcessed e)
  /\ (NewWagerRejected meta d = Ok e <-> announces meta d StatusRejected EventWagerRejected e)
  /\ (NewWagerPendingReference meta d = Ok e <->
     announces meta d StatusPendingReference EventWagerPendingReference e)
  /\ (NewWagerFailed meta d = Ok e <-> announces meta d StatusFailed EventWagerFailed e)
  /\ (NewWalletBalanceChanged meta entry version = Ok e <->
      is_ok (NewLedgerEntry entry) = true /\ 1 <= version /\ meta_ok meta
      /\ ev_id e = mtID meta /\ ev_aggregateID e = leWalletID entry
      /\ ev_type e = EventWalletBalanceChanged /\ ev_occurredAt e = mtOccurredAt meta
      /\ envelope_json meta (leWalletID entry) EventWalletBalanceChanged
           (WalletBalanceChangedData_json (balance_data entry version)) = Ok (ev_payload e)).
Proof. split_and!; try apply newWagerEvent_Ok. apply NewWalletBalanceChanged_Ok. Qed.
