(* ===== verification/Timestamps.v ===== *)
(** * RFC 3339: [time.Time.UnmarshalJSON]

    [time.Parse(time.RFC3339, ...)], which the decoder of a timestamp accepts
    (the strict parser it tries first accepts less, with the same instants), and
    the proof that it reads back every timestamp [MarshalJSON] writes. *)

From Stdlib Require Import Ascii.
From S2P Require Import Prelude GoStd Codec Errors Ident Money Wallet Ledger Wager Evaluate Command.
From S2P Require Import Events JsonText.
Import Str.

Module Calendar.
(** Days from 1 January of year 1: the inverse of [Rfc3339.civil]. *)
Definition days (y m d : Z) : Z :=
  let y := if m <=? 2 then y - 1 else y in
  let yoe := y mod 400 in
  let doy := (153 * ((m + 9) mod 12) + 2) / 5 + d - 1 in
  (y / 400) * 146097 + yoe * 365 + yoe / 4 - yoe / 100 + doy - 306.

Definition leap (y : Z) : bool := (y mod 4 =? 0) && (negb (y mod 100 =? 0) || (y mod 400 =? 0)).
Definition days_in (m y : Z) : Z :=
  if m =? 2 then if leap y then 29 else 28
  else if (m =? 4) || (m =? 6) || (m =? 9) || (m =? 11) then 30 else 31.

Lemma civil_days z : let '(y, m, d) := Rfc3339.civil z in
  days y m d = z /\ 1 <= m <= 12 /\ 1 <= d <= days_in m y.
Proof.
  unfold Rfc3339.civil. set (w := z + 306). set (doe := w mod 146097).
  assert (Hdoe : 0 <= doe < 146097) by (apply Z.mod_pos_bound; lia).
  assert (Hw : w = 146097 * (w / 146097) + doe) by (apply Z.div_mod; lia).
  set (era := w / 146097) in *. clearbody era doe.
  set (yoe := (doe - doe / 1460 + doe / 36524 - doe / 146096) / 365).
  set (doy := doe - (365 * yoe + yoe / 4 - yoe / 100)).
  assert (Hy : 0 <= yoe <= 399 /\ 0 <= doy <= 365
    /\ (doy = 365 -> (yoe + 1) mod 4 = 0 /\ ((yoe + 1) mod 100 <> 0 \/ (yoe + 1) mod 400 = 0))).
  { subst yoe doy. clear -Hdoe. Z.to_euclidean_division_equations. lia. }
  assert (Hsum : doe = 365 * yoe + yoe / 4 - yoe / 100 + doy) by lia.
  clearbody doy yoe. set (mp := (5 * doy + 2) / 153).
  assert (Hmp : 0 <= mp <= 11) by (subst mp; clear -Hy; Z.to_euclidean_division_equations; lia).
  set (m := if mp <? 10 then mp + 3 else mp - 9). set (d := doy - (153 * mp + 2) / 5 + 1).
  set (y := yoe + era * 400 + (if m <=? 2 then 1 else 0)).
  assert (Hm : 1 <= m <= 12 /\ (m + 9) mod 12 = mp /\ (if m <=? 2 then y - 1 else y) = yoe + era * 400).
  { subst y m. clear -Hmp. destruct (mp <? 10) eqn:E; [|]; Z.to_euclidean_division_equations.
    all: destruct (_ <=? 2) eqn:E2; lia. }
  destruct Hm as (Hm1 & Hm2 & Hm3).
  assert (Hdays : days y m d = z).
  { unfold days. rewrite Hm2, Hm3. clear -Hy Hsum Hw. subst d w.
    Z.to_euclidean_division_equations. lia. }
  split; [exact Hdays|]. split; [exact Hm1|].
  assert (Hlow : 1 <= d) by (subst d mp; clear; Z.to_euclidean_division_equations; lia).
  split; [exact Hlow|]. unfold days_in, leap.
  assert (Hd : (153 * mp + 2) / 5 + d - 1 = doy) by (subst d; lia).
  assert (Hup : mp < 11 -> doy < (153 * (mp + 1) + 2) / 5) by (subst mp; clear; Z.to_euclidean_division_equations; lia).
  clearbody d. clear Hdays Hsum Hw.
  assert (Hcases : mp = 0 \/ mp = 1 \/ mp = 2 \/ mp = 3 \/ mp = 4 \/ mp = 5 \/ mp = 6 \/ mp = 7 \/ mp = 8
    \/ mp = 9 \/ mp = 10 \/ mp = 11) by lia.
  clearbody mp. subst m.
  do 11 (destruct Hcases as [->|Hcases]; [specialize (Hup eq_refl); clear -Hd Hup Hy; Z.to_euclidean_division_equations; repeat case_match; lia|]).
  subst mp.
  subst y. change (if 11 <? 10 then 11 + 3 else 11 - 9) with 2. change (2 <=? 2) with true. cbn match. destruct Hy as (Hy & Hdoy & Hleap).
  destruct (Z.eq_dec doy 365) as [E|E]; [|clear -Hd Hdoy E; Z.to_euclidean_division_equations; repeat case_match; lia].
  destruct (Hleap E) as [H4 H100].
  assert (E4 : (yoe + era * 400 + 1) mod 4 = (yoe + 1) mod 4).
  { replace (yoe + era * 400 + 1) with (yoe + 1 + (era * 100) * 4) by lia. by apply Z.mod_add. }
  assert (E100 : (yoe + era * 400 + 1) mod 100 = (yoe + 1) mod 100).
  { replace (yoe + era * 400 + 1) with (yoe + 1 + (era * 4) * 100) by lia. by apply Z.mod_add. }
  assert (E400 : (yoe + era * 400 + 1) mod 400 = (yoe + 1) mod 400).
  { replace (yoe + era * 400 + 1) with (yoe + 1 + (era * 1) * 400) by lia. by apply Z.mod_add. }
  rewrite E4, E100, E400, H4. change (2 =? 2) with true. cbn match.
  destruct H100 as [H|H].
  - apply Z.eqb_neq in H. rewrite H. cbn. clear -Hd Hdoy. Z.to_euclidean_division_equations. lia.
  - rewrite H, orb_true_r. cbn. clear -Hd Hdoy. Z.to_euclidean_division_equations. lia.
Qed.
End Calendar.

(** ** Parsing *)
Module Rfc3339Text.
Import Strconv JsonText.

(** [getnum]: two digits, or one when they are not [fixed]. *)
Definition getnum (fixed : bool) (s : string) : option (Z * string) :=
  match s with
  | String a r =>
      if is_digit a then
        match r with
        | String b r' =>
            if is_digit b then Some (10 * digit_val a + digit_val b, r')
            else if fixed then None else Some (digit_val a, r)
        | EmptyString => if fixed then None else Some (digit_val a, r)
        end
      else None
  | EmptyString => None
  end.

Definition year (s : string) : option (Z * string) :=
  match s with
  | String a (String b (String c (String d r))) =>
      let y := String a (String b (String c (String d ""))) in
      if all_chars is_digit y then Some (dec_value 0 y, r) else None
  | _ => None
  end.

Definition lit (c : ascii) (s : string) : option string :=
  match s with String d r => if d == c then Some r else None | EmptyString => None end.

Definition within (lo hi v : Z) : option unit := if (lo <=? v) && (v <=? hi) then Some tt else None.

(** [parseNanoseconds]: the digits past the ninth are dropped. *)
Definition nanos (ds : string) : Z :=
  let d := String.substring 0 9 ds in dec_value 0 d * 10 ^ (9 - Z.of_nat (len d)).

Definition fraction (s : string) : Z * string :=
  match s with
  | String c r =>
      let '(ds, r') := span_digits r in
      if ((c == "."%char) || (c == ","%char)) && negb (ds == "") then (nanos ds, r') else (0, s)
  | EmptyString => (0, s)
  end.

(** [Z07:00]: seconds east of UTC, and nothing after it. *)
Definition zone (s : string) : option Z :=
  match s with
  | String "Z" "" => Some 0
  | String sign r =>
      '(hr, r) ← getnum true r; r ← lit ":" r; '(mm, r) ← getnum true r;
      _ ← within 0 24 hr; _ ← within 0 60 mm;
      let offset := (hr * 60 + mm) * 60 in
      if negb (r == "") then None
      else if sign == "+"%char then Some offset
      else if sign == "-"%char then Some (- offset)
      else None
  | EmptyString => None
  end.

(** The instant, in nanoseconds since the zero time. *)
Definition parse_time (s : string) : option Z :=
  '(y, s) ← year s; s ← lit "-" s;
  '(m, s) ← getnum true s; _ ← within 1 12 m; s ← lit "-" s;
  '(d, s) ← getnum true s; _ ← within 1 (Calendar.days_in m y) d; s ← lit "T" s;
  '(hh, s) ← getnum false s; _ ← within 0 23 hh; s ← lit ":" s;
  '(mi, s) ← getnum true s; _ ← within 0 59 mi; s ← lit ":" s;
  '(ss, s) ← getnum true s; _ ← within 0 59 ss;
  let '(ns, s) := fraction s in
  offset ← zone s;
  Some ((Calendar.days y m d * 86400 + hh * 3600 + mi * 60 + ss - offset) * Time.Second + ns).

Example parse_offset : parse_time "2024-02-29T23:59:59.5-03:00" = parse_time "2024-03-01T02:59:59,500Z".
Proof. vm_compute. reflexivity. Qed.
Example parse_no_day : parse_time "2023-02-29T00:00:00Z" = None.
Proof. vm_compute. reflexivity. Qed.

(** ** Digits *)

Lemma padded_two n r :
  Rfc3339.padded 2 n +:+ r
  = String (digit_char (n / 10 mod 10)) (String (digit_char (n mod 10)) r).
Proof. reflexivity. Qed.

Lemma getnum_padded fixed n r : 0 <= n < 100 -> getnum fixed (Rfc3339.padded 2 n +:+ r) = Some (n, r).
Proof.
  intros Hn. rewrite padded_two. cbn.
  destruct (digit_char_spec (n / 10 mod 10)) as [-> ->]; [by apply Z.mod_pos_bound|].
  destruct (digit_char_spec (n mod 10)) as [-> ->]; [by apply Z.mod_pos_bound|].
  do 2 f_equal. Z.to_euclidean_division_equations. lia.
Qed.

Lemma year_padded y r : 0 <= y < 10000 -> year (Rfc3339.padded 4 y +:+ r) = Some (y, r).
Proof.
  intros Hy.
  change (Rfc3339.padded 4 y +:+ r) with
    (String (digit_char (y / 10 / 10 / 10 mod 10)) (String (digit_char (y / 10 / 10 mod 10))
      (String (digit_char (y / 10 mod 10)) (String (digit_char (y mod 10)) r)))). cbn.
  destruct (digit_char_spec (y / 10 / 10 / 10 mod 10)) as [-> ->]; [by apply Z.mod_pos_bound|].
  destruct (digit_char_spec (y / 10 / 10 mod 10)) as [-> ->]; [by apply Z.mod_pos_bound|].
  destruct (digit_char_spec (y / 10 mod 10)) as [-> ->]; [by apply Z.mod_pos_bound|].
  destruct (digit_char_spec (y mod 10)) as [-> ->]; [by apply Z.mod_pos_bound|].
  do 2 f_equal. Z.to_euclidean_division_equations. lia.
Qed.

Lemma within_ok lo hi v : lo <= v <= hi -> within lo hi v = Some tt.
Proof. intros [H1 H2]. unfold within. apply Z.leb_le in H1, H2. by rewrite H1, H2. Qed.

(** ** The fraction *)

Lemma list_of_app s t :
  String.list_ascii_of_string (s +:+ t) = String.list_ascii_of_string s ++ String.list_ascii_of_string t.
Proof. induction s as [|c s IH]; cbn; [done|]. by rewrite <- IH. Qed.

Lemma reverse_involutive s : reverse (reverse s) = s.
Proof.
  unfold reverse. rewrite String.list_ascii_of_string_of_list_ascii, rev_involutive.
  apply String.string_of_list_ascii_of_string.
Qed.

Lemma of_list_app l m :
  String.string_of_list_ascii (l ++ m) = String.string_of_list_ascii l +:+ String.string_of_list_ascii m.
Proof. induction l as [|c l IH]; cbn; [done|]. by rewrite IH. Qed.

Lemma reverse_app s t : reverse (s +:+ t) = reverse t +:+ reverse s.
Proof. unfold reverse. by rewrite list_of_app, rev_app_distr, of_list_app. Qed.

Definition zeros (k : nat) : string := String.string_of_list_ascii (replicate k "0"%char).

Lemma reverse_zeros k : reverse (zeros k) = zeros k.
Proof.
  unfold reverse, zeros. rewrite String.list_ascii_of_string_of_list_ascii. f_equal.
  change (@rev ascii) with (@rev ascii). induction k as [|k IH]; [done|]. cbn. rewrite IH.
  change [_] with (replicate 1 "0"%char). by rewrite <- replicate_add, Nat.add_comm.
Qed.

Lemma TrimLeft_zeros s : exists k, s = zeros k +:+ TrimLeft "0" s.
Proof.
  induction s as [|c s IH]; [by exists 0%nat|]. cbn. destruct (c == "0"%char) eqn:E; [|by exists 0%nat].
  bools. destruct IH as (k & IH). exists (S k). rewrite E.
  change (String "0" s = String "0" (zeros k +:+ TrimLeft "0" s)). by rewrite <- IH.
Qed.

(** A text of digits is its significant part, then zeros. *)
Lemma significant p : exists k, p = reverse (TrimLeft "0" (reverse p)) +:+ zeros k.
Proof.
  destruct (TrimLeft_zeros (reverse p)) as (k & E). exists k.
  rewrite <- (reverse_involutive p) at 1. rewrite E at 1. by rewrite reverse_app, reverse_zeros.
Qed.

Lemma dec_value_zeros acc k : dec_value acc (zeros k) = acc * 10 ^ Z.of_nat k.
Proof.
  revert acc. induction k as [|k IH]; intros acc; [cbn; lia|].
  change (zeros (S k)) with (String "0" (zeros k)). cbn [dec_value]. rewrite IH.
  rewrite Nat2Z.inj_succ, Z.pow_succ_r by lia. change (digit_val "0") with 0. lia.
Qed.

Lemma zeros_length k : len (zeros k) = k.
Proof. unfold zeros. rewrite Sha256.string_of_list_length. apply length_replicate. Qed.

Lemma padded_digits w n : all_chars is_digit (Rfc3339.padded w n) = true.
Proof.
  revert n. induction w as [|w IH]; intros n; cbn; [done|]. rewrite all_chars_app, IH. cbn.
  by destruct (digit_char_spec (n mod 10)) as [-> _]; [by apply Z.mod_pos_bound|].
Qed.

Lemma padded_length w n : len (Rfc3339.padded w n) = w.
Proof. revert n. induction w as [|w IH]; intros n; cbn; [done|]. rewrite length_app, IH. cbn. lia. Qed.

Lemma padded_value w n : 0 <= n -> dec_value 0 (Rfc3339.padded w n) = n mod 10 ^ Z.of_nat w.
Proof.
  revert n. induction w as [|w IH]; intros n Hn; [cbn; by rewrite Z.mod_1_r|].
  cbn [Rfc3339.padded]. rewrite dec_value_app, IH by (apply Z.div_pos; lia). cbn [dec_value].
  destruct (digit_char_spec (n mod 10)) as [_ ->]; [by apply Z.mod_pos_bound|].
  rewrite Nat2Z.inj_succ, Z.pow_succ_r by lia.
  rewrite Z.rem_mul_r by lia. lia.
Qed.

Lemma span_digits_app ds c r :
  all_chars is_digit ds = true -> is_digit c = false ->
  span_digits (ds +:+ String c r) = (ds, String c r).
Proof.
  intros Hd Hc. induction ds as [|d ds IH].
  - change ("" +:+ String c r) with (String c r). cbn [span_digits]. by rewrite Hc.
  - cbn [all_chars] in Hd. apply andb_true_iff in Hd as [H1 H2].
    change (String d ds +:+ String c r) with (String d (ds +:+ String c r)). cbn [span_digits].
    by rewrite H1, IH.
Qed.

Lemma substring_all n s : (len s <= n)%nat -> String.substring 0 n s = s.
Proof.
  revert n. induction s as [|c s IH]; intros n Hn; [by destruct n|]. cbn in Hn.
  destruct n as [|n]; [lia|]. cbn. by rewrite IH by lia.
Qed.

Lemma fraction_written ns : 0 <= ns < Time.Second ->
  fraction (Rfc3339.fraction ns +:+ "Z") = (ns, "Z").
Proof.
  intros Hns. unfold Rfc3339.fraction. destruct (ns =? 0) eqn:E; [by apply Z.eqb_eq in E as ->|].
  set (p := Rfc3339.padded 9 ns). set (ds := reverse (TrimLeft "0" (reverse p))).
  destruct (significant p) as (k & Hp). fold ds in Hp.
  assert (Hd : all_chars is_digit ds = true).
  { pose proof (padded_digits 9 ns) as H. fold p in H. rewrite Hp, all_chars_app in H. by bools. }
  assert (Hlen : (len ds + k = 9)%nat).
  { pose proof (padded_length 9 ns) as H. fold p in H. rewrite Hp, length_app, zeros_length in H. done. }
  assert (Hv : dec_value 0 ds * 10 ^ Z.of_nat k = ns).
  { pose proof (padded_value 9 ns) as H. fold p in H. rewrite Hp, dec_value_app, dec_value_zeros in H.
    rewrite H by lia. apply Z.mod_small. exact Hns. }
  change (fraction (("." +:+ ds) +:+ "Z")) with
    (let '(ds', r') := span_digits (ds +:+ "Z") in
     if negb (ds' == "") then (nanos ds', r') else (0, "." +:+ ds +:+ "Z")).
  rewrite span_digits_app by done.
  assert (Hne : (ds == "") = false).
  { apply bool_decide_eq_false_2. intros E0. rewrite E0 in Hv. apply Z.eqb_neq in E. apply E. by rewrite <- Hv. }
  rewrite Hne. cbn [negb]. clearbody ds. unfold nanos. rewrite (substring_all 9 ds) by lia.
  replace (9 - Z.of_nat (len ds)) with (Z.of_nat k) by lia. by rewrite Hv.
Qed.

Lemma lit_app c r : lit c (String c "" +:+ r) = Some r.
Proof. change (lit c (String c r) = Some r). unfold lit. by rewrite bool_decide_eq_true_2. Qed.

(** Its year has four digits. *)
Lemma civil_years t : Time.json_ok t = true ->
  0 <= (Rfc3339.civil (t / (86400 * Time.Second))).1.1 < 10000.
Proof.
  unfold Time.json_ok, Time.year_zero, Time.year_10000. intros H. bools. unfold Rfc3339.civil. cbn [fst].
  set (z := t / (86400 * Time.Second)).
  assert (Hz : -366 <= z < 3652059).
  { subst z. split; [apply Z.div_le_lower_bound|apply Z.div_lt_upper_bound]; unfold Time.Second in *; lia. }
  clearbody z. clear H H0. set (w := z + 306). set (doe := w mod 146097).
  assert (Hdoe : 0 <= doe < 146097) by (by apply Z.mod_pos_bound).
  assert (Hw : w = 146097 * (w / 146097) + doe) by (apply Z.div_mod; lia).
  set (era := w / 146097) in *. clearbody era doe. subst w.
  assert (He : era = -1 /\ 146037 <= doe \/ 0 <= era <= 23 \/ era = 24 /\ doe < 146037) by lia.
  clear Hw Hz z. set (yoe := (doe - doe / 1460 + doe / 36524 - doe / 146096) / 365).
  set (doy := doe - (365 * yoe + yoe / 4 - yoe / 100)). set (mp := (5 * doy + 2) / 153).
  assert (Hyoe : 0 <= yoe <= 399 /\ 0 <= doy /\ (146037 <= doe -> yoe = 399 /\ 306 <= doy <= 365) /\
    (doe < 146037 -> yoe = 399 -> doy < 306)).
  { subst yoe doy. clear -Hdoe. Z.to_euclidean_division_equations. lia. }
  assert (Hmp : (0 <= doy -> 0 <= mp) /\ (306 <= doy <= 365 -> 10 <= mp <= 11) /\ (doy < 306 -> mp < 10)).
  { subst mp. clearbody doy. clear. Z.to_euclidean_division_equations. lia. }
  clearbody yoe doy mp. repeat case_match; lia.
Qed.

(** Every timestamp [MarshalJSON] accepts is read back as it was. *)
Lemma parse_nano t : Time.json_ok t = true -> parse_time (Rfc3339.nano t) = Some t.
Proof.
  intros Ht. unfold Rfc3339.nano.
  pose proof (Calendar.civil_days (t / (86400 * Time.Second))) as Hc.
  pose proof (civil_years t Ht) as Hy.
  destruct (Rfc3339.civil _) as [[y m] d]. destruct Hc as (Hdays & Hm & Hd). cbn [fst] in Hy.
  set (s := (t / Time.Second) mod 86400). set (ns := t mod Time.Second).
  assert (Hs : 0 <= s < 86400) by (by apply Z.mod_pos_bound).
  assert (Hns : 0 <= ns < Time.Second) by (by apply Z.mod_pos_bound).
  assert (Hd31 : d <= 31) by (unfold Calendar.days_in in Hd; repeat case_match; lia).
  unfold parse_time. rewrite year_padded by lia. cbn [mbind option_bind].
  rewrite lit_app. cbn [mbind option_bind].
  rewrite getnum_padded by lia. cbn [mbind option_bind].
  rewrite within_ok by lia. cbn [mbind option_bind]. rewrite lit_app. cbn [mbind option_bind].
  rewrite getnum_padded by lia. cbn [mbind option_bind].
  rewrite within_ok by done. cbn [mbind option_bind]. rewrite lit_app. cbn [mbind option_bind].
  assert (Hh : 0 <= s / 3600 <= 23) by (clear -Hs; Z.to_euclidean_division_equations; lia).
  assert (Hmi : 0 <= s / 60 mod 60 <= 59) by (clear -Hs; Z.to_euclidean_division_equations; lia).
  assert (Hse : 0 <= s mod 60 <= 59) by (clear -Hs; Z.to_euclidean_division_equations; lia).
  rewrite getnum_padded by lia. cbn [mbind option_bind].
  rewrite within_ok by lia. cbn [mbind option_bind]. rewrite lit_app. cbn [mbind option_bind].
  rewrite getnum_padded by lia. cbn [mbind option_bind].
  rewrite within_ok by lia. cbn [mbind option_bind]. rewrite lit_app. cbn [mbind option_bind].
  rewrite getnum_padded by lia. cbn [mbind option_bind].
  rewrite within_ok by lia. cbn [mbind option_bind].
  rewrite fraction_written by done. cbn [mbind option_bind zone]. f_equal. rewrite Hdays.
  subst s ns. clear. unfold Time.Second. Z.to_euclidean_division_equations. lia.
Qed.
End Rfc3339Text.

(** A [time.Time]: the text between the quotes, escapes and all. *)
Definition into_time : decoder Z := fun v old =>
  match v with JStr raw => Rfc3339Text.parse_time raw | JNull => Some old | _ => None end.
