(* ===== verification/Transport.v ===== *)
(** * What the transports accept

    [Decode] of [internal/workers/engine.go] and the bodies of
    [internal/adapters/httpapi/http.go]: strict JSON, read into a command whose
    amount is exact; and [InboxHash] of [internal/application/contracts.go],
    the identity of a delivered message. *)

From Stdlib Require Import Ascii.
From S2P Require Import Prelude GoStd Codec JsonText Errors Ident Money Wallet Ledger Wager Command.
From S2P Require Import Events Timestamps.
Import Str.

(** ** Amounts and bodies *)

(** [moneyDTO], and the [Money] member of [requestEnvelope]. *)
Record moneyDTO : Type := mkMoneyDTO { dtAmount : string; dtCurrency : string }.
Definition money_fields : fields moneyDTO :=
  [("amount", field dtAmount (fun a m => mkMoneyDTO a (dtCurrency m)) into_string);
   ("currency", field dtCurrency (fun c m => mkMoneyDTO (dtAmount m) c) into_string)].
Definition no_money : moneyDTO := mkMoneyDTO "" "".

(** [wagerDTO]; the [Data] of [requestEnvelope] also has the key. *)
Record wagerDTO : Type := mkWagerDTO {
  dtProviderID : string; dtExternalTransactionID : string; dtIdempotencyKey : string;
  dtPlayerID : string; dtWalletID : string; dtRoundID : string; dtGameID : string;
  dtKind : string; dtReference : string; dtMoney : moneyDTO
}.
Definition no_wager : wagerDTO := mkWagerDTO "" "" "" "" "" "" "" "" "" no_money.

(** One text member of it. *)
Definition wager_text (n : nat) (s : string) (d : wagerDTO) : wagerDTO :=
  let pick k old := if (n =? k)%nat then s else old in
  mkWagerDTO (pick 0%nat (dtProviderID d)) (pick 1%nat (dtExternalTransactionID d))
    (pick 2%nat (dtIdempotencyKey d)) (pick 3%nat (dtPlayerID d)) (pick 4%nat (dtWalletID d))
    (pick 5%nat (dtRoundID d)) (pick 6%nat (dtGameID d)) (pick 7%nat (dtKind d))
    (pick 8%nat (dtReference d)) (dtMoney d).
Definition wager_money (m : moneyDTO) (d : wagerDTO) : wagerDTO :=
  mkWagerDTO (dtProviderID d) (dtExternalTransactionID d) (dtIdempotencyKey d) (dtPlayerID d)
    (dtWalletID d) (dtRoundID d) (dtGameID d) (dtKind d) (dtReference d) m.

Definition wager_fields : fields wagerDTO :=
  [("providerId", field dtProviderID (wager_text 0) into_string);
   ("externalTransactionId", field dtExternalTransactionID (wager_text 1) into_string);
   ("playerId", field dtPlayerID (wager_text 3) into_string);
   ("walletId", field dtWalletID (wager_text 4) into_string);
   ("roundId", field dtRoundID (wager_text 5) into_string);
   ("gameId", field dtGameID (wager_text 6) into_string);
   ("kind", field dtKind (wager_text 7) into_string);
   ("money", field dtMoney wager_money (into_struct true money_fields));
   ("referenceExternalTransactionId", field dtReference (wager_text 8) into_string)].

(** [walletDTO]. *)
Record walletDTO : Type := mkWalletDTO { dwPlayerID : string; dwInitialBalance : moneyDTO }.
Definition wallet_fields : fields walletDTO :=
  [("playerId", field dwPlayerID (fun p w => mkWalletDTO p (dwInitialBalance w)) into_string);
   ("initialBalance", field dwInitialBalance (fun b w => mkWalletDTO (dwPlayerID w) b)
      (into_struct true money_fields))].
Definition no_wallet : walletDTO := mkWalletDTO "" no_money.

(** ** The message of a queue *)

Record requestEnvelope : Type := mkRequest {
  rqeMessageID : string; rqeType : string; rqeOccurredAt : Z; rqeData : wagerDTO
}.
Definition data_fields : fields wagerDTO :=
  ("idempotencyKey", field dtIdempotencyKey (wager_text 2) into_string) :: wager_fields.
Definition request_fields : fields requestEnvelope :=
  [("messageId", field rqeMessageID (fun m e => mkRequest m (rqeType e) (rqeOccurredAt e) (rqeData e)) into_string);
   ("type", field rqeType (fun t e => mkRequest (rqeMessageID e) t (rqeOccurredAt e) (rqeData e)) into_string);
   ("occurredAt", field rqeOccurredAt (fun t e => mkRequest (rqeMessageID e) (rqeType e) t (rqeData e)) into_time);
   ("data", field rqeData (fun d e => mkRequest (rqeMessageID e) (rqeType e) (rqeOccurredAt e) d)
      (into_struct true data_fields))].
Definition no_request : requestEnvelope := mkRequest "" "" 0 no_wager.

(** ** [InboxHash] *)

(** [appendInt(b, year, 4)] of package time: the sign, and four digits or as
    many as it takes. *)
Definition year_text (y : Z) : string :=
  (if y <? 0 then "-" else "")
    +:+ (if Z.abs y <? 10000 then Rfc3339.padded 4 (Z.abs y) else Strconv.dec_string (Z.abs y)).

(** [t.UTC().Format(time.RFC3339Nano)], in any year. *)
Definition Format (t : Z) : string :=
  let '(y, _, _) := Rfc3339.civil (t / (86400 * Time.Second)) in year_text y +:+ drop 4 (Rfc3339.nano t).

Example Format_9999 : Format (Time.year_10000 + 3599 * Time.Second) = "10000-01-01T00:59:59Z".
Proof. vm_compute. reflexivity. Qed.
Example Format_before_zero : Format (Time.year_zero - Time.Second) = "-0001-12-31T23:59:59Z".
Proof. vm_compute. reflexivity. Qed.

(** The members of [json.Marshal(c)], which leaves out an empty key and an empty
    reference; a map of raw members is written with its keys sorted. *)
Definition command_members (c : Command) : res string :=
  money ← money_json (cMoney c);
  Ok (Json.object
        ([("externalTransactionId", Json.string_lit (cExternalTransactionID c));
          ("gameId", Json.string_lit (cGameID c))]
         ++ omit_string "idempotencyKey" (cIdempotencyKey c)
         ++ [("kind", Json.string_lit (cKind c)); ("money", money);
             ("playerId", Json.string_lit (cPlayerID c));
             ("providerId", Json.string_lit (cProviderID c))]
         ++ omit_string "referenceExternalTransactionId" (cReferenceExternalTransactionID c)
         ++ [("roundId", Json.string_lit (cRoundID c));
             ("walletId", Json.string_lit (cWalletID c))])).

Definition inbox_document (messageType : string) (occurredAt : Z) (c : Command) : res string :=
  data ← command_members c;
  Ok (Json.object [("data", data); ("occurredAt", Json.string_lit (Format occurredAt));
                   ("type", Json.string_lit messageType)]).

Definition InboxHash (messageType : string) (occurredAt : Z) (c : Command) : res string :=
  b ← inbox_document messageType occurredAt c; Ok (Hex.encode (Sha256.Sum256 b)).

(** ** [Decode] *)

Definition invalid_message {A} : res A := Err (AppError "INVALID_MESSAGE").

(** The whole body is one document of known fields. *)
Definition envelope_of (body : string) : option requestEnvelope :=
  if (len body =? 0)%nat || (131072 <? Z.of_nat (len body)) then None
  else
    e ← Unmarshal (into_struct true request_fields) body no_request;
    if (rqeMessageID e == "") || (200 <? Z.of_nat (len (rqeMessageID e)))
       || (rqeType e != "WagerTransactionRequested") || Time.IsZero (rqeOccurredAt e)
    then None else Some e.

Definition command_of (e : requestEnvelope) (money : Money) : Command :=
  let d := rqeData e in
  mkCommand (dtProviderID d) (dtExternalTransactionID d) (dtIdempotencyKey d) (dtPlayerID d)
    (dtWalletID d) (dtRoundID d) (dtGameID d) (dtKind d) money (dtReference d)
    (rqeMessageID e) (rqeMessageID e).

Definition Decode (body : string) (providers : list string) : res (Command * InboxMessage) :=
  match envelope_of body with
  | None => invalid_message
  | Some e =>
      let d := rqeData e in
      if negb (existsb (fun p => dtProviderID d == p) providers) then invalid_message
      else
        money ← ParseMoney (dtAmount (dtMoney d)) (dtCurrency (dtMoney d));
        c ← NormalizeCommand (command_of e money);
        hash ← InboxHash (rqeType e) (rqeOccurredAt e) c;
        Ok (c, mkInboxMessage "wager-transactions-v1" (rqeMessageID e) hash)
  end.

(** What it accepts is normal, from a trusted provider. *)
Lemma Decode_Ok body providers command inbox :
  Decode body providers = Ok (command, inbox) -> cProviderID command ∈ providers /\ normal command.
Proof.
  unfold Decode. destruct (envelope_of body) as [e|]; [|done].
  destruct (negb _) eqn:Ep; [done|]. apply negb_false_iff in Ep.
  intros H. apply bind_Ok in H as (money & _ & H). apply bind_Ok in H as (command' & Hn & H).
  apply bind_Ok in H as (hash & _ & [= <- <-]). apply NormalizeCommand_inv in Hn as (Hn & p & k & _ & _ & ->).
  split; [|done]. cbn. apply existsb_exists in Ep as (x & Hx & E). apply list_elem_of_In in Hx. bools. by rewrite E.
Qed.
