(* ===== verification/Documents.v ===== *)
(** * The documents of the program, written and read back

    The texts [json.Marshal] writes for amounts, timestamps, commands and
    deliveries parse to the trees they were written from.  So a financial hash
    names one operation, as far as SHA-256 does, and a message written with the
    tags of [requestEnvelope] is the one [Decode] reads. *)

From Stdlib Require Import Ascii.
From S2P Require Import Prelude GoStd Codec JsonText JsonRound Errors Ident Money Wallet Ledger Wager.
From S2P Require Import Evaluate Command Events Timestamps Transport.
Import Str Strconv.

(** ** Texts with nothing to escape *)

Lemma plain_hex c : is_hex c = true -> plain_char c = true.
Proof.
  intros H. assert (Ha : forallb (fun n => implb (is_hex (ascii_of_nat n)) (plain_char (ascii_of_nat n)))
    (seq 0 256) = true) by (vm_compute; reflexivity).
  rewrite forallb_forall in Ha. specialize (Ha (nat_of_ascii c)). rewrite ascii_nat_embedding, H in Ha.
  apply Ha, in_seq. pose proof (nat_ascii_bounded c). lia.
Qed.

Lemma decode_plain s b : Hex.decode s = Some b -> plain s.
Proof.
  revert s b. fix IH 1. intros [|c [|e s]] b; [done..|]. cbn [Hex.decode all_chars].
  destruct (Hex.value c) eqn:Ec; [|done]. destruct (Hex.value e) eqn:Ee; [|done].
  destruct (Hex.decode s) as [b'|] eqn:Es; [|done]. intros _.
  rewrite (plain_hex c), (plain_hex e), (IH s b') by (unfold is_hex; by rewrite ?Ec, ?Ee). done.
Qed.

(** An identity's text has nothing to escape. *)
Lemma ParseID_plain id w : ParseID id = Ok w -> plain id /\ len id = 36%nat.
Proof.
  unfold ParseID. destruct (_ || _) eqn:E; [done|]. bools.
  destruct (Hex.decode (compact_uuid id)) as [b|] eqn:Eb; [|done]. intros _. split; [|by apply Nat.eqb_eq].
  apply decode_plain in Eb. unfold compact_uuid in Eb. rewrite !all_chars_app in Eb.
  do 36 (destruct id as [|? id]; [done|]). destruct id; [|done].
  cbn in *. simplify_eq. bools.
  repeat match goal with H : plain_char _ = true |- _ => rewrite H; clear H end. done.
Qed.

Lemma plain_digit c : Strconv.is_digit c = true -> plain_char c = true.
Proof.
  by destruct c as [[] [] [] [] [] [] [] []].
Qed.

Lemma plain_digits s : all_chars Strconv.is_digit s = true -> plain s.
Proof.
  induction s as [|c s IH]; [done|]. cbn. rewrite !andb_true_iff. intros [H1 H2].
  split; [by apply plain_digit|by apply IH].
Qed.

Lemma fraction_plain ns : plain (Rfc3339.fraction ns) /\ (len (Rfc3339.fraction ns) <= 10)%nat.
Proof.
  unfold Rfc3339.fraction. destruct (ns =? 0); [split; [done|cbn; lia]|].
  destruct (Rfc3339Text.significant (Rfc3339.padded 9 ns)) as (k & E).
  pose proof (Rfc3339Text.padded_digits 9 ns) as Hd. pose proof (Rfc3339Text.padded_length 9 ns) as Hl.
  rewrite E, all_chars_app in Hd. rewrite E, length_app in Hl. set (ds := reverse _) in *. clearbody ds.
  apply andb_true_iff in Hd as [Hd _]. split.
  - change ("." +:+ ds) with (String "." ds). cbn [all_chars]. by rewrite plain_digits.
  - change ("." +:+ ds) with (String "." ds). cbn [String.length]. lia.
Qed.

Lemma nano_plain t : plain (Rfc3339.nano t) /\ (len (Rfc3339.nano t) <= 30)%nat.
Proof.
  unfold Rfc3339.nano. destruct (Rfc3339.civil _) as [[y m] d].
  destruct (fraction_plain (t mod Time.Second)) as [Hf Hl]. split.
  - assert (Hpad : forall w n, plain (Rfc3339.padded w n)) by (intros; apply plain_digits, Rfc3339Text.padded_digits).
    rewrite !all_chars_app, Hf, !Hpad. reflexivity.
  - rewrite !length_app, !Rfc3339Text.padded_length. cbn. lia.
Qed.

Lemma time_reads t s : time_json t = Ok s ->
  reads_as 0 s (JStr (Rfc3339.nano t)) /\ (len s <= 32)%nat /\ Time.json_ok t = true.
Proof.
  unfold time_json. destruct (Time.json_ok t) eqn:E; [|done]. intros [= <-].
  destruct (nano_plain t) as [Hp Hl]. split_and!; [by apply plain_reads| |done].
  rewrite string_lit_plain by done. cbn [String.length]. rewrite length_app. cbn [String.length]. lia.
Qed.

(** ** Amounts *)

Lemma plain_app s t : plain s -> plain t -> plain (s +:+ t).
Proof. intros Hs Ht. by rewrite all_chars_app, Hs, Ht. Qed.

Lemma plain_currency c : validCurrency c = true -> plain c.
Proof. unfold validCurrency. rewrite !orb_true_iff, !bool_decide_eq_true. by intros [[->| ->]| ->]. Qed.

Lemma amount_text_plain a v : amount_text a v -> plain a.
Proof.
  assert (Hc : forall d, is_digit d = true -> plain (String d "")) by (intros d Hd; cbn; by rewrite plain_digit).
  intros [w _ Hw|w d _ Hw Hd|w d e _ Hw Hd He]; [by apply plain_digits|..];
    (apply plain_app; [by apply plain_digits|]).
  - apply (plain_app "." (String d "")); [done|by apply Hc].
  - apply (plain_app "." (String d (String e ""))); [done|].
    apply (plain_app (String d "") (String e "")); by apply Hc.
Qed.

Definition money_members (m : Money) : list member :=
  [("amount", Json.string_lit (Money_String m), JStr (escaped (Money_String m)));
   ("currency", Json.string_lit (currency m), JStr (escaped (currency m)))].

Lemma money_json_reads m t : money_json m = Ok t -> Valid m = true /\ t = written (money_members m) /\ reads_as 1 t (tree (money_members m)).
Proof.
  unfold money_json, Money_MarshalJSON. destruct (Valid m) eqn:E; [|done]. intros [= <-].
  split; [done|]. split; [done|]. change (Json.object _) with (written (money_members m)).
  apply (object_reads 0); [done| |done]. by repeat constructor; try apply string_reads.
Qed.

(** An amount is determined by its members. *)
Lemma money_tree_inj m m' :
  valid_money m -> 0 <= minor m -> valid_money m' -> 0 <= minor m' ->
  tree (money_members m) = tree (money_members m') -> m = m'.
Proof.
  intros [Hv Hr] Hm [Hv' Hr'] Hm' [= E1 E2].
  pose proof (Money_String_amount m Hv Hm) as Ha. pose proof (Money_String_amount m' Hv' Hm') as Ha'.
  apply escaped_inj in E1; [|by eapply plain_valid, amount_text_plain..].
  apply escaped_inj in E2; [|by apply plain_valid, plain_currency..].
  pose proof (ParseMoney_amount _ _ _ Hv Ha) as P. pose proof (ParseMoney_amount _ _ _ Hv' Ha') as P'.
  rewrite <- E1, <- E2, P in P'. unfold capped, Int64.in_range in *. rewrite !bool_decide_eq_true_2 in P' by lia.
  destruct m, m'. cbn in *. congruence.
Qed.

(** ** Commands *)

(** A member that is a text. *)
Notation text k s := (k, Json.string_lit s, JStr (escaped s)).

Definition payload_members (c : Command) : list member :=
  [text "externalTransactionId" (cExternalTransactionID c); text "gameId" (cGameID c); text "kind" (cKind c);
   ("money", written (money_members (cMoney c)), tree (money_members (cMoney c)));
   text "playerId" (cPlayerID c); text "providerId" (cProviderID c);
   text "referenceExternalTransactionId" (cReferenceExternalTransactionID c);
   text "roundId" (cRoundID c); text "walletId" (cWalletID c)].

Lemma text_ok_member k s : plain k -> member_ok 1 (text k s).
Proof. intros Hk. split; [done|]. apply (reads_weaken 0); [done|]. apply string_reads. Qed.

Lemma payload_reads c d : payload_document c = Ok d ->
  Valid (cMoney c) = true /\ d = written (payload_members c) /\ parse d = Some (tree (payload_members c)).
Proof.
  unfold payload_document. intros H. apply bind_Ok in H as (t & Ht & [= <-]).
  apply money_json_reads in Ht as (Hv & -> & Hr). split; [done|]. split; [done|].
  change (Json.object _) with (written (payload_members c)). apply (object_parses 1); [done| |done].
  repeat constructor; try done; apply text_ok_member; done.
Qed.

(** The texts an operation is made of are texts; the key of a request comes from
    a header, whose bytes nothing checks. *)
Definition utf8_command (c : Command) : Prop :=
  Forall utf8 [cProviderID c; cExternalTransactionID c; cPlayerID c; cWalletID c; cRoundID c; cGameID c;
    cKind c; cReferenceExternalTransactionID c].

(** What a command asks for, whatever the key and the correlation it is sent under. *)
Definition same_operation (c c' : Command) : Prop :=
  cProviderID c = cProviderID c' /\ cExternalTransactionID c = cExternalTransactionID c'
  /\ cPlayerID c = cPlayerID c' /\ cWalletID c = cWalletID c' /\ cRoundID c = cRoundID c'
  /\ cGameID c = cGameID c' /\ cKind c = cKind c' /\ cMoney c = cMoney c'
  /\ cReferenceExternalTransactionID c = cReferenceExternalTransactionID c'.

(** A command a transport hands over: normal, of texts of UTF-8 and an [int64]. *)
Definition sound (c : Command) : Prop :=
  normal c /\ utf8_command c /\ Int64.in_range (minor (cMoney c)).

Lemma sound_money c : sound c -> valid_money (cMoney c) /\ 0 <= minor (cMoney c).
Proof. intros (Hn & _ & Hr). pose proof (nm_money _ Hn). pose proof (nm_nonneg _ Hn). done. Qed.

Lemma payload_tree_inj c c' :
  sound c -> sound c' -> tree (payload_members c) = tree (payload_members c') -> same_operation c c'.
Proof.
  intros Hs Hs' E. destruct (sound_money _ Hs) as [Hm H0], (sound_money _ Hs') as [Hm' H0'].
  destruct Hs as (_ & Hu & _), Hs' as (_ & Hu' & _). unfold utf8_command in *.
  repeat (apply Forall_cons in Hu as [? Hu]). repeat (apply Forall_cons in Hu' as [? Hu']).
  unfold payload_members in E. pose proof (money_tree_inj _ _ Hm H0 Hm' H0') as Hinj. revert E Hinj.
  generalize (tree (money_members (cMoney c))) (tree (money_members (cMoney c'))). intros t t' E Hinj.
  unfold tree in E. cbn [fmap list_fmap fst snd] in E. injection E as E1 E2 E3 E4 E5 E6 E7 E8 E9.
  unfold same_operation. by split_and!; try apply escaped_inj; auto.
Qed.

(** Two documents with one digest. *)
Definition collision (r r' : res string) : Prop :=
  exists d d', r = Ok d /\ r' = Ok d' /\ d <> d' /\ Sha256.Sum256 d = Sha256.Sum256 d'.

Lemma hex_inj s t : Hex.encode s = Hex.encode t -> s = t.
Proof. intros E. pose proof (Hex.decode_encode s) as H. rewrite E, Hex.decode_encode in H. by injection H. Qed.

Lemma digest_eq (r r' : res string) d d' : r = Ok d -> r' = Ok d' ->
  (b ← r; Ok (Hex.encode (Sha256.Sum256 b))) = (b ← r'; Ok (Hex.encode (Sha256.Sum256 b))) <->
  d = d' \/ collision r r'.
Proof.
  intros -> ->. rewrite !Ok_bind. split.
  - intros [= E]. apply hex_inj in E. destruct (decide (d = d')) as [->|Hne]; [by left|right]. by exists d, d'.
  - intros [->|(e & e' & [= <-] & [= <-] & _ & E)]; [done|by rewrite E].
Qed.

Lemma payload_document_total c : Valid (cMoney c) = true -> payload_document c = Ok (written (payload_members c)).
Proof. unfold payload_document, money_json, Money_MarshalJSON. intros ->. reflexivity. Qed.

Lemma payload_members_same c c' : same_operation c c' -> payload_members c = payload_members c'.
Proof. unfold payload_members. intros (-> & -> & -> & -> & -> & -> & -> & -> & ->). reflexivity. Qed.

Lemma payload_hash_eq c c' : sound c -> sound c' ->
  PayloadHash c = PayloadHash c' <-> same_operation c c' \/ collision (payload_document c) (payload_document c').
Proof.
  intros Hc Hc'. pose proof (payload_document_total c (nm_money _ (proj1 Hc))) as D.
  pose proof (payload_document_total c' (nm_money _ (proj1 Hc'))) as D'.
  unfold PayloadHash. rewrite (digest_eq _ _ _ _ D D').
  split; (intros [E|E]; [left|by right]).
  - apply payload_tree_inj; [done..|]. apply payload_reads in D as (_ & _ & P). apply payload_reads in D' as (_ & _ & P').
    rewrite E, P' in P. congruence.
  - by rewrite (payload_members_same c c').
Qed.

(** ** Deliveries *)

Definition data_members (c : Command) : list member :=
  [text "externalTransactionId" (cExternalTransactionID c); text "gameId" (cGameID c);
   text "idempotencyKey" (cIdempotencyKey c); text "kind" (cKind c);
   ("money", written (money_members (cMoney c)), tree (money_members (cMoney c)));
   text "playerId" (cPlayerID c); text "providerId" (cProviderID c)]
  ++ (if cReferenceExternalTransactionID c == "" then []
      else [text "referenceExternalTransactionId" (cReferenceExternalTransactionID c)])
  ++ [text "roundId" (cRoundID c); text "walletId" (cWalletID c)].

Definition inbox_members (ty : string) (t : Z) (c : Command) : list member :=
  [("data", written (data_members c), tree (data_members c)); text "occurredAt" (Format t); text "type" ty].

Lemma money_ok_member k m : plain k -> Valid m = true ->
  member_ok 1 (k, written (money_members m), tree (money_members m)).
Proof.
  intros Hk Hv. split; [done|]. cbn [fst snd].
  assert (Hj : money_json m = Ok (written (money_members m))).
  { unfold money_json, Money_MarshalJSON. by rewrite Hv. }
  by apply money_json_reads in Hj as (_ & _ & H).
Qed.

Lemma data_ok_members c : Valid (cMoney c) = true -> Forall (member_ok 1) (data_members c).
Proof.
  intros Hv. unfold data_members. destruct (_ == ""); cbn [app];
    repeat (apply Forall_cons; split; [first [by apply text_ok_member|by apply money_ok_member]|]); by apply Forall_nil.
Qed.

Lemma inbox_document_total ty t c : normal c -> inbox_document ty t c = Ok (written (inbox_members ty t c)).
Proof.
  intros Hn. unfold inbox_document, command_members, money_json, Money_MarshalJSON. rewrite (nm_money _ Hn).
  cbn [negb]. rewrite !Ok_bind. unfold written, inbox_members, data_members. unfold omit_string.
  assert (Hk : (cIdempotencyKey c == "") = false).
  { apply bool_decide_eq_false_2. pose proof (nm_texts _ Hn) as Ht. repeat (apply Forall_cons in Ht as [? Ht]).
    by destruct_and!. }
  rewrite Hk. by destruct (cReferenceExternalTransactionID c == "").
Qed.

Lemma inbox_reads ty t c : normal c -> parse (written (inbox_members ty t c)) = Some (tree (inbox_members ty t c)).
Proof.
  intros Hn. apply (object_parses 2); [done| |done]. unfold inbox_members.
  assert (Ht : forall k s, plain k -> member_ok 2 (text k s)).
  { intros k s Hk. split; [done|]. apply (reads_weaken 1); [done|]. by apply (text_ok_member k s). }
  repeat (apply Forall_cons; split); [|by apply Ht..|by apply Forall_nil].
  split; [done|]. cbn [fst snd]. apply (object_reads 1); [by unfold data_members|by apply data_ok_members, Hn|done].
Qed.

Lemma data_tree_inj c c' : sound c -> sound c' -> utf8 (cIdempotencyKey c) -> utf8 (cIdempotencyKey c') ->
  tree (data_members c) = tree (data_members c') ->
  same_operation c c' /\ cIdempotencyKey c = cIdempotencyKey c'.
Proof.
  intros Hs Hs' Hk Hk' E. destruct (sound_money _ Hs) as [Hm H0], (sound_money _ Hs') as [Hm' H0'].
  destruct Hs as (_ & Hu & _), Hs' as (_ & Hu' & _). unfold utf8_command in *.
  repeat (apply Forall_cons in Hu as [? Hu]). repeat (apply Forall_cons in Hu' as [? Hu']).
  unfold data_members in E. pose proof (money_tree_inj _ _ Hm H0 Hm' H0') as Hinj. revert E Hinj.
  generalize (tree (money_members (cMoney c))) (tree (money_members (cMoney c'))). intros t t' E Hinj.
  unfold tree in E. unfold same_operation.
  destruct (cReferenceExternalTransactionID c == "") eqn:Er, (cReferenceExternalTransactionID c' == "") eqn:Er';
    cbn [app fmap list_fmap fst snd] in E; try discriminate E; injection E; intros; bools;
    split_and!; try apply escaped_inj; auto; congruence.
Qed.

(** ** Instants

    An instant has one text, whatever its year: the year is read off its front,
    and the rest is that of the same moment of a year within 2000 and 2399. *)

Definition year_of (t : Z) : Z := (Rfc3339.civil (t / (86400 * Time.Second))).1.1.
Definition cycle : Z := 146097 * (86400 * Time.Second).

Lemma nano_year t : exists r, Rfc3339.nano t = Rfc3339.padded 4 (year_of t) +:+ String "-" r
  /\ Format t = year_text (year_of t) +:+ String "-" r.
Proof.
  unfold Format, year_of. destruct (Rfc3339.civil _) as [[y m] d] eqn:E.
  assert (H : exists r, Rfc3339.nano t = Rfc3339.padded 4 y +:+ String "-" r).
  { unfold Rfc3339.nano. rewrite E. eexists. reflexivity. }
  destruct H as (r & Hr). exists r. split; [exact Hr|]. rewrite Hr.
  change 4%nat with (len (Rfc3339.padded 4 y)) at 1. by rewrite drop_app.
Qed.

Definition read_year (s : string) : Z * string :=
  match s with
  | String "-" r => let '(ds, r) := span_digits r in (- dec_value 0 ds, r)
  | _ => let '(ds, r) := span_digits s in (dec_value 0 ds, r)
  end.

Definition year_digits (n : Z) : string := if n <? 10000 then Rfc3339.padded 4 n else dec_string n.

Lemma year_digits_spec n : 0 <= n ->
  all_chars is_digit (year_digits n) = true /\ dec_value 0 (year_digits n) = n /\ (0 < len (year_digits n))%nat.
Proof.
  intros Hn. unfold year_digits. destruct (n <? 10000) eqn:E; bools.
  - split; [apply Rfc3339Text.padded_digits|]. rewrite Rfc3339Text.padded_value, Rfc3339Text.padded_length by done.
    split; [by apply Z.mod_small|lia].
  - destruct (dec_string_spec n Hn) as (H1 & H2 & H3). split_and!; [done|done|].
    destruct (dec_string n); [done|cbn; lia].
Qed.

Lemma read_year_text y r : read_year (year_text y +:+ String "-" r) = (y, String "-" r).
Proof.
  unfold year_text. fold (year_digits (Z.abs y)).
  destruct (year_digits_spec (Z.abs y)) as (Hd & Hv & Hl); [lia|].
  assert (Hs : span_digits (year_digits (Z.abs y) +:+ String "-" r) = (year_digits (Z.abs y), String "-" r)).
  { by apply Rfc3339Text.span_digits_app. }
  destruct (y <? 0) eqn:E; bools.
  - change (("-" +:+ year_digits (Z.abs y)) +:+ String "-" r) with (String "-" (year_digits (Z.abs y) +:+ String "-" r)).
    cbn [read_year]. rewrite Hs, Hv. f_equal. lia.
  - change (("" +:+ year_digits (Z.abs y)) +:+ String "-" r) with (year_digits (Z.abs y) +:+ String "-" r).
    destruct (year_digits (Z.abs y)) as [|c ds] eqn:Ey; [cbn in Hl; lia|].
    assert (Hc : is_digit c = true) by (cbn in Hd; by bools).
    transitivity (let '(ds', r') := span_digits (String c ds +:+ String "-" r) in (dec_value 0 ds', r')).
    { rewrite app_cons. unfold read_year. by destruct c as [[] [] [] [] [] [] [] []]. }
    rewrite Hs, Hv. f_equal. lia.
Qed.

(** The calendar repeats itself every 400 years. *)
Lemma civil_cycle z k : let '(y, m, d) := Rfc3339.civil z in
  Rfc3339.civil (z + 146097 * k) = (y + 400 * k, m, d).
Proof.
  unfold Rfc3339.civil. replace (z + 146097 * k + 306) with (z + 306 + k * 146097) by lia.
  rewrite Z.div_add, Z.mod_add by done. f_equal. f_equal. lia.
Qed.

Lemma nano_cycle t k r : Rfc3339.nano t = Rfc3339.padded 4 (year_of t) +:+ String "-" r ->
  Rfc3339.nano (t + cycle * k) = Rfc3339.padded 4 (year_of t + 400 * k) +:+ String "-" r.
Proof.
  unfold Rfc3339.nano, year_of.
  assert (Ed : (t + cycle * k) / (86400 * Time.Second) = t / (86400 * Time.Second) + 146097 * k).
  { unfold cycle. rewrite <- Z.div_add by done. f_equal. lia. }
  assert (Es : (t + cycle * k) / Time.Second mod 86400 = t / Time.Second mod 86400).
  { replace (t + cycle * k) with (t + (146097 * k * 86400) * Time.Second) by (unfold cycle; lia).
    by rewrite Z.div_add, Z.mod_add. }
  assert (En : (t + cycle * k) mod Time.Second = t mod Time.Second).
  { replace (t + cycle * k) with (t + (146097 * k * 86400) * Time.Second) by (unfold cycle; lia).
    by rewrite Z.mod_add. }
  rewrite Ed, Es, En. pose proof (civil_cycle (t / (86400 * Time.Second)) k) as Hc.
  destruct (Rfc3339.civil (t / (86400 * Time.Second))) as [[y m] d]. rewrite Hc. cbn [fst].
  intros H. apply (f_equal (drop (len (Rfc3339.padded 4 y)))) in H. rewrite !drop_app in H. by rewrite H.
Qed.

Lemma recent_ok t : 2000 <= year_of t < 2400 -> Time.json_ok t = true.
Proof.
  unfold year_of. pose proof (Calendar.civil_days (t / (86400 * Time.Second))) as Hc.
  destruct (Rfc3339.civil _) as [[y m] d]. cbn [fst]. destruct Hc as (Hz & Hm & Hd). intros Hy.
  assert (Hd31 : d <= 31) by (unfold Calendar.days_in in Hd; repeat case_match; lia).
  assert (Hr : 0 <= t / (86400 * Time.Second) < 3652059).
  { rewrite <- Hz. unfold Calendar.days. clear -Hm Hd Hd31 Hy. destruct (m <=? 2) eqn:E;
      Z.to_euclidean_division_equations; lia. }
  clear -Hr. unfold Time.json_ok, Time.year_zero, Time.year_10000.
  apply andb_true_iff. rewrite Z.leb_le, Z.ltb_lt. revert Hr. unfold Time.Second.
  intros Hr. Z.to_euclidean_division_equations. lia.
Qed.

Lemma Format_inj t t' : Format t = Format t' -> t = t'.
Proof.
  destruct (nano_year t) as (r & Hn & ->), (nano_year t') as (r' & Hn' & ->). intros E.
  apply (f_equal read_year) in E. rewrite !read_year_text in E. injection E as Ey <-.
  set (k := 5 - year_of t / 400). apply (nano_cycle _ k) in Hn, Hn'. rewrite <- Ey, <- Hn in Hn'.
  assert (Hy : forall u, year_of u = year_of t -> Time.json_ok (u + cycle * k) = true).
  { intros u Hu. apply recent_ok. unfold year_of in *.
    replace ((u + cycle * k) / (86400 * Time.Second)) with (u / (86400 * Time.Second) + 146097 * k).
    2:{ unfold cycle. rewrite <- Z.div_add by done. f_equal. lia. }
    pose proof (civil_cycle (u / (86400 * Time.Second)) k) as Hc.
    destruct (Rfc3339.civil (u / _)) as [[y m] d]. rewrite Hc. cbn [fst] in *. subst y k.
    pose proof (Z.div_mod ((Rfc3339.civil (t / (86400 * Time.Second))).1.1) 400).
    pose proof (Z.mod_pos_bound ((Rfc3339.civil (t / (86400 * Time.Second))).1.1) 400). lia. }
  apply (f_equal Rfc3339Text.parse_time) in Hn'. rewrite !Rfc3339Text.parse_nano in Hn' by auto.
  injection Hn'. lia.
Qed.

Lemma Format_plain t : plain (Format t).
Proof.
  destruct (nano_year t) as (r & Hn & ->). destruct (nano_plain t) as [Hp _]. rewrite Hn, all_chars_app in Hp.
  rewrite all_chars_app. apply andb_true_iff in Hp as [_ Hp]. rewrite Hp, andb_true_r.
  unfold year_text. fold (year_digits (Z.abs (year_of t))). rewrite all_chars_app.
  destruct (year_digits_spec (Z.abs (year_of t))) as (Hd & _ & _); [lia|].
  rewrite (plain_digits _ Hd), andb_true_r. by destruct (_ <? 0).
Qed.

Lemma inbox_hash_eq ty ty' t t' c c' :
  sound c -> sound c' -> utf8 (cIdempotencyKey c) -> utf8 (cIdempotencyKey c') -> utf8 ty -> utf8 ty' ->
  InboxHash ty t c = InboxHash ty' t' c' <->
  (ty = ty' /\ t = t' /\ same_operation c c' /\ cIdempotencyKey c = cIdempotencyKey c')
  \/ collision (inbox_document ty t c) (inbox_document ty' t' c').
Proof.
  intros Hc Hc' Hk Hk' Hy Hy'. pose proof (inbox_document_total ty t c (proj1 Hc)) as D.
  pose proof (inbox_document_total ty' t' c' (proj1 Hc')) as D'.
  unfold InboxHash. rewrite (digest_eq _ _ _ _ D D'). split; (intros [E|E]; [left|by right]).
  - pose proof (inbox_reads ty t c (proj1 Hc)) as P. pose proof (inbox_reads ty' t' c' (proj1 Hc')) as P'.
    rewrite E, P' in P. clear E P' D D'.
    pose proof (Format_plain t) as Hf. pose proof (Format_plain t') as Hf'.
    assert (Ed : tree (data_members c') = tree (data_members c) /\ escaped (Format t') = escaped (Format t)
      /\ escaped ty' = escaped ty).
    { revert P. unfold inbox_members. generalize (tree (data_members c)) (tree (data_members c')). intros d d' P.
      unfold tree in P. cbn [fmap list_fmap fst snd] in P. by injection P. }
    destruct Ed as (E1 & E2 & E3). apply data_tree_inj in E1 as [E1 E1']; [|done..].
    apply escaped_inj in E2; [|by apply plain_valid..]. apply escaped_inj in E3; [|done..].
    apply Format_inj in E2 as ->. split; [done|]. split; [done|]. split; [|done].
    unfold same_operation in *. destruct_and!. by split_and!.
  - destruct E as (-> & -> & Eo & Ek). unfold inbox_members, data_members.
    destruct Eo as (-> & -> & -> & -> & -> & -> & -> & -> & ->). by rewrite Ek.
Qed.

(** ** What the transports hand over *)

Definition utf8_money (m : moneyDTO) : Prop := utf8 (dtAmount m) /\ utf8 (dtCurrency m).
Definition utf8_wager (d : wagerDTO) : Prop :=
  Forall utf8 [dtProviderID d; dtExternalTransactionID d; dtIdempotencyKey d; dtPlayerID d; dtWalletID d;
    dtRoundID d; dtGameID d; dtKind d; dtReference d] /\ utf8_money (dtMoney d).

Lemma money_keeps : keeps utf8_money (into_struct true money_fields).
Proof.
  apply struct_keeps. repeat (apply Forall_cons; split); [..|by apply Forall_nil];
    apply (field_keeps _ utf8); first [apply string_keeps|by intros a []|by intros a b []].
Qed.

Lemma wager_text_keeps n (get : wagerDTO -> string) :
  (forall d, utf8_wager d -> utf8 (get d)) -> keeps utf8_wager (field get (wager_text n) into_string).
Proof.
  intros Hg. apply (field_keeps _ utf8); [apply string_keeps|done|].
  intros d s [Hd Hm] Hs. split; [|done]. repeat (apply Forall_cons in Hd as [? Hd]).
  repeat (apply Forall_cons; split); [..|by apply Forall_nil]; cbn; by destruct (n =? _)%nat.
Qed.

Lemma wager_fields_keep : Forall (fun f => keeps utf8_wager f.2) data_fields.
Proof.
  assert (Hm : keeps utf8_wager (field dtMoney wager_money (into_struct true money_fields))).
  { apply (field_keeps _ utf8_money); [apply money_keeps|by intros d []|]. by intros d m [Hd _] Hm. }
  repeat (apply Forall_cons; split); [..|by apply Forall_nil];
    first [exact Hm|apply wager_text_keeps; intros d [Hd _]; repeat (apply Forall_cons in Hd as [? Hd]); done].
Qed.

Lemma utf8_no_wager : utf8_wager no_wager.
Proof. split; [|split; constructor]. repeat (apply Forall_cons; split); [constructor..|by apply Forall_nil]. Qed.

(** A body of HTTP. *)
Lemma body_utf8 data d : Unmarshal (into_struct true wager_fields) data no_wager = Some d -> utf8_wager d.
Proof.
  apply Unmarshal_keeps; [|apply utf8_no_wager]. apply struct_keeps.
  pose proof wager_fields_keep as H. by apply Forall_cons in H as [_ H].
Qed.

(** A message. *)
Definition utf8_request (e : requestEnvelope) : Prop :=
  utf8 (rqeMessageID e) /\ utf8 (rqeType e) /\ utf8_wager (rqeData e).

Lemma time_keeps : keeps (fun _ => True) into_time.
Proof. done. Qed.

Lemma envelope_utf8 body e : envelope_of body = Some e -> utf8_request e.
Proof.
  unfold envelope_of. destruct (_ || _); [done|].
  destruct (Unmarshal _ _ _) as [e'|] eqn:E; [|done]. cbn [mbind option_bind].
  destruct (_ || _); [done|]. intros [= <-]. revert E. apply Unmarshal_keeps.
  - apply struct_keeps. repeat (apply Forall_cons; split); [..|by apply Forall_nil].
    + apply (field_keeps _ utf8); [apply string_keeps|by intros a []|by intros a b (_ & ? & ?)].
    + apply (field_keeps _ utf8); [apply string_keeps|by intros a (_ & ? & _)|by intros a b (? & _ & ?)].
    + apply (field_keeps _ (fun _ => True)); [apply time_keeps|done|by intros a b (? & ? & ?)].
    + apply (field_keeps _ utf8_wager); [apply struct_keeps, wager_fields_keep|by intros a (_ & _ & ?)|
        by intros a b (? & ? & _)].
  - split; [constructor|]. split; [constructor|apply utf8_no_wager].
Qed.

Lemma ID_utf8 s id : ParseID s = Ok id -> utf8 (ID_String id).
Proof.
  intros H. apply plain_valid. eapply ParseID_plain, ParseID_canonical, H.
Qed.

Lemma kind_utf8 k : externalKind k = true -> utf8 k.
Proof.
  intros H. apply plain_valid. unfold externalKind in H. rewrite !orb_true_iff, !bool_decide_eq_true in H.
  by destruct H as [[[[->| ->]| ->]| ->]| ->].
Qed.

Lemma normalized_sound c c' : NormalizeCommand c = Ok c' -> Int64.in_range (minor (cMoney c)) ->
  Forall utf8 [cProviderID c; cExternalTransactionID c; cRoundID c; cGameID c; cReferenceExternalTransactionID c] ->
  sound c'.
Proof.
  intros Hn Hr Hu. pose proof Hn as H. apply NormalizeCommand_inv in H as (Hc & p & w & Hp & Hw & ->).
  split; [done|]. split; [|done]. repeat (apply Forall_cons in Hu as [? Hu]).
  repeat (apply Forall_cons; split); cbn; try done; [by eapply ID_utf8..|]. apply kind_utf8, Hc.
Qed.

Lemma parsed_range a cur m : ParseMoney a cur = Ok m -> Int64.in_range (minor m).
Proof.
  intros H. apply ParseMoney_inv in H as (_ & v & Hv & Hm & ->). apply amount_text_nonneg in Hv.
  split; cbn; [unfold Int64.MinInt64; lia|done].
Qed.

Lemma Decode_sound body providers c m : Decode body providers = Ok (c, m) ->
  sound c /\ utf8 (cIdempotencyKey c)
  /\ exists e, envelope_of body = Some e
     /\ InboxHash "WagerTransactionRequested" (rqeOccurredAt e) c = Ok (imPayloadHash m).
Proof.
  unfold Decode. destruct (envelope_of body) as [e|] eqn:Ee; [|done].
  assert (Hty : rqeType e = "WagerTransactionRequested").
  { revert Ee. unfold envelope_of. destruct (_ || _); [done|]. intros H.
    apply bind_Some in H as (e0 & _ & H). destruct (_ || _) eqn:E; [done|]. injection H as <-. by bools. }
  apply envelope_utf8 in Ee as (_ & _ & Hd & _).
  destruct (negb _); [done|]. intros H. apply bind_Ok in H as (money & Hm & H).
  apply bind_Ok in H as (c' & Hn & H). apply bind_Ok in H as (hash & Hh & [= <- <-]).
  repeat (apply Forall_cons in Hd as [? Hd]). split_and!.
  - eapply normalized_sound; [exact Hn|by eapply parsed_range|].
    repeat (apply Forall_cons; split); [done..|by apply Forall_nil].
  - by apply NormalizeCommand_inv in Hn as (_ & p & w & _ & _ & ->).
  - exists e. split; [done|]. by rewrite <- Hty.
Qed.

(** Two deliveries [Decode] accepts. *)
Lemma delivery_hash_eq body body' providers providers' e e' c c' m m' :
  envelope_of body = Some e -> envelope_of body' = Some e' ->
  Decode body providers = Ok (c, m) -> Decode body' providers' = Ok (c', m') ->
  imPayloadHash m = imPayloadHash m' <->
  (rqeOccurredAt e = rqeOccurredAt e' /\ same_operation c c' /\ cIdempotencyKey c = cIdempotencyKey c')
  \/ collision (inbox_document "WagerTransactionRequested" (rqeOccurredAt e) c)
       (inbox_document "WagerTransactionRequested" (rqeOccurredAt e') c').
Proof.
  intros He He' H H'. apply Decode_sound in H as (Hs & Hk & e0 & E & Hh), H' as (Hs' & Hk' & e1 & E' & Hh').
  rewrite He in E. injection E as <-. rewrite He' in E'. injection E' as <-.
  assert (Hty : utf8 "WagerTransactionRequested") by by apply plain_valid.
  pose proof (inbox_hash_eq _ _ (rqeOccurredAt e) (rqeOccurredAt e') c c' Hs Hs' Hk Hk' Hty Hty) as Heq.
  rewrite Hh, Hh' in Heq. split.
  - intros Em. destruct (proj1 Heq) as [(_ & ?)|?]; [by rewrite Em|by left|by right].
  - intros Em. cut (Ok (imPayloadHash m) = Ok (imPayloadHash m') :> res string); [congruence|].
    apply Heq. destruct Em as [?|?]; [by left|by right].
Qed.

(** ** A message, written with the tags of [requestEnvelope] *)

Definition dto_members (m : moneyDTO) : list member :=
  [text "amount" (dtAmount m); text "currency" (dtCurrency m)].

Definition wager_members (d : wagerDTO) : list member :=
  [text "providerId" (dtProviderID d); text "externalTransactionId" (dtExternalTransactionID d);
   text "idempotencyKey" (dtIdempotencyKey d); text "playerId" (dtPlayerID d); text "walletId" (dtWalletID d);
   text "roundId" (dtRoundID d); text "gameId" (dtGameID d); text "kind" (dtKind d)]
  ++ (if dtReference d == "" then [] else [text "referenceExternalTransactionId" (dtReference d)])
  ++ [("money", written (dto_members (dtMoney d)), tree (dto_members (dtMoney d)))].

Definition request_members (e : requestEnvelope) : list member :=
  [text "messageId" (rqeMessageID e); text "type" (rqeType e); text "occurredAt" (Rfc3339.nano (rqeOccurredAt e));
   ("data", written (wager_members (rqeData e)), tree (wager_members (rqeData e)))].

(** [json.Marshal] of a [requestEnvelope]. *)
Definition request_json (e : requestEnvelope) : res string :=
  _ ← time_json (rqeOccurredAt e); Ok (written (request_members e)).

Lemma request_parses e : parse (written (request_members e)) = Some (tree (request_members e)).
Proof.
  assert (Ht : forall h k s, 0 <= h -> plain k -> member_ok h (text k s)).
  { intros h k s Hh Hk. split; [done|]. apply (reads_weaken 0); [lia|]. apply string_reads. }
  assert (Hm : member_ok 1 ("money", written (dto_members (dtMoney (rqeData e))), tree (dto_members (dtMoney (rqeData e))))).
  { split; [done|]. cbn [fst snd]. apply (object_reads 0); [done| |done].
    repeat (apply Forall_cons; split); [by apply Ht..|by apply Forall_nil]. }
  apply (object_parses 2); [done| |done]. unfold request_members.
  repeat (apply Forall_cons; split); [by apply Ht..| |by apply Forall_nil]. split; [done|]. cbn [fst snd].
  apply (object_reads 1); [done| |done]. unfold wager_members.
  destruct (_ == ""); cbn [app]; repeat (apply Forall_cons; split); try (by apply Ht); try exact Hm; by apply Forall_nil.
Qed.

Lemma into_escaped s old : utf8 s -> into_string (JStr (escaped s)) old = Some s.
Proof. intros H. cbn. by rewrite unquote_escaped. Qed.

(** One text member stored. *)
Lemma store_text {A} strict (fs : fields A) k s get set l a :
  plain k -> utf8 s -> find_field k fs = Some (field get set into_string) ->
  store_members strict fs ((k, JStr (escaped s)) :: l) a = store_members strict fs l (set s a).
Proof.
  intros Hk Hs Hf. rewrite (store_known _ _ _ _ _ _ _ Hk Hf). unfold field. by rewrite into_escaped.
Qed.

(** One nested struct stored. *)
Lemma store_struct {A B} strict (fs : fields A) k v (d : decoder B) get set l a b :
  plain k -> find_field k fs = Some (field get set d) -> d v (get a) = Some b ->
  store_members strict fs ((k, v) :: l) a = store_members strict fs l (set b a).
Proof. intros Hk Hf Hd. rewrite (store_known _ _ _ _ _ _ _ Hk Hf). unfold field. by rewrite Hd. Qed.

Lemma dto_reads m : utf8_money m -> into_struct true money_fields (tree (dto_members m)) no_money = Some m.
Proof.
  intros [Ha Hc]. unfold tree, dto_members. cbn [fmap list_fmap fst snd into_struct].
  do 2 (erewrite store_text; [|done|done|reflexivity]). cbn. by destruct m.
Qed.

Lemma wager_reads d : utf8_wager d -> into_struct true data_fields (tree (wager_members d)) no_wager = Some d.
Proof.
  intros [Hd Hm]. repeat (apply Forall_cons in Hd as [? Hd]). unfold tree, wager_members.
  destruct (dtReference d == "") eqn:Er; cbn [app fmap list_fmap fst snd into_struct].
  - do 8 (erewrite store_text; [|done|done|reflexivity]).
    erewrite (store_struct _ _ "money"); [|done|reflexivity|exact (dto_reads _ Hm)]. cbn. bools.
    destruct d. cbn in *. by subst.
  - do 9 (erewrite store_text; [|done|done|reflexivity]).
    erewrite (store_struct _ _ "money"); [|done|reflexivity|exact (dto_reads _ Hm)]. cbn. by destruct d.
Qed.

(** What was marshalled is unmarshalled. *)
Lemma request_reads e text : utf8_request e -> request_json e = Ok text ->
  Unmarshal (into_struct true request_fields) text no_request = Some e.
Proof.
  intros (Hi & Hy & Hd) H. unfold request_json, time_json in H.
  destruct (Time.json_ok (rqeOccurredAt e)) eqn:Et; [|done]. injection H as <-.
  unfold Unmarshal. rewrite request_parses. cbn [mbind option_bind]. unfold tree, request_members.
  cbn [fmap list_fmap fst snd into_struct].
  do 2 (erewrite store_text; [|done|done|reflexivity]).
  erewrite (store_struct _ _ "occurredAt"); [|done|reflexivity|].
  2:{ cbn [into_time]. rewrite escape_plain by apply nano_plain. by apply Rfc3339Text.parse_nano. }
  erewrite (store_struct _ _ "data"); [|done|reflexivity|exact (wager_reads _ Hd)]. cbn. by destruct e.
Qed.

(** ** It fits a message *)

Lemma substring_length n m s : (len (String.substring n m s) <= m)%nat.
Proof.
  revert n m. induction s as [|c s IH]; intros [|n] [|m]; cbn; try lia.
  - specialize (IH 0%nat m). lia.
  - specialize (IH n 0%nat). lia.
  - specialize (IH n (S m)). lia.
Qed.

Lemma escaped_length s : (len (escaped s) <= 6 * len s)%nat.
Proof.
  induction s as [|c t Hc IH|r t Hr IH|c t Hl IH] using text_ind; [done|..].
  - rewrite escaped_ascii, length_app by done. cbn [String.length].
    assert (Ha : (len (Json.escape_ascii c) <= 6)%nat); [|lia].
    by destruct c as [[] [] [] [] [] [] [] []]; vm_compute; lia.
  - rewrite escaped_wide, !length_app by done.
    assert (Ha : (len (separator r) <= 6 * len r)%nat); [|lia]. destruct Hr as (_ & Hr & _).
    destruct r as [|c r]; [done|]. unfold separator. cbn [String.length].
    destruct (_ == _); [change (len (_ +:+ _)) with 6%nat; lia|].
    destruct (_ == _); [change (len (_ +:+ _)) with 6%nat; lia|cbn [String.length]; lia].
  - rewrite escaped_invalid, length_app by done. cbn [String.length]. change (len (_ +:+ _)) with 6%nat. lia.
Qed.

Lemma lit_length s : (len (Json.string_lit s) <= 6 * len s + 2)%nat.
Proof.
  pose proof (escaped_length s). unfold Json.string_lit. rewrite !length_app. cbn [Json.quote String.length].
  change (len Json.quote) with 1%nat. lia.
Qed.

Lemma dec_digits_length fuel n acc : (len (dec_digits fuel n acc) <= fuel + len acc)%nat.
Proof.
  revert n acc. induction fuel as [|fuel IH]; intros n acc; [done|]. cbn [dec_digits].
  destruct (n <? 10); [cbn; lia|]. specialize (IH (n / 10) (String (digit_char (n mod 10)) acc)). cbn in IH. lia.
Qed.

Lemma pad3_length fuel s : (len (pad3 fuel s) <= len s + fuel)%nat.
Proof.
  revert s. induction fuel as [|fuel IH]; intros s; [cbn; lia|]. cbn [pad3].
  destruct (_ <? 3)%nat; [|lia]. specialize (IH (String "0" s)). cbn in IH. lia.
Qed.

Lemma amount_length m : valid_money m -> 0 <= minor m -> (len (Money_String m) <= 100)%nat.
Proof.
  intros [Hv [_ Hr]] Hm. unfold Money_String. rewrite Hv. cbn [negb].
  assert (Hl : (len (FormatInt (minor m)) <= 64)%nat).
  { unfold FormatInt. replace (minor m <? 0) with false by (symmetry; apply Z.ltb_ge; lia).
    unfold dec_string. etransitivity; [apply dec_digits_length|]. cbn [String.length].
    assert (Z.log2 (minor m) <= 63); [|lia]. change 63 with (Z.log2 (2 ^ 63)). apply Z.log2_le_mono.
    unfold Int64.MaxInt64 in Hr. lia. }
  revert Hl. generalize (FormatInt (minor m)). intros s Hl.
  assert (Hs : exists p u, (match s with String "-" s' => ("-", s') | _ => ("", s) end) = (p, u)
    /\ (len p <= 1 /\ len u <= 64)%nat).
  { destruct s as [|c s]; [exists "", ""; split; [done|cbn; lia]|].
    destruct (decide (c = "-"%char)) as [->|Hc]; [exists "-", s; split; [done|cbn in *; lia]|].
    exists "", (String c s). split; [|cbn in *; lia]. destruct c as [[] [] [] [] [] [] [] []]; done. }
  destruct Hs as (p & u & -> & Hp & Hu). rewrite !length_app. pose proof (pad3_length 3 u) as Hq.
  pose proof (substring_length 0 (len (pad3 3 u) - 2) (pad3 3 u)).
  pose proof (substring_length (len (pad3 3 u) - 2) 2 (pad3 3 u)). cbn [String.length]. lia.
Qed.

(** The message that asks for a command. *)
Definition request_of (c : Command) (id : string) (t : Z) : requestEnvelope :=
  mkRequest id "WagerTransactionRequested" t
    (mkWagerDTO (cProviderID c) (cExternalTransactionID c) (cIdempotencyKey c) (cPlayerID c) (cWalletID c)
       (cRoundID c) (cGameID c) (cKind c) (cReferenceExternalTransactionID c)
       (mkMoneyDTO (Money_String (cMoney c)) (currency (cMoney c)))).

Definition size (l : list (string * string)) : nat :=
  foldr (fun x n => 6 * len x.1 + len x.2 + 4 + n)%nat 0%nat l.

Lemma members_size l : (len (Json.members l) <= size l)%nat.
Proof.
  induction l as [|[k v] l IH]; [done|]. pose proof (lit_length k).
  destruct l as [|y l]; cbn [size foldr fst snd] in *.
  - cbn [Json.members]. rewrite !length_app. cbn [String.length]. lia.
  - change (Json.members ((k, v) :: y :: l)) with (Json.string_lit k +:+ ":" +:+ v +:+ "," +:+ Json.members (y :: l)).
    rewrite !length_app. cbn [String.length]. lia.
Qed.

Lemma written_size l :
  (len (written l) <= 2 + size (fst <$> l))%nat.
Proof.
  unfold written, Json.object. pose proof (members_size (fst <$> l)). rewrite !length_app. cbn [String.length]. lia.
Qed.

Lemma kind_length k : externalKind k = true -> (len k <= 8)%nat.
Proof.
  unfold externalKind. rewrite !orb_true_iff, !bool_decide_eq_true.
  by intros [[[[->| ->]| ->]| ->]| ->]; vm_compute; lia.
Qed.

Lemma ID_length s id : ParseID s = Ok id -> len (ID_String id) = 36%nat.
Proof. intros H. by eapply ParseID_plain, ParseID_canonical, H. Qed.

(** Normal commands make short messages. *)
Lemma request_size c id t : sound c -> (len id <= 200)%nat ->
  Z.of_nat (len (written (request_members (request_of c id t)))) <= 20000.
Proof.
  intros Hc Hid. destruct (sound_money _ Hc) as [Hm H0]. pose proof (amount_length _ Hm H0) as Ha.
  destruct Hc as (Hn & _ & _). pose proof (kind_length _ (nm_kind _ Hn)) as Hk.
  destruct (nm_player _ Hn) as (p & Hp & Ep). destruct (nm_wallet _ Hn) as (w & Hw & Ew).
  pose proof (ID_length _ _ Hp) as Lp. pose proof (ID_length _ _ Hw) as Lw. rewrite <- Ep in Lp. rewrite <- Ew in Lw.
  pose proof (nm_reference _ Hn) as Hr. pose proof (nm_texts _ Hn) as Ht.
  repeat (apply Forall_cons in Ht as [(_ & ? & _) Ht]).
  assert (Hcur : (len (currency (cMoney c)) = 3)%nat).
  { destruct Hm as [Hv _]. revert Hv. unfold Valid, validCurrency. rewrite !orb_true_iff, !bool_decide_eq_true.
    by intros [[->| ->]| ->]. }
  destruct (nano_plain t) as [_ Hnano].
  pose proof (written_size (request_members (request_of c id t))) as Hs. revert Hs.
  unfold request_members, request_of.
  cbn [fmap list_fmap fst snd size foldr rqeMessageID rqeType rqeOccurredAt rqeData].
  set (d := mkWagerDTO _ _ _ _ _ _ _ _ _ _).
  assert (Hd : Z.of_nat (len (written (wager_members d))) <= 15000).
  { pose proof (written_size (wager_members d)) as Hs. revert Hs. unfold wager_members, d.
    cbn [dtProviderID dtExternalTransactionID dtIdempotencyKey dtPlayerID dtWalletID dtRoundID dtGameID dtKind dtReference dtMoney].
    set (m := mkMoneyDTO _ _).
    assert (Hmo : (len (written (dto_members m)) <= 800)%nat).
    { etransitivity; [apply written_size|]. unfold dto_members, m.
      cbn [fmap list_fmap fst snd size foldr dtAmount dtCurrency String.length].
      pose proof (lit_length (Money_String (cMoney c))). pose proof (lit_length (currency (cMoney c))). lia. }
    pose proof (lit_length (cProviderID c)). pose proof (lit_length (cExternalTransactionID c)).
    pose proof (lit_length (cIdempotencyKey c)). pose proof (lit_length (cPlayerID c)).
    pose proof (lit_length (cWalletID c)). pose proof (lit_length (cRoundID c)). pose proof (lit_length (cGameID c)).
    pose proof (lit_length (cKind c)). pose proof (lit_length (cReferenceExternalTransactionID c)).
    destruct (_ == ""); cbn [app fmap list_fmap fst snd size foldr String.length]; lia. }
  pose proof (lit_length id). pose proof (lit_length (Rfc3339.nano t)). cbn [String.length].
  change (len (Json.string_lit "WagerTransactionRequested")) with 27%nat. lia.
Qed.

(** The command, under the message that carries it. *)
Definition carried (c : Command) (id : string) : Command :=
  mkCommand (cProviderID c) (cExternalTransactionID c) (cIdempotencyKey c) (cPlayerID c) (cWalletID c)
    (cRoundID c) (cGameID c) (cKind c) (cMoney c) (cReferenceExternalTransactionID c) id id.

Lemma carried_normal c id : normal c -> id <> "" -> normal (carried c id).
Proof. intros [] Hi. by constructor. Qed.

Lemma utf8_request_of c id t : sound c -> utf8 (cIdempotencyKey c) -> utf8 id -> utf8_request (request_of c id t).
Proof.
  intros Hc Hk Hi. destruct (sound_money _ Hc) as [Hm H0]. destruct Hc as (_ & Hu & _).
  repeat (apply Forall_cons in Hu as [? Hu]). split; [done|]. split; [by apply plain_valid|]. split.
  - repeat (apply Forall_cons; split); [done..|by apply Forall_nil].
  - split; apply plain_valid; [by eapply amount_text_plain, Money_String_amount; [apply Hm|]|].
    apply plain_currency, Hm.
Qed.

(** A message for a normal command of a trusted provider is decoded to it. *)
Lemma Decode_request c id t providers text :
  sound c -> utf8 (cIdempotencyKey c) -> utf8 id -> id <> "" -> (len id <= 200)%nat -> t <> 0 ->
  cProviderID c ∈ providers -> request_json (request_of c id t) = Ok text ->
  exists hash, InboxHash "WagerTransactionRequested" t (carried c id) = Ok hash
  /\ Decode text providers = Ok (carried c id, mkInboxMessage "wager-transactions-v1" id hash).
Proof.
  intros Hc Hk Hu Hi Hl Ht Hp Hj. pose proof (request_reads _ _ (utf8_request_of c id t Hc Hk Hu) Hj) as He.
  assert (Etext : text = written (request_members (request_of c id t))).
  { unfold request_json in Hj. by apply bind_Ok in Hj as (? & _ & [= <-]). }
  pose proof (request_size c id t Hc Hl) as Hsize. rewrite <- Etext in Hsize.
  assert (Henv : envelope_of text = Some (request_of c id t)).
  { unfold envelope_of. replace (len text =? 0)%nat with false.
    2:{ rewrite Etext. reflexivity. }
    replace (131072 <? Z.of_nat (len text)) with false by (symmetry; apply Z.ltb_ge; lia). cbn [orb].
    rewrite He. cbn [mbind option_bind rqeMessageID rqeType rqeOccurredAt request_of].
    rewrite (bool_decide_eq_false_2 (id = "")) by done.
    replace (200 <? Z.of_nat (len id)) with false by (symmetry; apply Z.ltb_ge; lia).
    unfold Time.IsZero. replace (t =? 0) with false by (symmetry; by apply Z.eqb_neq).
    by rewrite (bool_decide_eq_true_2 (_ = "WagerTransactionRequested")). }
  assert (Hn : normal (carried c id)) by (apply carried_normal; [apply Hc|done]).
  exists (Hex.encode (Sha256.Sum256 (written (inbox_members "WagerTransactionRequested" t (carried c id))))).
  assert (Hh : InboxHash "WagerTransactionRequested" t (carried c id) =
    Ok (Hex.encode (Sha256.Sum256 (written (inbox_members "WagerTransactionRequested" t (carried c id)))))).
  { unfold InboxHash. by rewrite inbox_document_total. }
  split; [exact Hh|]. unfold Decode. rewrite Henv. cbv zeta. cbn [request_of rqeData dtProviderID dtMoney dtAmount dtCurrency rqeType rqeOccurredAt rqeMessageID].
  assert (Hx : existsb (fun p => cProviderID c == p) providers = true).
  { apply existsb_exists. exists (cProviderID c). split; [by apply list_elem_of_In|by apply bool_decide_eq_true]. }
  rewrite Hx. cbn [negb]. destruct (sound_money _ Hc) as [Hm H0]. rewrite Money_roundtrip, Ok_bind by done.
  change (command_of _ _) with (carried c id). rewrite NormalizeCommand_normal, Ok_bind by done.
  by rewrite Hh, Ok_bind.
Qed.
