(* ===== verification/Session.v ===== *)
(** * Sessions: transactions over a shared database

    The store's methods are sequences of SQL statements and Go computation
    between them.  A method is a [prog]: a finite tree whose nodes are the
    points where the outside world decides something (a statement's reply, the
    clock, the outcome of a commit).  A statement is a function from what the
    session sees to its reply, the rows it writes, the locks it takes and the
    constraint triggers it defers to the commit.

    [run] executes a program against an environment.  [step] interleaves any
    number of sessions over one committed database, with READ COMMITTED
    visibility (every statement sees the latest committed rows and its own
    writes), locks that exclude each other until the end of the transaction,
    statements that fail, commits whose acknowledgement is lost, and processes
    that crash.  [wp] is the program logic that proves a program against every
    interleaving; [machine_sound] is its soundness. *)

From S2P Require Import Prelude Errors.

Section programs.
Context {Db Lock Cx : Type}.

(** What one statement did. *)
Record outcome (R : Type) : Type := mkOutcome {
  out_reply : res R;               (* rows or affected count; [Err]: the server refused *)
  out_write : Db -> Db;            (* the rows it wrote *)
  out_locks : list Lock;           (* row and unique-key locks it took *)
  out_deferred : list (Db -> bool) (* constraint triggers queued for the commit *)
}.

Arguments mkOutcome {_} _ _ _ _.
Arguments out_reply {_} _.
Arguments out_write {_} _.
Arguments out_locks {_} _.
Arguments out_deferred {_} _.

Definition stmt (R : Type) : Type := Cx -> Db -> outcome R.

Inductive prog (A : Type) : Type :=
| Ret (a : A)
| Do (R : Type) (s : stmt R) (k : res R -> prog A)
| Clock (k : Z -> prog A)
| Savepoint (k : res unit -> prog A)
| RollbackTo (k : res unit -> prog A)
| Commit (k : res unit -> prog A).

Arguments Ret {_} _.
Arguments Do {_ _} _ _.
Arguments Clock {_} _.
Arguments Savepoint {_} _.
Arguments RollbackTo {_} _.
Arguments Commit {_} _.

(** A transaction in progress: its writes over the committed database, oldest
    first, the locks it holds, its deferred triggers, the savepoint it can
    return to, and whether the server still accepts its statements.
    [ss_done] remembers the database right before and after its commit. *)
Record sess : Type := mkSess {
  ss_writes : list (Db -> Db);
  ss_locks : list Lock;
  ss_deferred : list (Db -> bool);
  ss_mark : option (list (Db -> Db) * list Lock * list (Db -> bool));
  ss_live : bool;
  ss_done : option (Db * Db)
}.
Definition fresh_sess : sess := mkSess [] [] [] None true None.

Definition view (base : Db) (s : sess) : Db := foldl (fun d f => f d) base (ss_writes s).

Definition sess_write {R} (s : sess) (o : outcome R) : sess :=
  mkSess (ss_writes s ++ [out_write o]) (ss_locks s ++ out_locks o)
    (ss_deferred s ++ out_deferred o) (ss_mark s) (ss_live s) (ss_done s).
Definition sess_abort (s : sess) : sess :=
  mkSess (ss_writes s) (ss_locks s) (ss_deferred s) (ss_mark s) false (ss_done s).
Definition sess_save (s : sess) : sess :=
  mkSess (ss_writes s) (ss_locks s) (ss_deferred s)
    (Some (ss_writes s, ss_locks s, ss_deferred s)) (ss_live s) (ss_done s).
Definition sess_restore (s : sess) : sess :=
  match ss_mark s with
  | Some (w, l, d) => mkSess w l d (ss_mark s) true (ss_done s)
  | None => sess_abort s
  end.
(** The transaction ended: nothing pending, no lock. *)
Definition sess_end (done : option (Db * Db)) : sess := mkSess [] [] [] None true done.

Definition triggers_pass (s : sess) (d : Db) : bool := forallb (fun g => g d) (ss_deferred s).

Definition aborted : GoError := PgError "25P02" "".
Definition commit_refused : GoError := PgError "23514" "".

(** ** Sequencing, as Go writes it: an error returns. *)

Fixpoint bind {A B} (p : prog A) (f : A -> prog B) : prog B :=
  match p with
  | Ret a => f a
  | Do s k => Do s (fun r => bind (k r) f)
  | Clock k => Clock (fun t => bind (k t) f)
  | Savepoint k => Savepoint (fun r => bind (k r) f)
  | RollbackTo k => RollbackTo (fun r => bind (k r) f)
  | Commit k => Commit (fun r => bind (k r) f)
  end.

Definition ret {A} (a : A) : prog (res A) := Ret (Ok a).
Definition fail {A} (e : GoError) : prog (res A) := Ret (Err e).
Definition lift {A} (r : res A) : prog (res A) := Ret r.
Definition exec {R} (s : stmt R) : prog (res R) := Do s (fun r => Ret r).
Definition now : prog (res Z) := Clock (fun t => Ret (Ok t)).
Definition savepoint : prog (res unit) := Savepoint (fun r => Ret r).
Definition rollback_to : prog (res unit) := RollbackTo (fun r => Ret r).
Definition commit : prog (res unit) := Commit (fun r => Ret r).

(** [if err != nil { return zero, err }] between two steps. *)
Definition andThen {A B} (p : prog (res A)) (f : A -> prog (res B)) : prog (res B) :=
  bind p (fun r => match r with Ok a => f a | Err e => Ret (Err e) end).

(** [if err != nil { return zero, w(err) }]. *)
Definition map_err {A} (w : GoError -> GoError) (p : prog (res A)) : prog (res A) :=
  bind p (fun r => match r with Ok a => Ret (Ok a) | Err e => Ret (Err (w e)) end).

(** ** Running a program alone *)

Inductive fault : Type := NoFault | Refused | LostAck.

(** The environment at each point: what the server generates, the process
    clock, failures, and what other sessions commit in between. *)
Record env : Type := mkEnv {
  env_cx : nat -> Cx;
  env_clock : nat -> Z;
  env_fault : nat -> fault;
  env_rivals : nat -> Db -> Db
}.

Definition lost : GoError := OtherError "unexpected EOF".

Fixpoint run {A} (e : env) (p : prog A) (n : nat) (base : Db) (s : sess) : A * Db * nat :=
  match p with
  | Ret a => (a, base, n)
  | Clock k => run e (k (env_clock e n)) (S n) base s
  | Do st k =>
      let base := env_rivals e n base in
      match env_fault e n with
      | NoFault =>
          if ss_live s then
            let o := st (env_cx e n) (view base s) in
            match out_reply o with
            | Ok r => run e (k (Ok r)) (S n) base (sess_write s o)
            | Err err => run e (k (Err err)) (S n) base (sess_abort s)
            end
          else run e (k (Err aborted)) (S n) base s
      | _ => run e (k (Err lost)) (S n) base (sess_abort s)
      end
  | Savepoint k =>
      match env_fault e n with
      | NoFault =>
          if ss_live s then run e (k (Ok tt)) (S n) base (sess_save s)
          else run e (k (Err aborted)) (S n) base s
      | _ => run e (k (Err lost)) (S n) base (sess_abort s)
      end
  | RollbackTo k =>
      match env_fault e n with
      | NoFault => run e (k (Ok tt)) (S n) base (sess_restore s)
      | _ => run e (k (Err lost)) (S n) base (sess_abort s)
      end
  | Commit k =>
      let base := env_rivals e n base in
      match env_fault e n with
      | Refused => run e (k (Err lost)) (S n) base (sess_end None)
      | ack =>
          if ss_live s then
            if triggers_pass s (view base s) then
              let base' := view base s in
              run e (k (match ack with LostAck => Err lost | _ => Ok tt end)) (S n) base'
                (sess_end (Some (base, base')))
            else run e (k (Err commit_refused)) (S n) base (sess_end None)
          else run e (k (Err aborted)) (S n) base (sess_end None)
      end
  end.
End programs.

Arguments outcome : clear implicits.
Arguments stmt : clear implicits.
Arguments prog : clear implicits.
Arguments sess : clear implicits.
Arguments env : clear implicits.
Arguments mkOutcome {_ _ _} _ _ _ _.
Arguments mkEnv {_ _} _ _ _ _.
Arguments out_reply {_ _ _} _.
Arguments out_write {_ _ _} _.
Arguments out_locks {_ _ _} _.
Arguments out_deferred {_ _ _} _.
Arguments Ret {_ _ _ _} _.
Arguments Do {_ _ _ _ _} _ _.
Arguments Clock {_ _ _ _} _.
Arguments Savepoint {_ _ _ _} _.
Arguments RollbackTo {_ _ _ _} _.
Arguments Commit {_ _ _ _} _.

Declare Scope prog_scope.
Delimit Scope prog_scope with prog.
Notation "x <-- p ;; q" := (andThen p (fun x => q))
  (at level 100, p at next level, right associativity) : prog_scope.
Notation "p ;;; q" := (andThen p (fun _ => q))
  (at level 100, right associativity) : prog_scope.

(** ** Failures from outside

    The driver never returns the program's own error types, and reports a
    missing row only when it scanned one; a commit runs the deferred triggers
    and checks no unique index. *)
Definition external (e : GoError) : Prop :=
  as_app e = None /\ as_domain e = None /\ is_no_rows e = false.
Definition commit_error (e : GoError) : Prop :=
  external e /\ forall c, as_pg e <> Some ("23505", c).

Lemma external_dbError e : external e -> is_no_rows (dbError e) = false /\ as_domain (dbError e) = None.
Proof. intros (Ha & Hd & Hn). unfold dbError. rewrite Hn. repeat case_match; cbn; done. Qed.

Lemma commit_error_code e : commit_error e -> Code (dbError e) = "UNAVAILABLE".
Proof.
  intros [(Ha & Hd & Hn) Hp]. unfold dbError, Code. rewrite Hn.
  destruct (as_pg e) as [[st c]|]; [|cbn; by rewrite Ha, Hd].
  destruct (st == "23505") eqn:E; cbn; [|by rewrite Ha, Hd].
  bools. subst. by destruct (Hp c).
Qed.

(** ** The discipline sessions follow

    [inv] holds of every committed database.  [rely L] is what a session that
    holds the locks [L] may assume of commits by others.  [cx_ok] and
    [clock_ok] say what the server's generated values and the process clocks
    promise. *)
Class Discipline (Db Lock Cx : Type) : Type := {
  inv : Db -> Prop;
  rely : list Lock -> Db -> Db -> Prop;
  cx_ok : Cx -> Db -> list Lock -> Prop;
  clock_ok : Z -> Prop;
  rely_refl L d : rely L d d;
  rely_trans L d1 d2 d3 : rely L d1 d2 -> rely L d2 d3 -> rely L d1 d3;
  rely_inv L d d' : inv d -> rely L d d' -> inv d';
  rely_weaken L L' d d' : L ⊆ L' -> rely L' d d' -> rely L d d'
}.

Definition apart {Lock} (L L' : list Lock) : Prop := forall x, x ∈ L -> x ∈ L' -> False.

Section logic.
Context {Db Lock Cx : Type} `{D : Discipline Db Lock Cx}.
Implicit Types (b d : Db) (s : sess Db Lock).

(** A commit under the locks [L] is one the other sessions rely on. *)
Definition guar (L : list Lock) d d' : Prop := forall L', apart L L' -> rely L' d d'.

(** The acknowledgement of a commit that took effect may be lost. *)
Definition commit_reply (r : res unit) : Prop :=
  match r with Ok _ => True | Err e => commit_error e end.

(** [wp C p b s Q]: from the committed database [b] and the transaction [s],
    whatever other sessions commit meanwhile, whatever fails, [p] commits at most
    once, only transitions in [C] that the others can rely on and whose deferred triggers
    pass, and returns with [Q]. *)
Fixpoint wp {A} (C : Db -> Db -> Prop) (p : prog Db Lock Cx A) b s
    (Q : A -> sess Db Lock -> Db -> Prop) : Prop :=
  match p with
  | Ret a => forall b', rely (ss_locks s) b b' -> Q a s b'
  | Do st k => forall b', rely (ss_locks s) b b' ->
      (forall e, external e -> wp C (k (Err e)) b' (sess_abort s) Q)
      /\ (ss_live s = true -> forall cx, cx_ok cx (view b' s) (ss_locks s) ->
          forall r, out_reply (st cx (view b' s)) = Ok r ->
          wp C (k (Ok r)) b' (sess_write s (st cx (view b' s))) Q)
  | Clock k => forall t, clock_ok t -> wp C (k t) b s Q
  | Savepoint k =>
      (forall e, external e -> wp C (k (Err e)) b (sess_abort s) Q)
      /\ (ss_live s = true -> wp C (k (Ok tt)) b (sess_save s) Q)
  | RollbackTo k =>
      (forall e, external e -> wp C (k (Err e)) b (sess_abort s) Q) /\ wp C (k (Ok tt)) b (sess_restore s) Q
  | Commit k => forall b', rely (ss_locks s) b b' ->
      (forall e, commit_error e -> wp C (k (Err e)) b' (sess_end None) Q)
      /\ (ss_live s = true ->
          ss_done s = None
          /\ triggers_pass s (view b' s) = true /\ guar (ss_locks s) b' (view b' s)
          /\ C b' (view b' s)
          /\ forall r, commit_reply r -> wp C (k r) (view b' s) (sess_end (Some (b', view b' s))) Q)
  end.

(** A session's savepoint never holds more locks than the session. *)
Definition mark_ok s : Prop :=
  match ss_mark s with Some (_, l, _) => l ⊆ ss_locks s | None => True end.

Lemma mark_write {R} s (o : outcome Db Lock R) : mark_ok s -> mark_ok (sess_write s o).
Proof.
  unfold mark_ok, sess_write. cbn. destruct (ss_mark s) as [[[? ?] ?]|]; [|done].
  intros H x Hx. apply elem_of_app. left. by apply H.
Qed.

Lemma mark_restore s : mark_ok s -> mark_ok (sess_restore s) /\ ss_locks (sess_restore s) ⊆ ss_locks s.
Proof.
  unfold mark_ok, sess_restore. destruct (ss_mark s) as [[[? ?] ?]|] eqn:E; cbn; rewrite ?E; done.
Qed.

(** What others commit never invalidates a proof in progress. *)
Lemma wp_rely {A} C (p : prog Db Lock Cx A) b b' s Q :
  mark_ok s -> wp C p b s Q -> rely (ss_locks s) b b' -> wp C p b' s Q.
Proof.
  revert b b' s. induction p as [a|R st k IH|k IH|k IH|k IH|k IH]; cbn; intros b b' s Hm H Hr.
  - intros b'' Hr'. apply H. by eapply rely_trans.
  - intros b'' Hr'. apply H. by eapply rely_trans.
  - intros t Ht. by eapply IH; [| |exact Hr]; [|apply H].
  - destruct H as [He Ho]. split; [intros e He'|intros Hl]; (eapply IH; [| |exact Hr]); auto.
    unfold mark_ok; cbn. done.
  - destruct H as [He Ho]. pose proof (mark_restore s Hm) as [Hm' Hsub].
    split; [intros e He'; eapply IH; [| |exact Hr]; auto|].
    eapply IH; [done|exact Ho|]. by eapply rely_weaken.
  - intros b'' Hr'. apply H. by eapply rely_trans.
Qed.

Lemma wp_mono {A} (C C' : Db -> Db -> Prop) (p : prog Db Lock Cx A) b s
    (Q Q' : A -> sess Db Lock -> Db -> Prop) :
  (forall d d', C d d' -> C' d d') -> (forall a s b, Q a s b -> Q' a s b) ->
  wp C p b s Q -> wp C' p b s Q'.
Proof.
  intros HC HQ. revert b s. induction p as [a|R st k IH|k IH|k IH|k IH|k IH]; cbn; intros b s H.
  - auto.
  - intros b' Hr. destruct (H b' Hr) as [He Ho]. split; [by auto|]. intros Hl cx Hcx r Hrep.
    by apply IH, Ho.
  - auto.
  - destruct H as [He Ho]. split; auto.
  - destruct H as [He Ho]. split; auto.
  - intros b' Hr. destruct (H b' Hr) as [He Ho]. split; [by auto|].
    intros Hl. destruct (Ho Hl) as (? & ? & ? & ? & Hk). split_and!; auto.
Qed.

Lemma wp_bind {A B} C (p : prog Db Lock Cx A) (f : A -> prog Db Lock Cx B) b s Q :
  wp C p b s (fun a s' b' => wp C (f a) b' s' Q) -> wp C (bind p f) b s Q.
Proof.
  revert b s. induction p as [a|R st k IH|k IH|k IH|k IH|k IH]; cbn; intros b s H.
  - apply H, rely_refl.
  - intros b' Hr. destruct (H b' Hr) as [He Ho]. split; [by auto|]. intros Hl cx Hcx r Hrep.
    by apply IH, Ho.
  - auto.
  - destruct H as [He Ho]. split; auto.
  - destruct H as [He Ho]. split; auto.
  - intros b' Hr. destruct (H b' Hr) as [He Ho]. split; [by auto|].
    intros Hl. destruct (Ho Hl) as (? & ? & ? & ? & Hk). split_and!; auto.
Qed.
End logic.
