(* ===== verification/Rules.v ===== *)
(** * Proof rules for store programs

    Go's shape [if err != nil { return zero, w(err) }] as rules of the program
    logic of Session.v: an error leaves the method without a commit, so every
    statement leaves only its successful reply to consider. *)

From S2P Require Import Prelude Errors Session.

Section rules.
Context {Db Lock Cx : Type} `{D : Discipline Db Lock Cx}.
Implicit Types (b : Db) (s : sess Db Lock).

(** Nothing was committed. *)
Definition quiet (e : GoError) s : Prop := ss_done s = None.
(** Nothing was committed, or the commit's acknowledgement was lost. *)
Definition failed (e : GoError) s : Prop := ss_done s = None \/ Code e = "UNAVAILABLE".

Definition post {A} (E : GoError -> sess Db Lock -> Prop) (P : A -> sess Db Lock -> Db -> Prop)
    (r : res A) s b : Prop :=
  match r with Ok a => P a s b | Err e => E e s end.

(** Error postconditions a quiet exit meets. *)
Class Tolerant (E : GoError -> sess Db Lock -> Prop) : Prop := tolerant e s : ss_done s = None -> E e s.
#[global] Instance quiet_tolerant : Tolerant quiet.
Proof. by intros e s. Qed.
#[global] Instance failed_tolerant : Tolerant failed.
Proof. intros e s. by left. Qed.

Context (C : Db -> Db -> Prop).
Context {A B : Type} (E : GoError -> sess Db Lock -> Prop) `{!Tolerant E}.
Context (P : B -> sess Db Lock -> Db -> Prop).
Implicit Types (k : A -> prog Db Lock Cx (res B)).

Lemma wp_exit b s e : ss_done s = None -> wp C (Ret (Err e)) b s (post E P).
Proof using Tolerant0. intros Hd b' _. by apply Tolerant0. Qed.

Lemma wp_seq (p : prog Db Lock Cx (res A)) k b s :
  wp C p b s (post quiet (fun a s' b' => wp C (k a) b' s' (post E P))) ->
  wp C (andThen p k) b s (post E P).
Proof using All.
  intros H. apply wp_bind. eapply wp_mono; [done| |exact H].
  intros [a|e] s' b' Hr; [done|]. by apply wp_exit.
Qed.

Lemma wp_assoc {X Y Z} (p : prog Db Lock Cx X) (f : X -> prog Db Lock Cx Y)
    (g : Y -> prog Db Lock Cx Z) b s Q :
  wp C (bind p (fun a => bind (f a) g)) b s Q -> wp C (bind (bind p f) g) b s Q.
Proof using Type.
  revert b s. induction p as [a|R st h IH|h IH|h IH|h IH|h IH]; cbn; intros b s H; auto.
  - intros b' Hr. destruct (H b' Hr) as [He Ho]. split; auto.
  - destruct H. split; auto.
  - destruct H. split; auto.
  - intros b' Hr. destruct (H b' Hr) as [He Ho]. split; [auto|].
    intros Hl. destruct (Ho Hl) as (? & ? & ? & ? & Hk). split_and!; auto.
Qed.

Lemma wp_seq_map (w : GoError -> GoError) (p : prog Db Lock Cx (res A)) k b s :
  wp C p b s (post quiet (fun a s' b' => wp C (k a) b' s' (post E P))) ->
  wp C (andThen (map_err w p) k) b s (post E P).
Proof using All.
  intros H. apply wp_assoc, wp_bind. eapply wp_mono; [done| |exact H].
  intros [a|e] s' b' Hr; [done|]. by apply wp_exit.
Qed.

Lemma wp_seq_assoc {X} (p : prog Db Lock Cx (res X)) (f : X -> prog Db Lock Cx (res A)) k b s :
  wp C (andThen p (fun a => andThen (f a) k)) b s (post E P) ->
  wp C (andThen (andThen p f) k) b s (post E P).
Proof using Type.
  intros H. apply wp_assoc. unfold andThen in H. revert H. clear Tolerant0.
  revert b s. induction p as [a|R st h IH|h IH|h IH|h IH|h IH]; cbn; intros b s H; auto.
  - destruct a; done.
  - intros b' Hr. destruct (H b' Hr) as [He Ho]. split; auto.
  - destruct H. split; auto.
  - destruct H. split; auto.
  - intros b' Hr. destruct (H b' Hr) as [He Ho]. split; [auto|].
    intros Hl. destruct (Ho Hl) as (? & ? & ? & ? & Hk). split_and!; auto.
Qed.

Lemma wp_exec (st : stmt Db Lock Cx A) k b s :
  ss_done s = None -> ss_live s = true ->
  (forall b' cx r, rely (ss_locks s) b b' -> cx_ok cx (view b' s) (ss_locks s) ->
     out_reply (st cx (view b' s)) = Ok r ->
     wp C (k r) b' (sess_write s (st cx (view b' s))) (post E P)) ->
  wp C (andThen (exec st) k) b s (post E P).
Proof using All.
  intros Hd Hl H b' Hr. split.
  - intros e _ b'' _. by apply Tolerant0.
  - intros _ cx Hcx r Hrep. cbn. by apply H.
Qed.

Lemma wp_exec_map (w : GoError -> GoError) (st : stmt Db Lock Cx A) k b s :
  ss_done s = None -> ss_live s = true ->
  (forall b' cx r, rely (ss_locks s) b b' -> cx_ok cx (view b' s) (ss_locks s) ->
     out_reply (st cx (view b' s)) = Ok r ->
     wp C (k r) b' (sess_write s (st cx (view b' s))) (post E P)) ->
  wp C (andThen (map_err w (exec st)) k) b s (post E P).
Proof using All.
  intros Hd Hl H b' Hr. split.
  - intros e _ b'' _. by apply Tolerant0.
  - intros _ cx Hcx r Hrep. cbn. by apply H.
Qed.

Lemma wp_lift (r : res A) k b s :
  ss_done s = None -> (forall a, r = Ok a -> wp C (k a) b s (post E P)) ->
  wp C (andThen (lift r) k) b s (post E P).
Proof using All. intros Hd H. destruct r as [a|e]; cbn; [by apply H|]. intros b' _. by apply Tolerant0. Qed.

Lemma wp_ret (a : B) b s :
  (forall b', rely (ss_locks s) b b' -> P a s b') -> wp C (ret a) b s (post E P).
Proof using Type. auto. Qed.

Lemma wp_fail e b s : ss_done s = None -> wp C (fail e) b s (post E P).
Proof using Tolerant0. intros Hd. by apply wp_exit. Qed.
End rules.

Section more_rules.
Context {Db Lock Cx : Type} `{D : Discipline Db Lock Cx}.
Context (C : Db -> Db -> Prop).
Context {B : Type} (E : GoError -> sess Db Lock -> Prop) `{!Tolerant E}.
Context (P : B -> sess Db Lock -> Db -> Prop).

Lemma wp_now (k : Z -> prog Db Lock Cx (res B)) b s :
  (forall t, clock_ok t -> wp C (k t) b s (post E P)) -> wp C (andThen now k) b s (post E P).
Proof using Type. auto. Qed.

(** The commit at the end of a method. *)
Lemma wp_commit (a : B) b s :
  ss_done s = None -> ss_live s = true ->
  (forall b', rely (ss_locks s) b b' ->
     triggers_pass s (view b' s) = true /\ guar (ss_locks s) b' (view b' s)
     /\ C b' (view b' s)
     /\ forall b'', rely [] (view b' s) b'' -> P a (sess_end (Some (b', view b' s))) b'') ->
  wp C (andThen (map_err dbError commit) (fun _ => ret a)) b s (post failed P).
Proof using Type.
  intros Hd Hl H b' Hr. split.
  - intros e He b'' _. by left.
  - intros _. destruct (H b' Hr) as (Ht & Hg & HC & HP). split_and!; [done..|].
    intros [u|e] He; cbn.
    + intros b'' Hb. by apply HP.
    + intros b'' _. right. by apply commit_error_code.
Qed.
End more_rules.

(** A triple under a weaker postcondition. *)
Lemma wp_post {Db Lock Cx} `{D : Discipline Db Lock Cx} {A} C (p : prog Db Lock Cx A) b s
    (Q Q' : A -> sess Db Lock -> Db -> Prop) :
  wp C p b s Q -> (forall a s' b', Q a s' b' -> Q' a s' b') -> wp C p b s Q'.
Proof. intros H HQ. by eapply wp_mono; [done|exact HQ|]. Qed.

(** The node a program starts with, whatever the combinators around it. *)
Lemma wp_do {Db Lock Cx} `{D : Discipline Db Lock Cx} {A R} C (st : stmt Db Lock Cx R)
    (k : res R -> prog Db Lock Cx A) b s Q :
  ss_live s = true ->
  (forall b' e, external e -> wp C (k (Err e)) b' (sess_abort s) Q) ->
  (forall b' cx r, rely (ss_locks s) b b' -> cx_ok cx (view b' s) (ss_locks s) ->
     out_reply (st cx (view b' s)) = Ok r ->
     wp C (k (Ok r)) b' (sess_write s (st cx (view b' s))) Q) ->
  wp C (Do st k) b s Q.
Proof. intros Hl He Ho b' Hr. split; [by auto|]. intros _ cx Hcx r Hrep. by apply Ho. Qed.

(** A program followed by a function of its reply. *)
Lemma wp_bind_ret {Db Lock Cx} `{D : Discipline Db Lock Cx} {A B} C (p : prog Db Lock Cx A)
    (f : A -> prog Db Lock Cx B) (g : A -> B) b s (Q : B -> sess Db Lock -> Db -> Prop) :
  (forall a, f a = Ret (g a)) -> wp C p b s (fun a => Q (g a)) -> wp C (bind p f) b s Q.
Proof.
  intros Hf. revert b s. induction p as [a|R st k IH|k IH|k IH|k IH|k IH]; cbn; intros b s H; auto.
  - by rewrite Hf.
  - intros b' Hr. destruct (H b' Hr) as [He Ho]. split; auto.
  - destruct H. split; auto.
  - destruct H. split; auto.
  - intros b' Hr. destruct (H b' Hr) as [He Ho]. split; [auto|].
    intros Hl. destruct (Ho Hl) as (? & ? & ? & ? & Hk). split_and!; auto.
Qed.

(** [return w(err)] in tail position. *)
Lemma wp_map_tail {Db Lock Cx} `{D : Discipline Db Lock Cx} {A} C (w : GoError -> GoError)
    (p : prog Db Lock Cx (res A)) b s (P : A -> sess Db Lock -> Db -> Prop) :
  wp C p b s (post quiet P) -> wp C (map_err w p) b s (post quiet P).
Proof.
  intros H. apply (wp_bind_ret _ _ _ (fun r => match r with Ok a => Ok a | Err e => Err (w e) end));
    [by intros []|]. eapply wp_post; [exact H|]. by intros [].
Qed.

(** [quit]: the method returns an error and nothing was committed. *)
Ltac quit :=
  intros; cbn;
  repeat match goal with H : external ?e |- context [is_no_rows ?e] =>
    rewrite (proj2 (proj2 H)) end;
  cbn; intros; first [done | by left | by apply tolerant].

