(* ===== verification/Framing.v ===== *)
(** * Frames: what a program without transaction control leaves alone

    A program that neither commits nor touches savepoints keeps the session's
    savepoint, so that [ROLLBACK TO] afterwards returns to it. *)

From S2P Require Import Prelude Errors Session Rules.

Section framing.
Context {Db Lock Cx : Type} `{D : Discipline Db Lock Cx}.
Implicit Types (b : Db) (s : sess Db Lock).

(** Statements and clock readings only. *)
Fixpoint plain {A} (p : prog Db Lock Cx A) : Prop :=
  match p with
  | Ret _ => True
  | Do _ k => forall r, plain (k r)
  | Clock k => forall t, plain (k t)
  | Savepoint _ | RollbackTo _ | Commit _ => False
  end.

(** The savepoint and the locks of before are still there. *)
Definition framed (s : sess Db Lock) b (s' : sess Db Lock) b' : Prop :=
  ss_mark s' = ss_mark s /\ ss_done s' = ss_done s /\ ss_locks s ⊆ ss_locks s'
  /\ rely (ss_locks s) b b'.

Lemma framed_step s b s1 b1 s2 b2 :
  ss_mark s1 = ss_mark s -> ss_done s1 = ss_done s -> ss_locks s ⊆ ss_locks s1 ->
  rely (ss_locks s) b b1 -> framed s1 b1 s2 b2 -> framed s b s2 b2.
Proof.
  intros Hm Hd Hl Hr (Hm' & Hd' & Hl' & Hr'). split_and!; [congruence|congruence|by etrans|].
  eapply rely_trans; [exact Hr|]. by eapply rely_weaken.
Qed.

Lemma wp_frame {A} C (p : prog Db Lock Cx A) b s (Q : A -> sess Db Lock -> Db -> Prop) :
  plain p -> wp C p b s Q -> wp C p b s (fun a s' b' => Q a s' b' /\ framed s b s' b').
Proof.
  revert b s. induction p as [a|R st k IH|k IH|k IH|k IH|k IH]; cbn; intros b s Hp H; try done.
  - intros b' Hr. split; [by apply H|]. by split_and!.
  - intros b' Hr. destruct (H b' Hr) as [He Ho]. split.
    + intros e Hex. eapply wp_post; [apply IH; [done|by apply He]|].
      intros a s' b'' [HQ Hf]. split; [done|]. eapply framed_step; [..|exact Hf]; done.
    + intros Hl cx Hcx r Hrep. eapply wp_post; [apply IH; [done|by apply Ho]|].
      intros a s' b'' [HQ Hf]. split; [done|]. eapply framed_step; [..|exact Hf]; [done|done| |done].
      intros x Hx. cbn. apply elem_of_app. by left.
  - intros t Ht. by apply IH, H.
Qed.

(** ** Plain programs *)

Lemma plain_bind {A B} (p : prog Db Lock Cx A) (f : A -> prog Db Lock Cx B) :
  plain p -> (forall a, plain (f a)) -> plain (bind p f).
Proof. induction p; cbn; intros Hp Hf; auto. Qed.

Lemma plain_andThen {A B} (p : prog Db Lock Cx (res A)) (f : A -> prog Db Lock Cx (res B)) :
  plain p -> (forall a, plain (f a)) -> plain (andThen p f).
Proof. intros Hp Hf. apply plain_bind; [done|]. intros [a|e]; [apply Hf|done]. Qed.

Lemma plain_map_err {A} w (p : prog Db Lock Cx (res A)) : plain p -> plain (map_err w p).
Proof. intros Hp. apply plain_bind; [done|]. by intros []. Qed.

Lemma plain_exec {R} (st : stmt Db Lock Cx R) : plain (exec st).
Proof. by intros r. Qed.

Lemma plain_lift {A} (r : res A) : plain (lift r : prog Db Lock Cx (res A)).
Proof. done. Qed.

Lemma plain_now : plain (now : prog Db Lock Cx (res Z)).
Proof. by intros t. Qed.
End framing.

(** [plain_tac]: by the shape of the program. *)
Ltac plain_tac :=
  repeat first
    [ done
    | apply plain_now
    | apply plain_exec
    | apply plain_lift
    | apply plain_map_err
    | apply plain_andThen; [|intros ?]
    | apply plain_bind; [|intros ?]
    | match goal with |- plain (match ?x with _ => _ end) => destruct x end
    | match goal with |- plain (let '_ := ?x in _) => destruct x end ].

(** ** Returning to a savepoint *)

Section savepoint.
Context {Db Lock Cx : Type} `{D : Discipline Db Lock Cx}.
Implicit Types (b : Db) (s : sess Db Lock).

(** What [ROLLBACK TO] finds is the session as it was saved. *)
Lemma restore_saved s s' b b' :
  ss_live s = true -> framed (sess_save s) b s' b' -> sess_restore s' = sess_save s.
Proof.
  intros Hl (Hm & Hd & _ & _). unfold sess_restore. rewrite Hm. cbn. rewrite Hd. cbn. by rewrite <- Hl.
Qed.
End savepoint.
