(* ===== verification/Machine.v ===== *)
(** * Interleaved sessions

    Any number of sessions run the store's methods over one committed database.
    [machine_sound]: what [wp] proves of each method alone holds in every state
    the interleaving can reach. *)

From S2P Require Import Prelude Errors Session.

Section machine.
Context {Db Lock Cx Op Reply : Type} `{D : Discipline Db Lock Cx}.
Implicit Types (d : Db) (s : sess Db Lock) (p : prog Db Lock Cx Reply).

(** One node of a program: [others] are the locks of the other sessions. *)
Inductive moves (others : list Lock) (d : Db) :
    prog Db Lock Cx Reply -> sess Db Lock -> Db -> prog Db Lock Cx Reply -> sess Db Lock -> Prop :=
| mv_exec R (st : stmt Db Lock Cx R) k s cx r :
    ss_live s = true -> cx_ok cx (view d s) (ss_locks s) ->
    out_reply (st cx (view d s)) = Ok r ->
    apart (out_locks (st cx (view d s))) others ->
    moves others d (Do st k) s d (k (Ok r)) (sess_write s (st cx (view d s)))
| mv_error R (st : stmt Db Lock Cx R) k s e :
    external e -> moves others d (Do st k) s d (k (Err e)) (sess_abort s)
| mv_clock k s t : clock_ok t -> moves others d (Clock k) s d (k t) s
| mv_savepoint k s :
    ss_live s = true -> moves others d (Savepoint k) s d (k (Ok tt)) (sess_save s)
| mv_savepoint_error k s e :
    external e -> moves others d (Savepoint k) s d (k (Err e)) (sess_abort s)
| mv_rollback k s : moves others d (RollbackTo k) s d (k (Ok tt)) (sess_restore s)
| mv_rollback_error k s e :
    external e -> moves others d (RollbackTo k) s d (k (Err e)) (sess_abort s)
| mv_commit k s r :
    (* the acknowledgement [r] may be lost *)
    ss_live s = true -> triggers_pass s (view d s) = true -> commit_reply r ->
    moves others d (Commit k) s (view d s) (k r) (sess_end (Some (d, view d s)))
| mv_commit_refused k s e :
    commit_error e -> moves others d (Commit k) s d (k (Err e)) (sess_end None).

Record machine : Type := mkMachine {
  m_db : Db;
  m_sessions : list (nat * (Op * prog Db Lock Cx Reply * sess Db Lock));
  m_log : list (Op * Reply * option (Db * Db));   (* finished calls *)
  m_commits : list (Op * Db * Db)                 (* commits, newest first *)
}.

Definition held (l : list (nat * (Op * prog Db Lock Cx Reply * sess Db Lock))) : list Lock :=
  l ≫= fun x => ss_locks (snd (snd x)).

Definition commit_of (o : Op) s s' : list (Op * Db * Db) :=
  match ss_done s, ss_done s' with
  | None, Some (b, v) => [(o, b, v)]
  | _, _ => []
  end.

Context (code : Op -> prog Db Lock Cx Reply).

Inductive step : machine -> machine -> Prop :=
| st_start d ss lg cm i o :
    step (mkMachine d ss lg cm) (mkMachine d ((i, (o, code o, fresh_sess)) :: ss) lg cm)
| st_move d ss1 ss2 lg cm i o p s d' p' s' :
    moves (held (ss1 ++ ss2)) d p s d' p' s' ->
    step (mkMachine d (ss1 ++ (i, (o, p, s)) :: ss2) lg cm)
         (mkMachine d' (ss1 ++ (i, (o, p', s')) :: ss2) lg (commit_of o s s' ++ cm))
| st_finish d ss1 ss2 lg cm i o a s :
    (* the deferred Rollback releases the locks *)
    step (mkMachine d (ss1 ++ (i, (o, Ret a, s)) :: ss2) lg cm)
         (mkMachine d (ss1 ++ ss2) ((o, a, ss_done s) :: lg) cm)
| st_crash d ss1 ss2 lg cm x :
    step (mkMachine d (ss1 ++ x :: ss2) lg cm) (mkMachine d (ss1 ++ ss2) lg cm).

Inductive reachable (d0 : Db) : machine -> Prop :=
| reach_init : reachable d0 (mkMachine d0 [] [] [])
| reach_step m m' : reachable d0 m -> step m m' -> reachable d0 m'.
End machine.

Arguments machine : clear implicits.

Section soundness.
Context {Db Lock Cx Op Reply : Type} `{D : Discipline Db Lock Cx}.
Context (code : Op -> prog Db Lock Cx Reply).
Context (spec : Op -> Db -> Db -> Prop).
Context (post : Op -> Reply -> option (Db * Db) -> Db -> Prop).
Implicit Types (d : Db) (s : sess Db Lock) (p : prog Db Lock Cx Reply).

Notation triple o p d s := (wp (spec o) p d s (fun a s' d' => post o a (ss_done s') d')).

Definition session_ok d (x : nat * (Op * prog Db Lock Cx Reply * sess Db Lock)) : Prop :=
  let '(_, (o, p, s)) := x in triple o p d s /\ mark_ok s.

(** Locks of different sessions exclude each other. *)
Fixpoint exclusive (l : list (nat * (Op * prog Db Lock Cx Reply * sess Db Lock))) : Prop :=
  match l with
  | [] => True
  | x :: l => apart (ss_locks (snd (snd x))) (held l) /\ exclusive l
  end.

(** The commits lead from [d0] to [d], each from where the one before it led. *)
Fixpoint history (d0 : Db) (cm : list (Op * Db * Db)) (d : Db) : Prop :=
  match cm with
  | [] => d = d0
  | (_, b, v) :: cm => d = v /\ history d0 cm b
  end.

Record sound (d0 : Db) (m : machine Db Lock Cx Op Reply) : Prop := {
  snd_inv : inv (m_db m);
  snd_sessions : Forall (session_ok (m_db m)) (m_sessions m);
  snd_exclusive : exclusive (m_sessions m);
  snd_log : forall o a c, (o, a, c) ∈ m_log m -> post o a c (m_db m);
  snd_commits : forall o b v, (o, b, v) ∈ m_commits m -> spec o b v;
  snd_done : forall i o p s b v, (i, (o, p, s)) ∈ m_sessions m -> ss_done s = Some (b, v) ->
    (o, b, v) ∈ m_commits m;
  snd_logged : forall o a b v, (o, a, Some (b, v)) ∈ m_log m -> (o, b, v) ∈ m_commits m;
  snd_steps : forall o b v, (o, b, v) ∈ m_commits m -> inv b /\ rely [] b v;
  snd_history : history d0 (m_commits m) (m_db m)
}.

(** What the moving session does to the rest of the machine. *)
Lemma moves_ok others d o p s d' p' s' :
  inv d -> mark_ok s -> triple o p d s ->
  moves others d p s d' p' s' ->
  triple o p' d' s' /\ mark_ok s'
  /\ (apart (ss_locks s) others -> apart (ss_locks s') others)
  /\ ((d' = d /\ commit_of o s s' = [])
     \/ (guar (ss_locks s) d d' /\ spec o d d' /\ commit_of o s s' = [(o, d, d')]))
  /\ (forall b v, ss_done s' = Some (b, v) -> ss_done s = Some (b, v) \/ (o, b, v) ∈ commit_of o s s').
Proof.
  intros Hi Hm Hwp Hmv.
  assert (Hnone : forall s', ss_done s' = ss_done s -> commit_of o s s' = []).
  { intros t Ht. unfold commit_of. rewrite Ht. by destruct (ss_done s). }
  destruct Hmv as [R st k s cx r Hl Hcx Hr Hap|R st k s e Hex|k s t Ht|k s Hl|k s e Hex|k s|k s e Hex
    |k s r Hl Ht Hr|k s e Hex]; cbn in Hwp.
  - destruct (Hwp d (rely_refl _ _)) as [_ Ho]. split_and!; [by apply Ho|by apply mark_write| |by left; auto|by left].
    intros Hs x Hx. cbn in Hx. apply elem_of_app in Hx as [?|?]; [by apply Hs|by apply Hap].
  - destruct (Hwp d (rely_refl _ _)) as [He _]. split_and!; auto.
  - split_and!; auto.
  - destruct Hwp as [_ Ho]. split_and!; auto. by intros x Hx.
  - destruct Hwp as [He _]. split_and!; auto.
  - destruct Hwp as [_ Ho]. destruct (mark_restore s Hm) as [? Hsub].
    assert (Hdone : ss_done (sess_restore s) = ss_done s)
      by (unfold sess_restore; by destruct (ss_mark s) as [[[? ?] ?]|]).
    split_and!; auto; [|by rewrite Hdone; left]. intros Hs x Hx. by apply Hs, Hsub.
  - destruct Hwp as [He _]. split_and!; auto.
  - destruct (Hwp d (rely_refl _ _)) as [_ Ho]. destruct (Ho Hl) as (Hd & _ & Hg & HC & Hk).
    split_and!; [by apply Hk|done|by intros _ x Hx; apply elem_of_nil in Hx| |].
    + right. unfold commit_of. by rewrite Hd.
    + intros b v [= <- <-]. right. unfold commit_of. rewrite Hd. apply list_elem_of_here.
  - destruct (Hwp d (rely_refl _ _)) as [He _].
    split_and!; [by apply He|done|by intros _ x Hx; apply elem_of_nil in Hx| |done].
    left. split; [done|]. unfold commit_of. by destruct (ss_done s).
Qed.

Implicit Types (l : list (nat * (Op * prog Db Lock Cx Reply * sess Db Lock))).

Lemma held_app l1 l2 : held (l1 ++ l2) = held l1 ++ held l2.
Proof. unfold held. by rewrite bind_app. Qed.

Lemma held_elem x y l :
  y ∈ l -> x ∈ ss_locks (snd (snd y)) -> x ∈ held l.
Proof. intros Hy Hx. unfold held. apply list_elem_of_bind. eauto. Qed.

(** The sessions around one session exclude it and each other. *)
Lemma exclusive_middle l1 y l2 :
  exclusive (l1 ++ y :: l2) <->
  exclusive (l1 ++ l2) /\ apart (ss_locks (snd (snd y))) (held (l1 ++ l2)).
Proof.
  induction l1 as [|x l1 IH]; cbn; [naive_solver|].
  rewrite IH. unfold held in *; cbn. rewrite !bind_app; cbn. unfold apart. set_solver.
Qed.

Lemma session_rely d d' x :
  session_ok d x -> rely (ss_locks (snd (snd x))) d d' -> session_ok d' x.
Proof.
  destruct x as [i [[o p] s]]. intros [Hw Hm] Hr. split; [|done]. by eapply wp_rely.
Qed.

Context (d0 : Db).
Context (post_stable : forall o a c d d', post o a c d -> rely [] d d' -> post o a c d').
Context (code_ok : forall o d, inv d ->
  wp (spec o) (code o) d fresh_sess (fun a s d' => post o a (ss_done s) d')).

Lemma start_sound d ss lg cm i o :
  sound d0 (mkMachine d ss lg cm) -> sound d0 (mkMachine d ((i, (o, code o, fresh_sess)) :: ss) lg cm).
Proof using All.
  intros [Hi Hs Hx Hl Hc Hdn Hlg Hst Hh]. constructor; cbn; auto.
  - constructor; [|done]. split; [by apply code_ok|done].
  - split; [|done]. intros x Hx'. cbn in Hx'. by apply elem_of_nil in Hx'.
  - intros i' o' p s b v Hin. apply elem_of_cons in Hin as [[= -> -> -> ->]|Hin]; [done|by eapply Hdn].
Qed.

(** A session ends: its reply is logged, or it crashed. *)
Lemma stop_sound d ss1 ss2 x lg lg' cm :
  sound d0 (mkMachine d (ss1 ++ x :: ss2) lg cm) ->
  (forall o a c, (o, a, c) ∈ lg' -> (o, a, c) ∈ lg
     \/ post o a c d /\ forall b v, c = Some (b, v) -> (o, b, v) ∈ cm) ->
  sound d0 (mkMachine d (ss1 ++ ss2) lg' cm).
Proof using All.
  intros [Hi Hs Hx Hl Hc Hdn Hlg Hst Hh] Hlog. cbn in *.
  apply exclusive_middle in Hx as [Hx Hap]. apply Forall_app in Hs as [Hs1 Hs2].
  apply Forall_cons in Hs2 as [_ Hs2]. constructor; cbn; auto.
  - by apply Forall_app.
  - intros o a c Hin. destruct (Hlog o a c Hin) as [?|[? _]]; [by apply Hl|done].
  - intros i' o' p0 s0 b v Hin. apply (Hdn i' o' p0). rewrite elem_of_app, elem_of_cons in *. naive_solver.
  - intros o a b v Hin. destruct (Hlog o a _ Hin) as [?|[_ Hd]]; [by eapply Hlg|by apply Hd].
Qed.

(** What a move adds to the commits. *)
Lemma commit_added o s s' d d' cm o' b v :
  ((d' = d /\ commit_of o s s' = [])
   \/ (guar (ss_locks s) d d' /\ spec o d d' /\ commit_of o s s' = [(o, d, d')])) ->
  (o', b, v) ∈ commit_of o s s' ++ cm ->
  (o', b, v) ∈ cm \/ (o' = o /\ b = d /\ v = d' /\ spec o d d').
Proof using Type.
  intros Hd Hin. rewrite elem_of_app in Hin. destruct Hin as [Hin|Hin]; [right|by left].
  destruct Hd as [[_ Hcm]|(_ & Hsp & Hcm)]; rewrite Hcm in Hin; [by apply elem_of_nil in Hin|].
  apply list_elem_of_singleton in Hin. by injection Hin as -> -> ->.
Qed.

Lemma move_sound d ss1 ss2 lg cm i o p s d' p' s' :
  sound d0 (mkMachine d (ss1 ++ (i, (o, p, s)) :: ss2) lg cm) ->
  moves (held (ss1 ++ ss2)) d p s d' p' s' ->
  sound d0 (mkMachine d' (ss1 ++ (i, (o, p', s')) :: ss2) lg (commit_of o s s' ++ cm)).
Proof using All.
  intros [Hi Hs Hx Hl Hc Hdn Hlg Hst Hh] Hmv. cbn in *.
  apply exclusive_middle in Hx as [Hx Hap]. cbn in Hap.
  apply Forall_app in Hs as [Hs1 Hs2]. apply Forall_cons in Hs2 as [[Hw Hm] Hs2].
  destruct (moves_ok _ _ _ _ _ _ _ _ Hi Hm Hw Hmv) as (Hw' & Hm' & Hap' & Hd & Hdn').
  assert (Hrely : forall L, apart (ss_locks s) L -> rely L d d').
  { destruct Hd as [[-> _]|[Hg _]]; [intros; apply rely_refl|done]. }
  assert (Hnil : rely [] d d') by (apply Hrely; intros y _ Hy; by apply elem_of_nil in Hy).
  assert (Hothers : forall x, x ∈ ss1 ++ ss2 -> session_ok d x -> session_ok d' x).
  { intros x Hx' Hok. eapply session_rely; [done|]. apply Hrely. intros y Hy Hy'.
    apply (Hap y Hy). by eapply held_elem. }
  constructor; cbn.
  - by eapply rely_inv.
  - rewrite Forall_forall in *. intros x Hx'. rewrite elem_of_app, elem_of_cons in Hx'.
    destruct Hx' as [Hx'|[->|Hx']]; [| done|];
      (apply Hothers; [rewrite elem_of_app; auto|auto]).
  - apply exclusive_middle. split; [done|]. cbn. by apply Hap'.
  - intros o' a c Hin. by eapply post_stable; [apply Hl|].
  - intros o' b v Hin. by destruct (commit_added _ _ _ _ _ _ _ _ _ Hd Hin) as [?|(-> & -> & -> & ?)]; [apply Hc|].
  - intros i' o' p0 s0 b v Hin Hdone. rewrite elem_of_app, elem_of_cons in Hin. apply elem_of_app.
    destruct Hin as [Hin|[E|Hin]].
    + right. eapply (Hdn i' o' p0); [|exact Hdone]. apply elem_of_app. by left.
    + injection E as -> -> -> ->. destruct (Hdn' _ _ Hdone) as [Hs'|Hs']; [right|by left].
      eapply (Hdn i o p); [|exact Hs']. rewrite elem_of_app, elem_of_cons. by right; left.
    + right. eapply (Hdn i' o' p0); [|exact Hdone]. rewrite elem_of_app, elem_of_cons. by right; right.
  - intros o' a b v Hin. apply elem_of_app. right. by eapply Hlg.
  - intros o' b v Hin. destruct (commit_added _ _ _ _ _ _ _ _ _ Hd Hin) as [?|(-> & -> & -> & ?)]; [by eapply Hst|done].
  - destruct Hd as [[-> ->]|(_ & _ & ->)]; done.
Qed.

Lemma step_sound m m' : sound d0 m -> step code m m' -> sound d0 m'.
Proof using All.
  intros Hs Hst. destruct Hst.
  - by apply start_sound.
  - by eapply move_sound.
  - eapply stop_sound; [exact Hs|]. intros o' a' c Hin. apply elem_of_cons in Hin as [[= -> -> ->]|Hin]; [right|by left].
    destruct Hs as [_ Hs _ _ _ Hdn _ _ _]. apply Forall_app in Hs as [_ Hs]. apply Forall_cons in Hs as [[Hw _] _].
    split; [apply Hw, rely_refl|]. intros b v Hd. eapply (Hdn i o (Ret a)); [|exact Hd].
    cbn; rewrite elem_of_app, elem_of_cons. by right; left.
  - eapply stop_sound; [exact Hs|]. by left.
Qed.

Lemma machine_sound m : inv d0 -> reachable code d0 m -> sound d0 m.
Proof using All.
  intros Hi. induction 1 as [|m m' _ IH Hst]; [|by eapply step_sound].
  constructor; cbn; auto; set_solver.
Qed.

End soundness.

Section chronology.
Context {Db Lock Cx Op Reply : Type} `{D : Discipline Db Lock Cx}.
Context (spec : Op -> Db -> Db -> Prop).
Context (post : Op -> Reply -> option (Db * Db) -> Db -> Prop).
Implicit Types (d : Db) (cm : list (Op * Db * Db)) (m : machine Db Lock Cx Op Reply).
Context (d0 : Db).

(** Along a sound history, what was committed first leads to what came later. *)
Lemma history_rely cm d :
  (forall o b v, (o, b, v) ∈ cm -> rely [] b v) -> history d0 cm d -> rely [] d0 d.
Proof.
  revert d. induction cm as [|[[o b] v] cm IH]; cbn; intros d Hs H; [subst; apply rely_refl|].
  destruct H as [-> H]. eapply rely_trans; [apply (IH b)|apply (Hs o)]; [|done|apply list_elem_of_here].
  intros o' b' v' Hin. apply (Hs o'). by right.
Qed.

Lemma history_after cm d o b v k1 k2 :
  (forall o b v, (o, b, v) ∈ cm -> rely [] b v) -> history d0 cm d -> cm = k1 ++ (o, b, v) :: k2 ->
  rely [] v d /\ history d0 k2 b.
Proof.
  revert d k1. induction cm as [|[[o' b'] v'] cm IH]; intros d k1 Hs H E; [by destruct k1|].
  destruct H as [-> H]. destruct k1 as [|x k1]; cbn in E.
  - injection E as -> -> -> <-. split; [apply rely_refl|done].
  - injection E as _ E2. destruct (IH b' k1) as [H1 H2]; [|done|done|].
    + intros o2 b2 v2 Hin. apply (Hs o2). by right.
    + split; [|done]. eapply rely_trans; [exact H1|]. apply (Hs o'). apply list_elem_of_here.
Qed.

(** Of two commits, one came first. *)
Lemma history_order m o1 b1 v1 o2 b2 v2 :
  sound spec post d0 m -> (o1, b1, v1) ∈ m_commits m -> (o2, b2, v2) ∈ m_commits m ->
  (o1, b1, v1) = (o2, b2, v2) \/ rely [] v1 b2 \/ rely [] v2 b1.
Proof.
  intros [_ _ _ _ _ _ _ Hst Hh] H1 H2. apply list_elem_of_split in H1 as (k1 & k2 & E).
  assert (Hs : forall o b v, (o, b, v) ∈ m_commits m -> rely [] b v) by (intros o b v Hin; by apply (Hst o)).
  pose proof (history_after _ _ _ _ _ _ _ Hs Hh E) as [_ Hh2].
  rewrite E in H2. rewrite elem_of_app, elem_of_cons in H2. destruct H2 as [H2|[H2|H2]].
  - right. left. apply list_elem_of_split in H2 as (k3 & k4 & E').
    assert (E2 : m_commits m = k3 ++ (o2, b2, v2) :: (k4 ++ (o1, b1, v1) :: k2)) by (rewrite E, E'; by rewrite <- app_assoc).
    pose proof (history_after _ _ _ _ _ _ _ Hs Hh E2) as [_ Hh'].
    eapply history_after; [|exact Hh'|reflexivity]. intros o b v Hin. apply (Hs o). rewrite E2, elem_of_app, elem_of_cons. auto.
  - by left.
  - right. right. apply list_elem_of_split in H2 as (k3 & k4 & E').
    eapply history_after; [|exact Hh2|exact E']. intros o b v Hin. apply (Hs o). rewrite E, elem_of_app, elem_of_cons. auto.
Qed.
End chronology.

(** ** Executions are interleavings

    A program [run] executes without rivals is a session of the machine, so a
    state computed by [run] is a reachable one. *)

Section driving.
Context {Db Lock Cx Op Reply : Type} `{D : Discipline Db Lock Cx}.
Context (code : Op -> prog Db Lock Cx Reply).
Context (e : env Db Cx) (cxb : nat -> Db -> list Lock -> bool) (clockb : Z -> bool).

Definition externalb (err : GoError) : bool :=
  match as_app err, as_domain err with None, None => negb (is_no_rows err) | _, _ => false end.

(** Every node meets what the machine asks of it. *)
Fixpoint legal (p : prog Db Lock Cx Reply) (n : nat) (d : Db) (s : sess Db Lock) : bool :=
  match p with
  | Ret _ => true
  | Clock k => clockb (env_clock e n) && legal (k (env_clock e n)) (S n) d s
  | Do st k =>
      match env_fault e n with
      | NoFault =>
          if ss_live s then
            let o := st (env_cx e n) (view d s) in
            match out_reply o with
            | Ok r => cxb n (view d s) (ss_locks s) && legal (k (Ok r)) (S n) d (sess_write s o)
            | Err err => externalb err && legal (k (Err err)) (S n) d (sess_abort s)
            end
          else legal (k (Err aborted)) (S n) d (sess_abort s)
      | _ => legal (k (Err lost)) (S n) d (sess_abort s)
      end
  | Savepoint k =>
      match env_fault e n with
      | NoFault =>
          if ss_live s then legal (k (Ok tt)) (S n) d (sess_save s)
          else legal (k (Err aborted)) (S n) d (sess_abort s)
      | _ => legal (k (Err lost)) (S n) d (sess_abort s)
      end
  | RollbackTo k =>
      match env_fault e n with
      | NoFault => legal (k (Ok tt)) (S n) d (sess_restore s)
      | _ => legal (k (Err lost)) (S n) d (sess_abort s)
      end
  | Commit k =>
      match env_fault e n with
      | Refused => legal (k (Err lost)) (S n) d (sess_end None)
      | ack =>
          if ss_live s then
            if triggers_pass s (view d s) then
              legal (k (match ack with LostAck => Err lost | _ => Ok tt end)) (S n) (view d s)
                (sess_end (Some (d, view d s)))
            else legal (k (Err commit_refused)) (S n) d (sess_end None)
          else legal (k (Err aborted)) (S n) d (sess_end None)
      end
  end.

Context (cxb_ok : forall n d L, cxb n d L = true -> cx_ok (env_cx e n) d L).
Context (clockb_ok : forall t, clockb t = true -> clock_ok t).

Lemma externalb_ok err : externalb err = true -> external err.
Proof using.
  unfold externalb, external. destruct (as_app err), (as_domain err); try done. by rewrite negb_true_iff.
Qed.

Lemma abort_dead (s : sess Db Lock) : ss_live s = false -> sess_abort s = s.
Proof using. destruct s. cbn. by intros ->. Qed.

Lemma commit_errors : commit_error lost /\ commit_error aborted /\ commit_error commit_refused.
Proof using. by split_and!; (split; [done|]; intros c [=]). Qed.

(** The nodes of the only session, one after another. *)
Section alone.
Context (K : machine Db Lock Cx Op Reply -> Prop) (i : nat) (o : Op) (lg : list (Op * Reply * option (Db * Db))).
Context (K_move : forall d cm p s d' p' s', K (mkMachine d [(i, (o, p, s))] lg cm) ->
  moves [] d p s d' p' s' -> K (mkMachine d' [(i, (o, p', s'))] lg (commit_of o s s' ++ cm))).

Lemma lone_move d cm p s d' p' s' :
  K (mkMachine d [(i, (o, p, s))] lg cm) -> moves [] d p s d' p' s' ->
  exists cm', K (mkMachine d' [(i, (o, p', s'))] lg cm').
Proof using K_move. intros Hr Hm. eexists. by eapply K_move. Qed.

Lemma drive_session p : (forall n d, env_rivals e n d = d) ->
  forall n d s cm a d' n',
  K (mkMachine d [(i, (o, p, s))] lg cm) -> legal p n d s = true ->
  run e p n d s = (a, d', n') ->
  exists s' cm', K (mkMachine d' [(i, (o, Ret a, s'))] lg cm').
Proof using K_move cxb_ok clockb_ok.
  intros Hlone. destruct commit_errors as (Hl & Ha & Hc).
  assert (Hext : external lost /\ external aborted) by done. destruct Hext as [Hxl Hxa].
  induction p as [a0|R st k IH|k IH|k IH|k IH|k IH]; intros n d s cm a d' n' Hr Hlg Hrun;
    cbn in Hlg, Hrun; rewrite ?Hlone in Hrun.
  - injection Hrun as <- <- _. by exists s, cm.
  - destruct (env_fault e n); [|by (edestruct lone_move as [cm' Hr']; [exact Hr|by apply mv_error with (e := lost)|]; eauto)..].
    destruct (ss_live s) eqn:El.
    + destruct (out_reply _) as [r|err] eqn:Er; apply andb_true_iff in Hlg as [H1 H2].
      * edestruct lone_move as [cm' Hr']; [exact Hr|eapply mv_exec; [done|by apply cxb_ok|exact Er|]|eauto].
        intros x _ Hx. by apply elem_of_nil in Hx.
      * edestruct lone_move as [cm' Hr']; [exact Hr|apply mv_error with (e := err); by apply externalb_ok|eauto].
    + edestruct lone_move as [cm' Hr']; [exact Hr|by apply mv_error with (e := aborted)|].
      rewrite abort_dead in Hr', Hlg by done. eauto.
  - apply andb_true_iff in Hlg as [H1 H2].
    edestruct lone_move as [cm' Hr']; [exact Hr|by apply mv_clock, clockb_ok|eauto].
  - destruct (env_fault e n);
      [|by (edestruct lone_move as [cm' Hr']; [exact Hr|by apply mv_savepoint_error with (e := lost)|]; eauto)..].
    destruct (ss_live s) eqn:El.
    + edestruct lone_move as [cm' Hr']; [exact Hr|by apply mv_savepoint|eauto].
    + edestruct lone_move as [cm' Hr']; [exact Hr|by apply mv_savepoint_error with (e := aborted)|].
      rewrite abort_dead in Hr', Hlg by done. eauto.
  - destruct (env_fault e n);
      [edestruct lone_move as [cm' Hr']; [exact Hr|by apply mv_rollback|eauto]
      |by (edestruct lone_move as [cm' Hr']; [exact Hr|by apply mv_rollback_error with (e := lost)|]; eauto)..].
  - destruct (env_fault e n).
    + destruct (ss_live s) eqn:El;
        [|edestruct lone_move as [cm' Hr']; [exact Hr|by apply mv_commit_refused with (e := aborted)|eauto]].
      destruct (triggers_pass s (view d s)) eqn:Et;
        [|edestruct lone_move as [cm' Hr']; [exact Hr|by apply mv_commit_refused with (e := commit_refused)|eauto]].
      edestruct lone_move as [cm' Hr']; [exact Hr|by apply (mv_commit _ _ k s (Ok tt))|eauto].
    + edestruct lone_move as [cm' Hr']; [exact Hr|by apply mv_commit_refused with (e := lost)|eauto].
    + destruct (ss_live s) eqn:El;
        [|edestruct lone_move as [cm' Hr']; [exact Hr|by apply mv_commit_refused with (e := aborted)|eauto]].
      destruct (triggers_pass s (view d s)) eqn:Et;
        [|edestruct lone_move as [cm' Hr']; [exact Hr|by apply mv_commit_refused with (e := commit_refused)|eauto]].
      edestruct lone_move as [cm' Hr']; [exact Hr|by apply (mv_commit _ _ k s (Err lost))|eauto].
Qed.
End alone.

Lemma drive d0 d lg cm o a d' n' :
  (forall n d, env_rivals e n d = d) ->
  reachable code d0 (mkMachine d [] lg cm) -> legal (code o) 0 d fresh_sess = true ->
  run e (code o) 0 d fresh_sess = (a, d', n') ->
  exists c cm', reachable code d0 (mkMachine d' [] ((o, a, c) :: lg) cm').
Proof using cxb_ok clockb_ok.
  intros Hl Hr Hlegal Hrun.
  assert (Hmove : forall d cm p s d' p' s', reachable code d0 (mkMachine d [(0%nat, (o, p, s))] lg cm) ->
    moves [] d p s d' p' s' ->
    reachable code d0 (mkMachine d' [(0%nat, (o, p', s'))] lg (commit_of o s s' ++ cm))).
  { intros d1 cm1 p s d1' p' s' H Hm. eapply reach_step; [exact H|]. by apply (st_move _ _ [] []). }
  assert (Hstart : reachable code d0 (mkMachine d [(0%nat, (o, code o, fresh_sess))] lg cm)).
  { eapply reach_step; [exact Hr|]. apply st_start. }
  destruct (drive_session _ _ _ _ Hmove _ Hl _ _ _ _ _ _ _ Hstart Hlegal Hrun) as (s' & cm' & Hr').
  exists (ss_done s'), cm'. eapply reach_step; [exact Hr'|]. by apply (st_finish _ _ [] []).
Qed.
End driving.
