(* ===== verification/Database.v ===== *)
(** * The database: [migrations/*.sql]

    Tables, CHECK and UNIQUE constraints, foreign keys and triggers, as
    functions the statements of the store use.  A text column that may be NULL
    is an [option]; the three lease columns, which a CHECK makes NULL together,
    are one optional record.  PostgreSQL itself (identifiers it generates, its
    clock, the rows SKIP LOCKED passes over) is the context [Cx] of a
    statement.  A [jsonb] column keeps its document as the text it was
    written as. *)

From Stdlib Require Import Ascii.
From S2P Require Import Prelude GoStd Codec JsonText Errors Ident Money Wallet Ledger Wager Session.
Import Str.

(** ** Tables *)

Record wallet_row : Type := mkWalletRow {
  wr_player : ID; wr_currency : string; wr_balance : Z; wr_version : Z;
  wr_created : Z; wr_updated : Z
}.

(** The columns of [wager_transaction] that identify a request: exactly those
    the trigger [wager_guard] makes immutable. *)
Record wager_request : Type := mkRequest {
  rq_origin : string;
  rq_provider : option string;
  rq_external : option string;
  rq_key : option string;
  rq_hash : option string;
  rq_wallet : ID;
  rq_player : ID;
  rq_round : option string;
  rq_game : option string;
  rq_kind : string;
  rq_amount : Z;
  rq_currency : string;
  rq_refext : option string;
  rq_created : Z
}.

Record wager_outcome : Type := mkOutcomeRow {
  oc_reference : option ID;
  oc_status : string;
  oc_failure : option string;
  oc_balance : option Z;
  oc_currency : option string;
  oc_version : option Z;
  oc_updated : Z;
  oc_completed : option Z
}.

Record lease : Type := mkLease { ls_by : string; ls_token : ID; ls_until : Z }.

Record wager_row : Type := mkWagerRow {
  tr_request : wager_request;
  tr_outcome : wager_outcome;
  tr_correlation : string;
  tr_causation : option string;
  tr_attempts : Z;
  tr_next : option Z;
  tr_lease : option lease
}.

Record ledger_row : Type := mkLedgerRow {
  lr_id : ID; lr_wallet : ID; lr_tx : ID; lr_direction : string; lr_amount : Z;
  lr_currency : string; lr_before : Z; lr_after : Z; lr_created : Z
}.

Record inbox_row : Type := mkInboxRow {
  ib_hash : string; ib_wager : option ID; ib_received : Z; ib_completed : option Z
}.

Record outbox_row : Type := mkOutboxRow {
  ob_type : string; ob_version : Z; ob_aggregate_type : string; ob_aggregate : ID;
  ob_correlation : string; ob_causation : option string; ob_payload : string; ob_occurred : Z;
  ob_attempts : Z; ob_next : Z; ob_lease : option lease; ob_published : option Z;
  ob_error : option string
}.

Record Db : Type := mkDb {
  wallets : gmap ID wallet_row;
  wagers : gmap ID wager_row;
  ledger : list ledger_row;        (* in the order of insertion *)
  inbox : gmap (string * string) inbox_row;
  outbox : gmap ID outbox_row
}.

Definition empty_db : Db := mkDb ∅ ∅ [] ∅ ∅.

Definition set_wallets (f : gmap ID wallet_row -> gmap ID wallet_row) (d : Db) : Db :=
  mkDb (f (wallets d)) (wagers d) (ledger d) (inbox d) (outbox d).
Definition set_wagers (f : gmap ID wager_row -> gmap ID wager_row) (d : Db) : Db :=
  mkDb (wallets d) (f (wagers d)) (ledger d) (inbox d) (outbox d).
Definition set_ledger (f : list ledger_row -> list ledger_row) (d : Db) : Db :=
  mkDb (wallets d) (wagers d) (f (ledger d)) (inbox d) (outbox d).
Definition set_inbox (f : gmap (string * string) inbox_row -> gmap (string * string) inbox_row)
    (d : Db) : Db := mkDb (wallets d) (wagers d) (ledger d) (f (inbox d)) (outbox d).
Definition set_outbox (f : gmap ID outbox_row -> gmap ID outbox_row) (d : Db) : Db :=
  mkDb (wallets d) (wagers d) (ledger d) (inbox d) (f (outbox d)).

(** ** What a session can lock, and what the server generates *)

Inductive lock : Type :=
| LId (id : ID)                            (* an identifier it was given *)
| LWallet (id : ID)                        (* a row of [wallet] *)
| LWager (id : ID)                         (* a row of [wager_transaction] *)
| LOutbox (id : ID)
| LAccount (player : ID) (currency : string)   (* keys of the unique indexes *)
| LKey (provider key : string)
| LExternal (provider external : string)
| LReversal (reference : ID)
| LInbox (consumer message : string).

Record Cx : Type := mkCx {
  cx_now : nat -> Z;       (* the server's clock, one reading per use in the statement *)
  cx_scan : ID -> nat -> Z;   (* the same in a condition: one reading per row and use *)
  cx_uuid : nat -> ID;     (* uuidv7(), likewise *)
  cx_skip : ID -> bool     (* rows another session has locked, for SKIP LOCKED *)
}.

(** [timestamptz] keeps microseconds. *)
Definition timestamptz (t : Z) : Z := 1000 * (t / 1000).

(** [clock_timestamp()]. *)
Definition cx_clock (cx : Cx) (n : nat) : Z := timestamptz (cx_now cx n).
Definition cx_clock_at (cx : Cx) (i : ID) (n : nat) : Z := timestamptz (cx_scan cx i n).

Notation statement := (stmt Db lock Cx).
Notation program := (prog Db lock Cx).

Definition reads {R} (r : R) : outcome Db lock R := mkOutcome (Ok r) id [] [].
Definition refuse {R} (sqlstate constraint : string) : outcome Db lock R :=
  mkOutcome (Err (PgError sqlstate constraint)) id [] [].
Definition writes {R} (r : R) (f : Db -> Db) (l : list lock) (g : list (Db -> bool)) :
    outcome Db lock R := mkOutcome (Ok r) f l g.

(** A [uuid] parameter given as text.  The store only passes texts [ParseID]
    accepted or that a [uuid] column rendered. *)
Definition uuid_in (text : string) : option ID :=
  match ParseID text with Ok id => Some id | Err _ => None end.

(** What a [text] parameter of a UTF-8 database may hold: runes of UTF-8, no
    zero byte.  Each step consumes at least one character of the fuel [len s]. *)
Fixpoint text_from (fuel : nat) (s : string) : bool :=
  match s with
  | EmptyString => true
  | String c _ =>
      match fuel, Json.utf8_length s with
      | S fuel, Some n => (Json.code c != 0) && text_from fuel (drop n s)
      | _, _ => false
      end
  end.
Definition text_in (s : string) : bool := text_from (len s) s.
Definition texts_in (l : list string) : bool := forallb text_in l.
Definition bad_text {R} : outcome Db lock R := refuse "22021" "".

(** The nullable text column a Go string is stored in, and [COALESCE(c,'')]. *)
Definition optional (s : string) : option string := if s == "" then None else Some s.
Definition coalesce (o : option string) : string := default "" o.

(** ** Rows found by a query *)

Definition find_row {A} (P : ID -> A -> bool) (m : gmap ID A) : option (ID * A) :=
  List.find (fun x => P (fst x) (snd x)) (map_to_list m).

Definition has_key (provider key : string) (r : wager_row) : bool :=
  (rq_provider (tr_request r) == Some provider) && (rq_key (tr_request r) == Some key).
Definition has_external (provider external : string) (r : wager_row) : bool :=
  (rq_provider (tr_request r) == Some provider) && (rq_external (tr_request r) == Some external).
Definition reversal_kind (kind : string) : bool := (kind == "REFUND") || (kind == "ROLLBACK").
(** The rows of the partial index [wager_single_reversal]. *)
Definition reverses (reference : ID) (r : wager_row) : bool :=
  (oc_reference (tr_outcome r) == Some reference) && reversal_kind (rq_kind (tr_request r))
  && (oc_status (tr_outcome r) == StatusProcessed).

(** ** CHECK constraints *)

Definition known_currency (c : string) : bool := (c == "BRL") || (c == "USD") || (c == "EUR").

Definition wallet_checks (r : wallet_row) : bool :=
  (wr_player r != zeroID) && known_currency (wr_currency r) && (0 <=? wr_balance r)
  && (1 <=? wr_version r).

Definition filled (o : option string) : bool :=
  match o with Some s => negb (s == "") | None => false end.
Definition is_some {A} (o : option A) : bool := match o with Some _ => true | None => false end.

(** [wager_origin_shape]. *)
Definition origin_shape (q : wager_request) (reference : option ID) : bool :=
  ((rq_origin q == "INTERNAL") && (rq_kind q == "OPENING") && negb (is_some (rq_provider q))
   && negb (is_some (rq_external q)) && negb (is_some (rq_key q)) && negb (is_some (rq_hash q))
   && negb (is_some (rq_round q)) && negb (is_some (rq_game q)) && negb (is_some (rq_refext q))
   && negb (is_some reference))
  || ((rq_origin q == "EXTERNAL") && (rq_kind q != "OPENING") && filled (rq_provider q)
      && filled (rq_external q) && filled (rq_key q)
      && match rq_hash q with Some h => (len h =? 32)%nat | None => false end
      && filled (rq_round q) && filled (rq_game q)).

Definition known_kind (k : string) : bool := (k == "OPENING") || externalKind k.
Definition known_status (s : string) : bool :=
  (s == "PENDING") || (s == "PENDING_REFERENCE") || Terminal s.

Definition wager_checks (id : ID) (r : wager_row) : bool :=
  let q := tr_request r in
  let o := tr_outcome r in
  ((rq_origin q == "INTERNAL") || (rq_origin q == "EXTERNAL"))
  && known_kind (rq_kind q) && (0 <=? rq_amount q) && known_currency (rq_currency q)
  && known_status (oc_status o)
  && match oc_balance o with Some b => 0 <=? b | None => true end
  && match oc_version o with Some v => 1 <=? v | None => true end
  && (0 <=? tr_attempts r)
  && (oc_reference o != Some id)
  && origin_shape q (oc_reference o)
  && ((oc_status o != "PROCESSED") || ((rq_kind q == "LOSS") && (rq_amount q =? 0))
      || ((rq_kind q != "LOSS") && (0 <? rq_amount q)))
  && (if Terminal (oc_status o)
      then is_some (oc_completed o) && is_some (oc_balance o) && is_some (oc_version o)
      else negb (is_some (oc_completed o)))
  && (if (oc_status o == "REJECTED") || (oc_status o == "FAILED")
      then filled (oc_failure o) else negb (is_some (oc_failure o)))
  && ((oc_status o != "PENDING_REFERENCE") || (is_some (rq_refext q) && is_some (tr_next r))).

(** A string of [jsonb]: no escape stands for the character zero, and surrogates
    come in pairs. *)
Fixpoint literal_from (fuel : nat) (s : string) : bool :=
  match fuel, s with
  | S fuel, String c s1 =>
      if c == bslash then
        match s1 with
        | String e s2 =>
            if e == "u"%char then
              let r := getu4 s in
              if r =? 0 then false
              else if surrogate r then is_some (surrogate_pair r (getu4 (drop 6 s))) && literal_from fuel (drop 12 s)
              else literal_from fuel (drop 6 s)
            else literal_from fuel s2
        | EmptyString => true
        end
      else literal_from fuel s1
  | _, _ => true
  end.
Definition jsonb_string (raw : string) : bool := literal_from (len raw) raw.

Fixpoint jsonb_ok (v : json) : bool :=
  match v with
  | JStr raw => jsonb_string raw
  | JArr l => (fix all l := match l with [] => true | x :: l => jsonb_ok x && all l end) l
  | JObj l =>
      (fix all (l : list (string * json)) :=
         match l with [] => true | (k, x) :: l => jsonb_string k && jsonb_ok x && all l end) l
  | JNull | JBool _ | JNum _ => true
  end.

(** The members of a [jsonb] document, [None] when it is refused; the operator [->>] yields NULL on
    anything but an object. *)
Definition jsonb_in (payload : string) : option (list (string * json)) :=
  if negb (text_in payload) then None
  else match parse payload with
       | Some v => if jsonb_ok v then Some (match v with JObj l => l | _ => [] end) else None
       | None => None
       end.

(** The member of a name: the last one written. *)
Definition jsonb_member (name : string) (l : list (string * json)) : option json :=
  snd <$> List.find (fun x => unquote x.1 == name) (rev l).

(** [payload->>name = value]; a CHECK lets NULL pass.  The text of a document or
    an array is no identifier, type or number. *)
Definition member_is (same : string -> bool) (name : string) (l : list (string * json)) : bool :=
  match jsonb_member name l with
  | None | Some JNull => true
  | Some (JStr raw) => same (unquote raw)
  | Some (JNum text) => same text
  | Some (JBool b) => same (if b then "true" else "false")
  | Some (JArr _) | Some (JObj _) => false
  end.
Definition is_integer (n : Z) (text : string) : bool :=
  match Strconv.ParseInt text with Ok v => v =? n | Err _ => false end.

(** The CHECKs of [outbox] on its payload. *)
Definition outbox_checks (id : ID) (type : string) (version : Z) (aggregate : ID) (l : list (string * json)) : bool :=
  member_is (fun text => text == ID_String id) "eventId" l
  && member_is (fun text => text == type) "eventType" l
  && member_is (is_integer version) "version" l
  && member_is (fun text => text == ID_String aggregate) "aggregateId" l.

(** The CHECKs, and that [created_at] is a [timestamptz]. *)
Definition ledger_checks (e : ledger_row) : bool :=
  (timestamptz (lr_created e) == lr_created e)
  && ((lr_direction e == "DEBIT") || (lr_direction e == "CREDIT")) && (0 <? lr_amount e)
  && (0 <=? lr_before e) && (0 <=? lr_after e)
  && (lr_after e =? lr_before e + (if lr_direction e == "CREDIT" then lr_amount e else - lr_amount e)).

(** ** Row triggers

    What runs before an UPDATE of a row, or before a DELETE for the ledger:
    [false] raises. *)

#[global] Instance wager_request_eq_dec : EqDecision wager_request.
Proof. solve_decision. Defined.

(** [protect_ledger], on [ledger_append_only]; no new row is a DELETE. *)
Definition protect_ledger (old : ledger_row) (new : option ledger_row) : bool := false.

(** [protect_outbox_snapshot], on [outbox_snapshot]. *)
Definition outbox_snapshot (r : outbox_row) :
    string * Z * string * ID * string * option string * string * Z :=
  (ob_type r, ob_version r, ob_aggregate_type r, ob_aggregate r, ob_correlation r, ob_causation r,
   ob_payload r, ob_occurred r).
Definition protect_outbox_snapshot (old new : outbox_row) : bool :=
  outbox_snapshot new == outbox_snapshot old.

(** [protect_wager], on [wager_guard]. *)
Definition protect_wager (old new : wager_row) : bool :=
  if Terminal (oc_status (tr_outcome old)) then false else tr_request new == tr_request old.

(** ** Deferred constraint triggers

    [verify_wager_ledger(transaction_id)], which [wager_commit_guard] and
    [ledger_commit_guard] run at the commit: [false] raises. *)
Definition entry_of (d : Db) (wallet tx : ID) : option ledger_row :=
  List.find (fun e => (lr_wallet e == wallet) && (lr_tx e == tx)) (ledger d).

Definition expected_direction (d : Db) (r : wager_row) : option string :=
  let kind := rq_kind (tr_request r) in
  if kind == "BET" then Some "DEBIT"
  else if (kind == "OPENING") || (kind == "WIN") || (kind == "REFUND") then Some "CREDIT"
  else if kind == "ROLLBACK" then
    match oc_reference (tr_outcome r) ≫= fun id => wagers d !! id with
    | Some ref =>
        let reference_kind := rq_kind (tr_request ref) in
        if oc_status (tr_outcome ref) != "PROCESSED" then None
        else if reference_kind == "BET" then Some "CREDIT"
        else if (reference_kind == "WIN") || (reference_kind == "REFUND") then Some "DEBIT"
        else None
    | None => None
    end
  else None.

Definition verify_wager_ledger (id : ID) (d : Db) : bool :=
  match wagers d !! id with
  | None => false
  | Some r =>
      let o := tr_outcome r in
      if oc_status o == "PENDING" then false
      else
        let e := entry_of d (rq_wallet (tr_request r)) id in
        if (oc_status o == "PROCESSED") && (rq_kind (tr_request r) != "LOSS") then
          match e with
          | None => false
          | Some e =>
              (lr_amount e =? rq_amount (tr_request r))
              && match oc_balance o with Some b => lr_after e =? b | None => true end
              && (Some (lr_direction e) == expected_direction d r)
          end
        else negb (is_some e)
  end.

(** [inbox_commit_guard]. *)
Definition validate_inbox_commit (key : string * string) (d : Db) : bool :=
  match inbox d !! key with
  | Some r => is_some (ib_completed r) && is_some (ib_wager r)
  | None => true
  end.
