(* ===== verification/Sql.v ===== *)
(** * The statements of the store: the SQL text of [internal/adapters/postgres]

    One definition per statement the command path issues, on the tables of
    Database.v: what it returns, what it writes, the locks it takes, and the
    constraint that refuses it. *)

From S2P Require Import Prelude GoStd Errors Ident Money Wallet Ledger Wager Session Database.
Import Str.

Definition invalid_text {R} : outcome Db lock R := refuse "22P02" "".
Definition check_violation {R} (name : string) : outcome Db lock R := refuse "23514" name.
Definition foreign_key_violation {R} (name : string) : outcome Db lock R := refuse "23503" name.
Definition unique_violation {R} (name : string) : outcome Db lock R := refuse "23505" name.

(** [BEGIN]. *)
Definition begin_tx : statement unit := fun _ _ => reads tt.

(** [SELECT uuidv7()::text]: an identifier no one else is ever given. *)
Definition allocate_id : statement string := fun cx _ =>
  mkOutcome (Ok (ID_String (cx_uuid cx 0))) id [LId (cx_uuid cx 0)] [].

(** ** wallet *)

(** [walletColumns]. *)
Record wallet_columns : Type := mkWalletColumns {
  wc_id : string; wc_player : string; wc_balance : Z; wc_currency : string; wc_version : Z;
  wc_created : Z; wc_updated : Z
}.
Definition columns_of_wallet (id : ID) (r : wallet_row) : wallet_columns :=
  mkWalletColumns (ID_String id) (ID_String (wr_player r)) (wr_balance r) (wr_currency r)
    (wr_version r) (wr_created r) (wr_updated r).

(** [SELECT walletColumns FROM wallet WHERE id=$1]. *)
Definition select_wallet (text : string) : statement (option wallet_columns) := fun _ d =>
  match uuid_in text with
  | None => invalid_text
  | Some id => reads (columns_of_wallet id <$> wallets d !! id)
  end.

(** [GetWalletForUpdate]. *)
Definition get_wallet_for_update (id : ID) : statement (option wallet_columns) := fun _ d =>
  match wallets d !! id with
  | Some r => mkOutcome (Ok (Some (columns_of_wallet id r))) Datatypes.id [LWallet id] []
  | None => reads None
  end.

Definition has_account (player : ID) (currency : string) (r : wallet_row) : bool :=
  (wr_player r == player) && (wr_currency r == currency).

Definition insert_wallet (id player : ID) (currency : string) (balance now : Z) :
    statement string := fun _ d =>
  let row := mkWalletRow player currency balance 1 (timestamptz now) (timestamptz now) in
  if negb (wallet_checks row) then check_violation "wallet_check"
  else if is_some (wallets d !! id) then unique_violation "wallet_pkey"
  else if is_some (find_row (fun _ => has_account player currency) (wallets d))
  then unique_violation "wallet_player_currency_key"
  else
    writes (ID_String id) (set_wallets (<[id := row]>)) [LWallet id; LAccount player currency] [].

Definition wallet_moved (balance version updated : Z) (r : wallet_row) : wallet_row :=
  mkWalletRow (wr_player r) (wr_currency r) balance version (wr_created r) (timestamptz updated).

(** [UPDATE wallet SET balance_minor,version,updated_at]: the rows affected. *)
Definition update_wallet (id : ID) (balance version updated : Z) : statement Z := fun _ d =>
  match wallets d !! id with
  | None => reads 0
  | Some r =>
      if negb (wallet_checks (wallet_moved balance version updated r))
      then check_violation "wallet_check"
      else writes 1 (set_wallets (alter (wallet_moved balance version updated) id)) [LWallet id] []
  end.

(** ** wager_transaction *)

(** [wagerColumns]. *)
Record wager_columns : Type := mkWagerColumns {
  tc_id : string; tc_wallet : string; tc_player : string; tc_provider : string;
  tc_external : string; tc_key : string; tc_hash : string; tc_round : string; tc_game : string;
  tc_kind : string; tc_amount : Z; tc_currency : string; tc_refext : string;
  tc_reference : string; tc_status : string; tc_failure : string;
  tc_rbalance : option Z; tc_rcurrency : option string; tc_rversion : option Z;
  tc_created : Z; tc_updated : Z; tc_completed : option Z
}.
Definition columns_of_wager (id : ID) (r : wager_row) : wager_columns :=
  let q := tr_request r in
  let o := tr_outcome r in
  mkWagerColumns (ID_String id) (ID_String (rq_wallet q)) (ID_String (rq_player q))
    (coalesce (rq_provider q)) (coalesce (rq_external q)) (coalesce (rq_key q))
    (coalesce (Hex.encode <$> rq_hash q)) (coalesce (rq_round q)) (coalesce (rq_game q))
    (rq_kind q) (rq_amount q) (rq_currency q) (coalesce (rq_refext q))
    (coalesce (ID_String <$> oc_reference o)) (oc_status o) (coalesce (oc_failure o))
    (oc_balance o) (oc_currency o) (oc_version o) (rq_created q) (oc_updated o) (oc_completed o).

Definition wager_found (x : option (ID * wager_row)) : option wager_columns :=
  (fun '(id, r) => columns_of_wager id r) <$> x.

Definition wager_by_id (d : Db) (id : ID) : option (ID * wager_row) := (pair id) <$> wagers d !! id.

(** [SELECT wagerColumns ... WHERE t.id=$1]. *)
Definition select_wager (text : string) : statement (option wager_columns) := fun _ d =>
  match uuid_in text with
  | None => invalid_text
  | Some id => reads (wager_found (wager_by_id d id))
  end.

(** The same with [FOR UPDATE]. *)
Definition select_wager_for_update (id : ID) : statement (option wager_columns) := fun _ d =>
  match wagers d !! id with
  | Some r => mkOutcome (Ok (Some (columns_of_wager id r))) Datatypes.id [LWager id] []
  | None => reads None
  end.

(** [WHERE provider_id=$1 AND external_transaction_id=$2]. *)
Definition select_external (provider external : string) : statement (option wager_columns) :=
  fun _ d =>
  if negb (texts_in [provider; external]) then bad_text
  else reads (wager_found (find_row (fun _ => has_external provider external) (wagers d))).

(** [WHERE t.provider_id=$1 AND t.id=$2]. *)
Definition select_provider_wager (provider text : string) : statement (option wager_columns) :=
  fun _ d =>
  if negb (text_in provider) then bad_text else
  match uuid_in text with
  | None => invalid_text
  | Some id =>
      reads (wager_found
               (match wager_by_id d id with
                | Some (i, r) =>
                    if rq_provider (tr_request r) == Some provider then Some (i, r) else None
                | None => None
                end))
  end.

(** The two identities in one snapshot, the idempotency key preferred. *)
Definition select_identity (provider key external : string) : statement (option wager_columns) :=
  fun _ d =>
  if negb (texts_in [provider; key; external]) then bad_text else
  reads (wager_found
           (match find_row (fun _ => has_key provider key) (wagers d) with
            | Some x => Some x
            | None => find_row (fun _ => has_external provider external) (wagers d)
            end)).

(** [SELECT EXISTS(... reference_transaction_id=$1 AND kind IN (...) AND status='PROCESSED')]. *)
Definition exists_reversal (reference : ID) : statement bool := fun _ d =>
  reads (is_some (find_row (fun _ => reverses reference) (wagers d))).

Definition pending_outcome (now : Z) : wager_outcome :=
  mkOutcomeRow None "PENDING" None None None None (timestamptz now) None.

(** [INSERT ... ON CONFLICT DO NOTHING RETURNING id]: no row on a conflict. *)
Definition insert_wager (id : ID)
    (provider external key hash wallet player round game kind : string) (amount : Z)
    (currency : string) (refext : option string) (correlation : string)
    (causation : option string) (now : Z) : statement (option string) := fun _ d =>
  if negb (texts_in [provider; external; key; round; game; kind; currency; coalesce refext; correlation;
                     coalesce causation]) then bad_text else
  match uuid_in wallet, uuid_in player, Hex.decode hash with
  | Some wallet, Some player, Some hash =>
      let row :=
        mkWagerRow
          (mkRequest "EXTERNAL" (Some provider) (Some external) (Some key) (Some hash) wallet player
             (Some round) (Some game) kind amount currency refext (timestamptz now))
          (pending_outcome now) correlation causation 0 None None in
      if negb (wager_checks id row) then check_violation "wager_transaction_check"
      else if is_some (wagers d !! id)
              || is_some (find_row (fun _ => has_key provider key) (wagers d))
              || is_some (find_row (fun _ => has_external provider external) (wagers d))
      then reads None
      else if negb (match wallets d !! wallet with
                    | Some w => wr_player w == player
                    | None => false
                    end)
      then foreign_key_violation "wager_transaction_wallet_id_player_id_fkey"
      else
        writes (Some (ID_String id)) (set_wagers (<[id := row]>))
          [LWager id; LKey provider key; LExternal provider external] [verify_wager_ledger id]
  | _, _, _ => invalid_text
  end.

(** The row [persistResult] leaves: the result, and no lease. *)
Definition settled_row (o : wager_outcome) (clock : Z) (r : wager_row) : wager_row :=
  mkWagerRow (tr_request r) o (tr_correlation r) (tr_causation r) (tr_attempts r)
    (if oc_status o == "PENDING_REFERENCE" then Some (clock + Time.Second) else None) None.

(** [UPDATE wager_transaction SET status,...]: the guard of a terminal row, the
    CHECKs, the reference's foreign key, the single reversal. *)
Definition update_result (id : ID) (o : wager_outcome) : statement unit := fun cx d =>
  match wagers d !! id with
  | None => reads tt
  | Some r =>
      let r' := settled_row o (cx_clock cx 0) r in
      if Terminal (oc_status (tr_outcome r)) then check_violation ""
      else if negb (wager_checks id r') then check_violation "wager_transaction_check"
      else if match oc_reference o with Some ref => negb (is_some (wagers d !! ref)) | None => false end
      then foreign_key_violation "wager_transaction_reference_transaction_id_fkey"
      else
        let reversed :=
          match oc_reference o with
          | Some ref =>
              if reverses ref r' then
                Some (ref, is_some (find_row (fun i r => (i != id) && reverses ref r) (wagers d)))
              else None
          | None => None
          end in
        match reversed with
        | Some (_, true) => unique_violation "wager_single_reversal"
        | _ =>
            writes tt (set_wagers (alter (settled_row o (cx_clock cx 0)) id))
              (LWager id :: match reversed with Some (ref, _) => [LReversal ref] | None => [] end)
              [verify_wager_ledger id]
        end
  end.

(** ** wallet_ledger_entry *)

(** [INSERT INTO wallet_ledger_entry ... RETURNING id::text,created_at]. *)
Definition insert_ledger_row (e : LedgerData) : statement (string * Z) := fun cx d =>
  let row :=
    mkLedgerRow (leID e) (leWalletID e) (leTransactionID e) (leDirection e) (minor (leMoney e))
      (currency (leMoney e)) (minor (leBalanceBefore e)) (minor (leBalanceAfter e))
      (cx_clock cx 0) in
  if negb (ledger_checks row) then check_violation "wallet_ledger_entry_check"
  else if existsb (fun x => lr_id x == lr_id row) (ledger d)
  then unique_violation "wallet_ledger_entry_pkey"
  else if is_some (entry_of d (lr_wallet row) (lr_tx row))
  then unique_violation "wallet_ledger_entry_wallet_id_transaction_id_key"
  else if negb (match wallets d !! lr_wallet row with
                | Some w => wr_currency w == lr_currency row
                | None => false
                end)
  then foreign_key_violation "wallet_ledger_entry_wallet_id_currency_fkey"
  else if negb (match wagers d !! lr_tx row with
                | Some t => (rq_wallet (tr_request t) == lr_wallet row)
                            && (rq_currency (tr_request t) == lr_currency row)
                | None => false
                end)
  then foreign_key_violation "wallet_ledger_entry_transaction_id_wallet_id_currency_fkey"
  else
    writes (ID_String (lr_id row), lr_created row) (set_ledger (fun l => l ++ [row])) []
      [verify_wager_ledger (lr_tx row)].

(** ** outbox *)

Definition insert_outbox (id : ID) (type : string) (version : Z) (aggregate : ID)
    (correlation : string) (causation : option string) (payload : string) : statement string :=
  fun cx d =>
  let row :=
    mkOutboxRow type version "Wallet" aggregate correlation causation payload (cx_clock cx 0) 0
      (cx_clock cx 1) None None None in
  if negb (texts_in [type; correlation; coalesce causation]) then bad_text else
  match jsonb_in payload with
  | None => invalid_text
  | Some l =>
  if negb ((version =? 1) && outbox_checks id type version aggregate l) then check_violation "outbox_check"
  else if is_some (outbox d !! id) then unique_violation "outbox_pkey"
  else writes (ID_String id) (set_outbox (<[id := row]>)) [LOutbox id] []
  end.

(** ** inbox *)

(** [INSERT INTO inbox ... ON CONFLICT DO NOTHING RETURNING message_id]. *)
Definition insert_inbox (consumer message hash : string) : statement (option string) :=
  fun cx d =>
  if negb (texts_in [consumer; message]) then bad_text
  else if (consumer == "") || (message == "") || negb (len hash =? 32)%nat
  then check_violation "inbox_check"
  else if is_some (inbox d !! (consumer, message)) then reads None
  else
    writes (Some message)
      (set_inbox (<[(consumer, message) := mkInboxRow hash None (cx_clock cx 0) None]>))
      [LInbox consumer message] [validate_inbox_commit (consumer, message)].

(** [SELECT encode(payload_hash,'hex'),wager_transaction_id::text,completed_at]. *)
Definition select_inbox (consumer message : string) :
    statement (option (string * option string * option Z)) := fun _ d =>
  if negb (texts_in [consumer; message]) then bad_text else
  reads ((fun r => (Hex.encode (ib_hash r), ID_String <$> ib_wager r, ib_completed r))
           <$> inbox d !! (consumer, message)).

Definition inbox_completed (wager : ID) (clock : Z) (r : inbox_row) : inbox_row :=
  mkInboxRow (ib_hash r) (Some wager) (ib_received r) (Some clock).

(** [UPDATE inbox SET wager_transaction_id,completed_at ... AND completed_at IS NULL]. *)
Definition complete_inbox (consumer message transaction : string) : statement unit := fun cx d =>
  if negb (texts_in [consumer; message]) then bad_text else
  match uuid_in transaction with
  | None => invalid_text
  | Some wager =>
      match inbox d !! (consumer, message) with
      | Some r =>
          if is_some (ib_completed r) then reads tt
          else if negb (is_some (wagers d !! wager))
          then foreign_key_violation "inbox_wager_transaction_id_fkey"
          else
            writes tt
              (set_inbox (alter (inbox_completed wager (cx_clock cx 0)) (consumer, message)))
              [LInbox consumer message] []
      | None => reads tt
      end
  end.

(** [INSERT INTO wager_transaction(... 'INTERNAL' ... 'OPENING' ... 'PROCESSED' ...)]. *)
Definition opening_row (wallet player : ID) (amount : Z) (currency correlation : string) (now : Z) :
    wager_row :=
  mkWagerRow
    (mkRequest "INTERNAL" None None None None wallet player None None "OPENING" amount currency
       None (timestamptz now))
    (mkOutcomeRow None "PROCESSED" None (Some amount) (Some currency) (Some 1) (timestamptz now)
       (Some (timestamptz now)))
    correlation None 0 None None.

Definition insert_opening (id wallet player : ID) (amount : Z) (currency correlation : string)
    (now : Z) : statement unit := fun _ d =>
  let row := opening_row wallet player amount currency correlation now in
  if negb (texts_in [currency; correlation]) then bad_text else
  if negb (wager_checks id row) then check_violation "wager_transaction_check"
  else if is_some (wagers d !! id) then unique_violation "wager_transaction_pkey"
  else if is_some (find_row (fun _ r => (rq_kind (tr_request r) == "OPENING")
                                        && (rq_wallet (tr_request r) == wallet)) (wagers d))
  then unique_violation "wager_opening_once"
  else if negb (match wallets d !! wallet with Some w => wr_player w == player | None => false end)
  then foreign_key_violation "wager_transaction_wallet_id_player_id_fkey"
  else writes tt (set_wagers (<[id := row]>)) [LWager id] [verify_wager_ledger id].

(** ** What a statement that succeeded did *)

Lemma refused_Ok {R} (b : bool) (x : outcome Db lock R) st c r :
  out_reply (if b then refuse st c else x) = Ok r -> b = false /\ out_reply x = Ok r.
Proof. by destruct b. Qed.

Ltac passed H :=
  unfold check_violation, foreign_key_violation, unique_violation, invalid_text, bad_text in *;
  repeat (apply refused_Ok in H; let E := fresh "T" in destruct H as [E H]).

(** The texts of a statement that succeeded are texts. *)
Ltac texts_pass H :=
  match type of H with
  | context [texts_in ?l] => destruct (texts_in l); [cbn [negb] in *|discriminate H]
  | context [text_in ?l] => destruct (text_in l); [cbn [negb] in *|discriminate H]
  end.

Lemma select_external_Ok provider external cx d r :
  out_reply (select_external provider external cx d) = Ok r ->
  r = wager_found (find_row (fun _ => has_external provider external) (wagers d)).
Proof. unfold select_external. intros H. texts_pass H. by injection H as <-. Qed.

Definition ledger_row_of (e : LedgerData) (clock : Z) : ledger_row :=
  mkLedgerRow (leID e) (leWalletID e) (leTransactionID e) (leDirection e) (minor (leMoney e))
    (currency (leMoney e)) (minor (leBalanceBefore e)) (minor (leBalanceAfter e)) clock.

Lemma insert_ledger_row_Ok e cx d r :
  out_reply (insert_ledger_row e cx d) = Ok r ->
  let row := ledger_row_of e (cx_clock cx 0) in
  ledger_checks row = true /\ r = (ID_String (leID e), cx_clock cx 0)
  /\ insert_ledger_row e cx d
     = writes r (set_ledger (fun l => l ++ [row])) [] [verify_wager_ledger (leTransactionID e)].
Proof.
  unfold insert_ledger_row. cbv zeta. fold (ledger_row_of e (cx_clock cx 0)). intros H.
  passed H. rewrite T, T0, T1, T2, T3. injection H as <-. bools. done.
Qed.

Lemma update_result_Ok id o cx d u r :
  out_reply (update_result id o cx d) = Ok u -> wagers d !! id = Some r ->
  let r' := settled_row o (cx_clock cx 0) r in
  Terminal (oc_status (tr_outcome r)) = false /\ wager_checks id r' = true
  /\ exists l, LWager id ∈ l
     /\ update_result id o cx d
        = writes tt (set_wagers (alter (settled_row o (cx_clock cx 0)) id)) l
            [verify_wager_ledger id].
Proof.
  unfold update_result. intros H Hr. rewrite Hr in H |- *. cbv zeta in H |- *. passed H.
  rewrite T, T0, T1. bools. split_and!; [done..|].
  destruct (match oc_reference o with
    | Some ref => if reverses ref (settled_row o (cx_clock cx 0) r)
        then Some (ref, is_some (find_row (fun i r => (i != id) && reverses ref r) (wagers d)))
        else None
    | None => None
    end) as [[ref []]|]; [done|..]; eexists; (split; [|reflexivity]); apply list_elem_of_here.
Qed.

Lemma insert_outbox_Ok id ty v agg corr caus payload cx d r :
  out_reply (insert_outbox id ty v agg corr caus payload cx d) = Ok r ->
  let row := mkOutboxRow ty v "Wallet" agg corr caus payload (cx_clock cx 0) 0 (cx_clock cx 1)
               None None None in
  insert_outbox id ty v agg corr caus payload cx d
  = writes (ID_String id) (set_outbox (<[id := row]>)) [LOutbox id] []
  /\ v = 1 /\ exists l, jsonb_in payload = Some l /\ outbox_checks id ty v agg l = true.
Proof.
  unfold insert_outbox. cbv zeta. intros H. passed H. rewrite T.
  destruct (jsonb_in payload) as [l|] eqn:El; [|done]. passed H. rewrite T0, T1. split; [done|].
  apply negb_false_iff, andb_true_iff in T0 as [Hv Hl]. bools. split; [done|]. by exists l.
Qed.
