(* ===== verification/Jsonb.v ===== *)
(** * What PostgreSQL can hold of a text or of a JSON document

    [text_in] accepts exactly the texts of UTF-8 without a zero byte; and a
    document that Go marshals from texts is one [jsonb] accepts exactly when no
    text of it has a zero byte, whatever else is in it: bytes that are not
    UTF-8 are already replaced, and every surrogate has its pair. *)

From Stdlib Require Import Ascii.
From S2P Require Import Prelude GoStd Codec JsonText JsonRound Errors Ident Money Session Database Events Documents.
Import Str Json.

(** ** Texts *)

Definition nul_free (s : string) : bool := all_chars (fun c => code c != 0) s.

Lemma nul_free_app s t : nul_free (s +:+ t) = nul_free s && nul_free t.
Proof. apply all_chars_app. Qed.

Lemma nul_free_cons c s : nul_free (String c s) = (code c != 0) && nul_free s.
Proof. done. Qed.

Lemma plain_nul_free s : plain s -> nul_free s = true.
Proof.
  induction s as [|c s IH]; [done|]. intros [Hc Hs]%plain_cons. rewrite nul_free_cons, (IH Hs).
  apply plain_char_spec in Hc as [[Hc _] _]. rewrite bool_decide_eq_false_2 by lia. done.
Qed.

Lemma wide_nul_free r : wide r -> nul_free r = true.
Proof.
  intros (_ & _ & Hr & _). induction r as [|c r IH]; [done|]. rewrite nul_free_cons.
  cbn [all_chars] in Hr. apply andb_true_iff in Hr as [Hc Hr].
  rewrite (IH Hr). apply Z.leb_le in Hc. rewrite bool_decide_eq_false_2 by lia. done.
Qed.

Lemma utf8_app s t : utf8 s -> utf8 t -> utf8 (s +:+ t).
Proof.
  intros Hs Ht. induction Hs as [|c s Hc Hs IH|r s Hr Hs IH]; [done|by apply utf8_ascii|].
  rewrite app_assoc. by apply utf8_wide.
Qed.

Lemma wide_pos r : wide r -> (1 <= len r)%nat.
Proof. intros (_ & Hr & _). destruct r; [done|cbn; lia]. Qed.

Lemma text_from_ok s fuel : utf8 s -> nul_free s = true -> (len s <= fuel)%nat -> text_from fuel s = true.
Proof.
  intros Hs. revert fuel. induction Hs as [|c s Hc Hs IH|r s Hr Hs IH]; intros fuel Hn Hf.
  - by destruct fuel.
  - rewrite nul_free_cons in Hn. apply andb_true_iff in Hn as [Hz Hn]. cbn [String.length] in Hf.
    destruct fuel as [|fuel]; [lia|]. cbn [text_from]. rewrite ascii_length by done. rewrite Hz.
    change (drop 1 (String c s)) with (drop (len (String c "")) (String c "" +:+ s)). rewrite drop_app.
    apply IH; [done|lia].
  - rewrite nul_free_app in Hn. apply andb_true_iff in Hn as [Hz Hn]. rewrite length_app in Hf.
    pose proof (wide_pos r Hr). destruct fuel as [|fuel]; [lia|]. destruct Hr as (_ & Hne & _ & Hl).
    specialize (Hl s). destruct r as [|c r]; [done|]. rewrite (app_cons c r s) in *. cbn [text_from]. rewrite Hl.
    rewrite nul_free_cons in Hz. apply andb_true_iff in Hz as [-> _]. rewrite <- app_cons, drop_app. apply IH; [done|lia].
Qed.

Lemma text_from_inv fuel s : text_from fuel s = true -> utf8 s /\ nul_free s = true.
Proof.
  revert fuel. induction s as [|c t Hc IH|r t Hr IH|c t Hl IH] using text_ind; intros fuel H.
  - split; [constructor|done].
  - destruct fuel as [|fuel]; [done|]. cbn [text_from] in H. rewrite ascii_length in H by done.
    change (drop 1 (String c t)) with (drop (len (String c "")) (String c "" +:+ t)) in H. rewrite drop_app in H.
    apply andb_true_iff in H as [Hz H]. destruct (IH _ H) as [Hu Hn]. split; [by apply utf8_ascii|].
    by rewrite nul_free_cons, Hz.
  - pose proof (wide_nul_free r Hr) as Hz. pose proof Hr as (_ & Hne & _ & Hl). specialize (Hl t).
    destruct r as [|c r]; [done|]. rewrite (app_cons c r t) in *. destruct fuel as [|fuel]; [done|].
    cbn [text_from] in H. rewrite Hl in H. rewrite <- app_cons, drop_app in H. apply andb_true_iff in H as [_ H].
    destruct (IH _ H) as [Hu Hn]. rewrite <- app_cons. split; [by apply utf8_wide|by rewrite nul_free_app, Hz].
  - destruct fuel as [|fuel]; [done|]. cbn [text_from] in H. by rewrite Hl in H.
Qed.

Lemma text_in_spec s : text_in s = true <-> utf8 s /\ nul_free s = true.
Proof. split; [apply text_from_inv|]. intros [Hu Hn]. by apply text_from_ok. Qed.

Lemma plain_text s : plain s -> text_in s = true.
Proof. intros H. apply text_in_spec. split; [by apply plain_valid|by apply plain_nul_free]. Qed.

(** ** What is written is a text *)

Lemma escape_ascii_clean c : code c < 128 -> utf8 (escape_ascii c) /\ nul_free (escape_ascii c) = true.
Proof.
  intros H. assert (Ha : text_in (escape_ascii c) = true).
  { destruct c as [[] [] [] [] [] [] [] []]; try (by vm_compute in H); reflexivity. }
  by apply text_in_spec.
Qed.

Lemma escaped_clean s : utf8 (escaped s) /\ nul_free (escaped s) = true.
Proof.
  induction s as [|c t Hc [IH1 IH2]|r t Hr [IH1 IH2]|c t Hl [IH1 IH2]] using text_ind.
  - split; [constructor|done].
  - rewrite escaped_ascii, nul_free_app by done. destruct (escape_ascii_clean c Hc) as [H1 ->].
    split; [by apply utf8_app|done].
  - rewrite escaped_wide, nul_free_app by done.
    assert (Hs : text_in (separator r) = true).
    { unfold separator. destruct (_ == _); [done|]. destruct (_ == _); [done|]. apply text_in_spec.
      split; [|by apply wide_nul_free]. rewrite <- (app_nil_r r). apply utf8_wide; [done|constructor]. }
    apply text_in_spec in Hs as [H1 ->]. split; [by apply utf8_app|done].
  - rewrite escaped_invalid, nul_free_app, IH2 by done. split; [|done]. apply utf8_app; [|done].
    by apply text_in_spec.
Qed.

Definition clean (t : string) : Prop := utf8 t /\ nul_free t = true.

Lemma clean_app s t : clean s -> clean t -> clean (s +:+ t).
Proof. intros [H1 H2] [H3 H4]. split; [by apply utf8_app|]. by rewrite nul_free_app, H2, H4. Qed.

Lemma plain_clean s : plain s -> clean s.
Proof. intros H. split; [by apply plain_valid|by apply plain_nul_free]. Qed.

Lemma lit_clean s : clean (string_lit s).
Proof.
  assert (Hq : clean quote) by (by apply text_in_spec). unfold string_lit.
  apply clean_app; [done|]. apply clean_app; [apply escaped_clean|done].
Qed.

Lemma object_clean (l : list (string * string)) : Forall (fun x => clean x.2) l -> clean (object l).
Proof.
  intros Hl. unfold object. apply clean_app; [by apply plain_clean|]. apply clean_app; [|by apply plain_clean].
  induction Hl as [|[k v] l Hv Hl IH]; [by apply plain_clean|]. cbn [members snd] in *.
  assert (Hm : clean (string_lit k +:+ ":" +:+ v)).
  { apply clean_app; [apply lit_clean|]. apply clean_app; [by apply plain_clean|done]. }
  destruct l as [|y l]; [done|].
  change (clean (string_lit k +:+ ":" +:+ v +:+ "," +:+ members (y :: l))).
  rewrite <- (app_assoc ":"), <- app_assoc. apply clean_app; [done|]. apply clean_app; [by apply plain_clean|done].
Qed.

(** ** What is written is a document, but for its zero bytes *)

Lemma literal_enough n : forall s f g, (len s <= n)%nat -> (len s <= f)%nat -> (len s <= g)%nat ->
  literal_from f s = literal_from g s.
Proof.
  induction n as [|n IH]; intros [|c s1] f g Hn Hf Hg; cbn [String.length] in *; try lia; try by destruct f, g.
  destruct f as [|f], g as [|g]; try lia. cbn [literal_from].
  assert (Hd : forall k, (1 <= k)%nat -> literal_from f (drop k (String c s1)) = literal_from g (drop k (String c s1))).
  { intros k Hk. apply IH; rewrite drop_length; cbn [String.length]; lia. }
  destruct (c == bslash); [|by apply IH; lia].
  destruct s1 as [|e s2]; [done|]. cbn [String.length] in *. cbv zeta. rewrite !Hd by lia.
  by rewrite (IH s2 f g) by lia.
Qed.

Lemma literal_fuel s fuel : (len s <= fuel)%nat -> literal_from fuel s = jsonb_string s.
Proof. intros H. by apply (literal_enough (len s)). Qed.

(** A piece of a literal: what it adds to what follows. *)
Definition spells (p : string) (b : bool) : Prop := forall t, jsonb_string (p +:+ t) = b && jsonb_string t.

Lemma literal_char_step fuel c t : (c == bslash) = false -> literal_from (S fuel) (String c t) = literal_from fuel t.
Proof. intros H. cbn [literal_from]. by rewrite H. Qed.

Lemma literal_simple_step fuel e t : (e == "u"%char) = false ->
  literal_from (S fuel) (String bslash (String e t)) = literal_from fuel t.
Proof. intros H. cbn [literal_from]. rewrite bool_decide_eq_true_2 by done. by rewrite H. Qed.

Lemma literal_code_step fuel h1 h2 h3 h4 t :
  let h := String h1 (String h2 (String h3 (String h4 ""))) in
  surrogate (hex_code h) = false ->
  literal_from (S fuel) (String bslash (String "u" (h +:+ t))) = (hex_code h != 0) && literal_from fuel t.
Proof.
  intros h Hs. cbn [literal_from]. rewrite !bool_decide_eq_true_2 by done. cbv zeta.
  change (getu4 (String bslash (String "u" (h +:+ t)))) with (hex_code h). rewrite Hs.
  change (String bslash (String "u" (h +:+ t))) with (String bslash (String "u" h) +:+ t).
  change 6%nat with (len (String bslash (String "u" h))). rewrite drop_app.
  destruct (hex_code h =? 0) eqn:E; bools; [by rewrite bool_decide_eq_true_2|by rewrite bool_decide_eq_false_2].
Qed.

Lemma spells_char c : (c == bslash) = false -> spells (String c "") true.
Proof.
  intros H t. rewrite app_cons, app_nil. unfold jsonb_string at 1. cbn [String.length].
  by rewrite literal_char_step.
Qed.

Lemma spells_simple e : (e == "u"%char) = false -> spells (String bslash (String e "")) true.
Proof.
  intros H t. rewrite !app_cons, app_nil. unfold jsonb_string at 1. cbn [String.length].
  rewrite literal_simple_step by done. apply literal_fuel. lia.
Qed.

Lemma spells_code h1 h2 h3 h4 :
  let h := String h1 (String h2 (String h3 (String h4 ""))) in
  surrogate (hex_code h) = false -> spells (String bslash (String "u" h)) (hex_code h != 0).
Proof.
  intros h Hs t. rewrite (app_cons bslash (String "u" h) t), (app_cons "u" h t). unfold jsonb_string at 1.
  cbn [String.length]. unfold h at 2. rewrite literal_code_step by done. fold h.
  rewrite literal_fuel by (rewrite length_app; lia). done.
Qed.

Lemma spells_app p q b c : spells p b -> spells q c -> spells (p +:+ q) (b && c).
Proof. intros Hp Hq t. rewrite app_assoc, Hp, Hq. by rewrite andb_assoc. Qed.

Lemma spells_high r : all_chars (fun c => 128 <=? code c) r = true -> spells r true.
Proof.
  induction r as [|c r IH]; intros H; [by intros t|]. cbn [all_chars] in H. apply andb_true_iff in H as [Hc Hr].
  change (String c r) with (String c "" +:+ r). apply (spells_app _ _ true true); [|by apply IH].
  apply spells_char, code_ne. apply Z.leb_le in Hc. change (code bslash) with 92. lia.
Qed.

Lemma spells_ascii c : code c < 128 -> spells (escape_ascii c) (code c != 0).
Proof.
  intros H. destruct c as [[] [] [] [] [] [] [] []]; try (by vm_compute in H);
    match goal with |- spells ?p ?b => let p' := eval vm_compute in p in let b' := eval vm_compute in b in
      change (spells p' b') end;
    first [by apply spells_char|by apply spells_simple|by apply spells_code].
Qed.

Lemma spells_separator r : wide r -> spells (separator r) true.
Proof.
  intros (_ & _ & Hr & _). unfold separator. destruct (_ == _); [by apply spells_code|].
  destruct (_ == _); [by apply spells_code|]. by apply spells_high.
Qed.

Lemma jsonb_escaped s : jsonb_string (escaped s) = nul_free s.
Proof.
  assert (H : spells (escaped s) (nul_free s)).
  { induction s as [|c t Hc IH|r t Hr IH|c t Hl IH] using text_ind.
    - by intros t.
    - rewrite escaped_ascii by done. by apply spells_app; [apply spells_ascii|].
    - rewrite escaped_wide by done. rewrite nul_free_app, wide_nul_free by done.
      by apply spells_app; [apply spells_separator|].
    - rewrite escaped_invalid by done. assert (Hc : (code c != 0) = true).
      { destruct (code c == 0) eqn:E; [|done]. bools. unfold utf8_length in Hl. rewrite E in Hl. done. }
      rewrite nul_free_cons, Hc. by apply (spells_app _ _ true); [apply spells_code|]. }
  specialize (H ""). rewrite app_nil_r in H. rewrite H. apply andb_true_r.
Qed.

Lemma jsonb_plain s : plain s -> jsonb_string s = true.
Proof. intros H. rewrite <- (escape_plain s), jsonb_escaped by done. by apply plain_nul_free. Qed.

(** [text] is read as a tree [jsonb] accepts exactly when [b]. *)
Definition storable (h : Z) (text : string) (b : bool) : Prop :=
  clean text /\ exists v, reads_as h text v /\ jsonb_ok v = b.

Lemma storable_weaken h h' t b : h <= h' -> storable h t b -> storable h' t b.
Proof. intros Hh [Hc (v & Hv & Hb)]. split; [done|]. exists v. split; [by eapply reads_weaken|done]. Qed.

Lemma lit_storable h s : 0 <= h -> storable h (string_lit s) (nul_free s).
Proof.
  intros Hh. apply (storable_weaken 0); [done|]. split; [apply lit_clean|].
  exists (JStr (escaped s)). split; [apply string_reads|apply jsonb_escaped].
Qed.

Lemma FormatInt_plain n : plain (Strconv.FormatInt n).
Proof.
  assert (Hd : forall m, 0 <= m -> plain (Strconv.dec_string m)).
  { intros m Hm. apply plain_digits. by destruct (Strconv.dec_string_spec m). }
  unfold Strconv.FormatInt. destruct (n <? 0) eqn:E; bools; [|by apply Hd].
  change (plain (String "-" (Strconv.dec_string (- n)))). cbn [all_chars]. by rewrite Hd by lia.
Qed.

Lemma number_storable h n : 0 <= h -> storable h (Strconv.FormatInt n) true.
Proof.
  intros Hh. apply (storable_weaken 0); [done|]. split; [apply plain_clean, FormatInt_plain|].
  exists (JNum (Strconv.FormatInt n)). split; [apply number_reads|done].
Qed.

(** The members of an object, each accepted or not. *)
Definition members_storable (h : Z) (l : list (string * string)) (bs : list bool) : Prop :=
  Forall2 (fun x b => plain x.1 /\ storable h x.2 b) l bs.

Lemma members_tree h l bs : members_storable h l bs ->
  exists m : list member, l = fst <$> m /\ Forall (member_ok h) m
  /\ jsonb_ok (tree m) = forallb (fun b => b) bs.
Proof.
  induction 1 as [|[k t] b l bs [Hk [_ (v & Hv & Hb)]] H (m & -> & Hm & Hj)]; [by exists []|].
  exists ((k, t, v) :: m). split; [done|]. split; [by apply Forall_cons|].
  change (jsonb_ok (tree ((k, t, v) :: m))) with (jsonb_string k && jsonb_ok v && jsonb_ok (tree m)).
  cbn [fst] in Hk. by rewrite (jsonb_plain k), Hb, Hj.
Qed.

Lemma object_storable h l bs :
  l <> [] -> members_storable h l bs -> 0 <= h -> storable (h + 1) (object l) (forallb (fun b => b) bs).
Proof.
  intros Hne H Hh. split.
  - apply object_clean. clear Hne. induction H as [|x b l bs [_ [Hc _]] H IH]; by constructor.
  - destruct (members_tree _ _ _ H) as (m & -> & Hm & Hb). exists (tree m). split; [|done].
    apply object_reads; [by destruct m|done|done].
Qed.

(** A member left out when it is zero. *)
Lemma omit_string_storable h k s : 0 <= h -> plain k ->
  exists bs, members_storable h (omit_string k s) bs /\ forallb (fun b => b) bs = nul_free s.
Proof.
  intros Hh Hk. unfold omit_string. destruct (s == "") eqn:E; bools; [subst; exists []; by split; [constructor|]|].
  exists [nul_free s]. split; [|by cbn; rewrite andb_true_r]. apply Forall2_cons. split; [|by apply Forall2_nil].
  split; [done|by apply lit_storable].
Qed.

Lemma omit_int_storable h k n : 0 <= h -> plain k ->
  exists bs, members_storable h (omit_int k n) bs /\ forallb (fun b => b) bs = true.
Proof.
  intros Hh Hk. unfold omit_int. destruct (n =? 0); [exists []; by split; [constructor|]|].
  exists [true]. split; [|done]. apply Forall2_cons. split; [|by apply Forall2_nil].
  split; [done|by apply number_storable].
Qed.
