(* ===== verification/Envelopes.v ===== *)
(** * Envelopes and the outbox

    The payload of every event the domain builds is a JSON document whose
    members are the columns written beside it, so the CHECKs of the outbox
    never refuse an event; PostgreSQL refuses the row exactly when a text of the
    event has a zero byte, or its correlation or causation is not UTF-8. *)

From S2P Require Import Prelude GoStd Codec JsonText JsonRound Errors Ident Money Wallet Ledger Wager.
From S2P Require Import Evaluate Command Events Timestamps Transport Documents Session Database Sql Jsonb.
Import Str Strconv.

(** ** The data of an event *)

#[local] Hint Extern 1 (0 <= _) => done : core.

Lemma plain_substring n m s : plain s -> plain (String.substring n m s).
Proof.
  revert n m. induction s as [|c s IH]; intros [|n] [|m] H; try done; apply plain_cons in H as [Hc Hs].
  - cbn [String.substring all_chars]. by rewrite Hc, IH.
  - by apply IH.
  - by apply IH.
Qed.

Lemma Money_String_plain m : Valid m = true -> plain (Money_String m).
Proof.
  intros Hv. unfold Money_String. rewrite Hv. cbn [negb]. pose proof (FormatInt_plain (minor m)) as H.
  assert (Hp : forall n s, plain s -> plain (pad3 n s)).
  { induction n as [|n IH]; intros s Hs; [done|]. cbn [pad3]. case_match; [|done]. apply IH. exact Hs. }
  assert (Hc : forall p s, plain p -> plain s ->
    plain (p +:+ String.substring 0 (len s - 2) s +:+ "." +:+ String.substring (len s - 2) 2 s)).
  { intros p s H1 H2. repeat apply plain_app; try done; by apply plain_substring. }
  revert H. generalize (FormatInt (minor m)). intros s Hs. destruct s as [|c t]; [by apply Hc, Hp|].
  assert (Ht : plain t) by by apply plain_cons in Hs as [_ Ht].
  destruct c as [[] [] [] [] [] [] [] []]; (apply Hc; [done|by apply Hp]).
Qed.

Lemma money_storable m t : money_json m = Ok t -> storable 1 t true.
Proof.
  intros H. pose proof (money_json_reads m t H) as (Hv & -> & _).
  apply (object_storable 0 _ [true; true]); [done| |done].
  assert (Hs : nul_free (Money_String m) = true) by by apply plain_nul_free, Money_String_plain.
  assert (Hc : nul_free (currency m) = true) by by apply plain_nul_free, plain_currency.
  constructor; [|constructor; [|constructor]]; (split; [done|]); cbn [fst snd];
    [rewrite <- Hs|rewrite <- Hc]; by apply lit_storable.
Qed.

Lemma ID_plain i : plain (ID_String i).
Proof.
  destruct (decide (i = zeroID)) as [->|Hi]; [by vm_compute|].
  by eapply (ParseID_plain (ID_String i)), ParseID_String.
Qed.

Lemma id_storable h i : 0 <= h -> storable h (id_json i) true.
Proof. intros Hh. rewrite <- (plain_nul_free _ (ID_plain i)). by apply lit_storable. Qed.

(** Members of a document, given one after the other. *)
Lemma members_nil h : members_storable h [] [].
Proof. constructor. Qed.

Lemma members_text h k t b l bs :
  plain k -> storable h t b -> members_storable h l bs -> members_storable h ((k, t) :: l) (b :: bs).
Proof. intros Hk Ht Hl. constructor; [done|exact Hl]. Qed.

Lemma members_app h l l' bs bs' :
  members_storable h l bs -> members_storable h l' bs' -> members_storable h (l ++ l') (bs ++ bs').
Proof. apply Forall2_app. Qed.

Lemma forallb_app (l l' : list bool) :
  forallb (fun b => b) (l ++ l') = forallb (fun b => b) l && forallb (fun b => b) l'.
Proof. induction l as [|b l IH]; [done|]. cbn. by rewrite IH, andb_assoc. Qed.

(** The texts of an event that a client or a decision chose. *)
Definition wager_texts (d : WagerData) : list string :=
  [wgProviderID d; wgExternalTransactionID d; wgRoundID d; wgGameID d; wgFailureCode d;
   wgReferenceExternalTransactionID d].

Lemma wager_words d : wager_valid d -> plain (wgKind d) /\ plain (wgStatus d).
Proof.
  intros (Hb & _ & Hs). split.
  - by destruct (wager_kind d Hb) as [->|[->|[->|[->|[->| ->]]]]].
  - by destruct (wager_status d Hs) as [->|[->|[->|[->| ->]]]].
Qed.

Lemma wager_data_storable d t : wager_valid d -> wagerEventData_json (wager_event_data d) = Ok t ->
  storable 2 t (forallb nul_free (wager_texts d)).
Proof.
  intros Hv H. destruct (wager_words d Hv) as [Hk Hs]. unfold wagerEventData_json in H.
  apply bind_Ok in H as (money & Hm & H). apply bind_Ok in H as (balance & Hb & [= <-]). apply money_storable in Hm.
  assert (Hbal : exists bs, members_storable 1 balance bs /\ forallb (fun b => b) bs = true).
  { destruct (edBalance (wager_event_data d)) as [b|]; [|injection Hb as <-; by exists []; split; [constructor|]].
    apply bind_Ok in Hb as (bt & Hbt & [= <-]). exists [true]. split; [|done].
    apply members_text; [done|by eapply money_storable|apply members_nil]. }
  destruct Hbal as (b0 & Hb0 & E0). pose proof (fun k s => omit_string_storable 1 k s ltac:(done)) as Ho.
  destruct (Ho "providerId" (wgProviderID d)) as (b1 & Hb1 & E1); [done|].
  destruct (Ho "externalTransactionId" (wgExternalTransactionID d)) as (b2 & Hb2 & E2); [done|].
  destruct (Ho "roundId" (wgRoundID d)) as (b3 & Hb3 & E3); [done|].
  destruct (Ho "gameId" (wgGameID d)) as (b4 & Hb4 & E4); [done|].
  destruct (Ho "failureCode" (wgFailureCode d)) as (b5 & Hb5 & E5); [done|].
  destruct (omit_int_storable 1 "walletVersion" (wgResultVersion d)) as (b6 & Hb6 & E6); [done..|].
  destruct (Ho "referenceExternalTransactionId" (wgReferenceExternalTransactionID d)) as (b7 & Hb7 & E7); [done|].
  assert (Hword : forall w, plain w -> storable 1 (Json.string_lit w) true).
  { intros w Hw. rewrite <- (plain_nul_free w Hw). by apply lit_storable. }
  assert (E : forallb nul_free (wager_texts d) = forallb (fun b => b)
    ([true; true; true] ++ b1 ++ b2 ++ b3 ++ b4 ++ [true; true; true] ++ b5 ++ b0 ++ b6 ++ b7)).
  { rewrite !forallb_app, E0, E1, E2, E3, E4, E5, E6, E7. unfold wager_texts. cbn [forallb andb].
    by rewrite andb_true_r. }
  rewrite E. apply (object_storable 1); [done| |done].
  cbn [app wager_event_data edTransactionID].
  repeat first [apply members_app; [eassumption|]|apply members_text; [done|auto using id_storable|]]. exact Hb7.
Qed.

Lemma balance_data_storable entry version t :
  is_ok (NewLedgerEntry entry) = true -> WalletBalanceChangedData_json (balance_data entry version) = Ok t ->
  storable 2 t true.
Proof.
  intros Hn H. unfold WalletBalanceChangedData_json in H. apply bind_Ok in H as (m1 & H1 & H).
  apply bind_Ok in H as (m2 & H2 & H). apply bind_Ok in H as (m3 & H3 & [= <-]).
  apply money_storable in H1, H2, H3. cbn [balance_data bcWalletID bcTransactionID bcDirection bcWalletVersion].
  assert (Hd : plain (leDirection entry)).
  { unfold NewLedgerEntry in Hn. destruct (guard_err _ _); [|done]. cbn in Hn.
    destruct (leDirection entry == DirectionDebit) eqn:E1; bools; [by rewrite E1|].
    destruct (leDirection entry == DirectionCredit) eqn:E2; bools; [by rewrite E2|done]. }
  pose proof (lit_storable 1 (leDirection entry) ltac:(done)) as Hl. rewrite (plain_nul_free _ Hd) in Hl.
  apply (object_storable 1 _ [true; true; true; true; true; true; true]); [done| |done].
  repeat (apply members_text; [done|auto using id_storable, number_storable|]). apply members_nil.
Qed.

(** ** The envelope *)

(** The document, and what its members read as. *)
Definition envelope_members (meta : EventMeta) (agg : WalletID) (ty : string) (data : string * json) : list member :=
  [text "eventId" (ID_String (mtID meta)); text "eventType" ty; text "aggregateId" (ID_String agg);
   text "correlationId" (mtCorrelationID meta)]
  ++ (if mtCausationID meta == "" then [] else [text "causationId" (mtCausationID meta)])
  ++ [text "occurredAt" (Rfc3339.nano (mtOccurredAt meta)); ("version", "1", JNum "1"); ("data", data.1, data.2)].

Lemma envelope_reads meta agg ty data p b :
  envelope_json meta agg ty data = Ok p -> (forall t, data = Ok t -> storable 2 t b) ->
  exists d, p = written (envelope_members meta agg ty d) /\ data = Ok d.1
    /\ parse p = Some (tree (envelope_members meta agg ty d)) /\ clean p /\ jsonb_ok d.2 = b.
Proof.
  unfold envelope_json, time_json. destruct (Time.json_ok _); [|done]. rewrite Ok_bind. intros H Hd.
  apply bind_Ok in H as (t & Ht & [= <-]). destruct (Hd t Ht) as [Hcl (v & Hv & Hb)]. exists (t, v).
  assert (E : written (envelope_members meta agg ty (t, v)) = Json.object
     ([("eventId", id_json (mtID meta)); ("eventType", Json.string_lit ty); ("aggregateId", id_json agg);
       ("correlationId", Json.string_lit (mtCorrelationID meta))]
      ++ omit_string "causationId" (mtCausationID meta)
      ++ [("occurredAt", Json.string_lit (Rfc3339.nano (mtOccurredAt meta))); ("version", "1"); ("data", t)])).
  { unfold written, envelope_members, omit_string. by destruct (_ == ""). }
  split; [exact (eq_sym E)|]. split; [done|]. split; [|split; [|done]].
  - etransitivity; [apply (f_equal parse); exact (eq_sym E)|]. clear E. apply (object_parses 2); [done| |done].
    assert (Htx : forall k s, plain k -> member_ok 2 (text k s)).
    { intros k s Hk. split; [done|]. apply (reads_weaken 0); [done|]. apply string_reads. }
    assert (Hver : member_ok 2 ("version", "1", JNum "1")).
    { split; [done|]. apply (reads_weaken 0); [done|]. apply (number_reads 1). }
    unfold envelope_members. destruct (_ == ""); cbn [app];
      repeat (apply Forall_cons; split); try (by apply Htx); try exact Hver; [by split|by apply Forall_nil|by split|by apply Forall_nil].
  - clear E. apply object_clean. unfold omit_string. destruct (_ == ""); cbn [app];
      repeat (apply Forall_cons; split; [first [exact Hcl|apply lit_clean|by apply plain_clean]|]); by apply Forall_nil.
Qed.

(** A member of a document, as [->>] reads it. *)
Definition member_text (name : string) (l : list (string * json)) : option string :=
  match jsonb_member name l with Some (JStr raw) => Some (unquote raw) | Some (JNum n) => Some n | _ => None end.

(** The payload says what the columns beside it say. *)
Definition payload_says (e : Event) (correlation : string) (causation : option string) (l : list (string * json)) : Prop :=
  jsonb_in (ev_payload e) = Some l
  /\ member_text "eventId" l = Some (ID_String (ev_id e)) /\ member_text "eventType" l = Some (ev_type e)
  /\ member_text "aggregateId" l = Some (ID_String (ev_aggregateID e)) /\ member_text "version" l = Some "1"
  /\ member_text "occurredAt" l = Some (Rfc3339.nano (ev_occurredAt e))
  /\ member_text "correlationId" l = Some correlation /\ member_text "causationId" l = causation.

Lemma unquote_id i : unquote (escaped (ID_String i)) = ID_String i.
Proof. apply unquote_escaped, plain_valid, ID_plain. Qed.

(** What the members of an envelope are made of. *)
Lemma envelope_ok meta agg ty (d : string * json) : plain ty ->
  jsonb_ok (tree (envelope_members meta agg ty d))
  = nul_free (mtCorrelationID meta) && nul_free (mtCausationID meta) && jsonb_ok d.2.
Proof.
  intros Hty. assert (Hl : forall k s (l : list member), plain k ->
    jsonb_ok (tree (text k s :: l)) = nul_free s && jsonb_ok (tree l)).
  { intros k s l Hk. change (jsonb_ok (tree (text k s :: l))) with (jsonb_string k && jsonb_string (escaped s) && jsonb_ok (tree l)).
    by rewrite jsonb_plain, jsonb_escaped by done. }
  unfold envelope_members. cbn [app]. rewrite !Hl by done.
  rewrite !(plain_nul_free (ID_String _)), (plain_nul_free ty) by (apply ID_plain || done). cbn [andb].
  rewrite <- andb_assoc. f_equal.
  assert (Hrest : jsonb_ok (tree [text "occurredAt" (Rfc3339.nano (mtOccurredAt meta)); ("version", "1", JNum "1"); ("data", d.1, d.2)]) = jsonb_ok d.2).
  { rewrite Hl, (plain_nul_free _ (proj1 (nano_plain _))) by done. cbn [andb].
    change (jsonb_ok (tree [("version", "1", JNum "1"); ("data", d.1, d.2)])) with
      (jsonb_string "version" && true && (jsonb_string "data" && jsonb_ok d.2 && true)).
    rewrite !jsonb_plain by done. cbn [andb]. apply andb_true_r. }
  destruct (mtCausationID meta == "") eqn:E; bools; cbn [app]; [by rewrite E, Hrest|]. by rewrite Hl, Hrest.
Qed.

(** What PostgreSQL makes of a payload, whatever else it says. *)
Lemma envelope_in meta agg ty data p b :
  envelope_json meta agg ty data = Ok p -> plain ty -> (forall t, data = Ok t -> storable 2 t b) ->
  exists d, jsonb_in p =
    if nul_free (mtCorrelationID meta) && nul_free (mtCausationID meta) && b
    then Some ((fun x => (x.1.1, x.2)) <$> envelope_members meta agg ty d) else None.
Proof.
  intros Hp Hty Hd. destruct (envelope_reads _ _ _ _ _ _ Hp Hd) as (d & _ & _ & Hparse & Hclean & <-). exists d.
  unfold jsonb_in. rewrite (proj2 (text_in_spec p) Hclean). cbn [negb]. rewrite Hparse, envelope_ok by done.
  by destruct (_ && _ && _).
Qed.

(** The insertion of an event: the row it stores, when PostgreSQL takes its texts. *)
Definition stored_or_taken (e : Event) (correlation : string) (causation : option string) (cx : Cx) (d : Db) : outcome Db lock string :=
  if is_some (outbox d !! ev_id e) then unique_violation "outbox_pkey"
  else writes (ID_String (ev_id e))
         (set_outbox (<[ev_id e := mkOutboxRow (ev_type e) 1 "Wallet" (ev_aggregateID e) correlation causation
            (ev_payload e) (cx_clock cx 0) 0 (cx_clock cx 1) None None None]>)) [LOutbox (ev_id e)] [].

Definition insert_event (meta : EventMeta) (e : Event) : statement string :=
  insert_outbox (ev_id e) (ev_type e) (Event_Version e) (ev_aggregateID e) (mtCorrelationID meta)
    (optional (mtCausationID meta)) (ev_payload e).

Definition fits (meta : EventMeta) (e : Event) (b : bool) : Prop :=
  forall cx d,
  if texts_in [mtCorrelationID meta; mtCausationID meta] && b then
    (exists l, payload_says e (mtCorrelationID meta) (optional (mtCausationID meta)) l)
    /\ insert_event meta e cx d = stored_or_taken e (mtCorrelationID meta) (optional (mtCausationID meta)) cx d
  else insert_event meta e cx d = bad_text \/ insert_event meta e cx d = invalid_text.

Lemma newEvent_fits meta agg ty data b e :
  newEvent meta agg ty data = Ok e -> plain ty -> (forall t, data = Ok t -> storable 2 t b) -> fits meta e b.
Proof.
  unfold newEvent. intros H Hty Hd cx d. apply guard_else_Ok in H as [_ H]. apply bind_Ok in H as (p & Hp & [= <-]).
  destruct (envelope_in _ _ _ _ _ _ Hp Hty Hd) as (m & Hin). unfold insert_event, insert_outbox, stored_or_taken.
  cbn [ev_payload ev_id ev_type ev_aggregateID Event_Version].
  assert (Hco : coalesce (optional (mtCausationID meta)) = mtCausationID meta).
  { unfold optional. destruct (_ == "") eqn:E; bools; by rewrite ?E. }
  unfold texts_in. cbn [forallb]. rewrite Hco, (plain_text _ Hty). cbn [andb].
  destruct (text_in (mtCorrelationID meta) && (text_in (mtCausationID meta) && true)) eqn:Ht; [|by left].
  cbn [negb andb]. rewrite Hin. rewrite !andb_true_iff in Ht. destruct Ht as (Hc1 & Hc2 & _).
  apply text_in_spec in Hc1 as [Hu1 Hn1], Hc2 as [Hu2 Hn2]. rewrite Hn1, Hn2. cbn [andb]. destruct b; [|by right].
  pose proof (unquote_id (mtID meta)) as U1. pose proof (unquote_id agg) as U2.
  assert (U3 : unquote (escaped ty) = ty) by by apply unquote_escaped, plain_valid.
  assert (U4 : unquote (escaped (Rfc3339.nano (mtOccurredAt meta))) = Rfc3339.nano (mtOccurredAt meta))
    by apply unquote_escaped, plain_valid, nano_plain.
  rewrite Hn1, Hn2 in Hin. cbn [andb] in Hin.
  set (l := (fun x => (x.1.1, x.2)) <$> envelope_members meta agg ty m) in *.
  assert (Hmem : jsonb_member "eventId" l = Some (JStr (escaped (ID_String (mtID meta))))
    /\ jsonb_member "eventType" l = Some (JStr (escaped ty))
    /\ jsonb_member "aggregateId" l = Some (JStr (escaped (ID_String agg)))
    /\ jsonb_member "version" l = Some (JNum "1")
    /\ jsonb_member "occurredAt" l = Some (JStr (escaped (Rfc3339.nano (mtOccurredAt meta))))
    /\ jsonb_member "correlationId" l = Some (JStr (escaped (mtCorrelationID meta)))
    /\ jsonb_member "causationId" l = ((fun s => JStr (escaped s)) <$> optional (mtCausationID meta))).
  { unfold l, envelope_members, optional. destruct (mtCausationID meta == ""); split_and!; reflexivity. }
  destruct Hmem as (M1 & M2 & M3 & M4 & M5 & M6 & M7). split.
  - exists l. unfold payload_says, member_text. cbn [ev_payload ev_id ev_type ev_aggregateID ev_occurredAt].
    rewrite M1, M2, M3, M4, M5, M6, M7, U1, U2, U3, U4, unquote_escaped by done. split_and!; try done.
    unfold optional. destruct (_ == ""); [done|]. cbn. by rewrite unquote_escaped.
  - unfold outbox_checks, member_is. rewrite M1, M2, M3, M4, U1, U2, U3. by rewrite !bool_decide_eq_true_2.
Qed.

(** The events the domain builds, each with the texts in it that a client or a
    decision chose. *)
Inductive built (meta : EventMeta) : Event -> list string -> Prop :=
| built_wager d e :
    (NewWagerProcessed meta d = Ok e \/ NewWagerRejected meta d = Ok e
     \/ NewWagerPendingReference meta d = Ok e \/ NewWagerFailed meta d = Ok e) ->
    built meta e (wager_texts d)
| built_balance entry version e :
    NewWalletBalanceChanged meta entry version = Ok e -> built meta e [].

Lemma newWagerEvent_fits meta d st ty e :
  newWagerEvent meta d st ty = Ok e -> plain ty -> fits meta e (forallb nul_free (wager_texts d)).
Proof.
  unfold newWagerEvent. intros H Hty. rewrite seq_Ok, validateWager_Ok, guard_else_Ok in H. destruct H as (Hv & _ & H).
  eapply newEvent_fits; [exact H|done|]. intros t. by apply wager_data_storable.
Qed.


(** ** At a settled bet, and at one whose round has a zero byte *)

Definition bet_meta : EventMeta := mkEventMeta (demo_id 9) "bet-1" "" 1600.
Definition bet_event (d : WagerData) : option Event :=
  match NewWagerProcessed bet_meta d with Ok e => Some e | Err _ => None end.
Definition bet_zero : WagerData :=
  let d := demo_bet_processed in
  mkWagerData (wgID d) (wgWalletID d) (wgPlayerID d) (wgProviderID d) (wgExternalTransactionID d) (wgIdempotencyKey d)
    (wgPayloadHash d) (Str.bytes [48; 0]) (wgGameID d) (wgKind d) (wgMoney d) (wgReferenceExternalTransactionID d)
    (wgReferenceID d) (wgStatus d) (wgFailureCode d) (wgResultBalance d) (wgResultVersion d) (wgCreatedAt d) (wgUpdatedAt d)
    (wgCompletedAt d).

