(* ===== verification/Store.v ===== *)
(** * The store: [internal/adapters/postgres] process.go, store.go, events.go

    The atomic application boundary: every write of a command is made by one
    transaction.  Each method is a [program]: the statements of Sql.v in the
    order the method issues them, with the Go code between them. *)

From S2P Require Import Prelude GoStd Errors Ident Money Wallet Ledger Wager Evaluate Command.
From S2P Require Import Events Session Database Sql.
Import Str.
#[local] Open Scope prog_scope.

(** ** Rows and identifiers *)

Definition walletView (w : WalletData) : WalletView :=
  mkWalletView (ID_String (wID w)) (ID_String (wPlayerID w)) (wBalance w) (wVersion w)
    (wCreatedAt w) (wUpdatedAt w).

(** [row.Scan]: no row is [pgx.ErrNoRows]. *)
Definition scan {A} (row : option A) : res A :=
  match row with Some r => Ok r | None => Err NoRows end.

Definition scanWallet (row : option wallet_columns) : res WalletData :=
  c ← scan row;
  uid ← ParseID (wc_id c);
  pid ← ParseID (wc_player c);
  balance ← NewMoney (wc_balance c) (wc_currency c);
  let w := mkWalletData uid pid balance (wc_version c) (wc_created c) (wc_updated c) in
  _ ← RehydrateWallet w;
  Ok w.

Definition scanWager (row : option wager_columns) : res WagerData :=
  c ← scan row;
  id ← ParseID (tc_id c);
  wallet ← ParseID (tc_wallet c);
  player ← ParseID (tc_player c);
  reference ← (if tc_reference c == "" then Ok zeroID else ParseID (tc_reference c));
  money ← NewMoney (tc_amount c) (tc_currency c);
  '(balance, version) ←
    (match tc_rbalance c, tc_rversion c, tc_rcurrency c with
     | Some b, Some v, Some cur => m ← NewMoney b cur; Ok (m, v)
     | _, _, _ => Ok (Money0, 0)
     end);
  let d :=
    mkWagerData id wallet player (tc_provider c) (tc_external c) (tc_key c) (tc_hash c)
      (tc_round c) (tc_game c) (tc_kind c) money (tc_refext c) reference (tc_status c)
      (tc_failure c) balance version (tc_created c) (tc_updated c) (tc_completed c) in
  _ ← RehydrateWager d;
  Ok d.

(** [tx.QueryRow(...).Scan(...)] with its row function. *)
Definition query_row {R A} (s : statement R) (f : R -> res A) : program (res A) :=
  r <-- exec s;; lift (f r).

Definition allocateID : program (res ID) := query_row allocate_id ParseID.

Definition lockWallet (id : string) : program (res WalletData) :=
  uid <-- lift (ParseID id);;
  r <-- query_row (get_wallet_for_update uid) scan;;
  pid <-- lift (ParseID (wc_player r));;
  balance <-- lift (NewMoney (wc_balance r) (wc_currency r));;
  let w := mkWalletData uid pid balance (wc_version r) (wc_created r) (wc_updated r) in
  _ <-- lift (RehydrateWallet w);;
  ret w.

Definition resultOf (d : WagerData) (w : WalletData) (replay : bool) : Result :=
  let '(balance, version) :=
    if Terminal (wgStatus d) then (wgResultBalance d, wgResultVersion d)
    else (wBalance w, wVersion w) in
  mkResult (ID_String (wgID d)) (wgStatus d) balance version (wgFailureCode d) replay.

(** ** Events *)

(** [json.Marshal(event)], which calls [MarshalJSON]. *)
Definition event_json (event : Event) : res string :=
  match Event_MarshalJSON event with
  | Ok payload => Ok payload
  | Err e => Err (Wrapped "json: error calling MarshalJSON for type domain.Event" e)
  end.

Definition insertEvent (event : Event) (correlation causation : string) : program (res unit) :=
  payload <-- lift (event_json event);;
  _ <-- exec (insert_outbox (ev_id event) (ev_type event) (Event_Version event)
                (ev_aggregateID event) correlation (optional causation) payload);;
  ret tt.

(** The [switch d.Status]; a status it does not list leaves the zero [Event],
    which [insertEvent] refuses. *)
Definition status_event (meta : EventMeta) (d : WagerData) : res Event :=
  if wgStatus d == StatusProcessed then NewWagerProcessed meta d
  else if wgStatus d == StatusRejected then NewWagerRejected meta d
  else if wgStatus d == StatusPendingReference then NewWagerPendingReference meta d
  else if wgStatus d == StatusFailed then NewWagerFailed meta d
  else Ok (mkEvent zeroID zeroID "" 0 "").

Definition writeEvents (d : WagerData) (w : WalletData) (entry : option LedgerData)
    (correlation causation : string) (now : Z) : program (res unit) :=
  id <-- allocateID;;
  let meta := mkEventMeta id correlation causation now in
  event <-- lift (status_event meta d);;
  insertEvent event correlation causation;;;
  match entry with
  | None => ret tt
  | Some entry =>
      id <-- allocateID;;
      let meta := mkEventMeta id correlation causation now in
      event <-- lift (NewWalletBalanceChanged meta entry (wVersion w));;
      insertEvent event correlation causation
  end.

(** ** Persisting a decision *)

(** The parameters of the UPDATE: NULL where the snapshot has no value. *)
Definition outcome_of (d : WagerData) : wager_outcome :=
  let terminal := Terminal (wgStatus d) in
  mkOutcomeRow
    (if wgReferenceID d != zeroID then Some (wgReferenceID d) else None)
    (wgStatus d) (optional (wgFailureCode d))
    (if terminal then Some (minor (wgResultBalance d)) else None)
    (if terminal then Some (currency (wgResultBalance d)) else None)
    (if terminal then Some (wgResultVersion d) else None)
    (timestamptz (wgUpdatedAt d)) (timestamptz <$> wgCompletedAt d).

Definition persistResult (d : WagerData) : program (res unit) :=
  exec (update_result (wgID d) (outcome_of d)).

Definition insertLedger (d : WagerData) (direction : Direction) (before after : Money) (now : Z) :
    program (res LedgerData) :=
  id <-- allocateID;;
  entry <-- lift (NewLedgerEntry
                    (mkLedgerData id (wgWalletID d) (wgID d) direction (wgMoney d) before after now));;
  let e := ledger_Snapshot entry in
  persisted <-- exec (insert_ledger_row e);;
  ret (mkLedgerData (leID e) (leWalletID e) (leTransactionID e) (leDirection e) (leMoney e)
         (leBalanceBefore e) (leBalanceAfter e) (snd persisted)).

(** ** apply *)

(** The reference the request names, locked when it is in the same wallet, and
    whether a processed refund or rollback already points at it. *)
Definition find_reference (w : WalletData) (d : WagerData) :
    program (res (option WagerData * bool)) :=
  if wgReferenceExternalTransactionID d == "" then ret (None, false)
  else
    found <-- bind (query_row (select_external (wgProviderID d) (wgReferenceExternalTransactionID d))
                      scanWager)
                (fun r => match r with
                          | Ok ref => ret (Some ref)
                          | Err e => if is_no_rows e then ret None else fail (dbError e)
                          end);;
    match found with
    | None => ret (None, false)
    | Some ref =>
        ref <-- (if wgWalletID ref == wID w
                 then map_err dbError (query_row (select_wager_for_update (wgID ref)) scanWager)
                 else ret ref);;
        reversed <-- map_err dbError (exec (exists_reversal (wgID ref)));;
        ret (Some ref, reversed)
    end.

(** The decision once the wait has expired. *)
Definition expire (expired : bool) (decision : Decision) : Decision :=
  if dcPending decision && expired
  then mkDecision (dcDirection decision) false "REFERENCE_NOT_FOUND" else decision.

(** The [default] case: move the money, process the transaction, and write the
    wallet and the ledger entry when money moved. *)
Definition execute (w : WalletData) (wg : WagerTransaction) (reference : option WagerData)
    (direction : Direction) (now : Z) :
    program (res (WagerTransaction * WalletData * option LedgerData)) :=
  let d := wager_Snapshot wg in
  let before := wBalance w in
  wallet <-- lift (RehydrateWallet w);;
  wallet <-- lift (move_wallet wallet direction (wgMoney d) now);;
  let w := Wallet_Snapshot wallet in
  let referenceID := match reference with Some r => wgID r | None => zeroID end in
  wg <-- lift (Process (Some wg) (wBalance w) (wVersion w) referenceID now);;
  if direction == DirectionNone then ret (wg, w, None)
  else
    _ <-- map_err dbError
            (exec (update_wallet (wID w) (minor (wBalance w)) (wVersion w) (wUpdatedAt w)));;
    entry <-- map_err dbError
                (insertLedger (wager_Snapshot wg) direction before (wBalance w) now);;
    ret (wg, w, Some entry).

Definition carry_out (w : WalletData) (wg : WagerTransaction) (reference : option WagerData)
    (decision : Decision) (now : Z) :
    program (res (WagerTransaction * WalletData * option LedgerData)) :=
  if dcPending decision then
    wg <-- lift (PendingReference (Some wg) now);; ret (wg, w, None)
  else if negb (dcFailureCode decision == "") then
    wg <-- lift (Reject (Some wg) (dcFailureCode decision) (wBalance w) (wVersion w) now);;
    ret (wg, w, None)
  else execute w wg reference (dcDirection decision) now.

Definition apply (w : WalletData) (wg : WagerTransaction) (correlation causation : string)
    (expired : bool) : program (res Result) :=
  let d := wager_Snapshot wg in
  let wasPendingReference := wgStatus d == StatusPendingReference in
  reference <-- find_reference w d;;
  decision <-- lift (Evaluate w d (fst reference) (snd reference));;
  now <-- now;;
  let decision := expire expired decision in
  done <-- carry_out w wg (fst reference) decision now;;
  let '(wg, w, ledger) := done in
  let d := wager_Snapshot wg in
  map_err dbError (persistResult d);;;
  (if (wgStatus d == StatusPendingReference) && wasPendingReference then ret tt
   else map_err dbError (writeEvents d w ledger correlation causation now));;;
  ret (resultOf d w false).

(** ** The inbox *)

(** The transaction a completed delivery points at, or [""] when this delivery
    now owns the row. *)
Definition reserveInbox (m : InboxMessage) : program (res string) :=
  match Hex.decode (imPayloadHash m) with
  | Some hash =>
      if negb (len hash =? 32)%nat || (imConsumerName m == "") || (imMessageID m == "")
      then fail (AppError "INVALID_INPUT")
      else
        inserted <-- map_err dbError (exec (insert_inbox (imConsumerName m) (imMessageID m) hash));;
        match inserted with
        | Some _ => ret ""
        | None =>
            row <-- map_err dbError
                      (query_row (select_inbox (imConsumerName m) (imMessageID m)) scan);;
            let '(stored, wager, completed) := row in
            if stored != imPayloadHash m then fail (AppError "INBOX_MESSAGE_REUSED")
            else match wager, completed with
                 | Some wager, Some _ => ret wager
                 | _, _ => fail (AppError "UNAVAILABLE")
                 end
        end
  | None => fail (AppError "INVALID_INPUT")
  end.

Definition completeInbox (m : option InboxMessage) (transactionID : string) : program (res unit) :=
  match m with
  | None => ret tt
  | Some m => exec (complete_inbox (imConsumerName m) (imMessageID m) transactionID)
  end.

(** ** ProcessWager *)

Definition findIdentity (c : Command) (hash : string) : program (res (option WagerData)) :=
  bind (query_row (select_identity (cProviderID c) (cIdempotencyKey c) (cExternalTransactionID c))
          scanWager)
    (fun r => match r with
              | Ok d =>
                  if wgIdempotencyKey d != cIdempotencyKey c
                  then fail (AppError "EXTERNAL_TRANSACTION_ID_REUSED")
                  else if wgPayloadHash d != hash then fail (AppError "IDEMPOTENCY_KEY_REUSED")
                  else ret (Some d)
              | Err e => if is_no_rows e then ret None else fail (dbError e)
              end).

Definition commitReplay (inbox : option InboxMessage) (d : WagerData) : program (res Result) :=
  w <-- map_err dbError (query_row (select_wallet (ID_String (wgWalletID d))) scanWallet);;
  map_err dbError (completeInbox inbox (ID_String (wgID d)));;;
  map_err dbError commit;;;
  ret (resultOf d w true).

(** A delivery the inbox already completed. *)
Definition inboxReplay (c : Command) (existing : string) : program (res Result) :=
  d <-- map_err dbError (query_row (select_wager existing) scanWager);;
  if wgProviderID d != cProviderID c then fail (AppError "INBOX_MESSAGE_REUSED")
  else
    w <-- map_err dbError (query_row (select_wallet (ID_String (wgWalletID d))) scanWallet);;
    map_err dbError commit;;;
    ret (resultOf d w true).

(** The snapshot [ProcessWager] builds for a new request. *)
Definition new_wager_data (c : Command) (hash : string) (id : ID) (w : WalletData) (pid : ID)
    (now : Z) : WagerData :=
  mkWagerData id (wID w) pid (cProviderID c) (cExternalTransactionID c) (cIdempotencyKey c) hash
    (cRoundID c) (cGameID c) (cKind c) (cMoney c) (cReferenceExternalTransactionID c) zeroID
    StatusPending "" Money0 0 now now None.

Definition insertWager (c : Command) (hash : string) (id : ID) (now : Z) :
    program (res (option string)) :=
  exec (insert_wager id (cProviderID c) (cExternalTransactionID c) (cIdempotencyKey c) hash
          (cWalletID c) (cPlayerID c) (cRoundID c) (cGameID c) (cKind c) (minor (cMoney c))
          (currency (cMoney c)) (optional (cReferenceExternalTransactionID c))
          (cCorrelationID c) (optional (cCausationID c)) now).

(** From the wallet lock on. *)
Definition process_new (c : Command) (hash : string) (inbox : option InboxMessage) :
    program (res Result) :=
  w <-- map_err dbError (lockWallet (cWalletID c));;
  if ID_String (wPlayerID w) != cPlayerID c then fail (AppError "PLAYER_MISMATCH")
  else
    id <-- map_err dbError allocateID;;
    let pid := match ParseID (cPlayerID c) with Ok pid => pid | Err _ => zeroID end in
    now <-- now;;
    wg <-- lift (NewWager (new_wager_data c hash id w pid now));;
    inserted <-- map_err dbError (insertWager c hash id now);;
    match inserted with
    | None =>
        (* a fresh READ COMMITTED snapshot after waiting for the winner *)
        found <-- findIdentity c hash;;
        match found with
        | None => fail (AppError "UNAVAILABLE")
        | Some d => commitReplay inbox d
        end
    | Some _ =>
        result <-- apply w wg (cCorrelationID c) (cCausationID c) false;;
        map_err dbError (completeInbox inbox (rsTransactionID result));;;
        map_err dbError commit;;;
        ret result
    end.

Definition ProcessWager (c : Command) (inbox : option InboxMessage) : program (res Result) :=
  c <-- lift (NormalizeCommand c);;
  hash <-- lift (PayloadHash c);;
  map_err dbError (exec begin_tx);;;
  existing <-- match inbox with Some m => reserveInbox m | None => ret "" end;;
  if negb (existing == "") then inboxReplay c existing
  else
    found <-- findIdentity c hash;;
    match found with
    | Some d => commitReplay inbox d
    | None => process_new c hash inbox
    end.

(** ** CreateWallet *)

Definition corr_or (correlation : string) (id : ID) : string :=
  if correlation == "" then ID_String id else correlation.

(** The opening transaction, its ledger entry and its events. *)
Definition create_opening (c : CreateWalletCommand) (id pid : ID) (w : Wallet) (now : Z) :
    program (res unit) :=
  let money := cwInitialBalance c in
  tid <-- map_err dbError allocateID;;
  wg <-- lift (NewOpening
                 (mkWagerData tid id pid "" "" "" "" "" "" KindOpening money "" zeroID StatusPending
                    "" Money0 0 now now None));;
  wg <-- lift (Process (Some wg) money 1 zeroID now);;
  let d := wager_Snapshot wg in
  let corr := corr_or (cwCorrelationID c) id in
  map_err dbError (exec (insert_opening tid id pid (minor money) (currency money) corr now));;;
  zero <-- lift (Zero (currency money));;
  entry <-- map_err dbError (insertLedger d DirectionCredit zero money now);;
  map_err dbError (writeEvents d (Wallet_Snapshot w) (Some entry) corr "" now).

Definition CreateWallet (c : CreateWalletCommand) : program (res WalletView) :=
  pid <-- lift (ParseID (cwPlayerID c));;
  _ <-- lift (NewMoney (minor (cwInitialBalance c)) (currency (cwInitialBalance c)));;
  map_err dbError (exec begin_tx);;;
  id <-- map_err dbError allocateID;;
  now <-- now;;
  w <-- lift (NewWallet (mkWalletData id pid (cwInitialBalance c) 1 now now));;
  map_err dbError (exec (insert_wallet id pid (currency (cwInitialBalance c))
                           (minor (cwInitialBalance c)) now));;;
  (if 0 <? minor (cwInitialBalance c) then create_opening c id pid w now else ret tt);;;
  map_err dbError commit;;;
  ret (walletView (Wallet_Snapshot w)).

(** ** Reads *)

Definition GetWallet (id : string) : program (res WalletView) :=
  _ <-- lift (ParseID id);;
  w <-- map_err dbError (query_row (select_wallet id) scanWallet);;
  ret (walletView w).

Definition getTransaction (s : statement (option wager_columns)) : program (res Result) :=
  d <-- map_err dbError (query_row s scanWager);;
  w <-- map_err dbError (query_row (select_wallet (ID_String (wgWalletID d))) scanWallet);;
  ret (resultOf d w false).

Definition GetTransaction (provider id : string) : program (res Result) :=
  _ <-- lift (ParseID id);; getTransaction (select_provider_wager provider id).

Definition GetExternalTransaction (provider external : string) : program (res Result) :=
  getTransaction (select_external provider external).
