(* ===== verification/Work.v ===== *)
(** * The workers' store: [internal/adapters/postgres/work.go]

    Leases on the outbox and on the transactions that wait, the retry of a
    waiting transaction, and what the workers' queries return. *)

From stdpp Require Import sorting.
From S2P Require Import Prelude GoStd Errors Ident Money Wallet Ledger Wager Evaluate Command.
From S2P Require Import Events Session Database Sql Store.
Import Str.
#[local] Open Scope prog_scope.

(** ** Types of [application/contracts.go] *)

Record OutboxRecord : Type := mkOutboxRecord {
  orEventID : string; orEventType : string; orAggregateID : string; orClaimToken : string;
  orPayload : string; orAttempts : Z
}.
Record ReferenceClaim : Type := mkReferenceClaim {
  rcTransactionID : string; rcWalletID : string; rcClaimToken : string; rcAttempts : Z;
  rcCreatedAt : Z
}.
Record Backlog : Type := mkBacklog { blOutboxCount : Z; blReferenceCount : Z; blOldestOutboxAge : Z }.

Definition Millisecond : Z := 1000000.
(** [Duration.Milliseconds]. *)
Definition Milliseconds (d : Z) : Z := Z.quot d Millisecond.

(** ** Ordering and leases in SQL *)

(** An [integer] column. *)
Definition integer_overflow {R} : outcome Db lock R := refuse "22003" "".
Definition int4 (z : Z) : bool := z <=? 2147483647.

(** [ORDER BY at, then, id]. *)
Definition before (x y : Z * Z * ID) : bool :=
  let '(a, t, i) := x in
  let '(a', t', i') := y in
  if a <? a' then true else if a' <? a then false
  else if t <? t' then true else if t' <? t then false
  else String.leb (id_bytes i) (id_bytes i').

(** [... LIMIT n FOR UPDATE SKIP LOCKED]: the rows another session has locked
    are passed over before the limit counts. *)
Definition candidates {A} (cx : Cx) (P : ID -> A -> bool) (key : ID -> A -> Z * Z * ID) (limit : Z)
    (m : gmap ID A) : list (ID * A) :=
  take (Z.to_nat limit)
    (merge_sort (fun x y => Is_true (before (key x.1 x.2) (key y.1 y.2)))
       (filter (fun x => Is_true (P x.1 x.2 && negb (cx_skip cx x.1))) (map_to_list m))).

(** [claimed_until<clock_timestamp()]; a row without a lease can be claimed. *)
Definition lease_over (now : Z) (l : option lease) : bool :=
  match l with Some l => ls_until l <? now | None => true end.

(** The lease the [n]-th candidate gets: each row has a token and a clock of its
    own. *)
Definition new_lease (cx : Cx) (owner : string) (milliseconds : Z) (n : nat) : lease :=
  mkLease owner (cx_uuid cx n) (cx_clock cx n + milliseconds * Millisecond).

Definition leased {A} (cx : Cx) (owner : string) (milliseconds : Z) (l : list (ID * A)) :
    list (ID * A * lease) := imap (fun n x => (x, new_lease cx owner milliseconds n)) l.

Definition alter_all {A B} (f : B -> A -> A) (l : list (ID * B)) (m : gmap ID A) : gmap ID A :=
  foldl (fun m x => alter (f x.2) x.1 m) m l.

(** ** outbox *)

Definition outbox_leased (l : option lease) (r : outbox_row) : outbox_row :=
  mkOutboxRow (ob_type r) (ob_version r) (ob_aggregate_type r) (ob_aggregate r) (ob_correlation r)
    (ob_causation r) (ob_payload r) (ob_occurred r) (ob_attempts r) (ob_next r) l (ob_published r)
    (ob_error r).
Definition outbox_published (now : Z) (r : outbox_row) : outbox_row :=
  mkOutboxRow (ob_type r) (ob_version r) (ob_aggregate_type r) (ob_aggregate r) (ob_correlation r)
    (ob_causation r) (ob_payload r) (ob_occurred r) (ob_attempts r) (ob_next r) None (Some now) None.
Definition outbox_retried (next : Z) (r : outbox_row) : outbox_row :=
  mkOutboxRow (ob_type r) (ob_version r) (ob_aggregate_type r) (ob_aggregate r) (ob_correlation r)
    (ob_causation r) (ob_payload r) (ob_occurred r) (ob_attempts r + 1) next None (ob_published r)
    (Some "PUBLISH_FAILED").

Definition unpublished (r : outbox_row) : bool := negb (is_some (ob_published r)).

Definition outbox_due (cx : Cx) (i : ID) (r : outbox_row) : bool :=
  unpublished r && (ob_next r <=? cx_clock_at cx i 0) && lease_over (cx_clock_at cx i 1) (ob_lease r).

Definition outbox_record (x : ID * outbox_row * lease) : OutboxRecord :=
  let '(i, r, l) := x in
  mkOutboxRecord (ID_String i) (ob_type r) (ID_String (ob_aggregate r)) (ID_String (ls_token l))
    (ob_payload r) (ob_attempts r).

(** The claim: one UPDATE ... FROM candidates ... RETURNING.  The rows come in
    an order PostgreSQL leaves open; here, the candidates'.  The payload is the
    JSON document that was inserted: how [jsonb] spaces and orders it when it is
    read back is not modelled. *)
Definition claim_outbox (owner : string) (limit milliseconds : Z) : statement (list OutboxRecord) :=
  fun cx d =>
  if negb (text_in owner) then bad_text else
  let claimed := leased cx owner milliseconds
    (candidates cx (outbox_due cx) (fun i r => (ob_next r, ob_occurred r, i)) limit (outbox d)) in
  mkOutcome (Ok (outbox_record <$> claimed))
    (set_outbox (alter_all (fun l => outbox_leased (Some l)) ((fun x => (x.1.1, x.2)) <$> claimed)))
    ((fun x => LOutbox x.1.1) <$> claimed) [].

(** [... WHERE event_id=$1 AND claim_token=$2 AND published_at IS NULL]: the
    rows affected. *)
Definition update_claimed (id token : string) (ok : outbox_row -> bool) (f : Cx -> outbox_row -> outbox_row) :
    statement Z := fun cx d =>
  match uuid_in id, uuid_in token with
  | Some i, Some t =>
      match outbox d !! i with
      | Some r =>
          if negb (bool_decide (ls_token <$> ob_lease r = Some t) && unpublished r) then reads 0
          else if negb (ok r) then integer_overflow
          else writes 1 (set_outbox (alter (f cx) i)) [LOutbox i] []
      | None => reads 0
      end
  | _, _ => invalid_text
  end.

Definition mark_published (id token : string) : statement Z :=
  update_claimed id token (fun _ => true) (fun cx => outbox_published (cx_clock cx 0)).

Definition retry_outbox (id token : string) (milliseconds : Z) : statement Z :=
  update_claimed id token (fun r => int4 (ob_attempts r + 1))
    (fun cx => outbox_retried (cx_clock cx 0 + milliseconds * Millisecond)).

(** The leases of one owner, given up. *)
Definition owned (owner : string) (l : option lease) : bool :=
  match l with Some l => ls_by l == owner | None => false end.

Definition release_outbox (owner : string) : statement unit := fun _ d =>
  if negb (text_in owner) then bad_text else
  let ids := filter (fun x => Is_true (owned owner (ob_lease x.2) && unpublished x.2)) (map_to_list (outbox d)) in
  writes tt (set_outbox (alter_all (fun _ => outbox_leased None) ids))
    ((fun x => LOutbox x.1) <$> ids) [].

(** ** wager_transaction *)

(** The maintenance columns: attempts, next attempt, lease. *)
Definition wager_maintained (attempts : Z) (next : option Z) (l : option lease) (r : wager_row) : wager_row :=
  mkWagerRow (tr_request r) (tr_outcome r) (tr_correlation r) (tr_causation r) attempts next l.
Definition wager_leased (l : option lease) (r : wager_row) : wager_row :=
  wager_maintained (tr_attempts r) (tr_next r) l r.
Definition wager_attempted (r : wager_row) : wager_row :=
  wager_maintained (tr_attempts r + 1) (tr_next r) (tr_lease r) r.
Definition wager_delayed (next : Z) (r : wager_row) : wager_row :=
  wager_maintained (tr_attempts r) (Some next) (tr_lease r) r.

Definition waiting (r : wager_row) : bool := oc_status (tr_outcome r) == "PENDING_REFERENCE".

Definition reference_due (cx : Cx) (i : ID) (r : wager_row) : bool :=
  waiting r && match tr_next r with Some t => t <=? cx_clock_at cx i 0 | None => false end
  && lease_over (cx_clock_at cx i 1) (tr_lease r).

Definition reference_claim (x : ID * wager_row * lease) : ReferenceClaim :=
  let '(i, r, l) := x in
  mkReferenceClaim (ID_String i) (ID_String (rq_wallet (tr_request r))) (ID_String (ls_token l))
    (tr_attempts r) (rq_created (tr_request r)).

Definition claim_references (owner : string) (limit milliseconds : Z) : statement (list ReferenceClaim) :=
  fun cx d =>
  if negb (text_in owner) then bad_text else
  let claimed := leased cx owner milliseconds
    (candidates cx (reference_due cx)
       (fun i r => (default 0 (tr_next r), rq_created (tr_request r), i)) limit (wagers d)) in
  mkOutcome (Ok (reference_claim <$> claimed))
    (set_wagers (alter_all (fun l => wager_leased (Some l)) ((fun x => (x.1.1, x.2)) <$> claimed)))
    ((fun x => LWager x.1.1) <$> claimed)
    ((fun x => verify_wager_ledger x.1.1) <$> claimed).

(** [... WHERE id=$1 AND wallet_id=$2 AND reference_claim_token=$3 AND
    status='PENDING_REFERENCE' AND reference_claimed_until>clock_timestamp() FOR UPDATE]. *)
Definition holds_claim (wallet token : ID) (now : Z) (r : wager_row) : bool :=
  (rq_wallet (tr_request r) == wallet) && waiting r
  && match tr_lease r with Some l => (ls_token l == token) && (now <? ls_until l) | None => false end.

Definition select_claimed (id wallet token : string) : statement (option wager_columns) := fun cx d =>
  match uuid_in id, uuid_in wallet, uuid_in token with
  | Some i, Some w, Some t =>
      match wagers d !! i with
      | Some r =>
          if holds_claim w t (cx_clock cx 0) r
          then mkOutcome (Ok (Some (columns_of_wager i r))) Datatypes.id [LWager i] []
          else reads None
      | None => reads None
      end
  | _, _, _ => invalid_text
  end.

(** A guarded UPDATE of the maintenance columns of one row: the trigger refuses
    a terminal row, and the commit verifies the row again. *)
Definition maintain {R} (id : string) (ok : wager_row -> bool) (f : Cx -> wager_row -> wager_row)
    (reply : wager_row -> R) : statement (option R) := fun cx d =>
  match uuid_in id with
  | None => invalid_text
  | Some i =>
      match wagers d !! i with
      | None => reads None
      | Some r =>
          if Terminal (oc_status (tr_outcome r)) then check_violation ""
          else if negb (ok r) then integer_overflow
          else writes (Some (reply (f cx r))) (set_wagers (alter (f cx) i)) [LWager i] [verify_wager_ledger i]
      end
  end.

(** [UPDATE ... SET reference_attempts=reference_attempts+1 ... RETURNING]. *)
Definition bump_attempts (id : string) : statement (option (Z * string * option string)) :=
  maintain id (fun r => int4 (tr_attempts r + 1)) (fun _ => wager_attempted)
    (fun r => (tr_attempts r, tr_correlation r, tr_causation r)).

Definition clear_claim (id : string) : statement (option unit) :=
  maintain id (fun _ => true) (fun _ => wager_leased None) (fun _ => tt).

Definition delay_reference (id : string) (milliseconds : Z) : statement (option unit) :=
  maintain id (fun _ => true) (fun cx => wager_delayed (cx_clock cx 0 + milliseconds * Millisecond))
    (fun _ => tt).

Definition release_references (owner : string) : statement unit := fun _ d =>
  if negb (text_in owner) then bad_text else
  let ids := filter (fun x => Is_true (owned owner (tr_lease x.2) && waiting x.2)) (map_to_list (wagers d)) in
  writes tt (set_wagers (alter_all (fun _ => wager_leased None) ids))
    ((fun x => LWager x.1) <$> ids) ((fun x => verify_wager_ledger x.1) <$> ids).

(** ** Queue sizes *)

Definition count_rows {A} (P : A -> bool) (m : gmap ID A) : Z :=
  Z.of_nat (length (filter (fun x => Is_true (P x.2)) (map_to_list m))).

Definition oldest (l : list outbox_row) : option Z :=
  foldr (fun r o => Some (match o with Some t => Z.min (ob_occurred r) t | None => ob_occurred r end)) None l.

(** [(extract(epoch FROM age)*1000)::bigint]: the nearest millisecond, a half away
    from zero. *)
Definition epoch_milliseconds (age : Z) : Z :=
  Z.sgn age * ((Z.abs age + Millisecond / 2) / Millisecond).

Definition select_backlog : statement (Z * Z * Z) := fun cx d =>
  let old := oldest (List.filter unpublished (snd <$> map_to_list (outbox d))) in
  reads (count_rows unpublished (outbox d), count_rows waiting (wagers d),
         match old with Some t => epoch_milliseconds (cx_clock cx 0 - t) | None => 0 end).

(** ** The methods *)

(** [s.pool.Exec] and [s.pool.Query]: the statement is its own transaction. *)
Definition autocommit {R} (st : statement R) : program (res R) :=
  r <-- exec st;; commit;;; ret r.

(** [s.pool.Query] sends the query; what goes wrong while its rows are read is
    [rows.Err()], which is returned as it is beside the rows that had arrived
    (here all of them; the caller may have seen fewer). *)
Definition send_query : statement unit := fun _ _ => reads tt.
Definition streamed {R} (st : statement (list R)) : program (list R * option GoError) :=
  bind (exec st) (fun r =>
    match r with
    | Ok rows => bind commit (fun c => Ret (rows, match c with Ok _ => None | Err e => Some e end))
    | Err e => Ret ([], Some e)
    end).
Definition query_rows {R} (st : statement (list R)) : program (list R * option GoError) :=
  bind (exec send_query) (fun r =>
    match r with Ok _ => streamed st | Err e => Ret ([], Some (dbError e)) end).

Definition bad_claim (owner : string) (limit lease : Z) : bool :=
  (limit <? 1) || (MaxOutboxBatch <? limit) || (lease <=? 0) || (owner == "").

Definition ClaimOutbox (owner : string) (limit lease : Z) : program (list OutboxRecord * option GoError) :=
  if bad_claim owner limit lease then Ret ([], Some (AppError "INVALID_INPUT"))
  else query_rows (claim_outbox owner limit (Milliseconds lease)).

Definition claim_lost (affected : Z) : program (res unit) :=
  if affected =? 0 then fail (AppError "CLAIM_LOST") else ret tt.

Definition MarkPublished (id token : string) : program (res unit) :=
  tag <-- map_err dbError (autocommit (mark_published id token));; claim_lost tag.

Definition RetryOutbox (id token : string) (delay : Z) : program (res unit) :=
  tag <-- map_err dbError (autocommit (retry_outbox id token (Milliseconds delay)));; claim_lost tag.

Definition ClaimReferences (owner : string) (limit lease : Z) :
    program (list ReferenceClaim * option GoError) :=
  if bad_claim owner limit lease then Ret ([], Some (AppError "INVALID_INPUT"))
  else query_rows (claim_references owner limit (Milliseconds lease)).

(** [time.Second << min(attempts, 12)], at most an hour. *)
Definition reference_delay (attempts : Z) : Z :=
  let delay := Z.shiftl Time.Second (Z.min attempts 12) in
  if 3600 * Time.Second <? delay then 3600 * Time.Second else delay.

(** A typed invariant failure: its effects were rolled back; it is recorded as
    a terminal failure, or the claim is given up for a later attempt. *)
Definition fail_reference (claim : ReferenceClaim) (w : WalletData) (wg : WagerTransaction)
    (correlation cause : string) (exhausted : bool) : program (res Result) :=
  if exhausted then
    now <-- now;;
    wg <-- lift (Fail (Some wg) "PERMANENT_PROCESSING_FAILURE" (wBalance w) (wVersion w) now);;
    map_err dbError (persistResult (wager_Snapshot wg));;;
    map_err dbError (writeEvents (wager_Snapshot wg) w None correlation cause now);;;
    ret (resultOf (wager_Snapshot wg) w false)
  else
    map_err dbError (exec (clear_claim (rcTransactionID claim)));;;
    ret (resultOf (wager_Snapshot wg) w false).

Definition RetryReference (claim : ReferenceClaim) (maxAttempts ttl : Z) : program (res Result) :=
  if (maxAttempts <? 1) || (ttl <=? 0) then fail (AppError "INVALID_INPUT")
  else
    map_err dbError (exec begin_tx);;;
    w <-- map_err dbError (lockWallet (rcWalletID claim));;
    d <-- map_err (fun e => if is_no_rows e then AppError "CLAIM_LOST" else dbError e)
            (query_row (select_claimed (rcTransactionID claim) (rcWalletID claim) (rcClaimToken claim))
               scanWager);;
    row <-- map_err dbError (query_row (bump_attempts (rcTransactionID claim)) scan);;
    let '(attempts, correlation, causation) := row in
    wg <-- lift (RehydrateWager d);;
    let cause := coalesce causation in
    map_err dbError savepoint;;;
    since <-- now;;
    let exhausted := (maxAttempts <=? attempts) || (ttl <=? since - wgCreatedAt d) in
    result <-- bind (apply w wg correlation cause exhausted)
                 (fun r => match r with
                           | Ok result => ret result
                           | Err err =>
                               match as_domain err with
                               | None => fail err
                               | Some _ =>
                                   map_err dbError rollback_to;;;
                                   fail_reference claim w wg correlation cause exhausted
                               end
                           end);;
    (if rsStatus result == "PENDING_REFERENCE" then
       map_err dbError (exec (delay_reference (rcTransactionID claim)
                                (Milliseconds (reference_delay attempts))));;;
       ret tt
     else ret tt);;;
    map_err dbError commit;;;
    ret result.

(** Two statements, each its own transaction. *)
Definition ReleaseClaims (owner : string) : program (res unit) :=
  map_err dbError (autocommit (release_outbox owner));;;
  map_err dbError (autocommit (release_references owner)).

Definition GetBacklog : program (res Backlog) :=
  r <-- exec select_backlog;;
  let '(outbox, references, milliseconds) := r in
  ret (mkBacklog outbox references (milliseconds * Millisecond)).
