(* ===== verification/Read.v ===== *)
(** * Ledger pages and reconciliation: [internal/adapters/postgres/read.go]

    The cursor that continues a page, the page itself, and the comparison of a
    wallet with what its entries add up to. *)

From Stdlib Require Import Ascii.
From stdpp Require Import sorting.
From S2P Require Import Prelude GoStd Codec JsonText Base64 Errors Ident Money Wallet Ledger Wager.
From S2P Require Import Evaluate Command Events Timestamps Session Database Sql Store Work.
Import Str.
#[local] Open Scope prog_scope.

(** ** Types of [application/contracts.go] *)

Record LedgerEntry : Type := mkLedgerEntry {
  enID : string; enWalletID : string; enTransactionID : string; enDirection : string;
  enMoney : Money; enBalanceBefore : Money; enBalanceAfter : Money; enCreatedAt : Z
}.
Record LedgerPage : Type := mkLedgerPage { lpEntries : list LedgerEntry; lpNextCursor : string }.
Record Reconciliation : Type := mkReconciliation {
  rcnWalletID : string; rcnStoredBalance : Money; rcnCalculatedBalance : Money;
  rcnDifference : Money; rcnConsistent : bool; rcnCheckedEntries : Z
}.

(** ** The cursor *)

Record ledgerCursor : Type := mkCursor { cuVersion : Z; cuWalletID : string; cuID : string; cuAt : Z }.

Definition cursor_fields : fields ledgerCursor :=
  [("v", field cuVersion (fun v c => mkCursor v (cuWalletID c) (cuID c) (cuAt c)) into_int);
   ("w", field cuWalletID (fun w c => mkCursor (cuVersion c) w (cuID c) (cuAt c)) into_string);
   ("i", field cuID (fun i c => mkCursor (cuVersion c) (cuWalletID c) i (cuAt c)) into_string);
   ("t", field cuAt (fun t c => mkCursor (cuVersion c) (cuWalletID c) (cuID c) t) into_time)].

Definition cursor_json (c : ledgerCursor) : res string :=
  t ← time_json (cuAt c);
  Ok (Json.object [("v", Strconv.FormatInt (cuVersion c)); ("w", Json.string_lit (cuWalletID c));
                   ("i", Json.string_lit (cuID c)); ("t", t)]).

Definition invalid_cursor {A} : res A := Err (AppError "INVALID_CURSOR").

(** Where a page starts: the creation time and identifier of the entry before. *)
Definition decode_cursor (id cursor : string) : res (option (Z * ID)) :=
  if cursor == "" then Ok None
  else if (512 <? len cursor)%nat then invalid_cursor
  else match Base64.decode cursor with
       | None => invalid_cursor
       | Some raw =>
           match Unmarshal (into_struct false cursor_fields) raw (mkCursor 0 "" "" 0) with
           | None => invalid_cursor
           | Some c =>
               if negb (cuVersion c =? 1) || (cuWalletID c != id) || Time.IsZero (cuAt c)
               then invalid_cursor
               else match ParseID (cuID c) with
                    | Ok i => Ok (Some (cuAt c, i))
                    | Err _ => invalid_cursor
                    end
           end
       end.

Definition encode_cursor (id : string) (last : LedgerEntry) : res string :=
  raw ← cursor_json (mkCursor 1 id (enID last) (enCreatedAt last));
  Ok (Base64.encode raw).

(** ** The page *)

(** [id::text,transaction_id::text,direction,amount_minor,currency,balances,created_at]. *)
Record ledger_columns : Type := mkLedgerColumns {
  lc_id : string; lc_tx : string; lc_direction : string; lc_amount : Z; lc_currency : string;
  lc_before : Z; lc_after : Z; lc_created : Z
}.
Definition columns_of_entry (e : ledger_row) : ledger_columns :=
  mkLedgerColumns (ID_String (lr_id e)) (ID_String (lr_tx e)) (lr_direction e) (lr_amount e)
    (lr_currency e) (lr_before e) (lr_after e) (lr_created e).

(** [ORDER BY created_at DESC,id DESC]: [x] is not after [y]. *)
Definition newest_first (x y : ledger_row) : Prop :=
  (lr_created y < lr_created x)
  \/ (lr_created x = lr_created y /\ String.leb (id_bytes (lr_id y)) (id_bytes (lr_id x)) = true).
#[global] Instance newest_first_dec x y : base.Decision (newest_first x y).
Proof. unfold newest_first. apply _. Defined.

(** [$2 IS NULL OR (created_at,id)<($2,$3)]. *)
Definition older (at_ : option (Z * ID)) (e : ledger_row) : bool :=
  match at_ with
  | None => true
  | Some (t, i) =>
      (lr_created e <? timestamptz t)
      || ((lr_created e =? timestamptz t) && String.ltb (id_bytes (lr_id e)) (id_bytes i))
  end.

Definition select_ledger (wallet : string) (at_ : option (Z * ID)) (limit : Z) :
    statement (list ledger_columns) := fun _ d =>
  match uuid_in wallet with
  | None => invalid_text
  | Some w =>
      reads (columns_of_entry <$>
        take (Z.to_nat limit)
          (merge_sort newest_first
             (filter (fun e => lr_wallet e = w /\ older at_ e = true) (ledger d))))
  end.

Definition page_entry (id : string) (c : ledger_columns) : res LedgerEntry :=
  money ← NewMoney (lc_amount c) (lc_currency c);
  before ← NewMoney (lc_before c) (lc_currency c);
  after ← NewMoney (lc_after c) (lc_currency c);
  Ok (mkLedgerEntry (lc_id c) id (lc_tx c) (lc_direction c) money before after (lc_created c)).

(** [for rows.Next()]: the row past the limit only makes the cursor. *)
Fixpoint build_page (id : string) (limit : Z) (rows : list ledger_columns) (acc : list LedgerEntry) :
    res LedgerPage :=
  match rows with
  | [] => Ok (mkLedgerPage acc "")
  | c :: rows =>
      e ← page_entry id c;
      if Z.of_nat (length acc) =? limit then
        match last acc with
        | Some l => cursor ← encode_cursor id l; Ok (mkLedgerPage acc cursor)
        | None => Ok (mkLedgerPage acc "")
        end
      else build_page id limit rows (acc ++ [e])
  end.

Definition Ledger (id cursor : string) (limit : Z) : program (res LedgerPage) :=
  _ <-- lift (ParseID id);;
  if (limit <? 1) || (100 <? limit) then fail (AppError "INVALID_INPUT")
  else
    _ <-- GetWallet id;;
    at_ <-- lift (decode_cursor id cursor);;
    map_err dbError (exec send_query);;;
    rows <-- exec (select_ledger id at_ (limit + 1));;
    lift (build_page id limit rows []).

(** ** Reconciliation *)

(** A whole number as [numeric::text], and [big.Int.SetString(text, 10)]. *)
Definition numeric_text (z : Z) : string := Strconv.FormatInt z.
Definition SetString (text : string) : option Z :=
  let '(neg, d) :=
    match text with
    | String "+" r => (false, r)
    | String "-" r => (true, r)
    | _ => (false, text)
    end in
  if (d == "") || negb (all_chars Strconv.is_digit d) then None
  else Some (if neg : bool then - Strconv.dec_value 0 d else Strconv.dec_value 0 d).

Record reconcile_columns : Type := mkReconcileColumns {
  rw_id : string; rw_balance : Z; rw_currency : string; rw_total : string; rw_count : Z
}.

(** [CASE direction WHEN 'CREDIT' THEN amount_minor ELSE -amount_minor END]. *)
Definition signed_amount (e : ledger_row) : Z :=
  if lr_direction e == "CREDIT" then lr_amount e else - lr_amount e.

(** The wallet beside [sum] and [count] over its entries. *)
Definition select_reconcile (text : string) : statement (option reconcile_columns) := fun _ d =>
  match uuid_in text with
  | None => invalid_text
  | Some w =>
      let l := filter (fun e => lr_wallet e = w) (ledger d) in
      reads ((fun r => mkReconcileColumns (ID_String w) (wr_balance r) (wr_currency r)
                         (numeric_text (foldr (fun e total => signed_amount e + total) 0 l))
                         (Z.of_nat (length l))) <$> wallets d !! w)
  end.

Definition Reconcile (id : string) : program (res Reconciliation) :=
  _ <-- lift (ParseID id);;
  row <-- map_err dbError (query_row (select_reconcile id) scan);;
  match SetString (rw_total row) with
  | Some exact =>
      if negb (bool_decide (Int64.in_range exact)) then fail (AppError "RECONCILIATION_OVERFLOW")
      else
        stored <-- lift (NewMoney (rw_balance row) (rw_currency row));;
        calculated <-- lift (NewMoney exact (rw_currency row));;
        difference <-- lift (Subtract stored calculated);;
        ret (mkReconciliation (rw_id row) stored calculated difference (minor difference =? 0)
               (rw_count row))
  | None => fail (AppError "RECONCILIATION_OVERFLOW")
  end.
