(* ===== verification/Rows.v ===== *)
(** * Rows and snapshots

    The snapshot a row holds, when scanning it gives that snapshot back, and
    the row a snapshot is stored in: the round trip between the domain and the
    tables. *)

From S2P Require Import Prelude GoStd Errors Ident Money Wallet Ledger Wager Evaluate Command.
From S2P Require Import Events Session Database Sql Store.
Import Str.

(** ** Wallets *)

Definition wallet_data_of (id : ID) (r : wallet_row) : WalletData :=
  mkWalletData id (wr_player r) (mkMoney (wr_balance r) (wr_currency r)) (wr_version r)
    (wr_created r) (wr_updated r).

Lemma scanWallet_row id r :
  wallet_ok (wallet_data_of id r) ->
  scanWallet (Some (columns_of_wallet id r)) = Ok (wallet_data_of id r).
Proof.
  intros Hok. pose proof Hok as [Hid Hp [Hv _] _ _ _ _]. unfold scanWallet. cbn in *.
  rewrite !ParseID_String by done. cbn. rewrite NewMoney_valid by done. cbn.
  fold (wallet_data_of id r). by rewrite RehydrateWallet_ok.
Qed.

Lemma scanWallet_Ok id r d :
  scanWallet (Some (columns_of_wallet id r)) = Ok d ->
  d = wallet_data_of id r /\ validateWallet d = Ok tt.
Proof.
  unfold scanWallet. cbn. intros H.
  apply bind_Ok in H as (uid & Hu & H). apply bind_Ok in H as (pid & Hp & H).
  apply bind_Ok in H as (m & Hm & H). apply bind_Ok in H as (w & Hw & [= <-]).
  assert (Hpid : forall i j, ParseID (ID_String i) = Ok j -> j = i).
  { intros i j Hij. pose proof (ParseID_nonzero _ _ Hij) as Hj.
    destruct (decide (i = zeroID)) as [->|Hi].
    - vm_compute in Hij. discriminate Hij.
    - rewrite ParseID_String in Hij by done. by injection Hij. }
  apply Hpid in Hu, Hp. subst. apply NewMoney_Ok in Hm as [_ ->].
  unfold RehydrateWallet in Hw. rewrite seq_Ok in Hw. by destruct Hw.
Qed.

(** ** Transactions *)

Definition result_of (o : wager_outcome) : Money * Z :=
  match oc_balance o, oc_version o, oc_currency o with
  | Some b, Some v, Some c => (mkMoney b c, v)
  | _, _, _ => (Money0, 0)
  end.

Definition data_of (id : ID) (r : wager_row) : WagerData :=
  let q := tr_request r in
  let o := tr_outcome r in
  mkWagerData id (rq_wallet q) (rq_player q) (coalesce (rq_provider q)) (coalesce (rq_external q))
    (coalesce (rq_key q)) (coalesce (Hex.encode <$> rq_hash q)) (coalesce (rq_round q))
    (coalesce (rq_game q)) (rq_kind q) (mkMoney (rq_amount q) (rq_currency q))
    (coalesce (rq_refext q)) (default zeroID (oc_reference o)) (oc_status o)
    (coalesce (oc_failure o)) (result_of o).1 (result_of o).2 (rq_created q) (oc_updated o)
    (oc_completed o).

(** What is true of every committed row of [wager_transaction] by itself. *)
Record row_ok (id : ID) (r : wager_row) : Prop := {
  rk_valid : wager_valid (data_of id r);
  rk_amount : Int64.in_range (rq_amount (tr_request r));
  rk_refext : rq_refext (tr_request r) <> Some "";
  rk_reference : forall i, oc_reference (tr_outcome r) = Some i ->
    i <> zeroID /\ oc_status (tr_outcome r) = StatusProcessed;
  rk_result :
    if Terminal (oc_status (tr_outcome r))
    then exists b v c, oc_balance (tr_outcome r) = Some b /\ oc_version (tr_outcome r) = Some v
         /\ oc_currency (tr_outcome r) = Some c /\ Int64.in_range b /\ Int64.in_range v
    else oc_balance (tr_outcome r) = None /\ oc_version (tr_outcome r) = None
         /\ oc_currency (tr_outcome r) = None;
  rk_created : timestamptz (rq_created (tr_request r)) = rq_created (tr_request r)
    /\ 1000 <= rq_created (tr_request r);
  rk_unsettled : Terminal (oc_status (tr_outcome r)) = false -> oc_failure (tr_outcome r) = None
}.

Lemma ID_String_nonempty id : ID_String id <> "".
Proof. intros H. apply (f_equal len) in H. by destruct (ID_String_shape id) as [Hl _]; rewrite Hl in H. Qed.

Lemma scanWager_row id r :
  row_ok id r -> scanWager (Some (columns_of_wager id r)) = Ok (data_of id r).
Proof.
  intros [Hv Ha Hx Href Hres _ Hun]. pose proof Hv as [[H1 H2 H3 H4 _ _ _] [_ Hst]].
  unfold scanWager. cbn in *. rewrite !ParseID_String by done. cbn.
  assert ((if coalesce (ID_String <$> oc_reference (tr_outcome r)) == "" then Ok zeroID
    else ParseID (coalesce (ID_String <$> oc_reference (tr_outcome r))))
    = Ok (default zeroID (oc_reference (tr_outcome r)))) as ->.
  { destruct (oc_reference (tr_outcome r)) as [i|]; cbn; [|done].
    rewrite bool_decide_eq_false_2 by apply ID_String_nonempty.
    destruct (Href i eq_refl) as [Hi _]. by apply ParseID_String. }
  cbn. rewrite NewMoney_valid by done. cbn.
  assert (exists b v, (match oc_balance (tr_outcome r), oc_version (tr_outcome r),
      oc_currency (tr_outcome r) with
    | Some b, Some v, Some cur => m ← NewMoney b cur; Ok (m, v)
    | _, _, _ => Ok (Money0, 0)
    end) = Ok (b, v) /\ result_of (tr_outcome r) = (b, v)) as (b & v & -> & Hbv).
  { unfold result_of. destruct (Terminal _) eqn:Et.
    - destruct Hres as (b & v & c & Eb & Ev & Ec & _). cbn in Hst.
      assert (validCurrency c = true) as Hc.
      { assert (Hv' : Valid (result_of (tr_outcome r)).1 = true).
        { destruct Hst as [Hs _|Hs _ _|_ _ (_ & (Hb & _) & _)|_ _ _ (Hb & _)]; cbn in *;
            [rewrite Hs in Et; discriminate Et..|exact Hb|exact Hb]. }
        unfold result_of in Hv'. by rewrite Eb, Ev, Ec in Hv'. }
      rewrite Eb, Ev, Ec, NewMoney_valid by done. by exists (mkMoney b c), v.
    - destruct Hres as (Eb & _ & _). rewrite Eb. by eauto. }
  cbn. unfold data_of in Hv |- *. rewrite Hbv in Hv |- *. cbn in Hv |- *.
  unfold RehydrateWager, cloneWager. rewrite (proj2 (validateWager_Ok _) Hv). done.
Qed.

(** ** Storing a snapshot *)

Lemma timestamptz_mono t u : t <= u -> timestamptz t <= timestamptz u.
Proof. unfold timestamptz. intros H. pose proof (Z.div_le_mono t u 1000 ltac:(lia) H). lia. Qed.

Lemma timestamptz_below t : timestamptz t <= t.
Proof. unfold timestamptz. pose proof (Z.mul_div_le t 1000). lia. Qed.

Lemma timestamptz_pos t : 1000 <= t -> 1000 <= timestamptz t.
Proof. unfold timestamptz. intros H. pose proof (Z.div_le_mono 1000 t 1000 ltac:(lia) H). change (1000 / 1000) with 1 in *. lia. Qed.

Lemma timestamptz_idem t : timestamptz (timestamptz t) = timestamptz t.
Proof. unfold timestamptz. rewrite (Z.mul_comm 1000 (t / 1000)), Z.div_mul by lia. lia. Qed.

(** A snapshot at the resolution of the columns. *)
Definition stored (d : WagerData) : WagerData :=
  mkWagerData (wgID d) (wgWalletID d) (wgPlayerID d) (wgProviderID d) (wgExternalTransactionID d)
    (wgIdempotencyKey d) (wgPayloadHash d) (wgRoundID d) (wgGameID d) (wgKind d) (wgMoney d)
    (wgReferenceExternalTransactionID d) (wgReferenceID d) (wgStatus d) (wgFailureCode d)
    (wgResultBalance d) (wgResultVersion d) (timestamptz (wgCreatedAt d))
    (timestamptz (wgUpdatedAt d)) (timestamptz <$> wgCompletedAt d).

Lemma stored_valid d : wager_valid d -> 1000 <= wgCreatedAt d -> wager_valid (stored d).
Proof.
  intros [[H1 H2 H3 H4 H5 H6 H7] [Hu Hst]] Hc.
  assert (Hcomp : completed d -> completed (stored d)).
  { intros (t & Ht & ? & ?). exists (timestamptz t). cbn. rewrite Ht.
    split; [done|]. split; by apply timestamptz_mono. }
  assert (Hclean : clean d -> clean (stored d)).
  { intros (Ht & ? & ? & ?). unfold clean. cbn. by rewrite Ht. }
  split; [constructor; try done; cbn; pose proof (timestamptz_pos _ Hc); lia|].
  split; [by apply timestamptz_mono|].
  destruct Hst; [apply st_pending|apply st_pending_reference|apply st_processed|apply st_refused];
    auto.
Qed.

Lemma coalesce_optional s : coalesce (optional s) = s.
Proof. unfold optional. by case_bool_decide. Qed.

(** No result yet, exactly as the constructors leave it. *)
Definition unset (d : WagerData) : Prop :=
  Terminal (wgStatus d) = false -> wgResultBalance d = Money0 /\ wgResultVersion d = 0.

Lemma result_of_outcome d :
  unset d -> result_of (outcome_of d) = (wgResultBalance d, wgResultVersion d).
Proof.
  intros Hu. unfold result_of, outcome_of. cbn. destruct (Terminal (wgStatus d)) eqn:Et.
  - by destruct (wgResultBalance d).
  - destruct (Hu Et) as [-> ->]. done.
Qed.

(** The row [persistResult] leaves holds the snapshot it was given. *)
Lemma data_of_settled id r d clock :
  same_request (data_of id r) (stored d) -> unset d ->
  data_of id (settled_row (outcome_of d) clock r) = stored d.
Proof.
  intros Hs Hu. unfold same_request in Hs. cbn in Hs. destruct_and!.
  unfold data_of, stored. cbn. rewrite result_of_outcome by done. cbn.
  rewrite coalesce_optional. f_equal; try done. case_bool_decide as Hz; cbn; by rewrite ?Hz.
Qed.

(** The results a snapshot carries fit the columns. *)
Definition result_ranged (d : WagerData) : Prop :=
  Int64.in_range (minor (wgResultBalance d)) /\ Int64.in_range (wgResultVersion d).

Lemma row_ok_settled id r d clock :
  same_request (data_of id r) (stored d) -> unset d -> wager_valid d ->
  1000 <= wgCreatedAt d -> result_ranged d ->
  (wgReferenceID d <> zeroID -> wgStatus d = StatusProcessed) ->
  Int64.in_range (rq_amount (tr_request r)) -> rq_refext (tr_request r) <> Some "" ->
  rq_created (tr_request r) = timestamptz (wgCreatedAt d) ->
  row_ok id (settled_row (outcome_of d) clock r).
Proof.
  intros Hs Hu Hv Hc [Hb Hver] Href Ha Hx Hcr. constructor; try done.
  - rewrite data_of_settled by done. by apply stored_valid.
  - cbn. intros i. case_bool_decide as Hz; cbn; [done|]. intros [= <-]. auto.
  - cbn. destruct (Terminal (wgStatus d)) eqn:Et; [|done].
    eexists _, _, _. split_and!; done.
  - cbn. rewrite Hcr, timestamptz_idem. split; [done|]. by apply timestamptz_pos.
  - cbn. intros Et. unfold optional. by rewrite (nonterminal_code d Hv Et).
Qed.
