(* ===== verification/Books.v ===== *)
(** * The books: what every committed database satisfies

    The invariant of the committed state, how a committed state may evolve, and
    the one transition that settles a transaction: the row, the wallet, the
    ledger entry, the events and the delivery that change together. *)

From S2P Require Import Prelude GoStd Errors Ident Money Wallet Ledger Wager Evaluate Command.
From S2P Require Import Events Session Database Sql Store Rows.
Import Str.

(** ** Queries *)

Lemma find_row_Some {A} (P : ID -> A -> bool) m i r :
  find_row P m = Some (i, r) -> m !! i = Some r /\ P i r = true.
Proof.
  unfold find_row. intros H. apply List.find_some in H as [Hin Hp].
  rewrite <- list_elem_of_In in Hin. by apply elem_of_map_to_list in Hin.
Qed.

Lemma find_row_None {A} (P : ID -> A -> bool) m :
  find_row P m = None <-> forall i r, m !! i = Some r -> P i r = false.
Proof.
  unfold find_row. split.
  - intros H i r Hr. apply (List.find_none _ _ H (i, r)).
    rewrite <- list_elem_of_In. by apply elem_of_map_to_list.
  - intros H. destruct (List.find _ _) as [[i r]|] eqn:E; [|done].
    apply List.find_some in E as [Hin Hp]. rewrite <- list_elem_of_In in Hin.
    apply elem_of_map_to_list in Hin. cbn in Hp. by rewrite (H _ _ Hin) in Hp.
Qed.

Lemma is_some_None {A} (o : option A) : is_some o = false <-> o = None.
Proof. by destruct o. Qed.

(** ** The ledger of a wallet *)

Definition entries (w : ID) (d : Db) : list ledger_row := filter (fun e => lr_wallet e = w) (ledger d).

Definition row_effect (e : ledger_row) : Z :=
  if lr_direction e == "CREDIT" then lr_amount e else - lr_amount e.

(** Each entry starts at the balance the one before it left. *)
Fixpoint chained (from : Z) (l : list ledger_row) (to : Z) : Prop :=
  match l with
  | [] => to = from
  | e :: l =>
      lr_before e = from /\ lr_after e = lr_before e + row_effect e /\ 0 <= lr_after e
      /\ chained (lr_after e) l to
  end.

Fixpoint ledger_sum (l : list ledger_row) : Z :=
  match l with [] => 0 | e :: l => row_effect e + ledger_sum l end.

Lemma chained_sum from l to : chained from l to -> to = from + ledger_sum l.
Proof.
  revert from. induction l as [|e l IH]; cbn; intros from; [lia|].
  intros (? & ? & ? & H). apply IH in H. lia.
Qed.

Lemma chained_snoc from l to e :
  chained from l to -> lr_before e = to -> lr_after e = lr_before e + row_effect e ->
  0 <= lr_after e -> chained from (l ++ [e]) (lr_after e).
Proof.
  revert from. induction l as [|x l IH]; cbn; intros from.
  - intros -> ? ? ?. split_and!; try done; lia.
  - intros (? & ? & ? & H) ? ? ?. split_and!; try done. by apply IH.
Qed.

(** ** Consistency *)

Definition status_of (r : wager_row) : string := oc_status (tr_outcome r).
Definition wallet_of (r : wager_row) : ID := rq_wallet (tr_request r).
Definition terminal (r : wager_row) : bool := Terminal (status_of r).

(** A transaction that moved money. *)
Definition moving (r : wager_row) : bool :=
  (status_of r == StatusProcessed) && (rq_kind (tr_request r) != KindLOSS).

Record entry_matches (i : ID) (r : wager_row) (e : ledger_row) : Prop := {
  em_tx : lr_tx e = i;
  em_wallet : lr_wallet e = wallet_of r;
  em_amount : lr_amount e = rq_amount (tr_request r);
  em_currency : lr_currency e = rq_currency (tr_request r);
  em_after : oc_balance (tr_outcome r) = Some (lr_after e)
}.

(** A transaction that moved money has its entry; any other has none. *)
Definition recorded (d : Db) (i : ID) (r : wager_row) : Prop :=
  if moving r
  then exists e, e ∈ ledger d /\ entry_matches i r e
       /\ expected_direction d r = Some (lr_direction e)
  else forall e, e ∈ ledger d -> lr_tx e <> i.

(** A processed request that named a reference resolved it to a processed
    transaction it may act on. *)
Definition resolved (d : Db) (i : ID) (r : wager_row) : Prop :=
  status_of r = StatusProcessed ->
  match rq_refext (tr_request r) with
  | None => oc_reference (tr_outcome r) = None
  | Some _ => exists j r', oc_reference (tr_outcome r) = Some j /\ wagers d !! j = Some r'
      /\ status_of r' = StatusProcessed /\ reference_matches (data_of i r) (data_of j r')
  end.

Definition event_type (status : string) : string :=
  if status == StatusProcessed then EventWagerProcessed
  else if status == StatusRejected then EventWagerRejected
  else if status == StatusPendingReference then EventWagerPendingReference
  else EventWagerFailed.

(** [y] is the event of the state a transaction is in. *)
Definition event_of (i : ID) (r : wager_row) (y : ID * outbox_row) : Prop :=
  ob_type y.2 = event_type (status_of r) /\ ob_aggregate y.2 = wallet_of r
  /\ exists meta, mtID meta = y.1
     /\ envelope_json meta (wallet_of r) (event_type (status_of r))
          (wagerEventData_json (wager_event_data (data_of i r))) = Ok (ob_payload y.2).

(** The outbox carries it. *)
Definition announced (o : gmap ID outbox_row) (i : ID) (r : wager_row) : Prop :=
  exists j b, o !! j = Some b /\ event_of i r (j, b).

Definition entry_data (e : ledger_row) : LedgerData :=
  mkLedgerData (lr_id e) (lr_wallet e) (lr_tx e) (lr_direction e)
    (mkMoney (lr_amount e) (lr_currency e)) (mkMoney (lr_before e) (lr_currency e))
    (mkMoney (lr_after e) (lr_currency e)) (lr_created e).

(** [y] is the balance change of an entry. *)
Definition entry_event_of (e : ledger_row) (y : ID * outbox_row) : Prop :=
  ob_type y.2 = EventWalletBalanceChanged /\ ob_aggregate y.2 = lr_wallet e
  /\ exists meta version, mtID meta = y.1
     /\ envelope_json meta (lr_wallet e) EventWalletBalanceChanged
          (WalletBalanceChangedData_json (balance_data (entry_data e) version))
        = Ok (ob_payload y.2).

Definition entry_announced (o : gmap ID outbox_row) (e : ledger_row) : Prop :=
  exists j b, o !! j = Some b /\ entry_event_of e (j, b).

(** An event as [INSERT INTO outbox] let it in: the first version of a document
    of [jsonb] that agrees with the row's columns. *)
Definition stored_event (i : ID) (b : outbox_row) : Prop :=
  ob_version b = 1
  /\ exists l, jsonb_in (ob_payload b) = Some l /\ outbox_checks i (ob_type b) 1 (ob_aggregate b) l = true.
Definition fresh_event (y : ID * outbox_row) : Prop := ob_published y.2 = None /\ stored_event y.1 y.2.

Record consistent (d : Db) : Prop := {
  cs_wallet : forall w r, wallets d !! w = Some r ->
    wallet_ok (wallet_data_of w r) /\ chained 0 (entries w d) (wr_balance r)
    /\ timestamptz (wr_created r) = wr_created r;
  cs_account : forall v w r r', wallets d !! v = Some r -> wallets d !! w = Some r' ->
    wr_player r = wr_player r' -> wr_currency r = wr_currency r' -> v = w;
  cs_row : forall i r, wagers d !! i = Some r -> row_ok i r /\ status_of r <> StatusPending;
  cs_owner : forall i r, wagers d !! i = Some r ->
    exists w, wallets d !! wallet_of r = Some w /\ wr_player w = rq_player (tr_request r);
  cs_recorded : forall i r, wagers d !! i = Some r -> recorded d i r;
  cs_resolved : forall i r, wagers d !! i = Some r -> resolved d i r;
  cs_announced : forall i r, wagers d !! i = Some r -> announced (outbox d) i r;
  cs_key : forall i j r r' p k, wagers d !! i = Some r -> wagers d !! j = Some r' ->
    has_key p k r = true -> has_key p k r' = true -> i = j;
  cs_external : forall i j r r' p x, wagers d !! i = Some r -> wagers d !! j = Some r' ->
    has_external p x r = true -> has_external p x r' = true -> i = j;
  cs_reversal : forall i j r r' x, wagers d !! i = Some r -> wagers d !! j = Some r' ->
    reverses x r = true -> reverses x r' = true -> i = j;
  cs_ledger : forall e, e ∈ ledger d -> ledger_checks e = true
    /\ (exists r, wagers d !! lr_tx e = Some r /\ wallet_of r = lr_wallet e)
    /\ (exists w, wallets d !! lr_wallet e = Some w /\ wr_currency w = lr_currency e);
  cs_tx : NoDup (lr_tx <$> ledger d);
  cs_entry : NoDup (lr_id <$> ledger d);
  cs_moved : forall e, e ∈ ledger d -> entry_announced (outbox d) e;
  cs_event : forall i b, outbox d !! i = Some b -> stored_event i b;
  cs_inbox : forall k r, inbox d !! k = Some r -> exists i c,
    ib_wager r = Some i /\ ib_completed r = Some c /\ is_Some (wagers d !! i)
}.

Lemma consistent_empty : consistent empty_db.
Proof.
  constructor; cbn; try (intros *; rewrite ?lookup_empty; done);
    try (intros * Hin; by apply elem_of_nil in Hin); try apply NoDup_nil_2.
Qed.

(** ** How committed databases evolve *)

Definition wallet_grows (r r' : wallet_row) : Prop :=
  wr_player r' = wr_player r /\ wr_currency r' = wr_currency r /\ wr_created r' = wr_created r
  /\ wr_version r <= wr_version r'.

(** A request never changes, and a terminal result neither. *)
Definition wager_grows (r r' : wager_row) : Prop :=
  tr_request r' = tr_request r /\ tr_correlation r' = tr_correlation r
  /\ tr_causation r' = tr_causation r
  /\ (terminal r = true -> tr_outcome r' = tr_outcome r).

Definition outbox_grows (r r' : outbox_row) : Prop :=
  ob_type r' = ob_type r /\ ob_version r' = ob_version r /\ ob_aggregate r' = ob_aggregate r
  /\ ob_correlation r' = ob_correlation r /\ ob_causation r' = ob_causation r
  /\ ob_payload r' = ob_payload r /\ ob_occurred r' = ob_occurred r
  /\ (ob_published r <> None -> ob_published r' = ob_published r).

Definition map_grows {K A} `{Countable K} (R : A -> A -> Prop) (m m' : gmap K A) : Prop :=
  forall k x, m !! k = Some x -> exists x', m' !! k = Some x' /\ R x x'.

Record evolves (d d' : Db) : Prop := {
  ev_wallets : map_grows wallet_grows (wallets d) (wallets d');
  ev_wagers : map_grows wager_grows (wagers d) (wagers d');
  ev_ledger : ledger d `prefix_of` ledger d';
  ev_inbox : map_grows eq (inbox d) (inbox d');
  ev_outbox : map_grows outbox_grows (outbox d) (outbox d')
}.

#[global] Instance wallet_grows_preorder : PreOrder wallet_grows.
Proof. split; unfold wallet_grows; [by intros r|]. intros a b c ? ?. destruct_and!. split_and!; try congruence. lia. Qed.
#[global] Instance wager_grows_preorder : PreOrder wager_grows.
Proof.
  split; unfold wager_grows; [by intros r|].
  intros a b c (?&?&?&HA) (?&?&?&HB). split_and!; try congruence.
  intros Ht. rewrite HB; [auto|]. unfold terminal, status_of in *. by rewrite HA.
Qed.
#[global] Instance outbox_grows_preorder : PreOrder outbox_grows.
Proof.
  split; unfold outbox_grows; [by intros r|]. intros a b c (?&?&?&?&?&?&?&HA) (?&?&?&?&?&?&?&HB).
  split_and!; try congruence. intros Hp. rewrite HB; [by apply HA|]. by rewrite HA.
Qed.
#[global] Instance map_grows_preorder {K A} `{Countable K} (R : A -> A -> Prop) :
  PreOrder R -> PreOrder (map_grows (K:=K) R).
Proof.
  intros HR. split.
  - intros m k x Hx. by exists x.
  - intros m1 m2 m3 H1 H2 k x Hx. destruct (H1 k x Hx) as (y & Hy & Rxy).
    destruct (H2 k y Hy) as (z & Hz & Ryz). exists z. split; [done|]. by etrans.
Qed.
#[global] Instance evolves_preorder : PreOrder evolves.
Proof.
  split.
  - intros d. constructor; reflexivity.
  - intros a b c [] []. constructor; by etrans.
Qed.

(** An event stays the event of what it announced. *)
Lemma announced_evolves o o' i r : map_grows outbox_grows o o' -> announced o i r -> announced o' i r.
Proof.
  intros Hg (j & b & Hj & He). destruct (Hg _ _ Hj) as (b' & Hj' & (Ht & _ & Ha & _ & _ & Hp & _)).
  exists j, b'. split; [done|]. unfold event_of in *. cbn in *. by rewrite Ht, Ha, Hp.
Qed.
Lemma entry_announced_evolves o o' e :
  map_grows outbox_grows o o' -> entry_announced o e -> entry_announced o' e.
Proof.
  intros Hg (j & b & Hj & He). destruct (Hg _ _ Hj) as (b' & Hj' & (Ht & _ & Ha & _ & _ & Hp & _)).
  exists j, b'. split; [done|]. unfold entry_event_of in *. cbn in *. by rewrite Ht, Ha, Hp.
Qed.

(** ** What locks protect

    [protected P d d']: as far as the locks in [P] go, [d'] is [d]. *)

Definition strip (r : wager_row) : wager_row :=
  mkWagerRow (tr_request r) (tr_outcome r) (tr_correlation r) (tr_causation r) (tr_attempts r)
    (tr_next r) None.

(** The transactions of a wallet, up to their leases: the wallet's lock
    protects them, since every writer of theirs takes it first. *)
Definition own (w : ID) (d : Db) (i : ID) : option wager_row :=
  match wagers d !! i with
  | Some r => if wallet_of r == w then Some (strip r) else None
  | None => None
  end.

Definition unused (i : ID) (d : Db) : Prop :=
  wallets d !! i = None /\ wagers d !! i = None /\ outbox d !! i = None
  /\ i ∉ (lr_id <$> ledger d).

Definition no_row {A} (P : A -> bool) (m : gmap ID A) : Prop :=
  forall i r, m !! i = Some r -> P r = false.

Record protected (P : lock -> Prop) (d d' : Db) : Prop := {
  pt_wallet : forall w, P (LWallet w) ->
    wallets d' !! w = wallets d !! w /\ entries w d' = entries w d
    /\ forall i, own w d' i = own w d i;
  pt_id : forall i, P (LId i) -> unused i d -> unused i d';
  pt_account : forall p c, P (LAccount p c) ->
    no_row (has_account p c) (wallets d) -> no_row (has_account p c) (wallets d');
  pt_key : forall p k, P (LKey p k) ->
    no_row (has_key p k) (wagers d) -> no_row (has_key p k) (wagers d');
  pt_external : forall p x, P (LExternal p x) ->
    no_row (has_external p x) (wagers d) -> no_row (has_external p x) (wagers d');
  pt_wager : forall i, P (LWager i) -> wagers d' !! i = wagers d !! i;
  pt_outbox : forall i, P (LOutbox i) -> outbox d' !! i = outbox d !! i;
  pt_inbox : forall c m, P (LInbox c m) -> inbox d' !! (c, m) = inbox d !! (c, m)
}.

Lemma protected_refl P d : protected P d d.
Proof. by constructor. Qed.

Lemma protected_trans P d1 d2 d3 : protected P d1 d2 -> protected P d2 d3 -> protected P d1 d3.
Proof.
  intros [A1 A2 A3 A4 A5 A6 A7 A8] [B1 B2 B3 B4 B5 B6 B7 B8]. constructor; auto.
  - intros w Hw. destruct (B1 w Hw) as (-> & -> & HB). destruct (A1 w Hw) as (-> & -> & HA).
    split_and!; auto. intros i. by rewrite HB.
  - intros i Hi. by rewrite B6, A6.
  - intros i Hi. by rewrite B7, A7.
  - intros c m Hi. by rewrite B8, A8.
Qed.

Lemma protected_mono (P P' : lock -> Prop) d d' :
  (forall l, P l -> P' l) -> protected P' d d' -> protected P d d'.
Proof. intros HP [A1 A2 A3 A4 A5 A6 A7 A8]. constructor; auto. Qed.

(** What a session holding [L] relies on. *)
Record depend (L : list lock) (d d' : Db) : Prop := {
  dp_protected : protected (fun l => l ∈ L) d d';
  dp_evolves : evolves d d';
  dp_consistent : consistent d -> consistent d'
}.

(** Identifiers the server generates are fresh; its clock is past year 1. *)
Definition generated (cx : Cx) (d : Db) (L : list lock) : Prop :=
  forall n, unused (cx_uuid cx n) d /\ cx_uuid cx n <> zeroID /\ LId (cx_uuid cx n) ∉ L.

#[global] Program Instance store_discipline : Discipline Db lock Cx := {|
  inv := consistent;
  rely := depend;
  cx_ok := generated;
  clock_ok := fun t => 1000 <= t
|}.
Next Obligation. intros L d. constructor; [apply protected_refl|reflexivity|done]. Qed.
Next Obligation.
  intros L d1 d2 d3 [] []. constructor; [by eapply protected_trans|by etrans|auto].
Qed.
Next Obligation. intros L d d' Hi []. auto. Qed.
Next Obligation.
  intros L L' d d' Hsub []. constructor; auto. eapply protected_mono; [|done]. cbn. auto.
Qed.

Lemma depend_refl L d : depend L d d.
Proof. apply (rely_refl (Discipline := store_discipline)). Qed.
Lemma depend_trans L d1 d2 d3 : depend L d1 d2 -> depend L d2 d3 -> depend L d1 d3.
Proof. apply (rely_trans (Discipline := store_discipline)). Qed.
Lemma depend_sub (L L' : list lock) d d' : L ⊆ L' -> depend L' d d' -> depend L d d'.
Proof. apply (rely_weaken (Discipline := store_discipline)). Qed.

(** A commit that leaves what its locks do not cover alone is one every other
    session can rely on. *)
Lemma guar_protected L d d' :
  protected (fun l => l ∉ L) d d' -> evolves d d' -> (consistent d -> consistent d') ->
  guar L d d'.
Proof.
  intros Hp He Hc L' Hap. constructor; [|done..].
  eapply protected_mono; [|done]. cbn. intros l Hl' Hl. by apply (Hap l).
Qed.
