(* ===== verification/Settle.v ===== *)
(** * Settling a transaction

    The one way money moves: the transaction's row, its wallet, its ledger
    entry, its events and the delivery it answers change in one commit.
    [settle_consistent]: a settlement that meets [settleable] keeps the books. *)

From S2P Require Import Prelude GoStd Errors Ident Money Wallet Ledger Wager Evaluate Command.
From S2P Require Import Events Session Database Sql Store Rows Books.

Record settlement : Type := mkSettlement {
  st_id : ID;
  st_row : wager_row;
  st_moved : option (wallet_row * ledger_row);   (* the wallet afterwards, the entry *)
  st_events : list (ID * outbox_row);
  st_inbox : option (string * string * inbox_row)
}.

Fixpoint insert_events (l : list (ID * outbox_row)) (o : gmap ID outbox_row) :
    gmap ID outbox_row :=
  match l with [] => o | y :: l => insert_events l (<[y.1 := y.2]> o) end.

Definition settle_db (x : settlement) (d : Db) : Db :=
  mkDb
    (match st_moved x with
     | Some (w, _) => <[wallet_of (st_row x) := w]> (wallets d)
     | None => wallets d
     end)
    (<[st_id x := st_row x]> (wagers d))
    (ledger d ++ match st_moved x with Some (_, e) => [e] | None => [] end)
    (match st_inbox x with Some (k, r) => <[k := r]> (inbox d) | None => inbox d end)
    (insert_events (st_events x) (outbox d)).

Record moves_money (d : Db) (i : ID) (r : wager_row) (w' : wallet_row) (e : ledger_row) : Prop := {
  mm_moving : moving r = true;
  mm_matches : entry_matches i r e;
  mm_direction : expected_direction d r = Some (lr_direction e);
  mm_checks : ledger_checks e = true;
  mm_new : lr_id e ∉ (lr_id <$> ledger d);
  mm_wallet : exists w, wallets d !! wallet_of r = Some w /\ wallet_grows w w'
    /\ lr_before e = wr_balance w /\ lr_currency e = wr_currency w;
  mm_after : lr_after e = wr_balance w';
  mm_wallet_ok : wallet_ok (wallet_data_of (wallet_of r) w')
}.

Record settleable (d : Db) (x : settlement) : Prop := {
  sp_row : row_ok (st_id x) (st_row x);
  sp_status : status_of (st_row x) <> StatusPending;
  sp_owner : exists w, wallets d !! wallet_of (st_row x) = Some w
    /\ wr_player w = rq_player (tr_request (st_row x));
  sp_old : match wagers d !! st_id x with
           | Some r => wager_grows r (st_row x) /\ terminal r = false
           | None =>
               (forall p k, has_key p k (st_row x) = true -> no_row (has_key p k) (wagers d))
               /\ (forall p y, has_external p y (st_row x) = true ->
                   no_row (has_external p y) (wagers d))
           end;
  sp_resolved : resolved d (st_id x) (st_row x);
  sp_single : forall y, reverses y (st_row x) = true -> no_row (reverses y) (wagers d);
  sp_moved : match st_moved x with
             | None => moving (st_row x) = false
             | Some (w, e) => moves_money d (st_id x) (st_row x) w e
             end;
  sp_new_events : Forall (fun y => outbox d !! y.1 = None /\ fresh_event y) (st_events x);
  sp_distinct : NoDup (st_events x).*1;
  sp_announced : announced (outbox (settle_db x d)) (st_id x) (st_row x);
  sp_entry_announced : forall w e, st_moved x = Some (w, e) ->
    entry_announced (outbox (settle_db x d)) e;
  sp_inbox : forall k r, st_inbox x = Some (k, r) -> inbox d !! k = None
    /\ exists i c, ib_wager r = Some i /\ ib_completed r = Some c
       /\ is_Some (wagers (settle_db x d) !! i)
}.

Lemma insert_events_other l o j : j ∉ l.*1 -> insert_events l o !! j = o !! j.
Proof.
  revert o. induction l as [|[k e] l IH]; cbn; intros o Hj; [done|].
  rewrite IH by set_solver. apply lookup_insert_ne. set_solver.
Qed.

Lemma insert_events_new l o j b : (j, b) ∈ l -> NoDup l.*1 -> insert_events l o !! j = Some b.
Proof.
  revert o. induction l as [|[k e] l IH]; cbn; intros o Hj Hd; [by apply elem_of_nil in Hj|].
  apply NoDup_cons in Hd as [Hk Hd]. apply elem_of_cons in Hj as [[= -> ->]|Hj]; [|by apply IH].
  rewrite insert_events_other by done. apply lookup_insert_eq.
Qed.

Section settlement.
Context (d : Db) (x : settlement) (Hc : consistent d) (Hx : settleable d x).
Local Notation i := (st_id x).
Local Notation r := (st_row x).
Local Notation d' := (settle_db x d).

Lemma old_unsettled r0 : wagers d !! i = Some r0 -> wager_grows r0 r /\ terminal r0 = false.
Proof using Hx. intros H. pose proof (sp_old _ _ Hx) as Ho. by rewrite H in Ho. Qed.

(** Every row of before is still there, grown; only [i] may have changed. *)
Lemma settle_wagers_grow : map_grows wager_grows (wagers d) (wagers d').
Proof using Hx.
  intros j r0 Hj. cbn. destruct (decide (j = i)) as [->|Hne].
  - exists r. rewrite lookup_insert_eq. split; [done|]. by apply old_unsettled.
  - exists r0. by rewrite lookup_insert_ne by done.
Qed.

Lemma settle_wallets_grow : map_grows wallet_grows (wallets d) (wallets d').
Proof using Hx.
  intros w r0 Hw. cbn. pose proof (sp_moved _ _ Hx) as Hm.
  destruct (st_moved x) as [[w' e]|]; [|by exists r0].
  destruct (decide (w = wallet_of r)) as [->|Hne].
  - exists w'. rewrite lookup_insert_eq. split; [done|].
    destruct (mm_wallet _ _ _ _ _ Hm) as (w0 & Hw0 & Hg & _). congruence.
  - exists r0. by rewrite lookup_insert_ne by done.
Qed.

Lemma settle_outbox_grow : forall j b, outbox d !! j = Some b -> outbox d' !! j = Some b.
Proof using Hx.
  intros j b Hj. cbn. rewrite insert_events_other; [done|]. intros Hin.
  apply list_elem_of_fmap in Hin as (y & -> & Hy).
  pose proof (sp_new_events _ _ Hx) as Hn. rewrite Forall_forall in Hn. destruct (Hn y Hy) as [Hnone _]. congruence.
Qed.

(** Its own events still have to be published. *)
Lemma settle_published j y : outbox d' !! j = Some y -> ob_published y <> None -> outbox d !! j = Some y.
Proof using Hx.
  intros Hj Hp. destruct (decide (j ∈ (st_events x).*1)) as [Hin|Hin].
  - apply list_elem_of_fmap in Hin as ([k z] & -> & Hy). cbn in *.
    rewrite (insert_events_new _ _ _ _ Hy (sp_distinct _ _ Hx)) in Hj. injection Hj as <-.
    pose proof (sp_new_events _ _ Hx) as Hn. rewrite Forall_forall in Hn. by destruct (Hn _ Hy) as (_ & ? & _).
  - cbn in Hj. by rewrite insert_events_other in Hj.
Qed.

Lemma settle_evolves : evolves d d'.
Proof using Hx.
  constructor; [exact settle_wallets_grow|exact settle_wagers_grow|by apply prefix_app_r| |].
  - intros k b Hk. exists b. split; [|done]. cbn. pose proof (sp_inbox _ _ Hx) as Hi.
    destruct (st_inbox x) as [[k' b']|]; [|done]. destruct (Hi _ _ eq_refl) as [Hn _].
    rewrite lookup_insert_ne; [done|]. congruence.
  - intros j b Hj. exists b. split; [by apply settle_outbox_grow|reflexivity].
Qed.
End settlement.

(** ** What survives growth *)

Lemma data_of_grown i r r' :
  wager_grows r r' -> terminal r = true -> data_of i r' = data_of i r /\ terminal r' = true
    /\ status_of r' = status_of r.
Proof.
  intros (Hq & _ & _ & Ho) Ht. specialize (Ho Ht). unfold terminal, status_of, data_of in *.
  by rewrite Hq, Ho.
Qed.

Lemma expected_direction_grow d d' r dir :
  map_grows wager_grows (wagers d) (wagers d') ->
  expected_direction d r = Some dir -> expected_direction d' r = Some dir.
Proof.
  intros Hg. unfold expected_direction. do 2 (case_match; [done|]).
  destruct (rq_kind (tr_request r) == "ROLLBACK"); [|done].
  destruct (oc_reference (tr_outcome r)) as [j|]; cbn; [|done].
  destruct (wagers d !! j) as [r0|] eqn:E; [|done].
  destruct (Hg _ _ E) as (r1 & -> & Hg1). pose proof Hg1 as (Hq & _).
  destruct (negb _) eqn:Es; [done|]. bools.
  destruct (data_of_grown j _ _ Hg1) as (_ & _ & Hs); [by unfold terminal, status_of; rewrite Es|].
  unfold status_of in Hs. rewrite Hs, Es, Hq. done.
Qed.

Lemma recorded_grow d d' i r :
  map_grows wager_grows (wagers d) (wagers d') -> ledger d ⊆ ledger d' ->
  (forall e, e ∈ ledger d' -> e ∈ ledger d \/ lr_tx e <> i) ->
  recorded d i r -> recorded d' i r.
Proof.
  intros Hg Hl Hnew. unfold recorded. destruct (moving r).
  - intros (e & He & Hm & Hd). exists e. split_and!; [by apply Hl|done|].
    by eapply expected_direction_grow.
  - intros H e He. destruct (Hnew e He); auto.
Qed.

Lemma resolved_grow d d' i r :
  map_grows wager_grows (wagers d) (wagers d') -> resolved d i r -> resolved d' i r.
Proof.
  intros Hg H Hs. specialize (H Hs). destruct (rq_refext _); [|done].
  destruct H as (j & r0 & Hj & Hr0 & Hp & Hm). destruct (Hg _ _ Hr0) as (r1 & Hr1 & Hg1).
  destruct (data_of_grown j _ _ Hg1) as (Hd & _ & Hs1); [by unfold terminal; rewrite Hp|].
  exists j, r1. rewrite Hd, Hs1. done.
Qed.

Lemma announced_grow o o' i r :
  (forall j b, o !! j = Some b -> o' !! j = Some b) -> announced o i r -> announced o' i r.
Proof. intros Ho (j & b & Hj & H). exists j, b. auto. Qed.

Lemma entry_announced_grow o o' e :
  (forall j b, o !! j = Some b -> o' !! j = Some b) -> entry_announced o e -> entry_announced o' e.
Proof. intros Ho (j & b & Hj & H). exists j, b. auto. Qed.

Lemma has_key_request p k r r' : tr_request r' = tr_request r -> has_key p k r' = has_key p k r.
Proof. unfold has_key. by intros ->. Qed.
Lemma has_external_request p y r r' :
  tr_request r' = tr_request r -> has_external p y r' = has_external p y r.
Proof. unfold has_external. by intros ->. Qed.

Lemma unsettled_not_moving r : terminal r = false -> moving r = false.
Proof.
  unfold terminal, moving, status_of. intros H. destruct (_ == StatusProcessed) eqn:E; [|done].
  bools. by rewrite E in H.
Qed.

Lemma ledger_checks_effect e : ledger_checks e = true ->
  lr_after e = lr_before e + row_effect e /\ 0 <= lr_after e /\ 0 < lr_amount e.
Proof. unfold ledger_checks, row_effect. intros H. bools. by case_match. Qed.

(** ** A settlement keeps the books *)

Section preservation.
Context (d : Db) (x : settlement) (Hc : consistent d) (Hx : settleable d x).
Local Notation i := (st_id x).
Local Notation r := (st_row x).
Local Notation d' := (settle_db x d).

(** Nothing was recorded for the transaction before. *)
Lemma no_entry e : e ∈ ledger d -> lr_tx e <> i.
Proof using Hc Hx.
  intros He Htx. destruct (wagers d !! i) as [r0|] eqn:E.
  - destruct (old_unsettled _ _ Hx _ E) as [_ Ht]. pose proof (cs_recorded _ Hc _ _ E) as Hr.
    unfold recorded in Hr. rewrite unsettled_not_moving in Hr by done. by apply (Hr e).
  - destruct (cs_ledger _ Hc e He) as (_ & (r0 & Hr0 & _) & _). rewrite Htx in Hr0. congruence.
Qed.

Lemma new_entry e : e ∈ ledger d' -> e ∈ ledger d \/ exists w, st_moved x = Some (w, e).
Proof using.
  cbn. rewrite elem_of_app. intros [He|He]; [by left|right].
  destruct (st_moved x) as [[w e']|]; [|by apply elem_of_nil in He].
  apply list_elem_of_singleton in He as ->. by exists w.
Qed.

Lemma moved_spec w e : st_moved x = Some (w, e) -> moves_money d i r w e.
Proof using Hx. intros E. pose proof (sp_moved _ _ Hx) as H. by rewrite E in H. Qed.

Lemma settle_lookup j r0 : wagers d' !! j = Some r0 ->
  (j = i /\ r0 = r) \/ (j <> i /\ wagers d !! j = Some r0).
Proof using.
  cbn. destruct (decide (j = i)) as [->|Hne].
  - rewrite lookup_insert_eq. intros [= <-]. by left.
  - rewrite lookup_insert_ne by done. by right.
Qed.

Lemma settle_wallet_lookup w r0 : wallets d' !! w = Some r0 ->
  wallets d !! w = Some r0 \/ (w = wallet_of r /\ exists e, st_moved x = Some (r0, e)).
Proof using.
  cbn. destruct (st_moved x) as [[w' e]|]; [|by left].
  destruct (decide (w = wallet_of r)) as [->|Hne].
  - rewrite lookup_insert_eq. intros [= ->]. right. by eauto.
  - rewrite lookup_insert_ne by done. by left.
Qed.

Lemma settle_entries w : entries w d' = entries w d ++
  match st_moved x with Some (_, e) => if decide (lr_wallet e = w) then [e] else [] | None => [] end.
Proof using.
  unfold entries. cbn. rewrite filter_app. f_equal.
  destruct (st_moved x) as [[w' e]|]; [|done].
  rewrite filter_cons. by destruct (decide _).
Qed.

Lemma settle_wallet_ok w r0 : wallets d' !! w = Some r0 ->
  wallet_ok (wallet_data_of w r0) /\ chained 0 (entries w d') (wr_balance r0)
  /\ timestamptz (wr_created r0) = wr_created r0.
Proof using Hc Hx.
  intros Hw. rewrite settle_entries. destruct (settle_wallet_lookup _ _ Hw) as [Hw0|[-> [e He]]].
  - destruct (cs_wallet _ Hc _ _ Hw0) as (Hok & Hch & Hcr). split; [done|]. split; [|done].
    destruct (st_moved x) as [[w' e]|] eqn:E; [|by rewrite app_nil_r].
    pose proof (moved_spec _ _ E) as Hm. pose proof (mm_matches _ _ _ _ _ Hm) as [_ Hew _ _ _].
    destruct (decide (lr_wallet e = w)) as [<-|]; [|by rewrite app_nil_r].
    (* the wallet of the entry is the one that changed *)
    assert (r0 = w') as ->.
    { cbn in Hw. rewrite E, <- Hew, lookup_insert_eq in Hw. congruence. }
    rewrite <- (mm_after _ _ _ _ _ Hm).
    destruct (ledger_checks_effect _ (mm_checks _ _ _ _ _ Hm)) as (Heq & Hn & _).
    destruct (mm_wallet _ _ _ _ _ Hm) as (w0 & Hw1 & _ & Hb & _). rewrite <- Hew in Hw1.
    apply (chained_snoc _ _ (wr_balance w')); auto. congruence.
  - rewrite He. pose proof (moved_spec _ _ He) as Hm. split; [by apply (mm_wallet_ok _ _ _ _ _ Hm)|].
    destruct (mm_wallet _ _ _ _ _ Hm) as (w0 & Hw1 & (_ & _ & Hcr & _) & Hb & _).
    destruct (cs_wallet _ Hc _ _ Hw1) as (_ & Hch & Hcr0). split; [|congruence].
    rewrite <- (mm_after _ _ _ _ _ Hm). rewrite decide_True by apply (mm_matches _ _ _ _ _ Hm).
    destruct (ledger_checks_effect _ (mm_checks _ _ _ _ _ Hm)) as (Heq & Hn & _).
    by apply (chained_snoc _ _ (wr_balance w0)).
Qed.

Lemma settle_recorded j r0 : wagers d' !! j = Some r0 -> recorded d' j r0.
Proof using Hc Hx.
  intros Hj. pose proof (settle_wagers_grow _ _ Hx) as Hg.
  destruct (settle_lookup _ _ Hj) as [[-> ->]|[Hne Hj0]].
  - unfold recorded. pose proof (sp_moved _ _ Hx) as Hm.
    destruct (st_moved x) as [[w e]|] eqn:E.
    + rewrite (mm_moving _ _ _ _ _ Hm). exists e. split_and!.
      * cbn. rewrite E. apply elem_of_app. right. by apply list_elem_of_singleton.
      * apply (mm_matches _ _ _ _ _ Hm).
      * eapply expected_direction_grow; [exact Hg|]. apply (mm_direction _ _ _ _ _ Hm).
    + rewrite Hm. intros e He. destruct (new_entry _ He) as [He0|[w Hw]]; [|congruence].
      by apply no_entry.
  - eapply recorded_grow; [exact Hg| | |by apply (cs_recorded _ Hc)].
    + intros e He. cbn. apply elem_of_app. by left.
    + intros e He. destruct (new_entry _ He) as [He0|[w Hw]]; [by left|right].
      pose proof (mm_matches _ _ _ _ _ (moved_spec _ _ Hw)) as [-> _ _ _ _]. congruence.
Qed.

(** Uniqueness of a property of rows that only the settled row newly has. *)
Lemma settle_unique (P : wager_row -> bool) :
  (forall j k r1 r2, wagers d !! j = Some r1 -> wagers d !! k = Some r2 ->
     P r1 = true -> P r2 = true -> j = k) ->
  (P r = true -> no_row P (wagers d) \/ exists r0, wagers d !! i = Some r0 /\ P r0 = true) ->
  forall j k r1 r2, wagers d' !! j = Some r1 -> wagers d' !! k = Some r2 ->
    P r1 = true -> P r2 = true -> j = k.
Proof using.
  intros Hu Hn j k r1 r2 Hj Hk P1 P2.
  assert (Haux : forall j r1, wagers d' !! j = Some r1 -> P r1 = true -> P r = true -> j = i).
  { clear -Hu Hn. intros j r1 Hj P1 Pr. destruct (settle_lookup _ _ Hj) as [[-> _]|[_ Hj0]]; [done|].
    destruct (Hn Pr) as [Hno|(r0 & Hi & P0)]; [by rewrite (Hno _ _ Hj0) in P1|by eapply Hu]. }
  destruct (settle_lookup _ _ Hj) as [[-> ->]|[_ Hj0]]; [symmetry; by eapply Haux|].
  destruct (settle_lookup _ _ Hk) as [[-> ->]|[_ Hk0]]; [by eapply Haux|]. by eapply Hu.
Qed.

Lemma settle_account v w r1 r2 : wallets d' !! v = Some r1 -> wallets d' !! w = Some r2 ->
  wr_player r1 = wr_player r2 -> wr_currency r1 = wr_currency r2 -> v = w.
Proof using Hc Hx.
  assert (Hback : forall v r1, wallets d' !! v = Some r1 -> exists r0, wallets d !! v = Some r0
    /\ wr_player r0 = wr_player r1 /\ wr_currency r0 = wr_currency r1).
  { clear -Hx. intros v r1 Hv. destruct (settle_wallet_lookup _ _ Hv) as [Hv0|[-> [e He]]]; [by eauto|].
    destruct (mm_wallet _ _ _ _ _ (moved_spec _ _ He)) as (w0 & Hw0 & (Hp & Hcur & _) & _). eauto. }
  intros Hv Hw Hp Hcur. destruct (Hback _ _ Hv) as (a & Ha & ? & ?). destruct (Hback _ _ Hw) as (b & Hb & ? & ?).
  eapply (cs_account _ Hc v w a b); congruence.
Qed.

Lemma settle_owner j r0 : wagers d' !! j = Some r0 ->
  exists w, wallets d' !! wallet_of r0 = Some w /\ wr_player w = rq_player (tr_request r0).
Proof using Hc Hx.
  pose proof (settle_wallets_grow _ _ Hx) as Hgw. intros Hj.
  assert (Hw : exists w, wallets d !! wallet_of r0 = Some w /\ wr_player w = rq_player (tr_request r0)).
  { destruct (settle_lookup _ _ Hj) as [[-> ->]|[_ Hj0]]; [apply (sp_owner _ _ Hx)|by apply (cs_owner _ Hc _ _ Hj0)]. }
  destruct Hw as (w & Hw & Hp). destruct (Hgw _ _ Hw) as (w' & Hw' & (Hp' & _)). exists w'. split; [done|]. congruence.
Qed.

(** A request that was there keeps what makes it unique. *)
Lemma settle_request (P : wager_row -> bool) :
  (forall r0, tr_request r = tr_request r0 -> P r0 = P r) ->
  (wagers d !! i = None -> P r = true -> no_row P (wagers d)) -> P r = true ->
  no_row P (wagers d) \/ exists r0, wagers d !! i = Some r0 /\ P r0 = true.
Proof using Hx.
  intros HP Hn Hp. pose proof (sp_old _ _ Hx) as Ho. destruct (wagers d !! i) as [r0|] eqn:E; [right|left; by apply Hn].
  exists r0. split; [done|]. destruct Ho as [(Hq & _) _]. by rewrite (HP r0 Hq).
Qed.

Lemma settle_ledger e : e ∈ ledger d' -> ledger_checks e = true
  /\ (exists r0, wagers d' !! lr_tx e = Some r0 /\ wallet_of r0 = lr_wallet e)
  /\ (exists w, wallets d' !! lr_wallet e = Some w /\ wr_currency w = lr_currency e).
Proof using Hc Hx.
  pose proof (settle_wagers_grow _ _ Hx) as Hg. pose proof (settle_wallets_grow _ _ Hx) as Hgw.
  intros He. destruct (new_entry _ He) as [He0|[w Hw]].
  - destruct (cs_ledger _ Hc e He0) as (Hk & (r0 & Hr0 & Hw0) & (w & Hw & Hcur)). split; [done|].
    destruct (Hg _ _ Hr0) as (r1 & Hr1 & (Hq & _)). destruct (Hgw _ _ Hw) as (w' & Hw' & (_ & Hc' & _)).
    split; [exists r1|exists w']; (split; [done|]); [unfold wallet_of in *; congruence|congruence].
  - pose proof (moved_spec _ _ Hw) as Hm. pose proof (mm_matches _ _ _ _ _ Hm) as [-> Hew _ _ _].
    split; [apply (mm_checks _ _ _ _ _ Hm)|]. rewrite Hew. split.
    + exists r. split; [cbn; apply lookup_insert_eq|done].
    + destruct (mm_wallet _ _ _ _ _ Hm) as (w0 & Hw0 & (_ & Hcur & _) & _ & Hce).
      exists w. split; [cbn; rewrite Hw; apply lookup_insert_eq|]. congruence.
Qed.

(** What distinguishes entries still does. *)
Lemma settle_distinct (f : ledger_row -> ID) :
  NoDup (f <$> ledger d) -> (forall w e, st_moved x = Some (w, e) -> f e ∉ f <$> ledger d) ->
  NoDup (f <$> ledger d').
Proof using Type.
  intros Hn Hnew. cbn. rewrite fmap_app. apply NoDup_app. split_and!; [done| |].
  - intros t Ht Hin. destruct (st_moved x) as [[w e]|] eqn:E; [|by apply elem_of_nil in Hin].
    cbn in Hin. apply list_elem_of_singleton in Hin as ->. by apply (Hnew w e).
  - destruct (st_moved x) as [[w e]|]; [apply NoDup_singleton|apply NoDup_nil_2].
Qed.

Lemma settle_events j b : outbox d' !! j = Some b -> stored_event j b.
Proof using Hc Hx.
  intros Hj. destruct (decide (j ∈ (st_events x).*1)) as [Hin|Hin].
  - apply list_elem_of_fmap in Hin as ([k z] & -> & Hy). cbn in *.
    rewrite (insert_events_new _ _ _ _ Hy (sp_distinct _ _ Hx)) in Hj. injection Hj as <-.
    pose proof (sp_new_events _ _ Hx) as Hn. rewrite Forall_forall in Hn. by destruct (Hn _ Hy) as (_ & _ & ?).
  - cbn in Hj. rewrite insert_events_other in Hj by done. by apply (cs_event _ Hc).
Qed.

Lemma settle_inbox k b : inbox d' !! k = Some b -> exists i c,
  ib_wager b = Some i /\ ib_completed b = Some c /\ is_Some (wagers d' !! i).
Proof using Hc Hx.
  pose proof (sp_inbox _ _ Hx) as Hi. pose proof (settle_wagers_grow _ _ Hx) as Hg. cbn. intros Hk.
  assert (Hold : inbox d !! k = Some b -> exists i c, ib_wager b = Some i
    /\ ib_completed b = Some c /\ is_Some (wagers d' !! i)).
  { intros H0. destruct (cs_inbox _ Hc _ _ H0) as (j & c & ? & ? & [r0 Hr0]).
    exists j, c. split_and!; try done. destruct (Hg _ _ Hr0) as (r1 & Hr1 & _). by eexists. }
  destruct (st_inbox x) as [[k' b']|]; [|by apply Hold].
  destruct (decide (k = k')) as [->|Hne].
  - rewrite lookup_insert_eq in Hk. injection Hk as ->. by apply (Hi k').
  - rewrite lookup_insert_ne in Hk by done. by apply Hold.
Qed.

Lemma settle_consistent : consistent d'.
Proof using Hc Hx.
  constructor; [exact settle_wallet_ok|exact settle_account| |exact settle_owner|exact settle_recorded|..].
  - intros j r0 Hj. destruct (settle_lookup _ _ Hj) as [[-> ->]|[_ Hj0]].
    + split; [apply (sp_row _ _ Hx)|apply (sp_status _ _ Hx)].
    + by apply (cs_row _ Hc).
  - intros j r0 Hj. eapply resolved_grow; [exact (settle_wagers_grow _ _ Hx)|].
    destruct (settle_lookup _ _ Hj) as [[-> ->]|[_ Hj0]]; [apply (sp_resolved _ _ Hx)|].
    by apply (cs_resolved _ Hc).
  - intros j r0 Hj. destruct (settle_lookup _ _ Hj) as [[-> ->]|[_ Hj0]]; [apply (sp_announced _ _ Hx)|].
    eapply announced_grow; [exact (settle_outbox_grow _ _ Hx)|]. by apply (cs_announced _ Hc).
  - intros j k r1 r2 p y. apply settle_unique; [intros *; apply (cs_key _ Hc)|].
    apply (settle_request (has_key p y)); [intros r0 Hq; by rewrite (has_key_request p y r0 r Hq)|].
    intros E Hp. pose proof (sp_old _ _ Hx) as Ho. rewrite E in Ho. by apply Ho.
  - intros j k r1 r2 p y. apply settle_unique; [intros *; apply (cs_external _ Hc)|].
    apply (settle_request (has_external p y)); [intros r0 Hq; by rewrite (has_external_request p y r0 r Hq)|].
    intros E Hp. pose proof (sp_old _ _ Hx) as Ho. rewrite E in Ho. by apply Ho.
  - intros j k r1 r2 y. apply settle_unique; [intros *; apply (cs_reversal _ Hc)|].
    intros Hp. left. by apply (sp_single _ _ Hx).
  - exact settle_ledger.
  - apply settle_distinct; [apply (cs_tx _ Hc)|]. intros w e E Hin.
    apply list_elem_of_fmap in Hin as (e0 & Heq & He0).
    pose proof (mm_matches _ _ _ _ _ (moved_spec _ _ E)) as [Htx _ _ _ _]. apply (no_entry e0 He0). congruence.
  - apply settle_distinct; [apply (cs_entry _ Hc)|]. intros w e E. apply (mm_new _ _ _ _ _ (moved_spec _ _ E)).
  - intros e He. destruct (new_entry _ He) as [He0|[w Hw]]; [|by apply (sp_entry_announced _ _ Hx w)].
    eapply entry_announced_grow; [exact (settle_outbox_grow _ _ Hx)|]. by apply (cs_moved _ Hc).
  - exact settle_events.
  - exact settle_inbox.
Qed.
End preservation.

(** ** A settlement only touches what its locks cover *)

Record covers (L : list lock) (d : Db) (x : settlement) : Prop := {
  cv_wallet : LWallet (wallet_of (st_row x)) ∈ L;
  cv_wager : LWager (st_id x) ∈ L;
  cv_new : wagers d !! st_id x = None -> LId (st_id x) ∈ L
    /\ (forall p k, has_key p k (st_row x) = true -> LKey p k ∈ L)
    /\ (forall p y, has_external p y (st_row x) = true -> LExternal p y ∈ L);
  cv_entry : forall w e, st_moved x = Some (w, e) -> LId (lr_id e) ∈ L;
  cv_events : Forall (fun y => LId y.1 ∈ L /\ LOutbox y.1 ∈ L) (st_events x);
  cv_inbox : forall c m b, st_inbox x = Some (c, m, b) -> LInbox c m ∈ L
}.

Lemma settle_own d x w j :
  settleable d x -> w <> wallet_of (st_row x) -> own w (settle_db x d) j = own w d j.
Proof.
  intros Hx Hw. unfold own. cbn. destruct (decide (j = st_id x)) as [->|Hne].
  - rewrite lookup_insert_eq, bool_decide_neq by done.
    destruct (wagers d !! st_id x) as [r0|] eqn:E; [|done].
    destruct (old_unsettled _ _ Hx _ E) as [(Hq & _) _].
    unfold wallet_of in *. rewrite <- Hq, bool_decide_neq; done.
  - by rewrite lookup_insert_ne.
Qed.

(** A property of requests no row had is still had by no row but the settled one. *)
Lemma settle_no_row d x (P : wager_row -> bool) :
  settleable d x -> (forall r r', tr_request r' = tr_request r -> P r' = P r) ->
  (wagers d !! st_id x = None -> P (st_row x) = false) ->
  no_row P (wagers d) -> no_row P (wagers (settle_db x d)).
Proof.
  intros Hx Hreq Hnew Hno j r0 Hj. destruct (settle_lookup _ _ _ _ Hj) as [[-> ->]|[_ Hj0]];
    [|by eapply Hno].
  destruct (wagers d !! st_id x) as [r1|] eqn:E; [|auto].
  destruct (old_unsettled _ _ Hx _ E) as [(Hq & _) _]. rewrite (Hreq _ _ Hq). by eapply Hno.
Qed.

Lemma settle_unused L d x j :
  settleable d x -> covers L d x -> LId j ∉ L -> unused j d -> unused j (settle_db x d).
Proof.
  intros Hx Hcv Hj (Hw & Hg & Ho & Hl). unfold unused. split_and!.
  - destruct (wallets (settle_db x d) !! j) as [w|] eqn:E; [|done].
    destruct (settle_wallet_lookup _ _ _ _ E) as [?|[-> _]]; [congruence|].
    destruct (sp_owner _ _ Hx) as (w0 & Hw0 & _). congruence.
  - destruct (wagers (settle_db x d) !! j) as [r|] eqn:E; [|done].
    destruct (settle_lookup _ _ _ _ E) as [[-> _]|[_ ?]]; [|congruence].
    by destruct (cv_new _ _ _ Hcv Hg) as [? _].
  - cbn. rewrite insert_events_other; [done|]. intros Hin.
    apply list_elem_of_fmap in Hin as (y & -> & Hy).
    pose proof (cv_events _ _ _ Hcv) as Hev. rewrite Forall_forall in Hev. by apply Hj, Hev.
  - cbn. rewrite fmap_app, not_elem_of_app. split; [done|].
    destruct (st_moved x) as [[w e]|] eqn:E; [|apply not_elem_of_nil].
    cbn. rewrite list_elem_of_singleton. intros ->. by apply Hj, (cv_entry _ _ _ Hcv w).
Qed.

Lemma settle_protected L d x :
  settleable d x -> covers L d x -> protected (fun l => l ∉ L) d (settle_db x d).
Proof.
  intros Hx Hcv. constructor.
  - intros w Hw. assert (Hne : w <> wallet_of (st_row x)).
    { intros ->. apply Hw, (cv_wallet _ _ _ Hcv). }
    split_and!.
    + cbn. destruct (st_moved x) as [[w' e]|]; [by rewrite lookup_insert_ne|done].
    + rewrite settle_entries. destruct (st_moved x) as [[w' e]|] eqn:E; [|by rewrite app_nil_r].
      pose proof (mm_matches _ _ _ _ _ (moved_spec _ _ Hx _ _ E)) as [_ -> _ _ _].
      rewrite decide_False by done. by rewrite app_nil_r.
    + intros j. by apply settle_own.
  - intros j. by apply settle_unused.
  - intros p c _ Hno w r0 Hw. destruct (settle_wallet_lookup _ _ _ _ Hw) as [Hw0|[-> [e He]]];
      [by eapply Hno|].
    destruct (mm_wallet _ _ _ _ _ (moved_spec _ _ Hx _ _ He)) as (w0 & Hw0 & (Hp & Hcur & _) & _).
    unfold has_account in *. rewrite Hp, Hcur. by apply (Hno (wallet_of (st_row x)) w0).
  - intros p k Hk. apply settle_no_row; [done|intros *; apply has_key_request|].
    intros Hn. destruct (has_key p k (st_row x)) eqn:E; [|done].
    destruct (cv_new _ _ _ Hcv Hn) as (_ & HK & _). by destruct Hk; apply HK.
  - intros p y Hy. apply settle_no_row; [done|intros *; apply has_external_request|].
    intros Hn. destruct (has_external p y (st_row x)) eqn:E; [|done].
    destruct (cv_new _ _ _ Hcv Hn) as (_ & _ & HK). by destruct Hy; apply HK.
  - intros j Hj. cbn. rewrite lookup_insert_ne; [done|]. intros <-. apply Hj, (cv_wager _ _ _ Hcv).
  - intros j Hj. cbn. rewrite insert_events_other; [done|]. intros Hin.
    apply list_elem_of_fmap in Hin as (y & -> & Hy).
    pose proof (cv_events _ _ _ Hcv) as Hev. rewrite Forall_forall in Hev. by apply Hj, Hev.
  - intros c m Hm. cbn. destruct (st_inbox x) as [[[c' m'] b]|] eqn:E; [|done].
    rewrite lookup_insert_ne; [done|]. intros [= -> ->]. apply Hm. by eapply (cv_inbox _ _ _ Hcv).
Qed.

Lemma settle_guar L d x :
  settleable d x -> covers L d x -> guar L d (settle_db x d).
Proof.
  intros Hx Hcv. apply guar_protected; [by apply settle_protected|by apply settle_evolves|].
  intros Hc. by apply settle_consistent.
Qed.

(** The deferred triggers of the migrations agree. *)
Lemma consistent_verify d i r : consistent d -> wagers d !! i = Some r -> verify_wager_ledger i d = true.
Proof.
  intros Hc Hi. unfold verify_wager_ledger. rewrite Hi.
  destruct (cs_row _ Hc _ _ Hi) as [_ Hs]. fold (status_of r).
  rewrite (bool_decide_neq _ _ Hs).
  pose proof (cs_recorded _ Hc _ _ Hi) as Hr. unfold recorded, moving in Hr.
  fold (wallet_of r). unfold KindLOSS, StatusProcessed in Hr.
  destruct ((status_of r == "PROCESSED") && (rq_kind (tr_request r) != "LOSS")).
  - destruct Hr as (e & He & [Ht Hw Ha Hcur Hb] & Hd).
    destruct (entry_of d (wallet_of r) i) as [e'|] eqn:E.
    + unfold entry_of in E. apply List.find_some in E as [Hin Hm]. bools.
      assert (e' = e) as ->.
      { rewrite <- list_elem_of_In in Hin. pose proof (cs_tx _ Hc) as Hnd.
        apply list_elem_of_lookup in Hin as [n Hn], He as [m Hm].
        assert (n = m) as ->; [|congruence].
        eapply NoDup_lookup; [exact Hnd| |]; rewrite list_lookup_fmap; [by rewrite Hn|].
        rewrite Hm. cbn. congruence. }
      rewrite Hb, Hd, Ha. rewrite !Z.eqb_refl. by rewrite bool_decide_refl.
    + unfold entry_of in E. rewrite list_elem_of_In in He.
      pose proof (List.find_none _ _ E _ He) as Hf. cbn in Hf. rewrite Hw, Ht, !bool_decide_refl in Hf. done.
  - destruct (entry_of d (wallet_of r) i) as [e'|] eqn:E; [|done].
    unfold entry_of in E. apply List.find_some in E as [Hin Hm]. bools.
    rewrite <- list_elem_of_In in Hin. by destruct (Hr _ Hin).
Qed.
