(* ===== verification/Pending.v ===== *)
(** * A transaction in progress

    What a session knows between its statements: the rows its locks protect,
    and the database it sees, which is the committed one with the pending rows
    of [pend] laid over it.  [holding_rely]: others' commits change none of it. *)

From S2P Require Import Prelude GoStd Errors Ident Money Wallet Ledger Wager Evaluate Command.
From S2P Require Import Events Session Rules Database Sql Store Rows Books Settle.

Record pend : Type := mkPend {
  p_wallet : option wallet_row;
  p_row : wager_row;
  p_entry : option ledger_row;
  p_events : list (ID * outbox_row);
  p_inbox : gmap (string * string) inbox_row -> gmap (string * string) inbox_row
}.

Definition pend_db (w id : ID) (p : pend) (b : Db) : Db :=
  mkDb (match p_wallet p with Some r => <[w := r]> (wallets b) | None => wallets b end)
    (<[id := p_row p]> (wagers b))
    (ledger b ++ match p_entry p with Some e => [e] | None => [] end)
    (p_inbox p (inbox b))
    (insert_events (p_events p) (outbox b)).

(** Where the transaction's row comes from: it is being inserted, and the
    identifier and the two identities are this session's; or it was waiting,
    and its row is locked. *)
Definition origin (L : list lock) (b : Db) (id : ID) (r : wager_row) : Prop :=
  LWager id ∈ L /\
  match wagers b !! id with
  | Some r0 => wager_grows r0 r /\ terminal r0 = false
  | None =>
      unused id b /\ LId id ∈ L
      /\ (forall p k, has_key p k r = true -> LKey p k ∈ L /\ no_row (has_key p k) (wagers b))
      /\ (forall p y, has_external p y r = true ->
          LExternal p y ∈ L /\ no_row (has_external p y) (wagers b))
  end.

(** An identifier of this session that no row carries yet. *)
Definition mine (s : sess Db lock) (b : Db) (i : ID) : Prop :=
  LId i ∈ ss_locks s /\ unused i b /\ i <> zeroID.

(** A deferred trigger consistent books satisfy once the transaction is in. *)
Definition harmless (id : ID) (g : Db -> bool) : Prop :=
  forall d, consistent d -> is_Some (wagers d !! id) -> g d = true.

Record holding (s : sess Db lock) (b : Db) (w id : ID) (wrow : wallet_row) (p : pend) : Prop := {
  ho_live : ss_live s = true;
  ho_done : ss_done s = None;
  ho_consistent : consistent b;
  ho_lock : LWallet w ∈ ss_locks s;
  ho_wallet : wallets b !! w = Some wrow;
  ho_owner : wallet_of (p_row p) = w /\ wr_player wrow = rq_player (tr_request (p_row p));
  ho_row : row_ok id (p_row p);
  ho_origin : origin (ss_locks s) b id (p_row p);
  ho_deferred : Forall (harmless id) (ss_deferred s);
  ho_view : forall b', depend (ss_locks s) b b' -> view b' s = pend_db w id p b'
}.

(** ** Stability *)

Lemma unused_rely L b b' i : LId i ∈ L -> depend L b b' -> unused i b -> unused i b'.
Proof. intros Hi [Hp _ _]. by apply (pt_id _ _ _ Hp). Qed.

Lemma mine_rely s b b' i : mine s b i -> depend (ss_locks s) b b' -> mine s b' i.
Proof. intros (? & ? & ?) Hd. split_and!; auto. by eapply unused_rely. Qed.

Lemma origin_rely L b b' id r : origin L b id r -> depend L b b' -> origin L b' id r.
Proof.
  intros [Hl Ho] Hd. split; [done|]. destruct Hd as [Hp He Hc].
  rewrite (pt_wager _ _ _ Hp) by done. destruct (wagers b !! id); [done|].
  destruct Ho as (Hu & Hid & Hk & Hx). split_and!; [|done| |].
  - by apply (pt_id _ _ _ Hp).
  - intros q k Hq. destruct (Hk q k Hq). split; [done|]. by apply (pt_key _ _ _ Hp).
  - intros q k Hq. destruct (Hx q k Hq). split; [done|]. by apply (pt_external _ _ _ Hp).
Qed.

Lemma holding_rely s b b' w id wrow p :
  holding s b w id wrow p -> depend (ss_locks s) b b' -> holding s b' w id wrow p.
Proof.
  intros [Hl Hdn Hc Hlk Hw Hown Hr Ho Hdf Hv] Hd. constructor; try done.
  - by apply (dp_consistent _ _ _ Hd).
  - destruct (pt_wallet _ _ _ (dp_protected _ _ _ Hd) w Hlk) as (-> & _). done.
  - by eapply origin_rely.
  - intros b'' Hd'. apply Hv. by eapply depend_trans.
Qed.

Lemma own_rely L b b' w i : LWallet w ∈ L -> depend L b b' -> own w b' i = own w b i.
Proof. intros Hl Hd. by destruct (pt_wallet _ _ _ (dp_protected _ _ _ Hd) w Hl) as (_ & _ & H). Qed.

Lemma origin_sub L L' b id r : L ⊆ L' -> origin L b id r -> origin L' b id r.
Proof.
  intros Hs [Hl Ho]. split; [by apply Hs|]. destruct (wagers b !! id); [done|].
  destruct Ho as (Hu & Hid & Hk & Hx). split_and!; [done|by apply Hs| |].
  - intros q k Hq. destruct (Hk q k Hq). split; [by apply Hs|done].
  - intros q k Hq. destruct (Hx q k Hq). split; [by apply Hs|done].
Qed.

(** ** One statement *)

Lemma locks_write {R} s (o : outcome Db lock R) : ss_locks s ⊆ ss_locks (sess_write s o).
Proof. intros l Hl. cbn. apply elem_of_app. by left. Qed.

Lemma view_write {R} b s (o : outcome Db lock R) : view b (sess_write s o) = out_write o (view b s).
Proof. unfold view. cbn. by rewrite foldl_app. Qed.

Lemma mine_write {R} s b i (o : outcome Db lock R) : mine s b i -> mine (sess_write s o) b i.
Proof. intros (? & ? & ?). split_and!; auto. by apply locks_write. Qed.

(** A statement whose effect on the view turns the pending rows [p] into [p'].*)
Lemma holding_write {R} s b w id wrow p p' (o : outcome Db lock R) :
  holding s b w id wrow p ->
  wallet_of (p_row p') = w /\ rq_player (tr_request (p_row p')) = rq_player (tr_request (p_row p)) ->
  row_ok id (p_row p') -> origin (ss_locks s) b id (p_row p') ->
  Forall (harmless id) (out_deferred o) ->
  (forall b', depend (ss_locks s) b b' -> out_write o (pend_db w id p b') = pend_db w id p' b') ->
  holding (sess_write s o) b w id wrow p'.
Proof.
  intros [Hl Hdn Hc Hlk Hw [Hown Hpl] Hr Ho Hdf Hv] [Hown' Hpl'] Hr' Ho' Hdf' Hout.
  constructor; try done.
  - by apply locks_write.
  - split; [done|]. congruence.
  - eapply origin_sub; [|done]. apply locks_write.
  - cbn. by apply Forall_app.
  - intros b' Hd. rewrite view_write.
    assert (Hd' : depend (ss_locks s) b b') by (eapply depend_sub; [|done]; apply locks_write).
    rewrite Hv by done. by apply Hout.
Qed.

Lemma holding_read {R} s b w id wrow p (o : outcome Db lock R) :
  holding s b w id wrow p -> (forall d, out_write o d = d) -> out_deferred o = [] ->
  holding (sess_write s o) b w id wrow p.
Proof.
  intros H Ho Hdf. pose proof H as []. eapply holding_write; try done; auto; [by destruct ho_owner0|].
  by rewrite Hdf.
Qed.

Lemma depend_write {R} s (o : outcome Db lock R) b b' :
  depend (ss_locks (sess_write s o)) b b' -> depend (ss_locks s) b b'.
Proof. apply depend_sub, locks_write. Qed.

(** The view of a session at its own base. *)
Lemma holding_view s b w id wrow p : holding s b w id wrow p -> view b s = pend_db w id p b.
Proof. intros H. apply (ho_view _ _ _ _ _ _ H). apply depend_refl. Qed.

(** ** Symbolic execution

    [quit]: the method returns an error and nothing was committed. *)
Ltac refold := fold (@bind Db lock Cx).
Ltac quit :=
  intros; refold; cbn [bind]; refold;
  repeat match goal with H : external ?e |- context [is_no_rows ?e] =>
    rewrite (proj2 (proj2 H)) end;
  cbn; intros; first [done | by left | by apply tolerant].

(** [run_stmt]: the next statement succeeded; its reply is [r]. *)
Tactic Notation "run_stmt" "as" ident(b') ident(cx) ident(r) ident(Hd) ident(Hcx) ident(Hr) :=
  apply wp_do; [done|solve [quit]|intros b' cx r Hd Hcx Hr;
    lazymatch type of Hd with rely ?L ?x ?y => change (depend L x y) in Hd end;
    lazymatch type of Hcx with cx_ok ?c ?v ?L => change (generated c v L) in Hcx end;
    refold; cbn [bind]; refold].

(** [advance H Hd]: the session's knowledge [H] at the base reached by [Hd]. *)
Ltac advance H Hd :=
  let H' := fresh in
  pose proof (holding_rely _ _ _ _ _ _ _ H Hd) as H'; clear H; rename H' into H;
  rewrite ?(holding_view _ _ _ _ _ _ H) in *.

Lemma wp_done {A} C (a : A) b s (Q : A -> sess Db lock -> Db -> Prop) :
  (forall b', depend (ss_locks s) b b' -> Q a s b') -> wp C (Ret a : program A) b s Q.
Proof. done. Qed.

(** The end of a method: [Hd] is what others committed before it returned. *)
Tactic Notation "finish" "as" ident(b') ident(Hd) :=
  first [apply wp_done|cbn; apply wp_done]; intros b' Hd; cbn [post fst snd ret lift].

(** A statement that writes nothing. *)
Ltac read_only H :=
  match goal with
  | |- wp _ _ _ (sess_write _ ?o) _ =>
      let H' := fresh in
      pose proof (holding_read _ _ _ _ _ _ o H) as H';
      clear H; rename H' into H; specialize (H ltac:(intros; unfold select_external; cbn; repeat case_match; reflexivity)
        ltac:(unfold select_external; cbn; repeat case_match; reflexivity))
  end.

(** ** Progress of a session *)

(** [s'] at [b'] is a later point of the session that was [s] at [b]. *)
Definition onward (s : sess Db lock) (b : Db) (s' : sess Db lock) (b' : Db) : Prop :=
  ss_locks s ⊆ ss_locks s' /\ depend (ss_locks s) b b'.

Lemma onward_refl s b : onward s b s b.
Proof. split; [done|apply depend_refl]. Qed.
Lemma onward_trans s b s1 b1 s2 b2 : onward s b s1 b1 -> onward s1 b1 s2 b2 -> onward s b s2 b2.
Proof.
  intros [Hs Hd] [Hs' Hd']. split; [by etrans|]. eapply depend_trans; [exact Hd|].
  by eapply depend_sub.
Qed.
Lemma onward_write {R} s b b' (o : outcome Db lock R) :
  depend (ss_locks s) b b' -> onward s b (sess_write s o) b'.
Proof. split; [apply locks_write|done]. Qed.
Lemma onward_depend s b b' : depend (ss_locks s) b b' -> onward s b s b'.
Proof. by split. Qed.

Lemma mine_onward s b s' b' i : mine s b i -> onward s b s' b' -> mine s' b' i.
Proof.
  intros Hm [Hs Hd]. destruct (mine_rely _ _ _ _ Hm Hd) as (Hl & Hu & Hz).
  split_and!; [by apply Hs|done..].
Qed.

(** ** What a session knows

    A predicate [K] of a session is knowledge: it holds only of an open
    transaction, others' commits and the session's own reads keep it, and what
    is unused in the database it sees is unused in the committed one. *)

Definition only_reads {R} (o : outcome Db lock R) : Prop :=
  (forall d, out_write o d = d) /\ out_deferred o = [].

Class Knows (K : sess Db lock -> Db -> Prop) : Prop := {
  knows_live s b : K s b -> ss_live s = true;
  knows_done s b : K s b -> ss_done s = None;
  knows_rely s b b' : K s b -> depend (ss_locks s) b b' -> K s b';
  knows_read R s b (o : outcome Db lock R) : K s b -> only_reads o -> K (sess_write s o) b;
  knows_unused s b i : K s b -> unused i (view b s) -> unused i b
}.

Lemma insert_events_none l o j : insert_events l o !! j = None -> o !! j = None.
Proof.
  revert o. induction l as [|[k e] l IH]; cbn; intros o H; [done|].
  apply IH in H. destruct (decide (k = j)) as [->|Hne]; [by rewrite lookup_insert_eq in H|].
  by rewrite lookup_insert_ne in H.
Qed.

Lemma pend_unused w id p b i : unused i (pend_db w id p b) -> unused i b.
Proof.
  intros (Hw & Hg & Ho & Hl). unfold unused. cbn in *. split_and!.
  - destruct (p_wallet p); [|done]. by apply lookup_insert_None in Hw as [? _].
  - by apply lookup_insert_None in Hg as [? _].
  - by apply insert_events_none in Ho.
  - rewrite fmap_app in Hl. intros Hin. apply Hl, elem_of_app. by left.
Qed.

#[global] Instance holding_knows w id wrow p : Knows (fun s b => holding s b w id wrow p).
Proof.
  constructor; intros *.
  - apply ho_live.
  - apply ho_done.
  - apply holding_rely.
  - intros H [? ?]. by apply holding_read.
  - intros H. rewrite (holding_view _ _ _ _ _ _ H). apply pend_unused.
Qed.

(** A fresh identifier is the session's own. *)
Lemma allocateID_triple C K `{!Knows K} s b :
  K s b ->
  wp C allocateID b s (post quiet (fun uid s' b' =>
    K s' b' /\ mine s' b' uid /\ LId uid ∉ ss_locks s /\ onward s b s' b')).
Proof.
  intros HK. pose proof (knows_live _ _ HK) as Hlive. pose proof (knows_done _ _ HK) as Hdone.
  run_stmt as b1 cx r Hd Hcx Hr. apply (knows_rely _ _ b1) in HK; [|exact Hd].
  injection Hr as <-. destruct (Hcx 0%nat) as (Hu & Hz & Hnew).
  rewrite ParseID_String by done. finish as b2 Hd2.
  set (s' := sess_write s _) in *.
  assert (Ho : onward s b s' b1) by by eapply onward_write.
  assert (Hm : mine s' b1 (cx_uuid cx 0)).
  { split_and!; [|by eapply knows_unused|done]. cbn. apply elem_of_app. right. apply list_elem_of_here. }
  split; [by eapply knows_rely; [apply knows_read|]|]. split; [by eapply mine_rely|]. split; [done|].
  eapply onward_trans; [exact Ho|]. by apply onward_depend.
Qed.

Lemma wp_allocate {B} C E `{!Tolerant E} (P : B -> sess Db lock -> Db -> Prop) K `{!Knows K} s b k :
  K s b ->
  (forall b' s' uid, K s' b' -> mine s' b' uid -> LId uid ∉ ss_locks s -> onward s b s' b' ->
     wp C (k uid) b' s' (post E P)) ->
  wp C (andThen allocateID k) b s (post E P).
Proof.
  intros HK H. apply wp_seq; [exact _|]. eapply wp_post; [by apply (allocateID_triple C K)|].
  intros [uid|e] s' b'; [|done]. intros (? & ? & ? & ?). by apply H.
Qed.
