(* ===== verification/Reference.v ===== *)
(** * Resolving a reference: the triple of [find_reference]

    What a session that holds a wallet knows of the transaction a request
    names: when it is in the same wallet it is locked, its row cannot change,
    and whether it was already reversed cannot change either. *)

From S2P Require Import Prelude GoStd Errors Ident Money Wallet Ledger Wager Evaluate Command.
From S2P Require Import Events Session Rules Database Sql Store Rows Books Settle Pending.
Import Str.
#[local] Open Scope prog_scope.

(** Only the transaction's row is pending. *)
Definition only_row (r : wager_row) (fi : gmap (string * string) inbox_row -> gmap (string * string) inbox_row) :
    pend := mkPend None r None [] fi.

Lemma pend_row s b w id wrow p i r :
  holding s b w id wrow p -> wagers (pend_db w id p b) !! i = Some r -> row_ok i r.
Proof.
  intros H Hi. cbn in Hi. destruct (decide (i = id)) as [->|Hne].
  - rewrite lookup_insert_eq in Hi. injection Hi as <-. apply (ho_row _ _ _ _ _ _ H).
  - rewrite lookup_insert_ne in Hi by done. by apply (cs_row _ (ho_consistent _ _ _ _ _ _ H)).
Qed.

Lemma data_of_strip i r : data_of i (strip r) = data_of i r.
Proof. done. Qed.

(** A reversal is in the wallet of what it reverses. *)
Lemma reversal_wallet b j r y :
  consistent b -> wagers b !! j = Some r -> reverses y r = true ->
  exists ry, wagers b !! y = Some ry /\ wallet_of ry = wallet_of r.
Proof.
  intros Hc Hj Hr. unfold reverses in Hr. bools.
  pose proof (cs_resolved _ Hc _ _ Hj) as Hres. unfold resolved, status_of in Hres.
  destruct (cs_row _ Hc _ _ Hj) as [Hok _]. specialize (Hres H0).
  destruct (rq_refext (tr_request r)) as [x|] eqn:Ex.
  - destruct Hres as (k & rk & Hk & Hrk & _ & Hm). rewrite Hk in H. injection H as ->.
    exists rk. split; [done|]. apply (rm_wallet _ _ Hm).
  - congruence.
Qed.

Lemma no_reversal_rely L b b' w y ry :
  LWallet w ∈ L -> depend L b b' -> consistent b -> own w b y = Some ry ->
  no_row (reverses y) (wagers b) -> no_row (reverses y) (wagers b').
Proof.
  intros Hl Hd Hc Hy Hno j r Hj. destruct (reverses y r) eqn:Hr; [|done].
  pose proof (dp_consistent _ _ _ Hd Hc) as Hc'.
  destruct (reversal_wallet _ _ _ _ Hc' Hj Hr) as (ry' & Hy' & Hw).
  rewrite <- (own_rely _ _ _ _ y Hl Hd) in Hy. unfold own in Hy. rewrite Hy' in Hy.
  destruct (wallet_of ry' == w) eqn:Ew; [|done]. bools.
  pose proof (own_rely _ _ _ _ j Hl Hd) as Hj'. unfold own in Hj'.
  rewrite Hj, <- Hw, Ew, bool_decide_refl in Hj'.
  destruct (wagers b !! j) as [r0|] eqn:E0; [|done].
  destruct (_ == w); [|done]. injection Hj' as Hq Ho _ _ _ _.
  pose proof (Hno _ _ E0) as Hf. unfold reverses in *. rewrite <- Hq, <- Ho in Hf. congruence.
Qed.

(** What [apply] knows of the reference when it may act on it. *)
Definition referenced (b : Db) (w id : ID) (reference : option WagerData) (reversed : bool) : Prop :=
  forall ref, reference = Some ref -> wgID ref <> id -> wgWalletID ref = w ->
  exists r, own w b (wgID ref) = Some r /\ ref = data_of (wgID ref) r
    /\ (reversed = false -> no_row (reverses (wgID ref)) (wagers b)).

Lemma referenced_rely L b b' w id reference reversed :
  LWallet w ∈ L -> depend L b b' -> consistent b ->
  referenced b w id reference reversed -> referenced b' w id reference reversed.
Proof.
  intros Hl Hd Hc H ref Hr Hi Hw. destruct (H ref Hr Hi Hw) as (r & Ho & Hdat & Hrev).
  exists r. rewrite (own_rely _ _ _ _ _ Hl Hd). split_and!; [done..|].
  intros Hf. eapply no_reversal_rely; eauto.
Qed.

Lemma pend_own s b w id wrow r fi i r' :
  holding s b w id wrow (only_row r fi) -> wagers (pend_db w id (only_row r fi) b) !! i = Some r' ->
  i <> id -> wallet_of r' = w -> own w b i = Some (strip r').
Proof.
  intros H Hi Hne Hw. cbn in Hi. rewrite lookup_insert_ne in Hi by done.
  unfold own. by rewrite Hi, Hw, bool_decide_refl.
Qed.

(** The reversals of [i] the session sees are the committed ones. *)
Lemma pend_no_reversal s b w id wrow r fi i :
  holding s b w id wrow (only_row r fi) ->
  no_row (reverses i) (wagers (pend_db w id (only_row r fi) b)) -> no_row (reverses i) (wagers b).
Proof.
  intros H Hno j r0 Hj. destruct (decide (j = id)) as [->|Hne].
  - destruct (ho_origin _ _ _ _ _ _ H) as [_ Ho]. rewrite Hj in Ho. destruct Ho as [_ Ht].
    unfold reverses. destruct (oc_status (tr_outcome r0) == StatusProcessed) eqn:E;
      [|by rewrite andb_false_r]. bools. unfold terminal, status_of in Ht. by rewrite E in Ht.
  - apply (Hno j). cbn. by rewrite lookup_insert_ne.
Qed.

(** Knowledge of a reference, as [find_reference] leaves it. *)
Definition found (s : sess Db lock) (b : Db) (w id : ID) (wrow : wallet_row) (r : wager_row) fi
    (refext : string) (res : option WagerData * bool) (s' : sess Db lock) (b' : Db) : Prop :=
  holding s' b' w id wrow (only_row r fi) /\ ss_locks s ⊆ ss_locks s'
  /\ depend (ss_locks s) b b' /\ referenced b' w id res.1 res.2
  /\ (refext = "" -> res.1 = None).

Lemma wp_found {R} C s b b1 (o : outcome Db lock R) p w id wrow r fi x :
  depend (ss_locks s) b b1 ->
  wp C p b1 (sess_write s o) (post quiet (found (sess_write s o) b1 w id wrow r fi x)) ->
  wp C p b1 (sess_write s o) (post quiet (found s b w id wrow r fi x)).
Proof.
  intros Hd. apply wp_mono; [done|]. intros [res|e] s' b'; [|done]. intros (H1 & H2 & H3 & H4).
  split; [done|]. split; [intros l Hl; by apply H2, locks_write|]. split; [|done].
  eapply depend_trans; [exact Hd|]. by apply depend_write in H3.
Qed.

Lemma found_nothing s b b' w id wrow r fi x rev :
  holding s b w id wrow (only_row r fi) -> depend (ss_locks s) b b' ->
  found s b w id wrow r fi x (None, rev) s b'.
Proof. intros Hh Hd. split; [by eapply holding_rely|]. by split_and!; try done; intros ? [=]. Qed.

Lemma reversal_check_triple C s b w id wrow r fi x i rr :
  holding s b w id wrow (only_row r fi) -> x <> "" ->
  (i <> id -> wallet_of rr = w -> own w b i = Some (strip rr)) ->
  wp C (reversed <-- map_err dbError (exec (exists_reversal i));; ret (Some (data_of i rr), reversed))
    b s (post quiet (found s b w id wrow r fi x)).
Proof.
  intros Hh Hx Hown. pose proof (ho_live _ _ _ _ _ _ Hh) as Hlive.
  pose proof (ho_done _ _ _ _ _ _ Hh) as Hdone. pose proof (ho_lock _ _ _ _ _ _ Hh) as Hlk.
  run_stmt as b1 cx1 rev Hd1 Hcx1 Hr1. advance Hh Hd1. cbn in Hr1. injection Hr1 as Hrev.
  read_only Hh. finish as b2 Hd2.
  assert (Hd2' := depend_write _ _ _ _ Hd2).
  split; [by eapply holding_rely|]. split; [apply locks_write|].
  split; [by eapply depend_trans|]. split; [|done].
  eapply referenced_rely; [apply (ho_lock _ _ _ _ _ _ Hh)|exact Hd2|apply (ho_consistent _ _ _ _ _ _ Hh)|].
  intros ref [= <-] Hi Hw. cbn in Hi, Hw. exists (strip rr). cbn [wgID data_of].
  rewrite (own_rely _ _ _ _ _ Hlk Hd1). split_and!; [by apply Hown|done|].
  cbn [snd]. intros ->. eapply pend_no_reversal; [exact Hh|].
  apply is_some_None in Hrev. exact (proj1 (find_row_None _ _) Hrev).
Qed.

Lemma find_reference_triple C s b w id wrow r fi wd d :
  holding s b w id wrow (only_row r fi) -> wID wd = w ->
  wp C (find_reference wd d) b s
    (post quiet (found s b w id wrow r fi (wgReferenceExternalTransactionID d))).
Proof.
  intros Hh Hw. unfold find_reference. case_bool_decide as Hx.
  { finish as b' Hd. by apply found_nothing. }
  pose proof (ho_live _ _ _ _ _ _ Hh) as Hlive. pose proof (ho_done _ _ _ _ _ _ Hh) as Hdone.
  run_stmt as b1 cx1 r1 Hd1 Hcx1 Hr1. advance Hh Hd1. apply select_external_Ok in Hr1 as ->. read_only Hh. apply wp_found; [done|].
  destruct (find_row _ _) as [[i rr]|] eqn:Ef; [|finish as b2 Hd2; by eapply (found_nothing _ b1)].
  apply find_row_Some in Ef as [Hi _]. cbn [wager_found fmap option_fmap option_map].
  rewrite (scanWager_row i rr) by (by eapply (pend_row _ b1)).
  refold. cbn [bind lift ret]. refold. cbn [wgWalletID wgID data_of].
  change (rq_wallet (tr_request rr)) with (wallet_of rr). rewrite Hw.
  destruct (wallet_of rr == w) eqn:Eww; bools.
  - run_stmt as b2 cx2 r2 Hd2 Hcx2 Hr2. advance Hh Hd2. unfold select_wager_for_update in *.
    destruct (wagers (pend_db w id (only_row r fi) b2) !! i) as [rr2|] eqn:E2.
    + cbn in Hr2. injection Hr2 as <-. read_only Hh. apply wp_found; [done|].
      rewrite (scanWager_row i rr2) by (by eapply (pend_row _ b2)).
      apply reversal_check_triple; [done|done|]. intros Hi2 Hw2. by eapply pend_own.
    + cbn in Hr2. injection Hr2 as <-. by quit.
  - apply reversal_check_triple; [done|done|]. done.
Qed.
