(* ===== verification/Verdict.v ===== *)
(** * Verdicts: what settling a transaction may leave

    The three ends of [apply]: the transaction waits, is refused, or moves
    money.  [verdict] says which and with what result; [decided] is what the
    row, the wallet and the entry it leaves satisfy. *)

From S2P Require Import Prelude GoStd Errors Ident Money Wallet Ledger Wager Evaluate Command.
From S2P Require Import Events Session Rules Database Sql Store Rows Books Settle Pending.
From S2P Require Import Reference.
Import Str.

(** The snapshot [apply] works on is the one the pending row holds. *)
Record in_memory (id : ID) (r : wager_row) (d : WagerData) : Prop := {
  im_request : same_request (data_of id r) (stored d);
  im_valid : wager_valid d;
  im_open : Terminal (wgStatus d) = false;
  im_result : wgResultBalance d = Money0 /\ wgResultVersion d = 0 /\ wgReferenceID d = zeroID;
  im_created : 1000 <= wgCreatedAt d;
  im_status : wgStatus d = status_of r;
  im_external : wgKind d <> KindOpening
}.

Inductive verdict (wd : WalletData) (d : WagerData) (reference : option WagerData)
    (reversed expired : bool) (now : Z) : WagerData -> WalletData -> Prop :=
| vd_waits dec :
    Evaluate wd d reference reversed = Ok dec -> dcPending dec = true -> expired = false ->
    verdict wd d reference reversed expired now
      (settle d StatusPendingReference (wgFailureCode d) (wgResultBalance d) (wgResultVersion d)
         (wgReferenceID d) now) wd
| vd_refuses dec code :
    Evaluate wd d reference reversed = Ok dec ->
    (dcPending dec = false /\ code = dcFailureCode dec
     \/ dcPending dec = true /\ expired = true /\ code = "REFERENCE_NOT_FOUND") ->
    code <> "" ->
    verdict wd d reference reversed expired now
      (settle d StatusRejected code (wBalance wd) (wVersion wd) (wgReferenceID d) now) wd
| vd_moves dec w' :
    Evaluate wd d reference reversed = Ok dec -> dcPending dec = false -> dcFailureCode dec = "" ->
    approved wd d reference reversed (dcDirection dec) ->
    executed wd w' (dcDirection dec) (minor (wgMoney d)) now ->
    verdict wd d reference reversed expired now
      (settle d StatusProcessed (wgFailureCode d) (wBalance w') (wVersion w')
         (match reference with Some r => wgID r | None => zeroID end) now) w'.

(** What a row that is about to be committed satisfies, given the locks. *)
Record decided (b : Db) (w id : ID) (wrow : wallet_row) (r : wager_row) (pw : option wallet_row)
    (pe : option ledger_row) : Prop := {
  de_status : status_of r <> StatusPending;
  de_resolved : status_of r = StatusProcessed ->
    match rq_refext (tr_request r) with
    | None => oc_reference (tr_outcome r) = None
    | Some _ => exists j ry, oc_reference (tr_outcome r) = Some j /\ own w b j = Some ry
        /\ status_of ry = StatusProcessed /\ reference_matches (data_of id r) (data_of j ry)
    end;
  de_single : forall y, reverses y r = true ->
    no_row (reverses y) (wagers b) /\ is_Some (own w b y);
  de_moved : match pw, pe with
    | None, None => moving r = false
    | Some wr, Some e =>
        moving r = true /\ entry_matches id r e /\ expected_direction b r = Some (lr_direction e)
        /\ ledger_checks e = true /\ wallet_grows wrow wr /\ lr_before e = wr_balance wrow
        /\ lr_currency e = wr_currency wrow /\ lr_after e = wr_balance wr
        /\ wallet_ok (wallet_data_of w wr)
    | _, _ => False
    end
}.

(** ** Transitions give the settled snapshot *)

Lemma settled_by d now change w' s c b v r :
  transition (Some (mkWagerTransaction d)) now change = Ok w' ->
  change (with_times d now (wgCompletedAt d))
  = with_outcome (with_times d now (wgCompletedAt d)) s c b v r ->
  w' = mkWagerTransaction (settle d s c b v r now) /\ wager_valid (settle d s c b v r now)
  /\ wgUpdatedAt d <= now.
Proof.
  intros H Hch. apply transition_inv in H as (_ & _ & _ & Hup & Hw & Hv).
  cbn [wager_data] in Hw, Hv, Hup. rewrite Hch in Hw. destruct w' as [d']. cbn in Hw, Hv.
  assert (d' = settle d s c b v r now) as ->; [|done].
  rewrite Hw. unfold settle. by destruct (Terminal s).
Qed.

Lemma move_wallet_inv d dir money now w' :
  wallet_ok d -> Int64.in_range (minor money) ->
  (dir = DirectionDebit \/ dir = DirectionCredit \/ dir = DirectionNone) ->
  (dir <> DirectionNone -> 0 < minor money) ->
  move_wallet (mkWallet d) dir money now = Ok w' ->
  executed d (wallet_data w') dir (minor money) now /\ (dir <> DirectionNone -> wUpdatedAt d <= now).
Proof.
  intros Hok Hr Hdir Hpos H. unfold move_wallet, Debit, Credit in H.
  destruct Hdir as [E|[E|E]]; subst dir; eval_tests; cbn iota in H.
  1,2: specialize (Hpos ltac:(discriminate)); (split; [eapply move_executed; [exact Hok|exact Hr|exact Hpos| |exact H]; reflexivity|]);
    intros _; unfold move in H; cbn in H; inv_ok; repeat skip_if H; unfold Time.Before in *;
    by bools.
  injection H as <-. split; [by apply executed_none|done].
Qed.

(** ** The row of a settled snapshot *)

Section final.
Context (id : ID) (r : wager_row) (d : WagerData) (Hr : row_ok id r) (Hm : in_memory id r d).

Lemma memory_request d' : same_request d d' -> same_request (data_of id r) (stored d').
Proof using Hm.
  intros Hs. pose proof (im_request _ _ _ Hm) as Hq. unfold same_request in *. cbn in *.
  destruct_and!. split_and!; congruence.
Qed.

Lemma memory_created d' : same_request d d' -> rq_created (tr_request r) = timestamptz (wgCreatedAt d').
Proof using Hm. intros Hs. pose proof (memory_request d' Hs) as Hq. unfold same_request in Hq. cbn in Hq. naive_solver. Qed.

Lemma final_row_ok d' clock :
  same_request d d' -> wager_valid d' -> unset d' -> result_ranged d' ->
  (wgReferenceID d' <> zeroID -> wgStatus d' = StatusProcessed) ->
  row_ok id (settled_row (outcome_of d') clock r).
Proof using Hr Hm.
  intros Hs Hv Hu Hrg Href. apply row_ok_settled; try done.
  - by apply memory_request.
  - destruct Hs as (_&_&_&_&_&_&_&_&_&_&_&_&->). apply (im_created _ _ _ Hm).
  - apply (rk_amount _ _ Hr).
  - apply (rk_refext _ _ Hr).
  - by apply memory_created.
Qed.

Lemma final_data d' clock :
  same_request d d' -> unset d' -> data_of id (settled_row (outcome_of d') clock r) = stored d'.
Proof using Hm. intros Hs Hu. apply data_of_settled; [by apply memory_request|done]. Qed.

(** A result that moves no money. *)
Lemma unmoved_decided b w wrow d' clock :
  wgStatus d' <> StatusPending -> wgStatus d' <> StatusProcessed ->
  decided b w id wrow (settled_row (outcome_of d') clock r) None None.
Proof using.
  intros Hp Hn. assert (Hf : (wgStatus d' == StatusProcessed) = false) by by apply bool_decide_neq.
  constructor; try done.
  - intros y. unfold reverses. cbn. rewrite Hf. by rewrite andb_false_r.
  - unfold moving, status_of. cbn. by rewrite Hf.
Qed.

Lemma memory_refext : wgReferenceExternalTransactionID d = coalesce (rq_refext (tr_request r)).
Proof using Hr Hm. pose proof (im_request _ _ _ Hm) as Hq. unfold same_request in Hq. cbn in Hq. naive_solver. Qed.
Lemma memory_kind : wgKind d = rq_kind (tr_request r).
Proof using Hr Hm. pose proof (im_request _ _ _ Hm) as Hq. unfold same_request in Hq. cbn in Hq. naive_solver. Qed.
Lemma memory_money : wgMoney d = mkMoney (rq_amount (tr_request r)) (rq_currency (tr_request r)).
Proof using Hr Hm. pose proof (im_request _ _ _ Hm) as Hq. unfold same_request in Hq. cbn in Hq. naive_solver. Qed.
Lemma memory_id : wgID d = id /\ wgWalletID d = wallet_of r /\ wgPlayerID d = rq_player (tr_request r).
Proof using Hr Hm. pose proof (im_request _ _ _ Hm) as Hq. unfold same_request in Hq. cbn in Hq. naive_solver. Qed.

(** ** An approval *)

Context (b : Db) (w : ID) (wrow : wallet_row) (reference : option WagerData) (reversed : bool).
Context (dir : Direction) (w' : WalletData) (now : Z).
Context (Hc : consistent b) (Hw : wallet_of r = w) (Hwrow : wallet_ok (wallet_data_of w wrow)).
Context (Hcreated : timestamptz (wr_created wrow) = wr_created wrow).
Context (Href : referenced b w id reference reversed)
        (Hnone : wgReferenceExternalTransactionID d = "" -> reference = None).
Context (Hap : approved (wallet_data_of w wrow) d reference reversed dir).
Context (Hex : executed (wallet_data_of w wrow) w' dir (minor (wgMoney d)) now).

Local Notation referenceID := (match reference with Some r => wgID r | None => zeroID end).
Local Notation d' := (settle d StatusProcessed (wgFailureCode d) (wBalance w') (wVersion w') referenceID now).

(** The reference an approval acts on is a processed row of the same wallet. *)
Lemma approved_reference :
  wgReferenceExternalTransactionID d <> "" ->
  exists ref ry, reference = Some ref /\ own w b (wgID ref) = Some ry
    /\ ref = data_of (wgID ref) ry /\ status_of ry = StatusProcessed
    /\ reference_matches d ref /\ wgID ref <> zeroID
    /\ (is_reversal (wgKind d) = true -> no_row (reverses (wgID ref)) (wagers b)).
Proof using All.
  intros Hx. destruct (ap_reference _ _ _ _ _ Hap Hx) as (ref & -> & Hmt & Hs & Hrev).
  destruct memory_id as (Hid & Hwid & _).
  destruct (Href ref eq_refl) as (ry & Ho & Hd & Hno).
  - rewrite <- Hid. apply (rm_other _ _ Hmt).
  - rewrite (rm_wallet _ _ Hmt). congruence.
  - exists ref, ry. split_and!; try done.
    + rewrite <- Hs, Hd. done.
    + unfold own in Ho. destruct (wagers b !! wgID ref) as [r0|] eqn:E; [|done].
      destruct (cs_row _ Hc _ _ E) as [Hok _]. apply (rk_valid _ _ Hok).
    + auto.
Qed.

Lemma approved_status clock : status_of (settled_row (outcome_of d') clock r) = StatusProcessed.
Proof using. done. Qed.

Lemma approved_external :
  wgReferenceExternalTransactionID d <> "" <-> exists x, rq_refext (tr_request r) = Some x.
Proof using All.
  rewrite memory_refext. pose proof (rk_refext _ _ Hr). destruct (rq_refext (tr_request r)) as [x|]; cbn.
  - split; [by eexists|]. intros _ ->. done.
  - split; [done|]. by intros [].
Qed.

Lemma approved_resolved clock :
  match rq_refext (tr_request r) with
  | None => oc_reference (outcome_of d') = None
  | Some _ => exists j ry, oc_reference (outcome_of d') = Some j /\ own w b j = Some ry
      /\ status_of ry = StatusProcessed
      /\ reference_matches (data_of id (settled_row (outcome_of d') clock r)) (data_of j ry)
  end.
Proof using All.
  destruct (rq_refext (tr_request r)) as [x|] eqn:Ex.
  - destruct (approved_reference) as (ref & ry & -> & Ho & Hd & Hs & Hmt & Hz & _);
      [apply approved_external; eauto|].
    exists (wgID ref), ry. cbn. rewrite bool_decide_neq by done. split_and!; try done.
    rewrite <- Hd. destruct memory_id as (Hid & _).
    pose proof (im_request _ _ _ Hm) as Hq. unfold same_request in Hq. cbn in Hq. destruct_and!.
    destruct Hmt. constructor; cbn in *; rewrite <- ?memory_kind; try congruence; try done.
    all: rewrite memory_money in *; done.
  - rewrite Hnone; [done|]. rewrite memory_refext, Ex. done.
Qed.

Lemma approved_single clock y :
  reverses y (settled_row (outcome_of d') clock r) = true ->
  no_row (reverses y) (wagers b) /\ is_Some (own w b y).
Proof using All.
  unfold reverses, reversal_kind. cbn. rewrite <- memory_kind. intros H. bools.
  assert (Hrv : is_reversal (wgKind d) = true) by done.
  destruct (external_reference _ (proj1 (im_valid _ _ _ Hm))) as [Hx _].
  assert (wgReferenceExternalTransactionID d <> "") as Hne.
  { apply Hx. unfold is_reversal in Hrv. rewrite orb_true_iff, !bool_decide_eq_true in Hrv. done. }
  destruct (approved_reference Hne) as (ref & ry & E & Ho & _ & _ & _ & Hz & Hno).
  rewrite E in H. destruct (wgID ref != zeroID) eqn:E0; [|bools; done]. injection H as <-.
  split; [by apply Hno|]. rewrite Ho. by eexists.
Qed.

Lemma approved_moving clock :
  moving (settled_row (outcome_of d') clock r) = (dir != DirectionNone).
Proof using All.
  destruct (approved_effect _ _ _ _ _ (proj1 (im_valid _ _ _ Hm)) (im_external _ _ _ Hm) Hap)
    as (_ & _ & Hiff & _).
  unfold moving. rewrite approved_status, bool_decide_refl. cbn. rewrite <- memory_kind.
  f_equal. apply bool_decide_ext. naive_solver.
Qed.
(** The direction the triggers expect is the direction of the decision. *)
Lemma approved_expected clock :
  dir <> DirectionNone -> expected_direction b (settled_row (outcome_of d') clock r) = Some dir.
Proof using All.
  intros Hdir. pose proof (ap_direction _ _ _ _ _ Hap) as Hk. unfold kind_direction in Hk.
  unfold expected_direction. cbn [tr_request tr_outcome settled_row]. rewrite <- memory_kind.
  destruct (wager_kind _ (proj1 (im_valid _ _ _ Hm))) as [K|[K|[K|[K|[K|K]]]]];
    [by destruct (im_external _ _ _ Hm)|..]; rewrite K in Hk |- *; eval_tests; cbn [orb] in *;
    try (by injection Hk as <-).
  assert (Hne : wgReferenceExternalTransactionID d <> "").
  { destruct (external_reference _ (proj1 (im_valid _ _ _ Hm))) as [Hx _]. apply Hx. by right. }
  destruct (approved_reference Hne) as (ref & ry & E & Ho & Hd & Hs & Hmt & Hz & _).
  rewrite E in Hk |- *. injection Hk as Hk. cbn. rewrite bool_decide_neq by done. cbn.
  unfold own in Ho. destruct (wagers b !! wgID ref) as [r0|]; [|done].
  destruct (wallet_of r0 == w); [|done]. injection Ho as <-. unfold status_of in Hs. cbn in Hs.
  rewrite Hs. eval_tests. cbn.
  destruct (rm_kind _ _ Hmt) as (_ & _ & HK). specialize (HK K).
  assert (Hrk : wgKind ref = rq_kind (tr_request r0)) by (by rewrite Hd).
  rewrite Hrk in HK, Hk. rewrite <- Hk. destruct HK as [->|[->| ->]]; reflexivity.
Qed.

Definition moved_row : wallet_row :=
  wallet_moved (minor (wBalance w')) (wVersion w') (wUpdatedAt w') wrow.

Lemma approved_wallet_row :
  dir <> DirectionNone -> wUpdatedAt (wallet_data_of w wrow) <= now ->
  wallet_ok (wallet_data_of w moved_row) /\ wallet_grows wrow moved_row.
Proof using All.
  intros Hdir Hnow. destruct Hex as [[Eid Ep [Ev Er] En Ever Ec Eu] Ei Epl Ecr Ecur Eb _ Esome].
  destruct (Esome Hdir) as [Hver Hup]. destruct Hwrow as [Hid Hp [Hv _] Hn Hv1 Hc1 Hu1]. cbn in *.
  split.
  - constructor; cbn; try done.
    + rewrite <- Hcreated, Hup. apply timestamptz_mono. lia.
  - unfold wallet_grows, moved_row. cbn. split_and!; try done. rewrite Hver. cbn. lia.
Qed.

Lemma approved_entry lid clock e :
  dir <> DirectionNone ->
  e = mkLedgerRow lid w id dir (minor (wgMoney d)) (currency (wgMoney d)) (wr_balance wrow)
        (minor (wBalance w')) clock ->
  forall clock', entry_matches id (settled_row (outcome_of d') clock' r) e
    /\ lr_currency e = wr_currency wrow.
Proof using All.
  intros Hdir -> clock'. split; [|apply (ap_currency _ _ _ _ _ Hap)].
  constructor; cbn; try done. all: by rewrite memory_money.
Qed.
Lemma unmoving_decided clock :
  dir = DirectionNone -> decided b w id wrow (settled_row (outcome_of d') clock r) None None.
Proof using All.
  intros Hn. constructor; [done| |apply approved_single|].
  - intros _. apply approved_resolved.
  - rewrite approved_moving, Hn. by rewrite bool_decide_refl.
Qed.

Lemma moving_decided lid stamp e clock :
  dir <> DirectionNone -> wUpdatedAt (wallet_data_of w wrow) <= now ->
  e = mkLedgerRow lid w id dir (minor (wgMoney d)) (currency (wgMoney d)) (wr_balance wrow)
        (minor (wBalance w')) stamp -> ledger_checks e = true ->
  decided b w id wrow (settled_row (outcome_of d') clock r) (Some moved_row) (Some e).
Proof using All.
  intros Hdir Hnow He Hck. constructor; [done| |apply approved_single|].
  - intros _. apply approved_resolved.
  - destruct (approved_entry lid stamp e Hdir He clock) as [Hmt Hcur].
    destruct (approved_wallet_row Hdir Hnow) as [Hok Hg].
    rewrite approved_moving. split_and!; try done.
    + by rewrite bool_decide_neq.
    + rewrite He. by apply approved_expected.
    + by rewrite He.
    + by rewrite He.
Qed.
End final.
