(* ===== verification/Applying.v ===== *)
(** * Carrying a decision out: the triples of [carry_out] and [apply]

    [apply], run by a session that holds the wallet, leaves pending exactly the
    settlement its verdict calls for. *)

From S2P Require Import Prelude GoStd Errors Ident Money Wallet Ledger Wager Evaluate Command.
From S2P Require Import Events Session Rules Database Sql Store Rows Books Settle Pending.
From S2P Require Import Reference Verdict.
Import Str.
#[local] Open Scope prog_scope.

Lemma alter_insert {K A} `{Countable K} (f : A -> A) (k : K) (m : gmap K A) x :
  m !! k = Some x -> alter f k m = <[k := f x]> m.
Proof.
  intros Hk. apply map_eq. intros j. destruct (decide (j = k)) as [->|Hne].
  - by rewrite lookup_alter_eq, lookup_insert_eq, Hk.
  - by rewrite lookup_alter_ne, lookup_insert_ne.
Qed.

Lemma verify_harmless id : harmless id (verify_wager_ledger id).
Proof. intros d Hc [r Hr]. by eapply consistent_verify. Qed.

Lemma inbox_harmless id k : harmless id (validate_inbox_commit k).
Proof.
  intros d Hc _. unfold validate_inbox_commit. destruct (inbox d !! k) as [r|] eqn:E; [|done].
  destruct (cs_inbox _ Hc _ _ E) as (i & c & -> & -> & _). done.
Qed.

(** ** Moving the money *)

(** The pending rows, with the wallet and the entry of a movement. *)
Definition moved_rows (r : wager_row) fi (pw : option wallet_row) (pe : option ledger_row) : pend :=
  mkPend pw r pe [] fi.

Lemma wp_update_wallet {B} C E `{!Tolerant E} (P : B -> sess Db lock -> Db -> Prop)
    s b w id wrow r fi balance version updated k :
  holding s b w id wrow (only_row r fi) ->
  (forall b' s' n, holding s' b' w id wrow
       (moved_rows r fi (Some (wallet_moved balance version updated wrow)) None) ->
     ss_locks s ⊆ ss_locks s' -> depend (ss_locks s) b b' -> wp C (k n) b' s' (post E P)) ->
  wp C (andThen (map_err dbError (exec (update_wallet w balance version updated))) k) b s (post E P).
Proof.
  intros Hh H. pose proof (ho_live _ _ _ _ _ _ Hh) as Hlive.
  pose proof (ho_done _ _ _ _ _ _ Hh) as Hdone.
  run_stmt as b1 cx n Hd Hcx Hr. advance Hh Hd.
  unfold update_wallet in *. pose proof (ho_wallet _ _ _ _ _ _ Hh) as Hw. cbn in Hr |- *.
  rewrite Hw in Hr |- *. destruct (negb (wallet_checks _)) eqn:Ec; [done|].
  apply H; [|apply locks_write|done].
  eapply holding_write; [exact Hh|..].
  - split; [apply (ho_owner _ _ _ _ _ _ Hh)|done].
  - apply (ho_row _ _ _ _ _ _ Hh).
  - apply (ho_origin _ _ _ _ _ _ Hh).
  - done.
  - intros b2 Hd2. unfold pend_db, set_wallets. cbn. f_equal. apply alter_insert.
    by destruct (holding_rely _ _ _ _ _ _ _ Hh Hd2).
Qed.

(** [insertLedger], for knowledge [K] that inserting the entry turns into [K']. *)
Lemma insertLedger_triple K `{!Knows K} (K' : ledger_row -> sess Db lock -> Db -> Prop)
    `{!forall e, Knows (K' e)} C s b d dir before after t :
  (forall s b e u, K s b -> ledger_checks e = true -> lr_tx e = wgID d ->
     K' e (sess_write s (writes (R:=string * Z) u (set_ledger (fun l => l ++ [e])) []
             [verify_wager_ledger (wgID d)])) b) ->
  K s b ->
  wp C (insertLedger d dir before after t) b s
    (post quiet (fun entry s' b' => exists e, K' e s' b' /\ ledger_checks e = true
       /\ mine s' b' (lr_id e) /\ onward s b s' b'
       /\ entry = mkLedgerData (lr_id e) (wgWalletID d) (wgID d) dir (wgMoney d) before after (lr_created e)
       /\ e = mkLedgerRow (lr_id e) (wgWalletID d) (wgID d) dir (minor (wgMoney d))
                (currency (wgMoney d)) (minor before) (minor after) (lr_created e))).
Proof.
  intros Hwrite HK. unfold insertLedger.
  eapply (wp_allocate _ _ _ K); [exact HK|]. intros b1 s1 lid HK1 Hmine _ Ho1.
  pose proof (knows_live _ _ HK1) as Hlive. pose proof (knows_done _ _ HK1) as Hdone.
  apply wp_lift; [exact _|done|]. intros entry Hentry.
  assert (entry = mkWalletLedgerEntry
    (mkLedgerData lid (wgWalletID d) (wgID d) dir (wgMoney d) before after t)) as ->.
  { revert Hentry. unfold NewLedgerEntry. intros Hn. apply bind_Ok in Hn as (? & _ & Hn).
    apply bind_Ok in Hn as (? & _ & Hn). apply bind_Ok in Hn as (? & _ & Hn). skip_if Hn.
    by injection Hn. }
  cbn [ledger_Snapshot ledger_data].
  run_stmt as b2 cx res Hd2 Hcx Hr. apply (knows_rely _ _ b2) in HK1; [|exact Hd2].
  apply insert_ledger_row_Ok in Hr as (Hck & -> & Hout). rewrite Hout.
  finish as b3 Hd3. set (e := ledger_row_of _ _) in *. exists e.
  apply (Hwrite _ _ e (ID_String lid, cx_clock cx 0)) in HK1; [|done|done].
  split_and!; [by eapply knows_rely|done| | |done|done].
  - eapply mine_rely; [|exact Hd3]. apply mine_write. by eapply mine_rely.
  - eapply onward_trans; [exact Ho1|]. eapply onward_trans; [eapply onward_write; exact Hd2|].
    by apply onward_depend.
Qed.

Lemma holding_entry {R} s b w id wrow r fi pw d e (u : R) :
  holding s b w id wrow (moved_rows r fi pw None) -> wgID d = id ->
  holding (sess_write s (writes u (set_ledger (fun l => l ++ [e])) [] [verify_wager_ledger (wgID d)]))
    b w id wrow (moved_rows r fi pw (Some e)).
Proof.
  intros Hh Hid. rewrite Hid. eapply holding_write; [exact Hh|..].
  - split; [apply (ho_owner _ _ _ _ _ _ Hh)|done].
  - apply (ho_row _ _ _ _ _ _ Hh).
  - apply (ho_origin _ _ _ _ _ _ Hh).
  - apply Forall_singleton, verify_harmless.
  - intros b4 Hd4. unfold pend_db, set_ledger. cbn. by rewrite List.app_nil_r.
Qed.

(** ** carry_out *)

(** What [carry_out] leaves pending, and the snapshots it returns. *)
Definition carried (s : sess Db lock) (b : Db) (w id : ID) (wrow : wallet_row) (r : wager_row) fi
    (d : WagerData) (v : WagerData -> WalletData -> Prop)
    (res : WagerTransaction * WalletData * option LedgerData) (s' : sess Db lock) (b' : Db) : Prop :=
  exists d' w' pw pe,
    res = (mkWagerTransaction d', w', entry_data <$> pe)
    /\ v d' w' /\ same_request d d' /\ wager_valid d'
    /\ holding s' b' w id wrow (moved_rows r fi pw pe)
    /\ ss_locks s ⊆ ss_locks s' /\ depend (ss_locks s) b b'
    /\ (forall clock, row_ok id (settled_row (outcome_of d') clock r)
        /\ decided b' w id wrow (settled_row (outcome_of d') clock r) pw pe)
    /\ (forall e, pe = Some e -> mine s' b' (lr_id e)).

Lemma unmoved_row id r d code status balance version now clock :
  row_ok id r -> in_memory id r d ->
  wager_valid (settle d status code balance version (wgReferenceID d) now) ->
  unset (settle d status code balance version (wgReferenceID d) now) ->
  result_ranged (settle d status code balance version (wgReferenceID d) now) ->
  row_ok id (settled_row (outcome_of (settle d status code balance version (wgReferenceID d) now))
    clock r).
Proof.
  intros Hr Hm Hv Hu Hrg. apply (final_row_ok _ _ d); try done.
  cbn. by destruct (im_result _ _ _ Hm) as (_ & _ & ->).
Qed.

Lemma holding_wallet s b w id wrow p :
  holding s b w id wrow p -> wallet_ok (wallet_data_of w wrow)
    /\ timestamptz (wr_created wrow) = wr_created wrow.
Proof.
  intros H. destruct (cs_wallet _ (ho_consistent _ _ _ _ _ _ H) _ _ (ho_wallet _ _ _ _ _ _ H)) as (? & _ & ?).
  done.
Qed.

(** The money moved, and its entry written. *)
Lemma carried_moved s b w id wrow r fi d reference reversed dir now
    (v : WagerData -> WalletData -> Prop) w' d' s' b' lid clock :
  let e := mkLedgerRow lid w id dir (minor (wgMoney d)) (currency (wgMoney d)) (wr_balance wrow)
             (minor (wBalance w')) clock in
  row_ok id r -> wallet_ok (wallet_data_of w wrow) -> timestamptz (wr_created wrow) = wr_created wrow ->
  wallet_of r = w -> in_memory id r d -> consistent b' ->
  (wgReferenceExternalTransactionID d = "" -> reference = None) ->
  approved (wallet_data_of w wrow) d reference reversed dir ->
  executed (wallet_data_of w wrow) w' dir (minor (wgMoney d)) now ->
  dir <> DirectionNone -> wUpdatedAt (wallet_data_of w wrow) <= now ->
  d' = settle d StatusProcessed (wgFailureCode d) (wBalance w') (wVersion w')
         (match reference with Some r => wgID r | None => zeroID end) now ->
  wager_valid d' -> v d' w' ->
  (forall c, row_ok id (settled_row (outcome_of d') c r)) ->
  referenced b' w id reference reversed ->
  holding s' b' w id wrow (moved_rows r fi (Some (moved_row wrow w')) (Some e)) ->
  ss_locks s ⊆ ss_locks s' -> depend (ss_locks s) b b' -> mine s' b' lid -> ledger_checks e = true ->
  carried s b w id wrow r fi d v
    (mkWagerTransaction d', w',
     Some (mkLedgerData lid w id dir (wgMoney d) (wBalance (wallet_data_of w wrow)) (wBalance w') clock))
    s' b'.
Proof.
  intros e Hr Hwok Hcr Hwr Hm Hc Hnone Hap Hex Hdir Hnow Hd' Hvalid Hv Hrow Href Hh Hsub Hdep Hmine Hck.
  exists d', w', (Some (moved_row wrow w')), (Some e). split_and!; try done.
  - assert (Hcur : currency (wgMoney d) = wr_currency wrow) by apply (ap_currency _ _ _ _ _ Hap).
    assert (Hcur' : currency (wBalance w') = wr_currency wrow) by apply (ex_currency _ _ _ _ _ Hex).
    cbn. do 2 f_equal. unfold e, entry_data. cbn. rewrite Hcur. f_equal.
    + rewrite <- Hcur. by destruct (wgMoney d).
    + rewrite <- Hcur'. by destruct (wBalance w').
  - rewrite Hd'. apply settle_same.
  - intros clock'. split; [done|]. subst d'.
    apply (moving_decided id r d Hr Hm b' w wrow reference reversed dir w' now) with (lid := lid) (stamp := clock);
      auto.
  - intros e' [= <-]. done.
Qed.

Lemma execute_triple C s b w id wrow r fi d reference reversed dir now (v : WagerData -> WalletData -> Prop) :
  holding s b w id wrow (only_row r fi) -> in_memory id r d ->
  referenced b w id reference reversed ->
  (wgReferenceExternalTransactionID d = "" -> reference = None) ->
  approved (wallet_data_of w wrow) d reference reversed dir ->
  (forall w', executed (wallet_data_of w wrow) w' dir (minor (wgMoney d)) now ->
     v (settle d StatusProcessed (wgFailureCode d) (wBalance w') (wVersion w')
          (match reference with Some r => wgID r | None => zeroID end) now) w') ->
  wp C (execute (wallet_data_of w wrow) (mkWagerTransaction d) reference dir now) b s
    (post quiet (carried s b w id wrow r fi d v)).
Proof.
  intros Hh Hm Href Hnone Hap Hv. unfold execute. cbv zeta.
  destruct (holding_wallet _ _ _ _ _ _ Hh) as [Hwok Hcr].
  pose proof (ho_row _ _ _ _ _ _ Hh) as Hr. destruct (ho_owner _ _ _ _ _ _ Hh) as [Hwr _].
  cbn in Hr, Hwr.
  pose proof (ho_lock _ _ _ _ _ _ Hh) as Hlk. pose proof (ho_consistent _ _ _ _ _ _ Hh) as Hc.
  pose proof (ho_done _ _ _ _ _ _ Hh) as Hdone. pose proof (ho_live _ _ _ _ _ _ Hh) as Hlive.
  rewrite RehydrateWallet_ok by done.
  apply wp_lift; [exact _|done|]. intros wl [= <-].
  destruct (approved_effect _ _ _ _ _ (proj1 (im_valid _ _ _ Hm)) (im_external _ _ _ Hm) Hap)
    as (_ & Hdir & _ & Hpos).
  assert (Hrange : Int64.in_range (minor (wgMoney d))).
  { rewrite (memory_money id r d Hr Hm). apply (rk_amount _ _ Hr). }
  apply wp_lift; [exact _|done|]. intros [w'] Hmv.
  apply move_wallet_inv in Hmv as [Hex Hnow]; [|done..]. cbn [Wallet_Snapshot wallet_data] in *.
  apply wp_lift; [exact _|done|]. intros wg Hp.
  apply (settled_by d now _ wg StatusProcessed (wgFailureCode d) (wBalance w') (wVersion w')
    (match reference with Some r => wgID r | None => zeroID end)) in Hp as (-> & Hvalid & Hup);
    [|done].
  set (d' := settle d _ _ _ _ _ _) in *.
  assert (Hreq : same_request d d') by apply settle_same.
  assert (Hrow : forall clock, row_ok id (settled_row (outcome_of d') clock r)).
  { intros clock. apply (final_row_ok _ _ d); try done. apply wallet_ok_ranged, (ex_ok _ _ _ _ _ Hex). }
  destruct (dir == DirectionNone) eqn:Edir; bools.
  - finish as b' Hd. exists d', w', None, None. split_and!; try done; [by apply Hv|by eapply holding_rely|].
    intros clock. split; [done|].
    eapply (unmoving_decided id r d Hr Hm b' w wrow reference reversed dir w' now); eauto.
    + by apply (dp_consistent _ _ _ Hd).
    + by eapply referenced_rely.
  - assert (Hid : wID w' = w) by apply (ex_id _ _ _ _ _ Hex). rewrite Hid.
    eapply wp_update_wallet; [exact _|exact Hh|]. intros b1 s1 n Hh1 Hsub1 Hd1.
    destruct (memory_id id r d Hr Hm) as (Ei & Ew & _).
    apply wp_seq_map; [exact _|].
    eapply wp_post; [apply (insertLedger_triple
      (fun s b => holding s b w id wrow (moved_rows r fi (Some (moved_row wrow w')) None))
      (fun e s b => holding s b w id wrow (moved_rows r fi (Some (moved_row wrow w')) (Some e))));
      [intros; by apply holding_entry|exact Hh1]|].
    intros [entry|er] s2 b2; [|done]. intros (e & Hh2 & Hck & Hmine & [Hsub2 Hd2] & -> & He). cbn [post].
    change (wgWalletID (wager_Snapshot (mkWagerTransaction d'))) with (wgWalletID d) in *.
    change (wgID (wager_Snapshot (mkWagerTransaction d'))) with (wgID d) in *.
    change (wgMoney (wager_Snapshot (mkWagerTransaction d'))) with (wgMoney d) in *.
    rewrite Ei, Ew, Hwr in *.
    destruct e as [lid ? ? ? ? ? ? ? clock]. cbn in He. injection He as -> -> -> -> -> -> ->.
    finish as b3 Hd3.
    assert (Hd13 : depend (ss_locks s) b b3).
    { eapply depend_trans; [exact Hd1|]. eapply depend_trans; [eapply depend_sub; [|exact Hd2]; done|].
      eapply depend_sub; [|exact Hd3]. by etrans. }
    eapply carried_moved; try done.
    + by apply (dp_consistent _ _ _ Hd13).
    + by apply Hnow.
    + by apply Hv.
    + by eapply referenced_rely.
    + by eapply holding_rely.
    + by etrans.
    + by eapply mine_rely.
Qed.

Lemma carry_out_triple C s b w id wrow r fi d reference reversed expired dec now :
  holding s b w id wrow (only_row r fi) -> in_memory id r d ->
  referenced b w id reference reversed ->
  (wgReferenceExternalTransactionID d = "" -> reference = None) ->
  Evaluate (wallet_data_of w wrow) d reference reversed = Ok dec ->
  wp C (carry_out (wallet_data_of w wrow) (mkWagerTransaction d) reference (expire expired dec) now)
    b s (post quiet (carried s b w id wrow r fi d
           (verdict (wallet_data_of w wrow) d reference reversed expired now))).
Proof.
  intros Hh Hm Href Hnone Hdec.
  destruct (holding_wallet _ _ _ _ _ _ Hh) as [Hwok Hcr].
  pose proof (ho_row _ _ _ _ _ _ Hh) as Hr. destruct (ho_owner _ _ _ _ _ _ Hh) as [Hwr Hpl].
  cbn in Hr, Hwr, Hpl. destruct (memory_id id r d Hr Hm) as (Ei & Ew & Ep).
  pose proof (ho_done _ _ _ _ _ _ Hh) as Hdone. pose proof (ho_live _ _ _ _ _ _ Hh) as Hlive.
  destruct (im_result _ _ _ Hm) as (Eb & Ev & Er).
  (* a result that leaves the wallet alone *)
  assert (Hunmoved : forall st code balance version w', st <> StatusPending -> st <> StatusProcessed ->
    wager_valid (settle d st code balance version (wgReferenceID d) now) ->
    unset (settle d st code balance version (wgReferenceID d) now) ->
    result_ranged (settle d st code balance version (wgReferenceID d) now) ->
    verdict (wallet_data_of w wrow) d reference reversed expired now
      (settle d st code balance version (wgReferenceID d) now) w' ->
    wp C (ret (mkWagerTransaction (settle d st code balance version (wgReferenceID d) now), w', None))
      b s (post quiet (carried s b w id wrow r fi d
             (verdict (wallet_data_of w wrow) d reference reversed expired now)))).
  { intros st code balance version w' Hs1 Hs2 Hv Hu Hrg Hvd. finish as b' Hd.
    eexists _, w', None, None. split_and!; try done; [by eapply holding_rely|].
    intros clock. split; [by apply unmoved_row|by apply unmoved_decided]. }
  unfold carry_out. destruct (dcPending (expire expired dec)) eqn:Epend.
  - unfold expire in Epend. destruct (dcPending dec) eqn:Ed; [|cbn in Epend; congruence].
    destruct expired; [done|]. apply wp_lift; [exact _|done|]. intros wg Hp.
    apply (settled_by d now _ wg StatusPendingReference (wgFailureCode d) (wgResultBalance d)
      (wgResultVersion d) (wgReferenceID d)) in Hp as (-> & Hv & _); [|done].
    apply Hunmoved; try done; [by unfold result_ranged; cbn; rewrite Eb, Ev|]. by eapply vd_waits.
  - destruct (negb (dcFailureCode (expire expired dec) == "")) eqn:Ecode; bools.
    + apply wp_lift; [exact _|done|]. intros wg Hp.
      apply (settled_by d now _ wg StatusRejected (dcFailureCode (expire expired dec))
        (wBalance (wallet_data_of w wrow)) (wVersion (wallet_data_of w wrow)) (wgReferenceID d))
        in Hp as (-> & Hv & _); [|done].
      apply Hunmoved; try done; [by apply wallet_ok_ranged|].
      eapply vd_refuses; [exact Hdec| |done]. unfold expire in *.
      destruct (dcPending dec) eqn:Ed; cbn in *; [|by left].
      destruct expired; [by right|congruence].
    + assert (expire expired dec = dec /\ dcPending dec = false) as [Eexp Ed].
      { clear Hdec Hunmoved. unfold expire in *. destruct (dcPending dec) eqn:Ed; cbn in *; [|done].
        destruct expired; cbn in *; congruence. }
      rewrite Eexp in *. destruct (Evaluate_decides (wallet_data_of w wrow) d reference reversed)
        as (dec' & Hdec' & Hcases).
      { constructor; [done|apply (im_valid _ _ _ Hm)|apply (im_open _ _ _ Hm)| |apply (im_external _ _ _ Hm)].
        cbn. split; congruence. }
      rewrite Hdec in Hdec'. injection Hdec' as <-.
      destruct Hcases as [(? & _)|[(_ & _ & ?)|(_ & _ & Hap)]]; [congruence|congruence|].
      apply (execute_triple C s b w id wrow r fi d reference reversed); try done.
      intros w' Hex. by eapply vd_moves.
Qed.

(** ** persistResult *)

Lemma origin_settled L b id r o clock :
  terminal r = false -> origin L b id r -> origin L b id (settled_row o clock r).
Proof.
  intros Ht [Hl Ho]. split; [done|]. destruct (wagers b !! id) as [r0|]; [|done].
  destruct Ho as [(Hq & Hc1 & Hc2 & _) H0]. split; [|done].
  unfold wager_grows. cbn. by rewrite H0.
Qed.

Lemma wp_persist {B} C E `{!Tolerant E} (P : B -> sess Db lock -> Db -> Prop)
    s b w id wrow r fi pw pe d' k :
  holding s b w id wrow (moved_rows r fi pw pe) -> wgID d' = id -> terminal r = false ->
  (forall clock, row_ok id (settled_row (outcome_of d') clock r)) ->
  (forall b' s' clock, holding s' b' w id wrow (moved_rows (settled_row (outcome_of d') clock r) fi pw pe) ->
     ss_locks s ⊆ ss_locks s' -> depend (ss_locks s) b b' ->
     wp C (k tt) b' s' (post E P)) ->
  wp C (andThen (map_err dbError (persistResult d')) k) b s (post E P).
Proof.
  intros Hh Hid Ht Hr H. unfold persistResult. rewrite Hid.
  pose proof (ho_live _ _ _ _ _ _ Hh) as Hlive. pose proof (ho_done _ _ _ _ _ _ Hh) as Hdone.
  run_stmt as b1 cx u Hd Hcx Hu. advance Hh Hd. destruct u.
  destruct (update_result_Ok _ _ _ _ _ r Hu) as (_ & _ & l & Hl & Hout).
  { cbn. by rewrite lookup_insert_eq. }
  rewrite Hout. apply (H b1 _ (cx_clock cx 0)); [|apply locks_write|done].
  eapply holding_write; [exact Hh|..].
  - split; [apply (ho_owner _ _ _ _ _ _ Hh)|done].
  - apply Hr.
  - apply origin_settled; [done|]. apply (ho_origin _ _ _ _ _ _ Hh).
  - apply Forall_singleton, verify_harmless.
  - intros b2 Hd2. unfold pend_db, set_wagers. cbn. f_equal.
    rewrite (alter_insert _ _ _ r) by apply lookup_insert_eq. by rewrite insert_insert_eq.
Qed.
