(* ===== verification/Emitting.v ===== *)
(** * Announcing a result: the triple of [writeEvents]

    What [writeEvents] leaves pending: the event of the state the transaction
    reached and, when money moved, the balance change of its entry, under
    identifiers of the session. *)

From S2P Require Import Prelude GoStd Errors Ident Money Wallet Ledger Wager Evaluate Command.
From S2P Require Import Events Session Rules Database Sql Store Rows Books Settle Pending.
From S2P Require Import Reference Verdict Applying.
Import Str.
#[local] Open Scope prog_scope.

(** ** Pending events *)

(** The pending events carry distinct identifiers of the session, under lock. *)
Definition emitted (s : sess Db lock) (b : Db) (evs : list (ID * outbox_row)) : Prop :=
  Forall (fun y => mine s b y.1 /\ LOutbox y.1 ∈ ss_locks s /\ fresh_event y) evs /\ NoDup evs.*1.

Lemma emitted_nil s b : emitted s b [].
Proof. split; [done|apply NoDup_nil_2]. Qed.

Lemma emitted_onward s b s' b' evs : emitted s b evs -> onward s b s' b' -> emitted s' b' evs.
Proof.
  intros [Hf Hn] Ho. split; [|done]. eapply Forall_impl; [exact Hf|]. cbn. intros y (Hm & Hl & Hp).
  split_and!; [by eapply mine_onward|by apply Ho|done].
Qed.

(** ** Emitting one event *)

(** Knowledge that follows the events the session has pending. *)
Class Emits (K : list (ID * outbox_row) -> sess Db lock -> Db -> Prop) : Prop := {
  emits_knows evs :: Knows (K evs);
  emits_write evs s b y u l : K evs s b ->
    K (evs ++ [y]) (sess_write s (writes (R:=string) u (set_outbox (<[y.1 := y.2]>)) l [])) b
}.

Lemma insert_events_snoc l y o : insert_events (l ++ [y]) o = <[y.1 := y.2]> (insert_events l o).
Proof. revert o. induction l as [|x l IH]; cbn; intros o; [done|apply IH]. Qed.

#[global] Instance holding_emits w id wrow pw r pe fi :
  Emits (fun evs s b => holding s b w id wrow (mkPend pw r pe evs fi)).
Proof.
  constructor; [intros; apply holding_knows|]. intros evs s b y u l H.
  eapply holding_write; [exact H|..]; try done.
  - split; [apply (ho_owner _ _ _ _ _ _ H)|done].
  - apply (ho_row _ _ _ _ _ _ H).
  - apply (ho_origin _ _ _ _ _ _ H).
  - intros b' _. unfold pend_db, set_outbox. cbn. by rewrite insert_events_snoc.
Qed.

Definition row_of_event (event : Event) (row : outbox_row) : Prop :=
  ob_type row = ev_type event /\ ob_aggregate row = ev_aggregateID event
  /\ ob_payload row = ev_payload event.

Section emitting.
Context (K : list (ID * outbox_row) -> sess Db lock -> Db -> Prop) `{!Emits K}.
Context (C : Db -> Db -> Prop).

Lemma insertEvent_triple s b evs event correlation causation :
  K evs s b -> emitted s b evs -> mine s b (ev_id event) -> ev_id event ∉ evs.*1 ->
  wp C (insertEvent event correlation causation) b s
    (post quiet (fun _ s' b' => exists row, row_of_event event row
       /\ K (evs ++ [(ev_id event, row)]) s' b'
       /\ emitted s' b' (evs ++ [(ev_id event, row)]) /\ onward s b s' b')).
Proof using All.
  intros HK He Hm Hnew. unfold insertEvent.
  pose proof (knows_live _ _ HK) as Hlive. pose proof (knows_done _ _ HK) as Hdone.
  apply wp_lift; [exact _|done|]. intros payload Hp.
  assert (payload = ev_payload event) as ->.
  { unfold event_json, Event_MarshalJSON in Hp. destruct (_ || _); [done|]. by injection Hp. }
  run_stmt as b1 cx res Hd Hcx Hr. apply (knows_rely _ _ b1) in HK; [|exact Hd].
  apply insert_outbox_Ok in Hr as (Hout & Hv & Hstored). rewrite Hout.
  set (row := mkOutboxRow _ _ _ _ _ _ _ _ _ _ _ _ _) in *.
  pose proof (emits_write _ _ _ (ev_id event, row) (ID_String (ev_id event)) [LOutbox (ev_id event)] HK)
    as HK'. cbn [fst snd] in HK'. set (o := writes _ _ _ _) in *.
  assert (Hon : onward s b (sess_write s o) b1) by by apply onward_write.
  finish as b2 Hd2. exists row. split; [done|].
  assert (Hon2 : onward (sess_write s o) b1 (sess_write s o) b2) by by apply onward_depend.
  split_and!; [by eapply knows_rely| |by eapply onward_trans].
  eapply emitted_onward; [|exact Hon2]. pose proof (emitted_onward _ _ _ _ _ He Hon) as [Hf Hn].
  split.
  - apply Forall_app. split; [done|]. apply Forall_singleton. cbn.
    split_and!; [by eapply mine_onward| |by split]. apply elem_of_app. right. by apply list_elem_of_singleton.
  - rewrite fmap_app. apply NoDup_app. split_and!; [done| |apply NoDup_singleton].
    intros i Hi Hin. cbn in Hin. apply list_elem_of_singleton in Hin. by subst.
Qed.

(** Allocating an identifier for the next event. *)
Lemma emit_allocate {B} E `{!Tolerant E} (P : B -> sess Db lock -> Db -> Prop) s b evs k :
  K evs s b -> emitted s b evs ->
  (forall b' s' uid, K evs s' b' -> emitted s' b' evs -> mine s' b' uid ->
     uid ∉ evs.*1 -> onward s b s' b' -> wp C (k uid) b' s' (post E P)) ->
  wp C (andThen allocateID k) b s (post E P).
Proof using Emits0.
  intros HK He H. eapply (wp_allocate _ _ _ (K evs)); [exact HK|]. intros b1 s1 uid HK1 Hm Hnew Ho.
  apply H; [done|by eapply emitted_onward|done| |done].
  intros Hin. apply list_elem_of_fmap in Hin as (y & -> & Hy). destruct He as [Hf _].
  rewrite Forall_forall in Hf. destruct (Hf y Hy) as [(Hl & _) _]. done.
Qed.
End emitting.

(** ** writeEvents *)

(** The events of a result: one for the state, one for the movement if any. *)
Definition notices (id : ID) (r : wager_row) (pe : option ledger_row)
    (evs : list (ID * outbox_row)) : Prop :=
  match pe, evs with
  | None, [y] => event_of id r y
  | Some e, [y; z] => event_of id r y /\ entry_event_of e z
  | _, _ => False
  end.

Lemma event_type_of status meta d ty :
  (ty = EventWagerProcessed /\ status = StatusProcessed)
  \/ (ty = EventWagerRejected /\ status = StatusRejected)
  \/ (ty = EventWagerPendingReference /\ status = StatusPendingReference)
  \/ (ty = EventWagerFailed /\ status = StatusFailed) ->
  forall event, newWagerEvent meta d status ty = Ok event ->
  wgStatus d = status /\ ev_id event = mtID meta /\ ev_aggregateID event = wgWalletID d
  /\ ev_type event = event_type status
  /\ envelope_json meta (wgWalletID d) (event_type status)
       (wagerEventData_json (wager_event_data d)) = Ok (ev_payload event).
Proof.
  intros Hc event H. apply newWagerEvent_Ok in H as (_ & Hs & _ & Hid & Hagg & Hty & _ & Hp).
  assert (ty = event_type status) as <-; [|done].
  by destruct Hc as [[-> ->]|[[-> ->]|[[-> ->]|[-> ->]]]].
Qed.

(** The event of a snapshot that is not in the state [PENDING]. *)
Lemma status_event_Ok meta d event :
  status_event meta d = Ok event ->
  (ev_id event = mtID meta /\ ev_aggregateID event = wgWalletID d
   /\ ev_type event = event_type (wgStatus d)
   /\ envelope_json meta (wgWalletID d) (event_type (wgStatus d))
        (wagerEventData_json (wager_event_data d)) = Ok (ev_payload event))
  \/ event = mkEvent zeroID zeroID "" 0 "".
Proof.
  unfold status_event, NewWagerProcessed, NewWagerRejected, NewWagerPendingReference, NewWagerFailed.
  intros H. repeat (match type of H with context [if ?c then _ else _] => destruct c eqn:? end);
    [left..|right; congruence]; bools;
    apply event_type_of in H as (-> & ?); naive_solver.
Qed.

Lemma event_of_snapshot id r d event row meta :
  data_of id r = stored d -> ev_id event = mtID meta -> ev_aggregateID event = wgWalletID d ->
  ev_type event = event_type (wgStatus d) ->
  envelope_json meta (wgWalletID d) (event_type (wgStatus d))
    (wagerEventData_json (wager_event_data d)) = Ok (ev_payload event) ->
  row_of_event event row -> event_of id r (ev_id event, row).
Proof.
  intros Hdat Hid Hagg Hty Hp (Et & Ea & Ep).
  assert (Hst : status_of r = wgStatus d) by exact (f_equal wgStatus Hdat).
  assert (Hw : wallet_of r = wgWalletID d) by exact (f_equal wgWalletID Hdat).
  unfold event_of. cbn. rewrite Et, Ea, Ep, Hst, Hw, Hdat. split_and!; [done..|]. by exists meta.
Qed.

Lemma entry_event_of_row e event row meta version :
  NewWalletBalanceChanged meta (entry_data e) version = Ok event ->
  row_of_event event row -> entry_event_of e (ev_id event, row).
Proof.
  intros H (Et & Ea & Ep).
  apply NewWalletBalanceChanged_Ok in H as (_ & _ & _ & Hid & Hagg & Hty & _ & Hp).
  unfold entry_event_of. cbn. rewrite Et, Ea, Ep, Hagg, Hty. split_and!; [done..|].
  by exists meta, version.
Qed.

Lemma writeEvents_triple K `{!Emits K} C s b id r pe d wd correlation causation now :
  K [] s b -> data_of id r = stored d ->
  wp C (writeEvents d wd (entry_data <$> pe) correlation causation now) b s
    (post quiet (fun _ s' b' => exists evs, notices id r pe evs
       /\ K evs s' b' /\ emitted s' b' evs /\ onward s b s' b')).
Proof.
  intros HK Hdat. unfold writeEvents.
  eapply (emit_allocate K); [exact _|exact HK|apply emitted_nil|]. intros b1 s1 uid HK1 He1 Hm1 _ Ho1.
  pose proof (knows_done _ _ HK1) as Hdone1. apply wp_lift; [exact _|done|].
  intros event Hev. apply status_event_Ok in Hev as [(Hid & Hagg & Hty & Hp)| ->].
  2:{ (* the zero event has no payload *)
    apply wp_seq; [exact _|]. unfold insertEvent. apply wp_lift; [exact _|done|]. by intros payload [=]. }
  apply wp_seq; [exact _|].
  eapply wp_post; [apply (insertEvent_triple K); [exact HK1|exact He1|by rewrite Hid|apply not_elem_of_nil]|].
  intros [u|e] s2 b2; [|done]. intros (row & Hrow & HK2 & He2 & Ho2). cbn [post] in *.
  assert (Hy : event_of id r (ev_id event, row)) by by eapply event_of_snapshot.
  destruct pe as [e|]; cbn [fmap option_fmap option_map].
  - eapply (emit_allocate K); [exact _|exact HK2|exact He2|]. intros b3 s3 uid3 HK3 He3 Hm3 Hnew Ho3.
    pose proof (knows_done _ _ HK3) as Hdone3. apply wp_lift; [exact _|done|].
    intros event' Hev'.
    assert (Hid' : ev_id event' = uid3).
    { by apply NewWalletBalanceChanged_Ok in Hev' as (_ & _ & _ & ? & _). }
    eapply wp_post; [apply (insertEvent_triple K); [exact HK3|exact He3|by rewrite Hid'|by rewrite Hid']|].
    intros [u'|e'] s4 b4; [|done]. intros (row' & Hrow' & HK4 & He4 & Ho4).
    eexists. split_and!; [|exact HK4|exact He4|].
    + split; [done|]. by eapply entry_event_of_row.
    + do 3 (eapply onward_trans; [eassumption|]). exact Ho4.
  - finish as b3 Hd3.
    eexists. split_and!; [|by eapply knows_rely|by eapply emitted_onward; [|apply onward_depend]|].
    + exact Hy.
    + do 2 (eapply onward_trans; [eassumption|]). by apply onward_depend.
Qed.
