(* ===== verification/Apply.v ===== *)
(** * [apply]: from a decision to its pending settlement

    Run by a session that holds the wallet, [apply] leaves pending exactly the
    rows and the events its verdict calls for. *)

From S2P Require Import Prelude GoStd Errors Ident Money Wallet Ledger Wager Evaluate Command.
From S2P Require Import Events Session Rules Database Sql Store Rows Books Settle Pending.
From S2P Require Import Reference Verdict Applying Emitting.
Import Str.
#[local] Open Scope prog_scope.

(** ** Stability of a decision *)

Lemma decided_rely L b b' w id wrow r pw pe :
  LWallet w ∈ L -> depend L b b' -> consistent b ->
  decided b w id wrow r pw pe -> decided b' w id wrow r pw pe.
Proof.
  intros Hl Hd Hc [H1 H2 H3 H4]. constructor; [done|..].
  - intros Hs. specialize (H2 Hs). destruct (rq_refext _); [|done].
    destruct H2 as (j & ry & ? & Ho & ?). exists j, ry. by rewrite (own_rely _ _ _ _ _ Hl Hd).
  - intros y Hy. destruct (H3 y Hy) as [Hno [ry Ho]]. split.
    + by eapply no_reversal_rely.
    + rewrite (own_rely _ _ _ _ _ Hl Hd). by eexists.
  - destruct pw, pe; try done. destruct H4 as (? & ? & He & Hrest). do 2 (split; [done|]).
    split; [|exact Hrest]. eapply expected_direction_grow; [|exact He]. apply (ev_wagers _ _ (dp_evolves _ _ _ Hd)).
Qed.

Lemma decided_onward s b s' b' w id wrow r p p' pw pe :
  holding s b w id wrow p -> holding s' b' w id wrow p' -> onward s b s' b' ->
  decided b w id wrow r pw pe -> decided b' w id wrow r pw pe.
Proof.
  intros Hh _ [_ Hd]. eapply decided_rely; [apply (ho_lock _ _ _ _ _ _ Hh)|exact Hd|].
  apply (ho_consistent _ _ _ _ _ _ Hh).
Qed.

(** ** Waiting on *)

(** A transaction that waited and still waits was announced already. *)
Lemma still_waiting id r d d' clock o :
  row_ok id r -> in_memory id r d -> same_request d d' -> wager_valid d' -> unset d' ->
  status_of r = StatusPendingReference -> wgStatus d' = StatusPendingReference ->
  announced o id r -> announced o id (settled_row (outcome_of d') clock r).
Proof.
  intros Hr Hm Hs Hv Hu Hst Hst' (j & b & Hj & Hty & Hagg & meta & Hmt & Hp).
  exists j, b. split; [done|]. unfold event_of. rewrite (final_data id r d Hm d' clock Hs Hu).
  change (status_of (settled_row (outcome_of d') clock r)) with (wgStatus d').
  rewrite Hst', <- Hst. split_and!; [done..|]. exists meta. split; [done|].
  change (wallet_of (settled_row (outcome_of d') clock r)) with (wallet_of r).
  rewrite <- Hp. do 2 f_equal.
  pose proof (memory_request id r d Hm d' Hs) as Hq. unfold same_request in Hq. cbn in Hq.
  destruct (Hu ltac:(by rewrite Hst')) as [Hb Hver].
  assert (Hcode : wgFailureCode d' = "") by (apply nonterminal_code; [done|by rewrite Hst']).
  assert (Hopen : Terminal (oc_status (tr_outcome r)) = false).
  { unfold status_of in Hst. by rewrite Hst. }
  pose proof (rk_unsettled _ _ Hr Hopen) as Hnone. pose proof (rk_result _ _ Hr) as Hres.
  rewrite Hopen in Hres. destruct Hres as (Hrb & _ & _).
  unfold wager_event_data, data_of, stored, result_of. cbn. rewrite Hb, Hver, Hcode, Hnone, Hrb, Hst'.
  unfold status_of in Hst. rewrite Hst. destruct_and!. cbn. congruence.
Qed.

(** ** What is pending at the end *)

(** The rows and events a settlement leaves pending. *)
Record ending : Type := mkEnding {
  en_row : wager_row;
  en_moved : option wallet_row;
  en_entry : option ledger_row;
  en_events : list (ID * outbox_row)
}.

Definition en_pend (x : ending) fi : pend :=
  mkPend (en_moved x) (en_row x) (en_entry x) (en_events x) fi.

(** They are the pending rows of a session that may commit them: a result the
    books accept, announced by new events or, when the transaction keeps
    waiting, by the event it already has. *)
Record ended (w id : ID) (wrow : wallet_row) fi (x : ending) (s : sess Db lock) (b : Db) : Prop := {
  nd_holding : holding s b w id wrow (en_pend x fi);
  nd_decided : decided b w id wrow (en_row x) (en_moved x) (en_entry x);
  nd_emitted : emitted s b (en_events x);
  nd_notices :
    notices id (en_row x) (en_entry x) (en_events x)
    \/ status_of (en_row x) = StatusPendingReference /\ en_events x = [] /\ en_entry x = None
       /\ announced (outbox b) id (en_row x);
  nd_mine : forall e, en_entry x = Some e -> mine s b (lr_id e)
}.

Lemma ended_onward w id wrow fi fi' x s b s' b' :
  ended w id wrow fi x s b -> holding s' b' w id wrow (en_pend x fi') -> onward s b s' b' ->
  ended w id wrow fi' x s' b'.
Proof.
  intros [E1 E2 E3 E4 E5] Hh Ho. constructor; [done|..].
  - eapply decided_onward; [exact E1|exact Hh|done|done].
  - by eapply emitted_onward.
  - destruct E4 as [?|(? & ? & ? & Ha)]; [by left|right]. split_and!; [done..|].
    eapply announced_evolves; [|exact Ha]. apply (ev_outbox _ _ (dp_evolves _ _ _ (proj2 Ho))).
  - intros e He. eapply mine_onward; [by apply E5|done].
Qed.

Lemma ended_rely w id wrow fi x s b b' :
  ended w id wrow fi x s b -> depend (ss_locks s) b b' -> ended w id wrow fi x s b'.
Proof.
  intros H Hd. eapply ended_onward; [exact H| |by apply onward_depend].
  eapply holding_rely; [apply (nd_holding _ _ _ _ _ _ _ H)|done].
Qed.

(** ** apply *)

(** What the domain ruled, and on what. *)
Record ruling : Type := mkRuling {
  ru_data : WagerData;                  (* the settled snapshot *)
  ru_wallet : WalletData;
  ru_reference : option WagerData;
  ru_reversed : bool;
  ru_now : Z;                           (* the process clock at the decision *)
  ru_clock : Z                          (* the server's when the row was written *)
}.

(** The pending settlement [apply] leaves, and its reply. *)
Record applied (s : sess Db lock) (b : Db) (w id : ID) (wrow : wallet_row) (r : wager_row) fi
    (d : WagerData) (expired : bool) (u : ruling) (x : ending) (res : Result) (s' : sess Db lock)
    (b' : Db) : Prop := {
  ad_ended : ended w id wrow fi x s' b';
  ad_row : en_row x = settled_row (outcome_of (ru_data u)) (ru_clock u) r;
  ad_result : res = resultOf (ru_data u) (ru_wallet u) false;
  ad_verdict : verdict (wallet_data_of w wrow) d (ru_reference u) (ru_reversed u) expired (ru_now u)
                 (ru_data u) (ru_wallet u);
  ad_known : referenced b' w id (ru_reference u) (ru_reversed u);
  ad_request : same_request d (ru_data u);
  ad_valid : wager_valid (ru_data u);
  ad_notices : status_of r <> StatusPendingReference ->
    notices id (en_row x) (en_entry x) (en_events x);
  ad_onward : onward s b s' b'
}.

Lemma verdict_unset wd d reference reversed expired now d' w' :
  verdict wd d reference reversed expired now d' w' ->
  wgResultBalance d = Money0 -> wgResultVersion d = 0 -> unset d'.
Proof. intros [] Hb Hv; unfold unset; cbn; [by rewrite Hb, Hv|done|done]. Qed.

Lemma applied_onward s b w id wrow r fi fi' d expired u x res s1 b1 s2 b2 :
  applied s b w id wrow r fi d expired u x res s1 b1 ->
  holding s2 b2 w id wrow (en_pend x fi') -> onward s1 b1 s2 b2 ->
  applied s b w id wrow r fi' d expired u x res s2 b2.
Proof.
  intros [E1 E2 E3 E4 E5 E6 E7 E8 E9] Hh Ho. pose proof (nd_holding _ _ _ _ _ _ _ E1) as Hh1.
  constructor; try done.
  - eapply ended_onward; [exact E1|exact Hh|done].
  - eapply referenced_rely; [apply (ho_lock _ _ _ _ _ _ Hh1)|apply Ho|apply (ho_consistent _ _ _ _ _ _ Hh1)|done].
  - by eapply onward_trans.
Qed.

Lemma applied_rely s b w id wrow r fi d expired u x res s' b1 b2 :
  applied s b w id wrow r fi d expired u x res s' b1 -> depend (ss_locks s') b1 b2 ->
  applied s b w id wrow r fi d expired u x res s' b2.
Proof.
  intros H Hd. eapply applied_onward; [exact H| |by apply onward_depend].
  eapply holding_rely; [apply (nd_holding _ _ _ _ _ _ _ (ad_ended _ _ _ _ _ _ _ _ _ _ _ _ _ _ H))|done].
Qed.

(** From the row written to the reply: what remains known once the events are
    pending, and the events themselves. *)
Section concluding.
Context (s : sess Db lock) (b : Db) (w id : ID) (wrow : wallet_row) (r : wager_row)
  (fi : gmap (string * string) inbox_row -> gmap (string * string) inbox_row) (d : WagerData)
  (expired : bool) (reference : option WagerData) (reversed : bool) (now : Z).
Context (s2 : sess Db lock) (b2 : Db) (d' : WagerData) (w2 : WalletData) (pw : option wallet_row)
  (pe : option ledger_row) (clock : Z).
Local Notation row := (settled_row (outcome_of d') clock r).
Local Notation goal := (fun res s' b' => exists u x, applied s b w id wrow r fi d expired u x res s' b').
Hypothesis (Hr : row_ok id r) (Hm : in_memory id r d)
  (Hann : status_of r = StatusPendingReference -> announced (outbox b) id r).
Hypothesis (Ho2 : onward s b s2 b2) (Href2 : referenced b2 w id reference reversed).
Hypothesis (Hv : verdict (wallet_data_of w wrow) d reference reversed expired now d' w2).
Hypothesis (Hreq : same_request d d') (Hvalid : wager_valid d') (Hu : unset d').
Hypothesis (Hh2 : holding s2 b2 w id wrow (moved_rows r fi pw pe)).
Hypothesis (Hrow : forall c, row_ok id (settled_row (outcome_of d') c r)
  /\ decided b2 w id wrow (settled_row (outcome_of d') c r) pw pe).
Hypothesis (Hmine : forall e, pe = Some e -> mine s2 b2 (lr_id e)).
Hypothesis (Hdat : data_of id row = stored d').

Lemma concluded s4 b4 evs :
  onward s2 b2 s4 b4 -> holding s4 b4 w id wrow (mkPend pw row pe evs fi) -> emitted s4 b4 evs ->
  notices id row pe evs
  \/ status_of r = StatusPendingReference /\ wgStatus d' = StatusPendingReference
     /\ evs = [] /\ pe = None /\ announced (outbox b4) id row ->
  goal (resultOf d' w2 false) s4 b4.
Proof using All.
  intros Ho24 Hh4 He4 Hn4.
  exists (mkRuling d' w2 reference reversed now clock), (mkEnding row pw pe evs).
  constructor; cbn [ru_data ru_wallet ru_reference ru_reversed ru_now ru_clock]; try done.
  - constructor; cbn [en_row en_moved en_entry en_events]; try done.
    + eapply decided_onward; [exact Hh2|exact Hh4|done|]. apply Hrow.
    + destruct Hn4 as [?|(_ & ? & ?)]; [by left|by right].
    + intros e He. eapply mine_onward; [by apply Hmine|done].
  - eapply referenced_rely; [apply (ho_lock _ _ _ _ _ _ Hh2)|apply Ho24| |done].
    apply (ho_consistent _ _ _ _ _ _ Hh2).
  - intros Hns. destruct Hn4 as [?|(? & _)]; done.
  - by eapply onward_trans.
Qed.

(** A transaction that goes on waiting is announced already. *)
Lemma concluded_waiting s4 b4 :
  onward s2 b2 s4 b4 -> holding s4 b4 w id wrow (mkPend pw row pe [] fi) ->
  wgStatus d' = StatusPendingReference -> wgStatus d = StatusPendingReference ->
  goal (resultOf d' w2 false) s4 b4.
Proof using All.
  intros Ho4 Hh4 Hs' Hs. destruct (Hrow clock) as [_ Hdec].
  pose proof (de_moved _ _ _ _ _ _ _ Hdec) as Hmv.
  assert (Hnm : moving row = false).
  { apply unsettled_not_moving. unfold terminal, status_of. cbn. by rewrite Hs'. }
  assert (Hpe : pe = None) by (destruct pw, pe; try done; destruct Hmv; congruence).
  assert (Hst : status_of r = StatusPendingReference) by (by rewrite <- (im_status _ _ _ Hm)).
  apply (concluded s4 b4 []); [done..|apply emitted_nil|right]. split_and!; [done..|].
  eapply still_waiting; try done. eapply announced_evolves; [|by apply Hann].
  apply (ev_outbox _ _ (dp_evolves _ _ _ (proj2 (onward_trans _ _ _ _ _ _ Ho2 Ho4)))).
Qed.

Lemma conclude_triple C correlation causation s3 b3 :
  onward s2 b2 s3 b3 -> holding s3 b3 w id wrow (moved_rows row fi pw pe) ->
  wp C (andThen (if (wgStatus d' == StatusPendingReference) && (wgStatus d == StatusPendingReference) then ret tt
                 else map_err dbError (writeEvents d' w2 (entry_data <$> pe) correlation causation now))
          (fun _ => ret (resultOf d' w2 false))) b3 s3 (post quiet goal).
Proof using All.
  intros Ho3 Hh3. pose proof (ho_done _ _ _ _ _ _ Hh3) as Hdone3.
  destruct ((wgStatus d' == StatusPendingReference) && (wgStatus d == StatusPendingReference)) eqn:Eskip.
  - bools. finish as b4 Hd4. assert (Ho4 : onward s3 b3 s3 b4) by by apply onward_depend.
    apply concluded_waiting; [by eapply onward_trans|by eapply holding_rely|done..].
  - apply wp_seq_map; [exact _|].
    eapply wp_post; [apply (writeEvents_triple (fun evs s b =>
      holding s b w id wrow (mkPend pw row pe evs fi)) C s3 b3 id row pe); done|].
    intros [u|e] s4 b4; [|done]. intros (evs & Hn & Hh4 & He4 & Ho4). cbn [post].
    finish as b5 Hd5. assert (Ho5 : onward s4 b4 s4 b5) by by apply onward_depend.
    apply (concluded _ _ evs); [|by eapply holding_rely|by eapply emitted_onward|by left].
    eapply onward_trans; [done|]. by eapply onward_trans.
Qed.
End concluding.

Lemma apply_triple C s b w id wrow r fi d correlation causation expired :
  holding s b w id wrow (only_row r fi) -> in_memory id r d ->
  (status_of r = StatusPendingReference -> announced (outbox b) id r) ->
  wp C (apply (wallet_data_of w wrow) (mkWagerTransaction d) correlation causation expired) b s
    (post quiet (fun res s' b' => exists u x, applied s b w id wrow r fi d expired u x res s' b')).
Proof.
  intros Hh Hm Hann. unfold apply. cbv zeta. cbn [wager_Snapshot cloneWager wager_data].
  pose proof (ho_row _ _ _ _ _ _ Hh) as Hr. cbn in Hr.
  apply wp_seq; [exact _|]. eapply wp_mono; [done| |by apply (find_reference_triple C s b w id wrow r fi)].
  intros [[reference reversed]|e] s1 b1; [|done]. intros (Hh1 & Hs1 & Hd1 & Href1 & Hnone).
  cbn [post fst snd] in *. assert (Ho1 : onward s b s1 b1) by done. clear Hs1 Hd1.
  pose proof (ho_done _ _ _ _ _ _ Hh1) as Hdone1.
  apply wp_lift; [exact _|done|]. intros dec Hdec. apply wp_now. intros now _.
  apply wp_seq; [exact _|]. eapply wp_mono; [done| |by apply (carry_out_triple C s1 b1 w id wrow r fi d reference reversed)].
  intros [[[wg w'] ledger]|e] s2 b2; [|done].
  intros (d' & w2 & pw & pe & [= -> -> ->] & Hv & Hreq & Hvalid & Hh2 & Hs2 & Hd2 & Hrow & Hmine).
  cbn [post wager_Snapshot cloneWager wager_data] in *.
  assert (Ho2 : onward s1 b1 s2 b2) by done. clear Hs2 Hd2.
  assert (Href2 : referenced b2 w id reference reversed).
  { eapply referenced_rely; [apply (ho_lock _ _ _ _ _ _ Hh1)|apply Ho2| |done].
    apply (ho_consistent _ _ _ _ _ _ Hh1). }
  assert (Hopen : terminal r = false).
  { unfold terminal. rewrite <- (im_status _ _ _ Hm). apply (im_open _ _ _ Hm). }
  assert (Hid : wgID d' = id).
  { destruct Hreq as (Hi & _). destruct (memory_id id r d Hr Hm). congruence. }
  assert (Hu : unset d') by (by eapply verdict_unset; [exact Hv|apply (im_result _ _ _ Hm)..]).
  eapply wp_persist; [exact _|exact Hh2|done|done|intros clock; apply Hrow|].
  intros b3 s3 clock Hh3 Hs3 Hd3.
  eapply (conclude_triple s b w id wrow r fi d expired reference reversed now s2 b2 d' w2 pw pe clock);
    try done; [by eapply onward_trans|by apply (final_data _ _ d)].
Qed.
