(* ===== verification/Committing.v ===== *)
(** * The commit of a settlement

    The pending rows [apply] leaves, with the delivery they answer, are a
    settlement the books accept: committing them keeps every invariant, passes
    the deferred triggers, and touches only what the session's locks cover. *)

From S2P Require Import Prelude GoStd Errors Ident Money Wallet Ledger Wager Evaluate Command.
From S2P Require Import Events Session Rules Database Sql Store Rows Books Settle Pending.
From S2P Require Import Reference Verdict Applying Emitting Apply.

(** ** The settlement *)

Definition settlement_of (id : ID) (x : ending) (ib : option (string * string * inbox_row)) : settlement :=
  mkSettlement id (en_row x)
    (match en_moved x, en_entry x with Some wr, Some e => Some (wr, e) | _, _ => None end)
    (en_events x) ib.

(** The pending delivery: none, or a new inbox row that is now completed. *)
Definition delivered (L : list lock) (b : Db) (id : ID) (ib : option (string * string * inbox_row))
    (fi : gmap (string * string) inbox_row -> gmap (string * string) inbox_row) : Prop :=
  match ib with
  | None => forall m, fi m = m
  | Some (c, k, row) =>
      (forall m, m !! (c, k) = None -> fi m = <[(c, k) := row]> m)
      /\ LInbox c k ∈ L /\ inbox b !! (c, k) = None
      /\ ib_wager row = Some id /\ is_some (ib_completed row) = true
  end.

Lemma delivered_rely L b b' id ib fi :
  delivered L b id ib fi -> depend L b b' -> delivered L b' id ib fi.
Proof.
  destruct ib as [[[c k] row]|]; [|done]. intros (H1 & H2 & H3 & H4 & H5) Hd.
  split_and!; try done. by rewrite (pt_inbox _ _ _ (dp_protected _ _ _ Hd)).
Qed.

(** The reversals and references of a decision, in the books. *)
Lemma own_lookup w b j ry :
  own w b j = Some ry -> exists r, wagers b !! j = Some r /\ strip r = ry /\ wallet_of r = w.
Proof.
  unfold own. destruct (wagers b !! j) as [r|]; [|done].
  destruct (wallet_of r == w) eqn:E; [|done]. bools. intros [= <-]. by exists r.
Qed.

Lemma decided_resolved b w id wrow r pw pe : decided b w id wrow r pw pe -> resolved b id r.
Proof.
  intros H Hs. pose proof (de_resolved _ _ _ _ _ _ _ H Hs) as Hr.
  destruct (rq_refext (tr_request r)); [|done]. destruct Hr as (j & ry & Hj & Ho & Hst & Hm).
  apply own_lookup in Ho as (r0 & Hr0 & <- & _). exists j, r0. done.
Qed.

Section commit.
Context (s : sess Db lock) (b : Db) (w id : ID) (wrow : wallet_row).
Context (fi : gmap (string * string) inbox_row -> gmap (string * string) inbox_row).
Context (x : ending) (ib : option (string * string * inbox_row)).
Context (Ha : ended w id wrow fi x s b).
Context (Hib : delivered (ss_locks s) b id ib fi).
Local Notation st := (settlement_of id x ib).

Lemma committed_wallet : wallet_of (en_row x) = w.
Proof using Ha. apply (ho_owner _ _ _ _ _ _ (nd_holding _ _ _ _ _ _ _ Ha)). Qed.

(** What moved: nothing, or the wallet and its entry. *)
Lemma moved_cases :
  (en_moved x = None /\ en_entry x = None /\ moving (en_row x) = false)
  \/ exists wr e, en_moved x = Some wr /\ en_entry x = Some e
     /\ moves_money b id (en_row x) wr e.
Proof using Ha.
  pose proof (nd_decided _ _ _ _ _ _ _ Ha) as Hd. pose proof (de_moved _ _ _ _ _ _ _ Hd) as Hm.
  pose proof (nd_holding _ _ _ _ _ _ _ Ha) as Hh.
  destruct (en_moved x) as [wr|] eqn:Ew, (en_entry x) as [e|] eqn:Ee; try done; [right|by left].
  destruct Hm as (H1 & H2 & H3 & H4 & H5 & H6 & H7 & H8 & H9). exists wr, e. split_and!; [done..|].
  constructor; try done.
  - destruct (nd_mine _ _ _ _ _ _ _ Ha e Ee) as (_ & Hu & _). apply Hu.
  - exists wrow. rewrite committed_wallet. split_and!; try done. apply (ho_wallet _ _ _ _ _ _ Hh).
  - by rewrite committed_wallet.
Qed.

Lemma committed_view : view b s = settle_db st b.
Proof using Ha Hib.
  pose proof (nd_holding _ _ _ _ _ _ _ Ha) as Hh.
  rewrite (holding_view _ _ _ _ _ _ Hh). unfold pend_db, settle_db, settlement_of. cbn -[en_row].
  rewrite committed_wallet.
  assert (Hfi : fi (inbox b) = match ib with Some (k, r) => <[k:=r]> (inbox b) | None => inbox b end).
  { destruct ib as [[[c k] row]|]; [|by apply Hib]. destruct Hib as (Hf & _ & Hn & _). by apply Hf. }
  rewrite Hfi. by destruct moved_cases as [(-> & -> & _)|(wr & e & -> & -> & _)].
Qed.

Lemma event_pending y : y ∈ en_events x -> outbox (settle_db st b) !! y.1 = Some y.2.
Proof using Ha.
  intros Hy. cbn. apply insert_events_new; [by destruct y|].
  apply (nd_emitted _ _ _ _ _ _ _ Ha).
Qed.

Lemma committed_announced : announced (outbox (settle_db st b)) id (en_row x).
Proof using Ha.
  destruct (nd_notices _ _ _ _ _ _ _ Ha) as [Hn|(_ & Hev & _ & Hn)].
  - assert (exists y, y ∈ en_events x /\ event_of id (en_row x) y) as (y & Hy & He).
    { unfold notices in Hn. destruct (en_entry x), (en_events x) as [|y [|z [|]]]; try done;
        exists y; (split; [apply list_elem_of_here|naive_solver]). }
    exists y.1, y.2. rewrite event_pending by done. by destruct y.
  - cbn. by rewrite Hev.
Qed.

Lemma committed_entry_announced e :
  en_entry x = Some e -> entry_announced (outbox (settle_db st b)) e.
Proof using Ha.
  intros Ee. destruct (nd_notices _ _ _ _ _ _ _ Ha) as [Hn|(_ & _ & Hn & _)]; [|congruence].
  unfold notices in Hn. rewrite Ee in Hn.
  destruct (en_events x) as [|y [|z [|]]] eqn:Ev; try done. destruct Hn as [_ He].
  exists z.1, z.2. rewrite event_pending; [by destruct z|]. rewrite Ev. right. apply list_elem_of_here.
Qed.

Lemma settlement_settleable : settleable b st.
Proof using Ha Hib.
  pose proof (nd_holding _ _ _ _ _ _ _ Ha) as Hh.
  pose proof (nd_decided _ _ _ _ _ _ _ Ha) as Hd.
  destruct (nd_emitted _ _ _ _ _ _ _ Ha) as [Hev Hnd].
  constructor; cbn -[en_row].
  - apply (ho_row _ _ _ _ _ _ Hh).
  - apply (de_status _ _ _ _ _ _ _ Hd).
  - exists wrow. rewrite committed_wallet. split; [apply (ho_wallet _ _ _ _ _ _ Hh)|].
    apply (ho_owner _ _ _ _ _ _ Hh).
  - destruct (ho_origin _ _ _ _ _ _ Hh) as [_ Ho]. destruct (wagers b !! id); [done|].
    destruct Ho as (_ & _ & Hk & Hx). split; intros p k Hp; [by apply Hk|by apply Hx].
  - by eapply decided_resolved.
  - intros y Hy. by apply (de_single _ _ _ _ _ _ _ Hd).
  - by destruct moved_cases as [(-> & _ & ?)|(wr & e & -> & -> & ?)].
  - eapply Forall_impl; [exact Hev|]. cbn. intros y ((_ & Hu & _) & _ & Hp). split; [by apply Hu|done].
  - done.
  - exact committed_announced.
  - intros wr e He. apply committed_entry_announced.
    destruct (en_moved x), (en_entry x); by try injection He as <- <-.
  - intros [c k] row E. destruct ib as [[[c' k'] row']|]; [|done]. injection E as <- <- <-.
    destruct Hib as (_ & _ & Hn & Hw & Hcomp). split; [done|]. exists id.
    destruct (ib_completed row') as [t|]; [|done]. exists t. split_and!; [done..|].
    rewrite lookup_insert_eq. by eexists.
Qed.

Lemma settlement_covers : covers (ss_locks s) b st.
Proof using Ha Hib.
  pose proof (nd_holding _ _ _ _ _ _ _ Ha) as Hh.
  destruct (nd_emitted _ _ _ _ _ _ _ Ha) as [Hev Hnd].
  destruct (ho_origin _ _ _ _ _ _ Hh) as [Hlid Ho].
  constructor; cbn -[en_row].
  - rewrite committed_wallet. apply (ho_lock _ _ _ _ _ _ Hh).
  - done.
  - intros Hn. rewrite Hn in Ho. destruct Ho as (_ & Hl & Hk & Hx).
    split_and!; [done|intros p k Hp; by apply Hk|intros p k Hp; by apply Hx].
  - intros wr e He. apply (nd_mine _ _ _ _ _ _ _ Ha).
    destruct (en_moved x), (en_entry x); by try injection He as <- <-.
  - eapply Forall_impl; [exact Hev|]. cbn. by intros y ((Hl & _) & ? & _).
  - intros c k row E. destruct ib as [[[c' k'] row']|]; [|done]. injection E as <- <- <-. by apply Hib.
Qed.

(** The commit: the triggers pass and the others can rely on it. *)
Lemma settlement_commits :
  triggers_pass s (view b s) = true /\ guar (ss_locks s) b (view b s).
Proof using Ha Hib.
  pose proof (nd_holding _ _ _ _ _ _ _ Ha) as Hh.
  rewrite committed_view. pose proof settlement_settleable as Hst. split.
  - unfold triggers_pass. apply forallb_forall. intros g Hg. rewrite <- list_elem_of_In in Hg.
    pose proof (ho_deferred _ _ _ _ _ _ Hh) as Hdf. rewrite Forall_forall in Hdf.
    apply (Hdf g Hg); [apply settle_consistent; [apply (ho_consistent _ _ _ _ _ _ Hh)|done]|].
    cbn. rewrite lookup_insert_eq. by eexists.
  - apply (settle_guar (ss_locks s) b st); [done|exact settlement_covers].
Qed.
End commit.
