(* ===== verification/Delivering.v ===== *)
(** * Before the wallet is locked: deliveries and identities

    What a session of [ProcessWager] knows before it holds a wallet: the inbox
    row it may have reserved, and the transactions it found by their identity. *)

From S2P Require Import Prelude GoStd Errors Ident Money Wallet Ledger Wager Evaluate Command.
From S2P Require Import Events Session Rules Database Sql Store Rows Books Settle Pending.
From S2P Require Import Reference Applying Emitting.
Import Str.
#[local] Open Scope prog_scope.

Notation inbox_change := (gmap (string * string) inbox_row -> gmap (string * string) inbox_row).

(** Nothing is pending but a delivery. *)
Record begun (s : sess Db lock) (b : Db) (fi : inbox_change) : Prop := {
  bg_live : ss_live s = true;
  bg_done : ss_done s = None;
  bg_consistent : consistent b;
  bg_deferred : Forall (fun g => forall d, consistent d -> g d = true) (ss_deferred s);
  bg_view : forall b', depend (ss_locks s) b b' -> view b' s = set_inbox fi b'
}.

Lemma begun_rely s b b' fi : begun s b fi -> depend (ss_locks s) b b' -> begun s b' fi.
Proof.
  intros [Hl Hdn Hc Hdf Hv] Hd. constructor; try done.
  - by apply (dp_consistent _ _ _ Hd).
  - intros b'' Hd'. apply Hv. by eapply depend_trans.
Qed.

Lemma begun_view s b fi : begun s b fi -> view b s = set_inbox fi b.
Proof. intros H. apply (bg_view _ _ _ H), depend_refl. Qed.

Lemma begun_write {R} s b fi fi' (o : outcome Db lock R) :
  begun s b fi -> Forall (fun g => forall d, consistent d -> g d = true) (out_deferred o) ->
  (forall b', depend (ss_locks s) b b' -> out_write o (set_inbox fi b') = set_inbox fi' b') ->
  begun (sess_write s o) b fi'.
Proof.
  intros [Hl Hdn Hc Hdf Hv] Hdf' Hout. constructor; try done.
  - cbn. by apply Forall_app.
  - intros b' Hd. rewrite view_write. apply depend_write in Hd. rewrite Hv by done. by apply Hout.
Qed.

Lemma begun_read {R} s b fi (o : outcome Db lock R) :
  begun s b fi -> (forall d, out_write o d = d) -> out_deferred o = [] -> begun (sess_write s o) b fi.
Proof. intros H Ho Hdf. eapply begun_write; [done|by rewrite Hdf|]. intros b' _. apply Ho. Qed.

#[global] Instance begun_knows fi : Knows (fun s b => begun s b fi).
Proof.
  constructor; intros *.
  - by intros [].
  - by intros [].
  - apply begun_rely.
  - intros H [? ?]. by apply begun_read.
  - intros H. rewrite (begun_view _ _ _ H). done.
Qed.

(** A statement a begun session runs. *)
Ltac begun_stmt H b1 cx r Hd Hr :=
  let Hlive := fresh "Hlive" in let Hdone := fresh "Hdone" in let Hcx := fresh "Hcx" in
  pose proof (bg_live _ _ _ H) as Hlive; pose proof (bg_done _ _ _ H) as Hdone;
  run_stmt as b1 cx r Hd Hcx Hr;
  apply (begun_rely _ _ b1) in H; [|exact Hd]; rewrite (begun_view _ _ _ H) in *; clear Hlive Hdone.

Ltac begun_reads H :=
  match goal with
  | |- wp _ _ _ (sess_write _ ?o) _ =>
      let H' := fresh in
      pose proof (begun_read _ _ _ o H ltac:(intros; cbn; repeat case_match; reflexivity)
        ltac:(cbn; repeat case_match; reflexivity)) as H'; clear H; rename H' into H
  end.

(** [Hd] led to the state after one more statement. *)
Ltac stepped Hd := eapply onward_trans; [eapply onward_write; exact Hd|].

(** ** The inbox *)

(** The inbox row a session reserved for its delivery. *)
Definition reserved (s : sess Db lock) (b : Db) (m : option InboxMessage) (fi : inbox_change) : Prop :=
  match m with
  | None => forall i, fi i = i
  | Some m => exists row, ib_completed row = None
      /\ (forall i, i !! (imConsumerName m, imMessageID m) = None ->
            fi i = <[(imConsumerName m, imMessageID m) := row]> i)
      /\ LInbox (imConsumerName m) (imMessageID m) ∈ ss_locks s
      /\ Hex.decode (imPayloadHash m) = Some (ib_hash row)
      /\ inbox b !! (imConsumerName m, imMessageID m) = None
  end.

Lemma reserved_onward s b s' b' m fi : reserved s b m fi -> onward s b s' b' -> reserved s' b' m fi.
Proof.
  destruct m as [m|]; [|done]. intros (row & Hc & Hf & Hl & Hh & Hn) [Hs Hd].
  exists row. split_and!; [done|done|by apply Hs|done|].
  by rewrite (pt_inbox _ _ _ (dp_protected _ _ _ Hd)).
Qed.

(** A delivery of the message was completed before, for transaction [i]. *)
Definition delivered_before (b : Db) (m : InboxMessage) (i : ID) : Prop :=
  exists row, inbox b !! (imConsumerName m, imMessageID m) = Some row
    /\ ib_wager row = Some i /\ Hex.decode (imPayloadHash m) = Some (ib_hash row).

Lemma delivered_before_evolves b b' m i : evolves b b' -> delivered_before b m i -> delivered_before b' m i.
Proof.
  intros He (row & Hr & ?). destruct (ev_inbox _ _ He _ _ Hr) as (row' & Hr' & <-). by exists row.
Qed.

Lemma inbox_guard_passes k d : consistent d -> validate_inbox_commit k d = true.
Proof.
  intros Hc. unfold validate_inbox_commit. destruct (inbox d !! k) as [r|] eqn:E; [|done].
  destruct (cs_inbox _ Hc _ _ E) as (i & c & -> & -> & _). done.
Qed.

(** Only one of the two outcomes of [reserveInbox] returns a transaction. *)
Lemma reserveInbox_triple C s b m :
  begun s b (fun i => i) ->
  wp C (reserveInbox m) b s
    (post quiet (fun existing s' b' => onward s b s' b' /\
       ((existing = "" /\ exists fi, begun s' b' fi /\ reserved s' b' (Some m) fi)
        \/ (begun s' b' (fun i => i)
            /\ exists i, existing = ID_String i /\ i <> zeroID /\ delivered_before b' m i)))).
Proof.
  intros Hb. unfold reserveInbox. destruct (Hex.decode (imPayloadHash m)) as [hash|] eqn:Eh.
  2:{ apply wp_fail; [exact _|apply (bg_done _ _ _ Hb)]. }
  destruct (_ || _) eqn:Einput; [apply wp_fail; [exact _|apply (bg_done _ _ _ Hb)]|].
  begun_stmt Hb b1 cx r Hd1 Hr. unfold insert_inbox in *.
  texts_pass Hr. destruct ((imConsumerName m == "") || (imMessageID m == "") || negb (len hash =? 32)%nat) eqn:Echk;
    [done|]. cbn [inbox set_inbox] in *.
  destruct (inbox b1 !! (imConsumerName m, imMessageID m)) as [row|] eqn:Erow.
  - (* a delivery before this one *)
    cbn in Hr. injection Hr as <-. cbn [is_some]. begun_reads Hb.
    begun_stmt Hb b2 cx2 r2 Hd2 Hr2. apply depend_write in Hd2 as Hd2'.
    unfold select_inbox in *. texts_pass Hr2. cbn in Hr2. injection Hr2 as <-. begun_reads Hb.
    destruct (dp_evolves _ _ _ Hd2) as [_ _ _ Hib _].
    destruct (Hib _ _ Erow) as (row2 & Erow2 & <-). rewrite Erow2. cbn [fmap option_fmap option_map scan].
    refold. cbn [bind lift ret map_err]. refold.
    destruct (cs_inbox _ (bg_consistent _ _ _ Hb) _ _ Erow2) as (i & t & Ei & Et & r0 & Hr0).
    rewrite Ei, Et. cbn [fmap option_fmap option_map].
    destruct (Hex.encode (ib_hash row) != imPayloadHash m) eqn:Ehash;
      [apply wp_fail; [exact _|apply (bg_done _ _ _ Hb)]|].
    bools. finish as b3 Hd3. apply depend_write in Hd3 as Hd3'. apply depend_write in Hd3' as Hd3''.
    split.
    + stepped Hd1. stepped Hd2. by apply onward_depend.
    + right. split; [by eapply begun_rely|]. exists i. split_and!; [done| |].
      * apply (cs_row _ (bg_consistent _ _ _ Hb)) in Hr0 as [Hok _]. apply (rk_valid _ _ Hok).
      * eapply delivered_before_evolves; [apply (dp_evolves _ _ _ Hd3)|]. exists row.
        split_and!; [done..|]. rewrite <- Ehash. apply Hex.decode_encode.
  - cbn in Hr. injection Hr as <-. cbn [is_some]. set (o := writes _ _ _ _) in *.
    assert (Hb' : begun (sess_write s o) b1
        (<[(imConsumerName m, imMessageID m) := mkInboxRow hash None (cx_clock cx 0) None]>)).
    { eapply begun_write; [exact Hb|..]; [|done].
      apply Forall_singleton. intros d Hc. by apply inbox_guard_passes. }
    finish as b2 Hd2. split; [stepped Hd1; by apply onward_depend|].
    left. split; [done|]. eexists. split; [by eapply begun_rely|].
    eapply reserved_onward; [|by apply onward_depend].
    eexists. split_and!; [|by intros i _| |done..]; [done|].
    cbn. apply elem_of_app. right. by apply list_elem_of_singleton.
Qed.
