(* ===== verification/Replaying.v ===== *)
(** * Replays: identities, deliveries, and the triple of [commitReplay]

    A request whose identity is taken is answered from the transaction that
    took it, and commits nothing but its delivery. *)

From S2P Require Import Prelude GoStd Errors Ident Money Wallet Ledger Wager Evaluate Command.
From S2P Require Import Events Session Rules Database Sql Store Rows Books Settle Pending.
From S2P Require Import Reference Applying Emitting Committing Delivering.
Import Str.
#[local] Open Scope prog_scope.

(** ** What a reply says of a transaction *)

(** [res] is a true account of the transaction [i], whose row is [row]: a
    terminal result is the one on record. *)
Record stands (d : Db) (res : Result) (i : ID) (row : wager_row) : Prop := {
  sn_id : rsTransactionID res = ID_String i;
  sn_row : wagers d !! i = Some row;
  sn_status : if Terminal (rsStatus res)
    then status_of row = rsStatus res /\ result_of (tr_outcome row) = (rsBalance res, rsWalletVersion res)
         /\ coalesce (oc_failure (tr_outcome row)) = rsFailureCode res
    else rsStatus res = StatusPendingReference
}.

Lemma stands_evolves d d' res i row :
  stands d res i row -> evolves d d' -> exists row', stands d' res i row' /\ wager_grows row row'.
Proof.
  intros [H1 H2 H3] He. destruct (ev_wagers _ _ He _ _ H2) as (row' & H2' & Hg).
  exists row'. split; [|done]. constructor; [done..|].
  destruct (Terminal (rsStatus res)) eqn:Et; [|done]. destruct Hg as (_ & _ & _ & Ho).
  destruct H3 as (Hs & Hr). assert (Ht : terminal row = true) by (unfold terminal; by rewrite Hs).
  specialize (Ho Ht). unfold status_of in *. by rewrite Ho.
Qed.

(** The reply built from an earlier state of a transaction. *)
Lemma resultOf_stands d i r0 row w replay :
  wagers d !! i = Some row -> wager_grows r0 row -> row_ok i r0 -> status_of r0 <> StatusPending ->
  stands d (resultOf (data_of i r0) w replay) i row.
Proof.
  intros Hrow (_ & _ & _ & Ho) Hok Hp. unfold resultOf. constructor.
  - by destruct (Terminal (wgStatus (data_of i r0))).
  - done.
  - unfold terminal, status_of in *. cbn.
    destruct (Terminal (oc_status (tr_outcome r0))) eqn:Et; cbn; rewrite Et.
    + rewrite (Ho eq_refl). by destruct (result_of _).
    + destruct (wager_status _ (proj2 (proj2 (rk_valid _ _ Hok)))) as [H|[H|[H|[H|H]]]]; cbn in H; rewrite H in *;
        done.
Qed.

(** ** Found by identity *)

(** [d] is the snapshot of a transaction, read at some earlier moment. *)
Record known (b : Db) (i : ID) (r0 : wager_row) : Prop := {
  kn_row : exists row, wagers b !! i = Some row /\ wager_grows r0 row;
  kn_ok : row_ok i r0;
  kn_status : status_of r0 <> StatusPending;
  kn_owner : exists w, wallets b !! wallet_of r0 = Some w
}.

Lemma known_evolves b b' i r0 : known b i r0 -> evolves b b' -> known b' i r0.
Proof.
  intros [(row & Hr & Hg) Hok Hs (w & Hw)] He. constructor; try done.
  - destruct (ev_wagers _ _ He _ _ Hr) as (row' & Hr' & Hg'). exists row'. split; [done|]. by etrans.
  - destruct (ev_wallets _ _ He _ _ Hw) as (w' & Hw' & _). by exists w'.
Qed.

Lemma known_now b i r : consistent b -> wagers b !! i = Some r -> known b i r.
Proof.
  intros Hc Hr. destruct (cs_row _ Hc _ _ Hr) as [Hok Hs]. constructor; try done.
  - by exists r.
  - destruct (cs_owner _ Hc _ _ Hr) as (w & Hw & _). by exists w.
Qed.

Lemma known_onward s b s' b' i r0 : known b i r0 -> onward s b s' b' -> known b' i r0.
Proof. intros Hk [_ Hd]. eapply known_evolves; [exact Hk|]. apply (dp_evolves _ _ _ Hd). Qed.

(** A transaction that answers the command: its key and its hash. *)
Definition answers (c : Command) (hash : string) (r0 : wager_row) : Prop :=
  has_key (cProviderID c) (cIdempotencyKey c) r0 = true
  /\ coalesce (Hex.encode <$> rq_hash (tr_request r0)) = hash.

Lemma key_of_external c r :
  cIdempotencyKey c <> "" -> has_external (cProviderID c) (cExternalTransactionID c) r = true ->
  coalesce (rq_key (tr_request r)) = cIdempotencyKey c ->
  has_key (cProviderID c) (cIdempotencyKey c) r = true.
Proof.
  unfold has_external, has_key. intros Hk H Heq. bools. apply andb_true_iff.
  rewrite !bool_decide_eq_true. split; [done|].
  destruct (rq_key (tr_request r)) as [k|]; cbn in Heq; congruence.
Qed.

Lemma findIdentity_triple C s b fi c hash :
  begun s b fi -> cIdempotencyKey c <> "" ->
  wp C (findIdentity c hash) b s
    (post quiet (fun found s' b' => begun s' b' fi /\ onward s b s' b' /\
       forall d, found = Some d ->
         exists i r0, d = data_of i r0 /\ known b' i r0 /\ answers c hash r0)).
Proof.
  intros Hb Hkey. unfold findIdentity.
  begun_stmt Hb b1 cx r Hd1 Hr. unfold select_identity in *. texts_pass Hr. cbn in Hr. injection Hr as <-. begun_reads Hb.
  cbn [wagers set_inbox].
  assert (Hx : forall x, match find_row (fun _ => has_key (cProviderID c) (cIdempotencyKey c)) (wagers b1) with
      | Some x => Some x
      | None => find_row (fun _ => has_external (cProviderID c) (cExternalTransactionID c)) (wagers b1)
      end = Some x -> wagers b1 !! x.1 = Some x.2
        /\ (coalesce (rq_key (tr_request x.2)) = cIdempotencyKey c ->
            has_key (cProviderID c) (cIdempotencyKey c) x.2 = true)).
  { intros [i r]. destruct (find_row _ _) as [[i' r']|] eqn:E.
    - intros [= <- <-]. by apply find_row_Some in E as [? ?].
    - intros E'. apply find_row_Some in E' as [? ?]. split; [done|]. by apply key_of_external. }
  destruct (match find_row _ _ with Some x => _ | None => _ end) as [[i r]|].
  2:{ finish as b2 Hd2. split; [by eapply begun_rely|]. split; [stepped Hd1; by apply onward_depend|done]. }
  destruct (Hx _ eq_refl) as [Hrow Hk]. cbn [fst snd] in *. clear Hx.
  cbn [wager_found fmap option_fmap option_map].
  rewrite (scanWager_row i r) by (apply (cs_row _ (bg_consistent _ _ _ Hb) _ _ Hrow)).
  refold. cbn [bind lift ret wgIdempotencyKey wgPayloadHash data_of].
  destruct (coalesce (rq_key (tr_request r)) == cIdempotencyKey c) eqn:Ek; cbn [negb];
    [|apply wp_fail; [exact _|apply (bg_done _ _ _ Hb)]].
  destruct (coalesce (Hex.encode <$> rq_hash (tr_request r)) == hash) eqn:Eh; cbn [negb];
    [|apply wp_fail; [exact _|apply (bg_done _ _ _ Hb)]].
  bools. finish as b2 Hd2.
  split; [by eapply begun_rely|]. split; [stepped Hd1; by apply onward_depend|].
  intros d [= <-]. exists i, r. split_and!; [done| |by split; [apply Hk|]].
  eapply known_onward; [|apply onward_depend; exact Hd2]. apply known_now; [apply (bg_consistent _ _ _ Hb)|done].
Qed.

(** ** Completing a delivery *)

(** Knowledge of a session that survives a change of the pending delivery. *)
Class KnowsInbox (K : sess Db lock -> Db -> inbox_change -> Prop) : Prop := {
  ki_knows fi :: Knows (fun s b => K s b fi);
  ki_view s b fi : K s b fi -> inbox (view b s) = fi (inbox b);
  ki_write s b fi f u l : K s b fi ->
    K (sess_write s (writes (R:=unit) u (set_inbox f) l [])) b (fun m => f (fi m))
}.

#[global] Instance begun_inbox : KnowsInbox begun.
Proof.
  constructor; [exact _|intros s b fi..].
  - intros H. by rewrite (begun_view _ _ _ H).
  - intros f u l H. eapply begun_write; [exact H|done|]. done.
Qed.

#[global] Instance holding_inbox w id wrow pw r pe evs :
  KnowsInbox (fun s b fi => holding s b w id wrow (mkPend pw r pe evs fi)).
Proof.
  constructor; [intros; apply holding_knows|intros s b fi..].
  - intros H. by rewrite (holding_view _ _ _ _ _ _ H).
  - intros f u l H. eapply holding_write; [exact H|..]; try done.
    + split; [apply (ho_owner _ _ _ _ _ _ H)|done].
    + apply (ho_row _ _ _ _ _ _ H).
    + apply (ho_origin _ _ _ _ _ _ H).
Qed.

Lemma complete_inbox_Ok consumer message i cx d u row :
  out_reply (complete_inbox consumer message (ID_String i) cx d) = Ok u -> i <> zeroID ->
  inbox d !! (consumer, message) = Some row -> ib_completed row = None ->
  complete_inbox consumer message (ID_String i) cx d
  = writes u (set_inbox (alter (inbox_completed i (cx_clock cx 0)) (consumer, message)))
      [LInbox consumer message] [].
Proof.
  unfold complete_inbox, uuid_in. intros H Hi Hrow Hc. texts_pass H. rewrite ParseID_String in * by done.
  rewrite Hrow, Hc in *. cbn in H |- *. passed H. destruct u. by rewrite T.
Qed.

(** The pending delivery of a message, completed. *)
Definition completes (m : option InboxMessage) (ib : option (string * string * inbox_row)) : Prop :=
  match m, ib with
  | None, None => True
  | Some m, Some (c, k, row) => c = imConsumerName m /\ k = imMessageID m
      /\ Hex.decode (imPayloadHash m) = Some (ib_hash row)
  | _, _ => False
  end.

Lemma completeInbox_triple K `{!KnowsInbox K} C s b m fi i :
  K s b fi -> reserved s b m fi -> i <> zeroID ->
  wp C (completeInbox m (ID_String i)) b s
    (post quiet (fun _ s' b' => exists ib fi', K s' b' fi' /\ onward s b s' b'
       /\ delivered (ss_locks s') b' i ib fi' /\ completes m ib)).
Proof.
  intros HK Hres Hi. destruct m as [m|]; cbn [completeInbox].
  2:{ finish as b1 Hd1. exists None, fi. split_and!; [by eapply (knows_rely (Knows := ki_knows _))|by apply onward_depend|done..]. }
  pose proof (knows_live (K := fun s b => K s b fi) _ _ HK) as Hlive.
  pose proof (knows_done (K := fun s b => K s b fi) _ _ HK) as Hdone.
  unfold exec. run_stmt as b1 cx u Hd1 Hcx Hr.
  apply (knows_rely (K := fun s b => K s b fi) _ _ b1) in HK; [|exact Hd1].
  eapply reserved_onward in Hres; [|apply (onward_depend s b b1 Hd1)].
  pose proof Hres as (row & Hc & Hf & Hl & Hh & Hn).
  assert (Hrow : inbox (view b1 s) !! (imConsumerName m, imMessageID m) = Some row).
  { rewrite (ki_view _ _ _ HK), Hf by done. apply lookup_insert_eq. }
  rewrite (complete_inbox_Ok _ _ _ _ _ _ _ Hr Hi Hrow Hc). set (o := writes _ _ _ _) in *.
  pose proof (ki_write _ _ _ (alter (inbox_completed i (cx_clock cx 0)) (imConsumerName m, imMessageID m))
    u [LInbox (imConsumerName m) (imMessageID m)] HK) as HK'.
  finish as b2 Hd2.
  exists (Some (imConsumerName m, imMessageID m, inbox_completed i (cx_clock cx 0) row)).
  exists (fun j => alter (inbox_completed i (cx_clock cx 0)) (imConsumerName m, imMessageID m) (fi j)).
  split_and!; [by eapply (knows_rely (Knows := ki_knows _))|stepped Hd1; by apply onward_depend| |by split_and!].
  eapply delivered_rely; [|exact Hd2]. split_and!; [| |done..].
  - intros j Hj. cbn beta. rewrite Hf by done. rewrite (alter_insert _ _ _ row) by apply lookup_insert_eq.
    by rewrite insert_insert_eq.
  - cbn. apply elem_of_app. by left.
Qed.

(** ** The commit of a replay *)

(** The commit changes nothing but the delivery, now completed for [i]. *)
Definition redelivers (m : option InboxMessage) (i : ID) (b v : Db) : Prop :=
  match m with
  | None => v = b
  | Some m => exists row, inbox b !! (imConsumerName m, imMessageID m) = None
      /\ v = set_inbox (<[(imConsumerName m, imMessageID m) := row]>) b
      /\ ib_wager row = Some i /\ is_some (ib_completed row) = true
      /\ Hex.decode (imPayloadHash m) = Some (ib_hash row)
  end.

Lemma redelivers_consistent m i b v :
  consistent b -> is_Some (wagers b !! i) -> redelivers m i b v -> consistent v.
Proof.
  intros Hc Hi Hr. destruct m as [m|]; cbn in Hr; [|by subst]. destruct Hr as (row & _ & -> & Hw & Hcomp & _).
  constructor; cbn; try apply Hc. intros k r Hk.
  destruct (decide (k = (imConsumerName m, imMessageID m))) as [->|Hne].
  - rewrite lookup_insert_eq in Hk. injection Hk as <-.
    destruct (ib_completed row) as [t|]; [|done]. by exists i, t.
  - rewrite lookup_insert_ne in Hk by done. by eapply (cs_inbox _ Hc).
Qed.

Lemma redelivers_evolves m i b v : redelivers m i b v -> evolves b v.
Proof.
  destruct m as [m|]; [|by intros ->]. intros (row & Hn & -> & _). constructor; try reflexivity.
  intros k r Hk. exists r. split; [|done]. cbn. rewrite lookup_insert_ne; [done|]. congruence.
Qed.

Lemma redelivers_protected (L : list lock) m i b v :
  (forall x, m = Some x -> LInbox (imConsumerName x) (imMessageID x) ∈ L) ->
  redelivers m i b v -> protected (fun l => l ∉ L) b v.
Proof.
  intros Hl. destruct m as [m|]; [|intros ->; apply protected_refl].
  intros (row & _ & -> & _). constructor; try done. intros c k Hck. cbn.
  rewrite lookup_insert_ne; [done|]. intros [= <- <-]. by apply Hck, Hl.
Qed.

Lemma redelivers_known m i b v j r : redelivers m i b v -> known b j r -> known v j r.
Proof. intros Hr Hk. eapply known_evolves; [done|]. by eapply redelivers_evolves. Qed.

Lemma delivered_redelivers s b m i ib fi :
  begun s b fi -> delivered (ss_locks s) b i ib fi -> completes m ib -> redelivers m i b (view b s).
Proof.
  intros Hb Hd Hm. rewrite (begun_view _ _ _ Hb). destruct m as [m|], ib as [[[c k] row]|]; try done.
  - destruct Hm as (-> & -> & Hh). destruct Hd as (Hf & Hl & Hn & Hw & Hc). exists row.
    split_and!; [done| |done..]. unfold set_inbox. f_equal. by apply Hf.
  - unfold set_inbox. rewrite Hd. by destruct b.
Qed.

(** What a successful replay says. *)
Definition replayed (m : option InboxMessage) (i : ID) (r0 : wager_row) (res : Result)
    (s : sess Db lock) (b : Db) : Prop :=
  rsIdempotentReplay res = true
  /\ (exists b0 v, ss_done s = Some (b0, v) /\ redelivers m i b0 v)
  /\ (exists row, stands b res i row /\ wager_grows r0 row)
  /\ forall m', m = Some m' -> delivered_before b m' i.

Lemma begun_commits s b fi m i :
  begun s b fi -> is_Some (wagers b !! i) -> redelivers m i b (view b s) ->
  (forall x, m = Some x -> LInbox (imConsumerName x) (imMessageID x) ∈ ss_locks s) ->
  triggers_pass s (view b s) = true /\ guar (ss_locks s) b (view b s).
Proof.
  intros Hb Hi Hr Hl.
  assert (Hc : consistent (view b s)).
  { eapply redelivers_consistent; [apply (bg_consistent _ _ _ Hb)|done|done]. }
  split.
  - unfold triggers_pass. apply forallb_forall. intros g Hg. rewrite <- list_elem_of_In in Hg.
    pose proof (bg_deferred _ _ _ Hb) as Hdf. rewrite Forall_forall in Hdf. by apply Hdf.
  - apply guar_protected; [by eapply redelivers_protected|by eapply redelivers_evolves|done].
Qed.

(** Reading the wallet of a transaction the session knows. *)
Lemma wp_read_wallet {B} C E `{!Tolerant E} (P : B -> sess Db lock -> Db -> Prop) s b fi i r0 k :
  begun s b fi -> known b i r0 ->
  (forall b' s' w, begun s' b' fi -> known b' i r0 -> onward s b s' b' ->
     wp C (k w) b' s' (post E P)) ->
  wp C (andThen (map_err dbError (query_row (select_wallet (ID_String (wgWalletID (data_of i r0))))
         scanWallet)) k) b s (post E P).
Proof.
  intros Hb Hk H. begun_stmt Hb b1 cx r Hd1 Hr.
  eapply known_evolves in Hk; [|apply (dp_evolves _ _ _ Hd1)].
  assert (Hwz : wallet_of r0 <> zeroID) by apply (rk_valid _ _ (kn_ok _ _ _ Hk)).
  destruct (kn_owner _ _ _ Hk) as (w & Hw).
  unfold select_wallet, uuid_in in *. cbn [wgWalletID data_of] in *. fold (wallet_of r0) in *.
  rewrite ParseID_String in * by done. cbn [wallets set_inbox] in *. rewrite Hw in *.
  cbn in Hr. injection Hr as <-. begun_reads Hb.
  rewrite scanWallet_row by apply (cs_wallet _ (bg_consistent _ _ _ Hb) _ _ Hw).
  refold. cbn [bind lift]. refold. apply H; [done|done|]. stepped Hd1. apply onward_refl.
Qed.

(** The end of a replay: the commit, then the reply. *)
Lemma wp_replay_commit (C : Db -> Db -> Prop) s b fi m i r0 w :
  begun s b fi -> known b i r0 ->
  (forall b', begun s b' fi -> depend (ss_locks s) b b' -> redelivers m i b' (view b' s)) ->
  (forall x, m = Some x -> LInbox (imConsumerName x) (imMessageID x) ∈ ss_locks s) ->
  (forall b v r, redelivers m i b v -> wagers b !! i = Some r -> wager_grows r0 r -> C b v) ->
  wp C (map_err dbError commit;;; ret (resultOf (data_of i r0) w true)) b s
    (post failed (replayed m i r0)).
Proof.
  intros Hb Hk Hr Hl HC.
  apply wp_commit; [apply (bg_done _ _ _ Hb)|apply (bg_live _ _ _ Hb)|]. intros b1 Hd1.
  change (depend (ss_locks s) b b1) in Hd1. pose proof (begun_rely _ _ _ _ Hb Hd1) as Hb1.
  specialize (Hr b1 Hb1 Hd1).
  eapply known_evolves in Hk; [|apply (dp_evolves _ _ _ Hd1)].
  pose proof (kn_row _ _ _ Hk) as (row & Hrow & Hgr).
  destruct (begun_commits _ _ _ _ _ Hb1 ltac:(by eexists) Hr Hl) as [Ht Hg].
  split_and!; [done|done|by eapply HC|]. intros b2 Hd2. change (depend [] (view b1 s) b2) in Hd2.
  apply (redelivers_known _ _ _ _ _ _ Hr) in Hk.
  eapply known_evolves in Hk; [|apply (dp_evolves _ _ _ Hd2)].
  destruct Hk as [(row2 & Hrow2 & Hg2) Hok Hst _].
  split; [by unfold resultOf; destruct (Terminal _)|]. split; [by eexists _, _|].
  split; [exists row2; split; [|done]; by apply resultOf_stands with (r0 := r0)|].
  intros m' ->. eapply delivered_before_evolves; [apply (dp_evolves _ _ _ Hd2)|].
  destruct Hr as (irow & _ & -> & Hw & _ & Hh). exists irow. cbn. by rewrite lookup_insert_eq.
Qed.

Lemma commitReplay_triple (C : Db -> Db -> Prop) s b fi m i r0 :
  begun s b fi -> reserved s b m fi -> known b i r0 ->
  (forall b v r, redelivers m i b v -> wagers b !! i = Some r -> wager_grows r0 r -> C b v) ->
  wp C (commitReplay m (data_of i r0)) b s (post failed (replayed m i r0)).
Proof.
  intros Hb Hres Hk HC. unfold commitReplay.
  eapply wp_read_wallet; [exact _|exact Hb|exact Hk|]. intros b1 s1 w Hb1 Hk1 Ho1.
  eapply reserved_onward in Hres; [|exact Ho1].
  apply wp_seq_map; [exact _|].
  assert (Hz : i <> zeroID) by apply (rk_valid _ _ (kn_ok _ _ _ Hk)).
  eapply wp_post; [by apply (completeInbox_triple begun C s1 b1 m fi i)|].
  intros [u|e] s2 b2; [|done]. intros (ib & fi' & Hb2 & Ho2 & Hdl & Hcm). cbn [post].
  eapply wp_replay_commit; [exact Hb2|by eapply known_onward| | |done].
  - intros b3 Hb3 Hd3. eapply delivered_redelivers; [exact Hb3| |exact Hcm].
    by eapply delivered_rely.
  - intros y ->. destruct ib as [[[c k] row]|]; [|done]. destruct Hcm as (-> & -> & _). by apply Hdl.
Qed.

Lemma inboxReplay_triple (C : Db -> Db -> Prop) c s b i m :
  begun s b (fun i => i) -> delivered_before b m i -> i <> zeroID -> cProviderID c <> "" ->
  (forall b, C b b) ->
  wp C (inboxReplay c (ID_String i)) b s
    (post failed (fun res s' b' => exists r0, replayed None i r0 res s' b'
       /\ delivered_before b' m i /\ rq_provider (tr_request r0) = Some (cProviderID c)
       /\ forall b0 v, ss_done s' = Some (b0, v) -> delivered_before b0 m i)).
Proof.
  intros Hb Hdel Hi Hpr HC. unfold inboxReplay.
  begun_stmt Hb b1 cx r Hd1 Hr.
  eapply delivered_before_evolves in Hdel; [|apply (dp_evolves _ _ _ Hd1)].
  unfold select_wager, uuid_in in *. rewrite ParseID_String in * by done.
  cbn in Hr. injection Hr as <-. begun_reads Hb.
  pose proof Hdel as (irow & Hir & Hiw & Hih).
  destruct (cs_inbox _ (bg_consistent _ _ _ Hb) _ _ Hir) as (i' & t & Ei & _ & r0 & Hr0).
  rewrite Hiw in Ei. injection Ei as <-.
  unfold wager_by_id. cbn [wagers set_inbox]. rewrite Hr0. cbn [fmap option_fmap option_map wager_found].
  destruct (cs_row _ (bg_consistent _ _ _ Hb) _ _ Hr0) as [Hok _].
  rewrite (scanWager_row i r0) by done. refold. cbn [bind lift]. refold.
  destruct (wgProviderID (data_of i r0) != cProviderID c) eqn:Ep;
    [apply wp_fail; [exact _|apply (bg_done _ _ _ Hb)]|].
  bools. cbn in Ep.
  assert (Hprov : rq_provider (tr_request r0) = Some (cProviderID c)).
  { destruct (rq_provider (tr_request r0)) as [p|]; cbn in Ep; congruence. }
  eapply wp_read_wallet; [exact _|exact Hb|by apply known_now; [apply (bg_consistent _ _ _ Hb)|]|].
  intros b2 s2 w Hb2 Hk2 Ho2.
  apply (delivered_before_evolves _ b2) in Hdel; [|apply (dp_evolves _ _ _ (proj2 Ho2))].
  apply wp_commit; [apply (bg_done _ _ _ Hb2)|apply (bg_live _ _ _ Hb2)|].
  intros b3 Hd3. change (depend (ss_locks s2) b2 b3) in Hd3.
  pose proof (begun_rely _ _ _ _ Hb2 Hd3) as Hb3.
  assert (Hv : view b3 s2 = b3) by (rewrite (begun_view _ _ _ Hb3); by destruct b3).
  rewrite Hv. split_and!.
  - unfold triggers_pass. apply forallb_forall. intros g Hg. rewrite <- list_elem_of_In in Hg.
    pose proof (bg_deferred _ _ _ Hb3) as Hdf. rewrite Forall_forall in Hdf.
    apply Hdf; [done|]. apply (bg_consistent _ _ _ Hb3).
  - intros L' _. apply depend_refl.
  - apply HC.
  - intros b4 Hd4. change (depend [] b3 b4) in Hd4. exists r0.
    assert (Hev : evolves b2 b4).
    { etrans; [apply (dp_evolves _ _ _ Hd3)|apply (dp_evolves _ _ _ Hd4)]. }
    pose proof (known_evolves _ _ _ _ Hk2 Hev) as [(row4 & Hrow4 & Hg4) Hok4 Hst4 _].
    split; [split; [by unfold resultOf; destruct (Terminal _)|]; split; [by eexists _, _|]|].
    + split; [|done]. exists row4. split; [|done]. by apply resultOf_stands with (r0 := r0).
    + split_and!; [by eapply delivered_before_evolves|done|].
      intros b0 v [= <- _]. eapply delivered_before_evolves; [apply (dp_evolves _ _ _ Hd3)|done].
Qed.
