(* ===== verification/Admitting.v ===== *)
(** * Admitting a request: from the wallet's lock to the pending row

    What a session of [ProcessWager] knows once it holds the wallet, and once
    the row of a new request is in. *)

From S2P Require Import Prelude GoStd Errors Ident Money Wallet Ledger Wager Evaluate Command.
From S2P Require Import Events Session Rules Database Sql Store Rows Books Settle Pending.
From S2P Require Import Reference Verdict Applying Emitting Committing Delivering.
Import Str.
#[local] Open Scope prog_scope.

(** The session holds the wallet [w]; only its delivery is pending. *)
Record locked (s : sess Db lock) (b : Db) (w : ID) (wrow : wallet_row) (fi : inbox_change) : Prop := {
  lk_begun : begun s b fi;
  lk_lock : LWallet w ∈ ss_locks s;
  lk_wallet : wallets b !! w = Some wrow
}.

Lemma locked_rely s b b' w wrow fi :
  locked s b w wrow fi -> depend (ss_locks s) b b' -> locked s b' w wrow fi.
Proof.
  intros [Hb Hl Hw] Hd. constructor; [by eapply begun_rely|done|].
  by destruct (pt_wallet _ _ _ (dp_protected _ _ _ Hd) w Hl) as (-> & _).
Qed.

Lemma locked_wallet s b w wrow fi : locked s b w wrow fi -> wallet_ok (wallet_data_of w wrow).
Proof. intros [Hb _ Hw]. apply (cs_wallet _ (bg_consistent _ _ _ Hb) _ _ Hw). Qed.

#[global] Instance locked_knows w wrow fi : Knows (fun s b => locked s b w wrow fi).
Proof.
  constructor; intros *.
  - intros []. by eapply (knows_live (K := fun s b => begun s b fi)).
  - intros []. by eapply (knows_done (K := fun s b => begun s b fi)).
  - apply locked_rely.
  - intros [Hb Hl Hw] Ho. constructor; [by apply (knows_read (K := fun s b => begun s b fi))| |done].
    by apply locks_write.
  - intros [Hb _ _]. by apply (knows_unused (K := fun s b => begun s b fi)).
Qed.

Lemma lockWallet_text C s b fi text :
  begun s b fi ->
  wp C (lockWallet text) b s
    (post quiet (fun wd s' b' => exists w wrow, ParseID text = Ok w /\ wd = wallet_data_of w wrow
       /\ locked s' b' w wrow fi /\ onward s b s' b')).
Proof.
  intros Hb. unfold lockWallet.
  apply wp_lift; [exact _|apply (bg_done _ _ _ Hb)|]. intros w Hw. pose proof (ParseID_nonzero _ _ Hw) as Hwz.
  begun_stmt Hb b1 cx r Hd1 Hr. unfold get_wallet_for_update in *. cbn [wallets set_inbox] in *.
  destruct (wallets b1 !! w) as [wrow|] eqn:Ew.
  2:{ cbn in Hr. injection Hr as <-. cbn. intros b2 _. apply (bg_done _ _ _ Hb). }
  cbn in Hr. injection Hr as <-. begun_reads Hb.
  pose proof (cs_wallet _ (bg_consistent _ _ _ Hb) _ _ Ew) as (Hok & _).
  pose proof Hok as [_ Hp [Hv _] _ _ _ _]. cbn in Hp, Hv.
  refold. cbn [bind lift scan wc_player columns_of_wallet]. refold.
  rewrite ParseID_String, NewMoney_valid by done.
  do 2 (apply wp_lift; [exact _|apply (bg_done _ _ _ Hb)|]; intros ? [= <-]).
  apply wp_lift; [exact _|apply (bg_done _ _ _ Hb)|]. intros wl _. finish as b2 Hd2.
  exists w, wrow. split; [done|]. split; [done|]. split.
  - eapply locked_rely; [|exact Hd2]. constructor; [done| |done].
    cbn. apply elem_of_app. right. apply list_elem_of_here.
  - stepped Hd1. by apply onward_depend.
Qed.

Lemma lockWallet_triple C s b fi w :
  begun s b fi -> w <> zeroID ->
  wp C (lockWallet (ID_String w)) b s
    (post quiet (fun wd s' b' => exists wrow, wd = wallet_data_of w wrow
       /\ locked s' b' w wrow fi /\ onward s b s' b')).
Proof.
  intros Hb Hw. eapply wp_post; [by apply lockWallet_text|].
  intros [wd|e] s' b'; [|done]. intros (w' & wrow & Hp & H). rewrite ParseID_String in Hp by done.
  injection Hp as <-. by exists wrow.
Qed.

(** ** The row of a request *)

(** The row [insertWager] inserts. *)
Definition request_row (c : Command) (hash : string) (w player : ID) (now : Z) : wager_row :=
  mkWagerRow
    (mkRequest "EXTERNAL" (Some (cProviderID c)) (Some (cExternalTransactionID c))
       (Some (cIdempotencyKey c)) (Some hash) w player (Some (cRoundID c)) (Some (cGameID c))
       (cKind c) (minor (cMoney c)) (currency (cMoney c))
       (optional (cReferenceExternalTransactionID c)) (timestamptz now))
    (pending_outcome now) (cCorrelationID c) (optional (cCausationID c)) 0 None None.

Lemma request_row_data c hash id w wd now :
  wID wd = w -> id <> zeroID ->
  data_of id (request_row c hash w (wPlayerID wd) now)
  = stored (new_wager_data c (Hex.encode hash) id wd (wPlayerID wd) now).
Proof.
  intros <- Hz. unfold data_of, stored, new_wager_data. cbn. rewrite coalesce_optional.
  by destruct (cMoney c).
Qed.

Lemma request_row_ok c hash id wd now :
  wager_valid (new_wager_data c (Hex.encode hash) id wd (wPlayerID wd) now) ->
  Int64.in_range (minor (cMoney c)) -> 1000 <= now ->
  row_ok id (request_row c hash (wID wd) (wPlayerID wd) now).
Proof.
  intros Hv Hr Hn. constructor; cbn; try done.
  - rewrite request_row_data; [|done|apply Hv]. by apply stored_valid.
  - unfold optional. case_bool_decide; [done|]. congruence.
  - split; [apply timestamptz_idem|by apply timestamptz_pos].
Qed.

Lemma request_in_memory c hash id wd now :
  wager_valid (new_wager_data c (Hex.encode hash) id wd (wPlayerID wd) now) ->
  cKind c <> KindOpening -> 1000 <= now ->
  in_memory id (request_row c hash (wID wd) (wPlayerID wd) now)
    (new_wager_data c (Hex.encode hash) id wd (wPlayerID wd) now).
Proof.
  intros Hv Hk Hn. constructor; cbn; try done.
  rewrite request_row_data by (done || apply Hv). reflexivity.
Qed.

Lemma request_origin L b c hash id w player now :
  LWager id ∈ L -> LId id ∈ L -> unused id b ->
  LKey (cProviderID c) (cIdempotencyKey c) ∈ L ->
  LExternal (cProviderID c) (cExternalTransactionID c) ∈ L ->
  no_row (has_key (cProviderID c) (cIdempotencyKey c)) (wagers b) ->
  no_row (has_external (cProviderID c) (cExternalTransactionID c)) (wagers b) ->
  origin L b id (request_row c hash w player now).
Proof.
  intros Hw Hid Hu Hlk Hlx Hk Hx. split; [done|]. pose proof Hu as (_ & -> & _).
  split_and!; [done|done|..]; intros p k; unfold has_key, has_external; cbn; intros H; bools.
  - injection H as <-. injection H0 as <-. done.
  - injection H as <-. injection H0 as <-. done.
Qed.

(** The row is in: nothing but it and the delivery is pending. *)
Lemma wp_insert_wager {B} C E `{!Tolerant E} (P : B -> sess Db lock -> Db -> Prop)
    s b w wrow fi c hash id now k :
  let wd := wallet_data_of w wrow in
  locked s b w wrow fi -> mine s b id -> 1000 <= now -> Int64.in_range (minor (cMoney c)) ->
  cWalletID c = ID_String w -> cPlayerID c = ID_String (wPlayerID wd) ->
  wager_valid (new_wager_data c (Hex.encode hash) id wd (wPlayerID wd) now) ->
  (forall b' s', locked s' b' w wrow fi -> onward s b s' b' -> wp C (k None) b' s' (post E P)) ->
  (forall b' s', holding s' b' w id wrow (only_row (request_row c hash w (wPlayerID wd) now) fi) ->
     unused id b' -> onward s b s' b' -> wp C (k (Some (ID_String id))) b' s' (post E P)) ->
  wp C (andThen (map_err dbError (insertWager c (Hex.encode hash) id now)) k) b s (post E P).
Proof.
  intros wd Hlk Hm Hnow Hrange Ewt Ept Hvalid Hnone Hsome.
  pose proof (lk_begun _ _ _ _ _ Hlk) as Hb.
  pose proof (bg_live _ _ _ Hb) as Hlive. pose proof (bg_done _ _ _ Hb) as Hdone.
  run_stmt as b1 cx r Hd1 Hcx Hr. clear Hb.
  pose proof (locked_rely _ _ _ _ _ _ Hlk Hd1) as Hlk1. pose proof (lk_begun _ _ _ _ _ Hlk1) as Hb1.
  rewrite (begun_view _ _ _ Hb1) in *.
  pose proof (mine_rely _ _ _ _ Hm Hd1) as (Hlid & Hu & Hz).
  assert (Hwz : w <> zeroID) by apply (locked_wallet _ _ _ _ _ Hlk).
  assert (Hpz : wPlayerID wd <> zeroID) by apply (locked_wallet _ _ _ _ _ Hlk).
  unfold insert_wager, uuid_in in *. texts_pass Hr. rewrite Ewt, Ept, !ParseID_String, Hex.decode_encode in * by done.
  change (mkWagerRow _ _ _ _ _ _ _) with (request_row c hash w (wPlayerID wd) now) in *.
  destruct (negb (wager_checks id _)) eqn:Echk; [done|]. cbn [wagers wallets set_inbox] in *.
  destruct (_ || _ || _) eqn:Econf.
  - (* the identity is taken *)
    injection Hr as <-. apply Hnone; [|by eapply onward_write].
    constructor; [|apply locks_write, (lk_lock _ _ _ _ _ Hlk1)|apply (lk_wallet _ _ _ _ _ Hlk1)].
    by apply begun_read.
  - rewrite (lk_wallet _ _ _ _ _ Hlk1) in *. cbn [wPlayerID wallet_data_of] in *.
    rewrite bool_decide_refl in *. cbn [negb] in *. injection Hr as <-.
    rewrite !orb_false_iff, !is_some_None in Econf. destruct Econf as [[_ Ek] Ex].
    apply Hsome; [|done|by eapply onward_write].
    constructor.
    + done.
    + done.
    + apply (bg_consistent _ _ _ Hb1).
    + apply locks_write, (lk_lock _ _ _ _ _ Hlk1).
    + apply (lk_wallet _ _ _ _ _ Hlk1).
    + done.
    + by apply (request_row_ok c hash id wd).
    + apply request_origin; [|by apply locks_write|done| | | |];
        [cbn; apply elem_of_app; right; rewrite !elem_of_cons; by auto..| |].
      * exact (proj1 (find_row_None _ _) Ek).
      * exact (proj1 (find_row_None _ _) Ex).
    + cbn. apply Forall_app. split.
      * eapply Forall_impl; [apply (bg_deferred _ _ _ Hb1)|]. intros g Hg d Hc _. by apply Hg.
      * apply Forall_singleton, verify_harmless.
    + intros b2 Hd2. rewrite view_write. apply depend_write in Hd2.
      rewrite (bg_view _ _ _ Hb1) by done. unfold pend_db. cbn. by rewrite List.app_nil_r.
Qed.
