(* ===== verification/Processing.v ===== *)
(** * [ProcessWager]: its triple

    Whatever other sessions do meanwhile and whatever fails, a call either
    commits nothing, or commits the settlement of its own new request, or
    answers from the transaction its identity names. *)

From S2P Require Import Prelude GoStd Codec Errors Ident Money Wallet Ledger Wager Evaluate.
From S2P Require Import Command Events Session Rules Database Sql Store Rows Books Settle Pending.
From S2P Require Import Reference Verdict Applying Emitting Apply Committing Delivering Replaying.
From S2P Require Import Admitting.
Import Str.
#[local] Open Scope prog_scope.

(** ** What a call promises *)

(** The commit inserted the transaction [i] for the request and settled it: as
    the domain decides on the wallet and the reference as they were in [b]. *)
Record settled_as (c : Command) (hash : string) (m : option InboxMessage) (i : ID) (res : Result)
    (b v : Db) (h : string) (w : ID) (wrow : wallet_row) (now : Z) (u : ruling)
    (x : ending) (ib : option (string * string * inbox_row)) : Prop := {
  sd_new : wagers b !! i = None;
  sd_key : no_row (has_key (cProviderID c) (cIdempotencyKey c)) (wagers b);
  sd_hash : hash = Hex.encode h;
  sd_wallet_id : cWalletID c = ID_String w;
  sd_wallet : wallets b !! w = Some wrow;
  sd_player : cPlayerID c = ID_String (wr_player wrow);
  sd_verdict : verdict (wallet_data_of w wrow)
    (new_wager_data c hash i (wallet_data_of w wrow) (wr_player wrow) now)
    (ru_reference u) (ru_reversed u) false (ru_now u) (ru_data u) (ru_wallet u);
  sd_reference : referenced b w i (ru_reference u) (ru_reversed u);
  sd_reply : res = resultOf (ru_data u) (ru_wallet u) false;
  sd_row : en_row x = settled_row (outcome_of (ru_data u)) (ru_clock u)
                        (request_row c h w (wr_player wrow) now);
  sd_data : data_of i (en_row x) = stored (ru_data u);
  sd_settleable : settleable b (settlement_of i x ib);
  sd_commit : v = settle_db (settlement_of i x ib) b;
  sd_events : notices i (en_row x) (en_entry x) (en_events x);
  sd_inbox : completes m ib;
  sd_delivery : forall k row, ib = Some (k, row) -> ib_wager row = Some i
}.

Definition settled (c : Command) (hash : string) (m : option InboxMessage) (i : ID) (res : Result)
    (b v : Db) : Prop :=
  exists h w wrow now u x ib, settled_as c hash m i res b v h w wrow now u x ib.

(** The commits a call may make. *)
Definition process_spec (c : Command) (m : option InboxMessage) (b v : Db) : Prop :=
  v = b
  \/ (exists c' hash i r, NormalizeCommand c = Ok c' /\ PayloadHash c' = Ok hash
      /\ redelivers m i b v /\ wagers b !! i = Some r /\ answers c' hash r)
  \/ exists c' hash i res, NormalizeCommand c = Ok c' /\ PayloadHash c' = Ok hash
     /\ settled c' hash m i res b v.

(** What a reply says of the books, from then on. *)
Definition replied (c' : Command) (hash : string) (m : option InboxMessage) (res : Result)
    (commit : Db * Db) (d : Db) : Prop :=
  exists i row, stands d res i row /\ (forall m', m = Some m' -> delivered_before d m' i) /\
    if rsIdempotentReplay res then
      (redelivers m i commit.1 commit.2 /\ answers c' hash row)
      \/ (commit.2 = commit.1 /\ (exists m', m = Some m' /\ delivered_before commit.1 m' i)
          /\ rq_provider (tr_request row) = Some (cProviderID c'))
    else settled c' hash m i res commit.1 commit.2 /\ answers c' hash row.

Definition process_post (c : Command) (m : option InboxMessage) (r : res Result)
    (commit : option (Db * Db)) (d : Db) : Prop :=
  match r with
  | Err e => commit = None \/ Code e = "UNAVAILABLE"
  | Ok res => exists c' hash bv, NormalizeCommand c = Ok c' /\ PayloadHash c' = Ok hash
      /\ commit = Some bv /\ replied c' hash m res bv d
  end.

Lemma replied_evolves c hash m res bv d d' :
  evolves d d' -> replied c hash m res bv d -> replied c hash m res bv d'.
Proof.
  intros He (i & row & Hs & Hdel & H). destruct (stands_evolves _ _ _ _ _ Hs He) as (row' & Hs' & (Hq & _)).
  exists i, row'. split; [done|]. split; [|unfold answers, has_key in *; by rewrite Hq].
  intros m' Hm. eapply delivered_before_evolves; [done|]. by apply Hdel.
Qed.

Lemma answers_grows c hash r r' : tr_request r' = tr_request r -> answers c hash r -> answers c hash r'.
Proof. unfold answers, has_key. by intros ->. Qed.

Lemma replayed_replied c hash m i r0 res s b :
  replayed m i r0 res s b -> answers c hash r0 ->
  exists bv, ss_done s = Some bv /\ replied c hash m res bv b.
Proof.
  intros (Hrep & (b0 & v & Hdone & Hred) & (row & Hst & (Hq & _)) & Hdel) Ha.
  exists (b0, v). split; [done|]. exists i, row. split; [done|]. split; [done|]. rewrite Hrep. left.
  split; [done|]. by eapply answers_grows.
Qed.

(** ** A new request *)

(** The commit of a new request, and what its reply says from then on. *)
Lemma new_request_settled s0 b0 c h m i w wrow now fi u x res s b ib :
  let d := new_wager_data c (Hex.encode h) i (wallet_data_of w wrow) (wr_player wrow) now in
  let r := request_row c h w (wr_player wrow) now in
  applied s0 b0 w i wrow r fi d false u x res s b -> delivered (ss_locks s) b i ib fi ->
  completes m ib -> wagers b !! i = None -> in_memory i r d ->
  no_row (has_key (cProviderID c) (cIdempotencyKey c)) (wagers b) ->
  cWalletID c = ID_String w -> cPlayerID c = ID_String (wr_player wrow) ->
  settled_as c (Hex.encode h) m i res b (view b s) h w wrow now u x ib.
Proof.
  intros d r [He Hrow Hres Hv Hkn Hreq Hvalid Hnt Ho] Hdl Hcm Hnew Hmem Hkey Hw Hp.
  pose proof (nd_holding _ _ _ _ _ _ _ He) as Hh.
  assert (Hu : unset (ru_data u)) by by eapply verdict_unset.
  constructor; try done.
  - apply (ho_wallet _ _ _ _ _ _ Hh).
  - rewrite Hrow. by eapply (final_data _ _ d).
  - by eapply settlement_settleable.
  - by eapply committed_view.
  - by apply Hnt.
  - intros [c1 k1] row ->. by destruct Hdl as (_ & _ & _ & Hw' & _).
Qed.

(** The reply of a new request is on record. *)
Lemma settled_stands c hash m i res b v h w wrow now u x ib :
  settled_as c hash m i res b v h w wrow now u x ib -> stands v res i (en_row x).
Proof.
  intros Hs. rewrite (sd_reply _ _ _ _ _ _ _ _ _ _ _ _ _ _ Hs), (sd_commit _ _ _ _ _ _ _ _ _ _ _ _ _ _ Hs).
  assert (Hdat : resultOf (ru_data u) (ru_wallet u) false
    = resultOf (data_of i (en_row x)) (ru_wallet u) false).
  { by rewrite (sd_data _ _ _ _ _ _ _ _ _ _ _ _ _ _ Hs). }
  rewrite Hdat. pose proof (sd_settleable _ _ _ _ _ _ _ _ _ _ _ _ _ _ Hs) as Hst.
  apply resultOf_stands with (r0 := en_row x); try done.
  - cbn. by rewrite lookup_insert_eq.
  - apply (sp_row _ _ Hst).
  - apply (sp_status _ _ Hst).
Qed.

(** The row of a new request answers it. *)
Lemma settled_answers c hash m i res b v h w wrow now u x ib :
  settled_as c hash m i res b v h w wrow now u x ib ->
  wagers v !! i = Some (en_row x) /\ answers c hash (en_row x).
Proof.
  intros Hs. split; [apply (settled_stands _ _ _ _ _ _ _ _ _ _ _ _ _ _ Hs)|].
  rewrite (sd_row _ _ _ _ _ _ _ _ _ _ _ _ _ _ Hs), (sd_hash _ _ _ _ _ _ _ _ _ _ _ _ _ _ Hs).
  split; [unfold has_key; cbn; by rewrite !bool_decide_refl|done].
Qed.

(** The message of a new request had not been delivered. *)
Lemma settled_undelivered c hash d i res b v :
  settled c hash (Some d) i res b v -> inbox b !! (imConsumerName d, imMessageID d) = None.
Proof.
  intros (h & w & wrow & now & u & x & ib & Hs).
  pose proof (sp_inbox _ _ (sd_settleable _ _ _ _ _ _ _ _ _ _ _ _ _ _ Hs)) as Hin.
  pose proof (sd_inbox _ _ _ _ _ _ _ _ _ _ _ _ _ _ Hs) as Hc.
  destruct ib as [[[c1 k1] row]|]; [|done]. destruct Hc as (-> & -> & _). by eapply Hin.
Qed.

(** The commit completed the delivery [k] with [irow], for the request [c'], whose
    transaction it names. *)
Definition completes_for (c : Command) (m : option InboxMessage) (b v : Db) (k : string * string)
    (irow : inbox_row) (c' : Command) : Prop :=
  exists d hash i r, m = Some d /\ k = (imConsumerName d, imMessageID d) /\ inbox b !! k = None
    /\ inbox v !! k = Some irow /\ NormalizeCommand c = Ok c' /\ PayloadHash c' = Ok hash
    /\ ib_wager irow = Some i /\ Hex.decode (imPayloadHash d) = Some (ib_hash irow)
    /\ wagers v !! i = Some r /\ answers c' hash r.

Lemma process_completes c m b v k irow :
  process_spec c m b v -> inbox v !! k = Some irow ->
  inbox b !! k = Some irow \/ exists c', completes_for c m b v k irow c'.
Proof.
  intros [->|[(c' & hash & i & r & Hn & Hh & Hrd & Hi & Ha)|(c' & hash & i & res & Hn & Hh & Hs)]] Hk; [by left|..].
  - destruct m as [d|]; cbn in Hrd; [|subst; by left]. destruct Hrd as (row & Hnone & -> & Hw & _ & Hd).
    cbn in Hk. apply lookup_insert_Some in Hk as [[<- <-]|[_ Hk]]; [right|by left].
    exists c', d, hash, i, r. split_and!; try done. cbn. apply lookup_insert_eq.
  - destruct Hs as (h & w & wrow & now & u & x & ib & Hs). destruct (settled_answers _ _ _ _ _ _ _ _ _ _ _ _ _ _ Hs) as [Hi Ha].
    pose proof (sp_inbox _ _ (sd_settleable _ _ _ _ _ _ _ _ _ _ _ _ _ _ Hs)) as Hin.
    pose proof (sd_inbox _ _ _ _ _ _ _ _ _ _ _ _ _ _ Hs) as Hc. pose proof (sd_delivery _ _ _ _ _ _ _ _ _ _ _ _ _ _ Hs) as Hd.
    pose proof (sd_commit _ _ _ _ _ _ _ _ _ _ _ _ _ _ Hs) as Hv. rewrite Hv in Hk. cbn in Hk, Hin.
    destruct ib as [[[c1 k1] row]|]; [|by left]. destruct m as [d|]; [|done]. destruct Hc as (-> & -> & Hh').
    apply lookup_insert_Some in Hk as [[<- <-]|[_ Hk]]; [right|by left].
    destruct (Hin _ _ eq_refl) as [Hnone _]. exists c', d, hash, i, (en_row x).
    split_and!; try done; [|by eapply Hd]. rewrite Hv. cbn. apply lookup_insert_eq.
Qed.

Section process.
Context (C : Db -> Db -> Prop) (c : Command) (h : string) (m : option InboxMessage).
Context (Hnormal : normal c) (Hrange : Int64.in_range (minor (cMoney c))).
Context (Hreplay : forall i b v r, redelivers m i b v -> wagers b !! i = Some r -> answers c (Hex.encode h) r -> C b v).
Context (Hsame : forall b, C b b).
Context (Hsettle : forall i res b v, settled c (Hex.encode h) m i res b v -> C b v).
Local Notation hash := (Hex.encode h).
Local Notation reply := (fun res s' b' => exists bv, ss_done s' = Some bv /\ replied c hash m res bv b').

(** Answering from the transaction the identity names. *)
Lemma found_replies s b fi i r0 :
  begun s b fi -> reserved s b m fi -> known b i r0 -> answers c hash r0 ->
  wp C (commitReplay m (data_of i r0)) b s (post failed reply).
Proof using Hreplay.
  intros Hb Hres Hk Ha. eapply wp_post; [eapply commitReplay_triple; [exact Hb|exact Hres|exact Hk|]|].
  { intros b' v r Hr Hi (Hq & _). eapply Hreplay; [exact Hr|exact Hi|]. by eapply answers_grows. }
  intros [res|e] s' b' H; [|done]. by eapply replayed_replied.
Qed.

(** Completing the delivery, committing, replying. *)
Lemma settle_replies s0 b0 s b fi i w wrow now u x res :
  let d := new_wager_data c hash i (wallet_data_of w wrow) (wr_player wrow) now in
  let r := request_row c h w (wr_player wrow) now in
  applied s0 b0 w i wrow r fi d false u x res s b -> reserved s b m fi -> mine s b i ->
  in_memory i r d -> cWalletID c = ID_String w -> cPlayerID c = ID_String (wr_player wrow) ->
  wp C (map_err dbError (completeInbox m (rsTransactionID res));;;
        map_err dbError commit;;; ret res) b s (post failed reply).
Proof using Hsettle.
  intros d r Ha Hres Hm Hmem Hw Hp.
  assert (Hid : rsTransactionID res = ID_String i).
  { rewrite (ad_result _ _ _ _ _ _ _ _ _ _ _ _ _ _ Ha). unfold resultOf.
    destruct (ad_request _ _ _ _ _ _ _ _ _ _ _ _ _ _ Ha) as (-> & _).
    by destruct (Terminal _). }
  rewrite Hid. apply wp_seq_map; [exact _|].
  eapply wp_post; [eapply (completeInbox_triple (fun s b fi => holding s b w i wrow (en_pend x fi)));
    [apply (nd_holding _ _ _ _ _ _ _ (ad_ended _ _ _ _ _ _ _ _ _ _ _ _ _ _ Ha))|exact Hres|apply Hm]|].
  intros [tt'|e] s1 b1; [|done]. intros (ib & fi' & Hh1 & Ho1 & Hdl1 & Hcm). cbn [post].
  pose proof (applied_onward _ _ _ _ _ _ _ _ _ _ _ _ _ _ _ _ _ Ha Hh1 Ho1) as Ha1.
  pose proof (mine_onward _ _ _ _ _ Hm Ho1) as Hm1.
  apply wp_commit; [apply (ho_done _ _ _ _ _ _ Hh1)|apply (ho_live _ _ _ _ _ _ Hh1)|].
  intros b2 Hd2. change (depend (ss_locks s1) b1 b2) in Hd2.
  pose proof (applied_rely _ _ _ _ _ _ _ _ _ _ _ _ _ _ _ Ha1 Hd2) as Ha2.
  pose proof (delivered_rely _ _ _ _ _ _ Hdl1 Hd2) as Hdl2.
  destruct (mine_rely _ _ _ _ Hm1 Hd2) as (_ & (_ & Hnew & _) & _).
  pose proof (ad_ended _ _ _ _ _ _ _ _ _ _ _ _ _ _ Ha2) as He2.
  pose proof (nd_holding _ _ _ _ _ _ _ He2) as Hh2.
  assert (Hans : answers c hash (en_row x)).
  { rewrite (ad_row _ _ _ _ _ _ _ _ _ _ _ _ _ _ Ha).
    split; [unfold has_key; cbn; by rewrite !bool_decide_refl|done]. }
  assert (Hkey : no_row (has_key (cProviderID c) (cIdempotencyKey c)) (wagers b2)).
  { destruct (ho_origin _ _ _ _ _ _ Hh2) as [_ Ho]. rewrite Hnew in Ho.
    destruct Ho as (_ & _ & Hk & _). apply Hk, Hans. }
  assert (Hst : settled_as c hash m i res b2 (view b2 s1) h w wrow now u x ib)
    by by eapply new_request_settled.
  assert (Hs : settled c hash m i res b2 (view b2 s1)) by by eexists _, _, _, _, _, _, _.
  destruct (settlement_commits _ _ _ _ _ _ _ _ He2 Hdl2) as [Ht Hg].
  split_and!; [done|done|by eapply Hsettle|]. intros b3 Hd3. change (depend [] (view b2 s1) b3) in Hd3.
  eexists. split; [done|]. eapply replied_evolves; [apply (dp_evolves _ _ _ Hd3)|].
  exists i, (en_row x). split; [by eapply settled_stands|]. split.
  - intros m' Em. rewrite Em in Hcm. pose proof (sd_commit _ _ _ _ _ _ _ _ _ _ _ _ _ _ Hst) as ->.
    destruct ib as [[[k1 k2] irow]|]; [|done]. destruct Hcm as (-> & -> & Hh).
    destruct Hdl2 as (_ & _ & _ & Hw' & _). exists irow. cbn. by rewrite lookup_insert_eq.
  - rewrite (ad_result _ _ _ _ _ _ _ _ _ _ _ _ _ _ Ha) in Hs |- *.
    assert (Hrep : forall d w, rsIdempotentReplay (resultOf d w false) = false).
    { intros. unfold resultOf. by destruct (Terminal _). }
    by rewrite Hrep.
Qed.

Lemma process_new_triple s b fi :
  begun s b fi -> reserved s b m fi -> wp C (process_new c hash m) b s (post failed reply).
Proof using All.
  intros Hb Hres. unfold process_new.
  destruct (nm_wallet _ Hnormal) as (w & Hpw & Ew). pose proof (ParseID_nonzero _ _ Hpw) as Hwz.
  apply wp_seq_map; [exact _|]. rewrite Ew.
  eapply wp_post; [by apply (lockWallet_triple C s b fi w)|].
  intros [wd|e] s1 b1; [|done]. intros (wrow & -> & Hlk1 & Ho1). cbn [post].
  eapply reserved_onward in Hres; [|exact Ho1].
  pose proof (bg_done _ _ _ (lk_begun _ _ _ _ _ Hlk1)) as Hdone1.
  cbn [wPlayerID wallet_data_of].
  destruct (ID_String (wr_player wrow) != cPlayerID c) eqn:Ep; [apply wp_fail; [exact _|done]|].
  bools. symmetry in Ep.
  apply wp_seq_map; [exact _|].
  eapply wp_post; [by apply (allocateID_triple C (fun s b => locked s b w wrow fi))|].
  intros [i|e] s2 b2; [|done]. intros (Hlk2 & Hm2 & _ & Ho2). cbn [post].
  eapply reserved_onward in Hres; [|exact Ho2].
  pose proof (bg_done _ _ _ (lk_begun _ _ _ _ _ Hlk2)) as Hdone2.
  assert (Hpid : ParseID (cPlayerID c) = Ok (wr_player wrow)).
  { rewrite Ep. apply ParseID_String. apply (locked_wallet _ _ _ _ _ Hlk2). }
  rewrite Hpid. apply wp_now. intros now Hnow. change (1000 <= now) in Hnow.
  apply wp_lift; [exact _|done|]. intros wg Hwg. apply NewWager_Ok in Hwg as (Hv & Hk & _ & ->).
  eapply wp_insert_wager; [exact _|exact Hlk2|exact Hm2|exact Hnow|done|done|exact Ep|exact Hv|..].
  - (* another command took the identity *)
    intros b3 s3 Hlk3 Ho3. eapply reserved_onward in Hres; [|exact Ho3].
    apply wp_seq; [exact _|]. eapply wp_post; [apply (findIdentity_triple C s3 b3 fi c hash)|].
    + apply (lk_begun _ _ _ _ _ Hlk3).
    + pose proof (nm_texts _ Hnormal) as Ht. rewrite Forall_forall in Ht. apply Ht. set_solver.
    + intros [[d|]|e] s4 b4; [| |done]; intros (Hb4 & Ho4 & Hf); cbn [post].
      * destruct (Hf d eq_refl) as (j & r0 & -> & Hk4 & Ha4).
        eapply found_replies; [exact Hb4| |exact Hk4|exact Ha4]. by eapply reserved_onward.
      * apply wp_fail; [exact _|apply (bg_done _ _ _ Hb4)].
  - intros b3 s3 Hh3 _ Ho3. eapply reserved_onward in Hres; [|exact Ho3].
    pose proof (mine_onward _ _ _ _ _ Hm2 Ho3) as Hm3.
    apply wp_seq; [exact _|].
    pose proof (request_in_memory c h i (wallet_data_of w wrow) now Hv Hk Hnow) as Hmem.
    eapply wp_post; [by eapply apply_triple|].
    intros [res|e] s4 b4; [|done]. intros (u & x & Ha4). cbn [post].
    pose proof (ad_onward _ _ _ _ _ _ _ _ _ _ _ _ _ _ Ha4) as Ho4.
    eapply settle_replies; [exact Ha4|by eapply reserved_onward|by eapply mine_onward|exact Hmem|done|done].
Qed.
End process.

(** ** ProcessWager *)

Lemma hash_encoded c hash : PayloadHash c = Ok hash -> exists h, hash = Hex.encode h.
Proof. unfold PayloadHash. intros H. apply bind_Ok in H as (x & _ & [= <-]). by eexists. Qed.

Lemma fresh_begun b : consistent b -> begun fresh_sess b (fun i => i).
Proof. intros Hc. constructor; try done. intros b' _. by destruct b'. Qed.

Lemma ProcessWager_triple c m b :
  consistent b -> Int64.in_range (minor (cMoney c)) ->
  wp (process_spec c m) (ProcessWager c m) b fresh_sess
    (fun r s' b' => process_post c m r (ss_done s') b').
Proof.
  intros Hc Hrange. pose proof (fresh_begun b Hc) as Hb.
  eapply (wp_post _ _ _ _ (post failed (fun res s' b' => exists c' hash bv,
    NormalizeCommand c = Ok c' /\ PayloadHash c' = Ok hash /\ ss_done s' = Some bv
    /\ replied c' hash m res bv b'))); [|by intros [res|e] s' b'].
  unfold ProcessWager. apply wp_lift; [exact _|done|]. intros c' Hn.
  apply wp_lift; [exact _|done|]. intros hash Hh. destruct (hash_encoded _ _ Hh) as [h ->].
  pose proof (NormalizeCommand_inv _ _ Hn) as (Hnormal & player & wallet & _ & _ & Hc').
  assert (Hrange' : Int64.in_range (minor (cMoney c'))) by by rewrite Hc'.
  set (C := process_spec c m).
  assert (HC1 : forall i b v r, redelivers m i b v -> wagers b !! i = Some r -> answers c' (Hex.encode h) r -> C b v).
  { intros i b0 v r Hrd Hi Ha. right. left. exists c', (Hex.encode h), i, r. by split_and!. }
  assert (HC2 : forall b, C b b) by by left.
  assert (HC3 : forall i res b v, settled c' (Hex.encode h) m i res b v -> C b v).
  { intros. right. right. by eexists _, _, _, _. }
  begun_stmt Hb b1 cx r Hd1 Hr. begun_reads Hb. clear Hr Hd1 Hcx. change (sess_write _ _) with (sess_write fresh_sess (@reads unit tt)) in *.
  set (s1 := sess_write _ _) in *.
  (* the delivery *)
  apply wp_seq; [exact _|].
  assert (Htexts : cIdempotencyKey c' <> "" /\ cProviderID c' <> "").
  { pose proof (nm_texts _ Hnormal) as Ht. rewrite Forall_forall in Ht. split; apply Ht; set_solver. }
  eapply (wp_post _ _ _ _ (post quiet (fun existing s' b' =>
       (existing = "" /\ exists fi, begun s' b' fi /\ reserved s' b' m fi)
        \/ (begun s' b' (fun i => i) /\ exists i m', m = Some m' /\ existing = ID_String i
            /\ i <> zeroID /\ delivered_before b' m' i)))).
  { destruct m as [m'|].
    - eapply wp_post; [by apply (reserveInbox_triple C s1 b1 m')|].
      intros [ex|e] s2 b2; [|done]. intros (_ & [?|(Hb2 & i & ? & ? & ?)]); [by left|right].
      split; [done|]. by exists i, m'.
    - finish as b2 Hd2. left. split; [done|]. eexists. split; [by eapply begun_rely|done]. }
  intros [existing|e] s2 b2; [|done]. intros [(-> & fi & Hb2 & Hres2)|(Hb2 & i & m' & Em & -> & Hi & Hdel)];
    cbn [post].
  - rewrite bool_decide_refl. cbn [negb]. apply wp_seq; [exact _|].
    eapply wp_post; [apply (findIdentity_triple C s2 b2 fi c' (Hex.encode h)); [done|apply Htexts]|].
    intros [[d|]|e] s3 b3; [| |done]; intros (Hb3 & Ho3 & Hf); cbn [post].
    + destruct (Hf d eq_refl) as (j & r0 & -> & Hk3 & Ha3).
      eapply wp_post; [eapply (found_replies C); [exact HC1|exact Hb3| |exact Hk3|exact Ha3]|].
      * by eapply reserved_onward.
      * intros [res|e] s4 b4; [|done]. intros (bv & Hd4 & Hr4). by exists c', (Hex.encode h), bv.
    + eapply wp_post; [eapply (process_new_triple C); [done|done|exact HC1|exact HC2|exact HC3|exact Hb3|]|].
      * by eapply reserved_onward.
      * intros [res|e] s4 b4; [|done]. intros (bv & Hd4 & Hr4). by exists c', (Hex.encode h), bv.
  - rewrite bool_decide_neq by apply ID_String_nonempty. cbn [negb].
    eapply wp_post; [apply (inboxReplay_triple C c' s2 b2 i m'); [done|done|done|apply Htexts|done]|].
    intros [res|e] s4 b4; [|done].
    intros (r0 & (Hrep & (b0 & v & Hdone & Hred) & (row & Hst & (Hq & _)) & _) & Hdel4 & Hprov & Hbase).
    exists c', (Hex.encode h), (b0, v). split_and!; [done..|]. exists i, row. split; [done|].
    split; [intros m'' Em'; congruence|].
    rewrite Hrep. right. cbn in Hred. split_and!; [done|exists m'; split; [done|by eapply Hbase]|]. by rewrite Hq.
Qed.
