(* ===== verification/Opening.v ===== *)
(** * [CreateWallet]: its triple

    A wallet is created empty and, when it starts with money, settled at once
    by its opening transaction: one commit inserts the wallet, the transaction,
    the ledger entry and the events. *)

From S2P Require Import Prelude GoStd Codec Errors Ident Money Wallet Ledger Wager Evaluate.
From S2P Require Import Command Events Session Rules Database Sql Store Rows Books Settle Pending.
From S2P Require Import Reference Verdict Applying Emitting Delivering Processing.
Import Str.
#[local] Open Scope prog_scope.

(** ** An empty wallet *)

Definition new_row (player : ID) (currency : string) (balance now : Z) : wallet_row :=
  mkWalletRow player currency balance 1 (timestamptz now) (timestamptz now).

Definition open_db (w : ID) (row : wallet_row) (b : Db) : Db := set_wallets (<[w := row]>) b.

Section open.
Context (b : Db) (w player : ID) (currency : string) (now : Z).
Context (Hc : consistent b) (Hu : unused w b) (Hno : no_row (has_account player currency) (wallets b)).
Local Notation row := (new_row player currency 0 now).

Lemma no_entries : entries w b = [].
Proof using Hc Hu.
  unfold entries. apply elem_of_nil_inv. intros e He. apply list_elem_of_filter in He as [Hw He].
  destruct (cs_ledger _ Hc e He) as (_ & _ & (r & Hr & _)). destruct Hu as (Hn & _). congruence.
Qed.

Lemma open_consistent : wallet_ok (wallet_data_of w row) -> consistent (open_db w row b).
Proof using Hc Hu Hno.
  intros Hok. destruct Hu as (Hn & Hng & _).
  assert (Hlook : forall v r, wallets (open_db w row b) !! v = Some r ->
    (v = w /\ r = row) \/ (v <> w /\ wallets b !! v = Some r)).
  { intros v r. cbn. destruct (decide (v = w)) as [->|Hne].
    - rewrite lookup_insert_eq. intros [= <-]. by left.
    - rewrite lookup_insert_ne by done. by right. }
  assert (Hkeep : forall v r, wallets b !! v = Some r -> wallets (open_db w row b) !! v = Some r).
  { intros v r Hv. cbn. rewrite lookup_insert_ne; [done|]. congruence. }
  constructor; try apply Hc.
  - intros v r Hv. destruct (Hlook _ _ Hv) as [[-> ->]|[_ Hv0]]; [|by apply (cs_wallet _ Hc)].
    split; [done|]. change (entries w (open_db w row b)) with (entries w b). rewrite no_entries.
    split; [done|]. apply timestamptz_idem.
  - intros v v' r r' Hv Hv' Hp Hcur.
    assert (Hf : forall v r, wallets b !! v = Some r -> wr_player r = player -> wr_currency r = currency -> False).
    { intros u ru Hru E1 E2. specialize (Hno u ru Hru). unfold has_account in Hno.
      by rewrite E1, E2, !bool_decide_refl in Hno. }
    destruct (Hlook _ _ Hv) as [[-> ->]|[_ Hv0]], (Hlook _ _ Hv') as [[-> ->]|[_ Hv0']].
    + done.
    + by destruct (Hf v' r').
    + by destruct (Hf v r).
    + by eapply (cs_account _ Hc v v').
  - intros i r Hi. destruct (cs_owner _ Hc _ _ Hi) as (w0 & Hw0 & Hp). exists w0. split; [by apply Hkeep|done].
  - intros e He. destruct (cs_ledger _ Hc e He) as (Hk & Hr & (w0 & Hw0 & Hcur)).
    split_and!; [done|done|]. exists w0. split; [by apply Hkeep|done].
Qed.

Lemma open_evolves r : evolves b (open_db w r b).
Proof using Hu.
  destruct Hu as (Hn & _). constructor; try reflexivity. intros v rv Hv. exists rv.
  split; [|reflexivity]. cbn. rewrite lookup_insert_ne; [done|]. congruence.
Qed.

Lemma open_protected (L : list lock) balance :
  LWallet w ∈ L -> LId w ∈ L -> LAccount player currency ∈ L ->
  protected (fun l => l ∉ L) b (open_db w (new_row player currency balance now) b).
Proof using Hu. clear Hno.
  intros Hlw Hlid Hla. constructor; try done.
  - intros v Hv. split_and!; [|done..]. cbn. rewrite lookup_insert_ne; [done|]. by intros ->.
  - intros i Hi (H1 & H2 & H3 & H4). split_and!; [|done..]. cbn.
    rewrite lookup_insert_ne; [done|]. by intros ->.
  - intros p c Hp Hnone v r Hv. cbn in Hv. destruct (decide (v = w)) as [->|Hne].
    + rewrite lookup_insert_eq in Hv. injection Hv as <-. unfold has_account. cbn.
      destruct (_ && _) eqn:E; [|done]. bools. subst. by destruct Hp.
    + rewrite lookup_insert_ne in Hv by done. by eapply Hnone.
Qed.
End open.

(** ** A creation in progress *)

Record creation : Type := mkCreation {
  cp_row : wallet_row;
  cp_opening : option (ID * wager_row);
  cp_entry : option ledger_row;
  cp_events : list (ID * outbox_row)
}.

Definition create_db (w : ID) (p : creation) (b : Db) : Db :=
  mkDb (<[w := cp_row p]> (wallets b))
    (match cp_opening p with Some (i, r) => <[i := r]> (wagers b) | None => wagers b end)
    (ledger b ++ match cp_entry p with Some e => [e] | None => [] end)
    (inbox b) (insert_events (cp_events p) (outbox b)).

(** A deferred trigger that passes once the opening transaction is in. *)
Definition agrees (op : option (ID * wager_row)) (g : Db -> bool) : Prop :=
  forall d, consistent d -> (forall i r, op = Some (i, r) -> is_Some (wagers d !! i)) -> g d = true.

Record creating (w : ID) (p : creation) (s : sess Db lock) (b : Db) : Prop := {
  cr_live : ss_live s = true;
  cr_done : ss_done s = None;
  cr_consistent : consistent b;
  cr_mine : mine s b w;
  cr_lock : LWallet w ∈ ss_locks s;
  cr_account : LAccount (wr_player (cp_row p)) (wr_currency (cp_row p)) ∈ ss_locks s;
  cr_new : no_row (has_account (wr_player (cp_row p)) (wr_currency (cp_row p))) (wallets b);
  cr_opening : match cp_opening p with
    | Some (i, _) => mine s b i /\ LWager i ∈ ss_locks s
    | None => True
    end;
  cr_deferred : Forall (agrees (cp_opening p)) (ss_deferred s);
  cr_view : forall b', depend (ss_locks s) b b' -> view b' s = create_db w p b'
}.

Lemma creating_rely w p s b b' : creating w p s b -> depend (ss_locks s) b b' -> creating w p s b'.
Proof.
  intros [H1 H2 H3 H4 H5 H6 H7 H8 H9 H10] Hd. constructor; try done.
  - by apply (dp_consistent _ _ _ Hd).
  - by eapply mine_rely.
  - by apply (pt_account _ _ _ (dp_protected _ _ _ Hd)).
  - destruct (cp_opening p) as [[i r]|]; [|done]. destruct H8. split; [by eapply mine_rely|done].
  - intros b'' Hd'. apply H10. by eapply depend_trans.
Qed.

Lemma creating_view w p s b : creating w p s b -> view b s = create_db w p b.
Proof. intros H. apply (cr_view _ _ _ _ H), depend_refl. Qed.

(** A statement whose effect on the view turns the pending rows [p] into [p']. *)
Lemma creating_write {R} w p p' s b (o : outcome Db lock R) :
  creating w p s b -> cp_row p' = cp_row p ->
  (forall i r, cp_opening p = Some (i, r) -> cp_opening p' = Some (i, r)) ->
  match cp_opening p' with
  | Some (i, _) => mine s b i /\ LWager i ∈ ss_locks (sess_write s o)
  | None => True
  end ->
  Forall (agrees (cp_opening p')) (out_deferred o) ->
  (forall b', out_write o (create_db w p b') = create_db w p' b') ->
  creating w p' (sess_write s o) b.
Proof.
  intros [H1 H2 H3 H4 H5 H6 H7 H8 H9 H10] Hrow Hop Hmine Hdf Hout. constructor; try done.
  - by apply mine_write.
  - by apply locks_write.
  - rewrite Hrow. by apply locks_write.
  - by rewrite Hrow.
  - destruct (cp_opening p') as [[i r]|]; [|done]. destruct Hmine. split; [by apply mine_write|done].
  - cbn. apply Forall_app. split; [|done]. eapply Forall_impl; [exact H9|]. cbn.
    intros g Hg d Hc Hin. apply Hg; [done|]. eauto.
  - intros b' Hd. rewrite view_write. apply depend_write in Hd. by rewrite H10.
Qed.

Lemma creating_opening_kept w p s b {R} (o : outcome Db lock R) :
  creating w p s b ->
  match cp_opening p with
  | Some (i, _) => mine s b i /\ LWager i ∈ ss_locks (sess_write s o)
  | None => True
  end.
Proof.
  intros H. pose proof (cr_opening _ _ _ _ H) as Ho. destruct (cp_opening p) as [[i r]|]; [|done].
  destruct Ho. split; [done|]. by apply locks_write.
Qed.

#[global] Instance creating_knows w p : Knows (creating w p).
Proof.
  constructor; intros *.
  - by intros [].
  - by intros [].
  - apply creating_rely.
  - intros H [Hw Hdf]. eapply creating_write; [exact H|done|done| |by rewrite Hdf|auto].
    by eapply creating_opening_kept.
  - intros H. rewrite (creating_view _ _ _ _ H). intros (Hw & Hg & Ho & Hl). cbn in *. split_and!.
    + by apply lookup_insert_None in Hw as [? _].
    + destruct (cp_opening p) as [[j r]|]; [|done]. by apply lookup_insert_None in Hg as [? _].
    + by apply insert_events_none in Ho.
    + rewrite fmap_app in Hl. intros Hin. apply Hl, elem_of_app. by left.
Qed.

Definition created (w : ID) (row : wallet_row) (op : option (ID * wager_row)) (e : option ledger_row)
    (evs : list (ID * outbox_row)) : sess Db lock -> Db -> Prop :=
  creating w (mkCreation row op e evs).

#[global] Instance created_emits w row op e : Emits (created w row op e).
Proof.
  constructor; [intros; apply creating_knows|]. intros evs s b y u l H.
  eapply creating_write; [exact H|done|done|by eapply (creating_opening_kept _ _ _ _ _ H)|done|].
  intros b'. unfold create_db, set_outbox. cbn. by rewrite insert_events_snoc.
Qed.
#[global] Instance created_instance w row op e evs : Knows (created w row op e evs).
Proof. apply creating_knows. Qed.

Lemma created_entry {R} w row i r s b e (u : R) :
  created w row (Some (i, r)) None [] s b ->
  created w row (Some (i, r)) (Some e) []
    (sess_write s (writes u (set_ledger (fun l => l ++ [e])) [] [verify_wager_ledger i])) b.
Proof.
  intros H. eapply creating_write; [exact H|done|done|by apply (creating_opening_kept _ _ _ _ _ H)| |].
  - apply Forall_singleton. intros d Hc Hin. destruct (Hin i r eq_refl) as [r0 Hr0].
    by eapply consistent_verify.
  - intros b'. unfold create_db, set_ledger. cbn. by rewrite List.app_nil_r.
Qed.

(** ** The statements *)

Lemma wp_insert_wallet {B} C E `{!Tolerant E} (P : B -> sess Db lock -> Db -> Prop)
    s b w player cur balance now k :
  begun s b (fun i => i) -> mine s b w ->
  (forall b' s' u, created w (new_row player cur balance now) None None [] s' b' ->
     onward s b s' b' -> wp C (k u) b' s' (post E P)) ->
  wp C (andThen (map_err dbError (exec (insert_wallet w player cur balance now))) k) b s (post E P).
Proof.
  intros Hb Hm H. begun_stmt Hb b1 cx r Hd1 Hr. apply (mine_rely _ _ b1) in Hm; [|exact Hd1].
  unfold insert_wallet in *.
  change (mkWalletRow player cur balance 1 _ _) with (new_row player cur balance now) in *.
  cbv zeta in Hr |- *. passed Hr. rewrite T, T0, T1. cbn [wallets set_inbox] in *.
  rewrite is_some_None in T1.
  apply H; [|by eapply onward_write]. constructor; cbn [cp_row cp_opening cp_entry cp_events].
  - apply (bg_live _ _ _ Hb).
  - apply (bg_done _ _ _ Hb).
  - apply (bg_consistent _ _ _ Hb).
  - by apply mine_write.
  - cbn. apply elem_of_app. right. apply list_elem_of_here.
  - cbn. apply elem_of_app. right. right. apply list_elem_of_here.
  - exact (proj1 (find_row_None _ _) T1).
  - done.
  - cbn. rewrite List.app_nil_r. eapply Forall_impl; [apply (bg_deferred _ _ _ Hb)|].
    intros g Hg d Hc _. by apply Hg.
  - intros b2 Hd2. rewrite view_write. apply depend_write in Hd2. rewrite (bg_view _ _ _ Hb) by done.
    unfold create_db. cbn. by rewrite List.app_nil_r.
Qed.

(** ** The opening transaction *)

Section opening.
Context (s : sess Db lock) (b : Db) (w tid player lid : ID) (cur corr : string) (n now clock : Z).
Context (evs : list (ID * outbox_row)).
Local Notation empty_row := (new_row player cur 0 now).
Local Notation row := (new_row player cur n now).
Local Notation r := (opening_row w player n cur corr now).
Local Notation e := (mkLedgerRow lid w tid DirectionCredit n cur 0 n clock).
Local Notation p := (mkCreation row (Some (tid, r)) (Some e) evs).
Local Notation st := (mkSettlement tid r (Some (row, e)) evs None).
Context (Hcr : creating w p s b) (Hlid : mine s b lid) (Hev : emitted s b evs).
Context (Hnt : notices tid r (Some e) evs) (Hok : wallet_ok (wallet_data_of w row)).
Context (Hr : row_ok tid r) (Hck : ledger_checks e = true).

Lemma create_settles : create_db w p b = settle_db st (open_db w empty_row b).
Proof using. unfold create_db, settle_db, open_db. cbn. by rewrite insert_insert_eq. Qed.

Lemma empty_ok : wallet_ok (wallet_data_of w empty_row).
Proof using Hok. destruct Hok as [? ? [? ?] ? ? ? ?]. by constructor. Qed.

Lemma opening_settleable : settleable (open_db w empty_row b) st.
Proof using All.
  destruct Hev as [Hf Hnd]. pose proof (cr_opening _ _ _ _ Hcr) as [Hmt Hlt]. cbn in Hmt.
  destruct Hmt as (_ & (_ & Hnew & _) & _).
  assert (exists y z, evs = [y; z] /\ event_of tid r y /\ entry_event_of e z) as (y & z & Ev & Hy & Hz).
  { unfold notices in Hnt. destruct evs as [|y [|z [|]]]; try done. by exists y, z. }
  assert (Hpend : forall y, y ∈ st_events st -> outbox (settle_db st (open_db w empty_row b)) !! y.1 = Some y.2).
  { intros u Hu. cbn [outbox settle_db]. apply insert_events_new; [by destruct u|done]. }
  constructor; cbn [st_id st_row st_moved st_events st_inbox] in *; try done.
  - exists empty_row. cbn. by rewrite lookup_insert_eq.
  - cbn. by rewrite Hnew.
  - constructor; try done.
    + apply Hlid.
    + exists empty_row. change (wallet_of r) with w. cbn [open_db set_wallets wallets].
      rewrite lookup_insert_eq. split; [done|]. split; [|done]. by unfold wallet_grows.
  - eapply Forall_impl; [exact Hf|]. cbn. intros u ((_ & Hu & _) & _ & Hp). split; [by apply Hu|done].
  - exists y.1, y.2. rewrite Hpend; [by destruct y|]. cbn. rewrite Ev. apply list_elem_of_here.
  - intros w' e' [= <- <-]. exists z.1, z.2. rewrite Hpend; [by destruct z|].
    cbn. rewrite Ev. right. apply list_elem_of_here.
Qed.

Lemma opening_covers : covers (ss_locks s) (open_db w empty_row b) st.
Proof using Hcr Hlid Hev.
  pose proof (cr_opening _ _ _ _ Hcr) as [Hmt Hlt]. cbn in Hmt.
  constructor; cbn [st_id st_row st_moved st_events st_inbox].
  - apply (cr_lock _ _ _ _ Hcr).
  - done.
  - intros _. split_and!; [apply Hmt|done|done].
  - intros w' e' [= <- <-]. apply Hlid.
  - eapply Forall_impl; [apply Hev|]. cbn. by intros u ((Hl & _) & ? & _).
  - done.
Qed.
End opening.

(** A guarantee over both steps of a creation. *)
Lemma guar_open L b b1 d : consistent b1 ->
  protected (fun l => l ∉ L) b b1 -> evolves b b1 -> guar L b1 d -> guar L b d.
Proof.
  intros Hc Hp He Hg L' Hap. eapply depend_trans; [|by apply Hg].
  constructor; [|done|done]. eapply protected_mono; [|done]. cbn. intros l Hl' Hl. by apply (Hap l).
Qed.

(** ** CreateWallet *)

(** The commit created the wallet [w]: empty, or opened by a transaction that
    settles the initial balance. *)
Record creates_as (c : CreateWalletCommand) (b v : Db) (w player : ID) (now : Z) : Prop := {
  ct_new : unused w b;
  ct_player : ParseID (cwPlayerID c) = Ok player;
  ct_account : no_row (has_account player (currency (cwInitialBalance c))) (wallets b);
  ct_row : wallets v !! w
    = Some (new_row player (currency (cwInitialBalance c)) (minor (cwInitialBalance c)) now);
  ct_commit :
    let empty := open_db w (new_row player (currency (cwInitialBalance c)) 0 now) b in
    (minor (cwInitialBalance c) = 0 /\ v = empty)
    \/ exists x, settleable empty x /\ v = settle_db x empty
       /\ st_inbox x = None /\ exists corr, st_row x = opening_row w player (minor (cwInitialBalance c)) (currency (cwInitialBalance c)) corr now
}.

Definition creates (c : CreateWalletCommand) (b v : Db) : Prop :=
  exists w player now, creates_as c b v w player now.

(** What the reply says of the books, from then on. *)
Definition create_post (c : CreateWalletCommand) (r : res WalletView) (commit : option (Db * Db))
    (d : Db) : Prop :=
  match r with
  | Err e => commit = None \/ Code e = "UNAVAILABLE"
  | Ok view => exists b v w player now row,
      commit = Some (b, v) /\ creates_as c b v w player now
      /\ view = mkWalletView (ID_String w) (ID_String player) (cwInitialBalance c) 1 now now
      /\ wallets d !! w = Some row
      /\ wallet_grows (new_row player (currency (cwInitialBalance c)) (minor (cwInitialBalance c)) now) row
  end.

Lemma create_post_evolves c r cm d d' : evolves d d' -> create_post c r cm d -> create_post c r cm d'.
Proof.
  intros He. destruct r as [view|e]; [|done]. intros (b & v & w & player & now & row & H1 & H2 & H3 & H4 & H5).
  destruct (ev_wallets _ _ He _ _ H4) as (row' & H4' & Hg).
  exists b, v, w, player, now, row'. split_and!; try done. by etrans.
Qed.

Lemma NewWallet_Ok d w : NewWallet d = Ok w -> wallet_ranged d ->
  w = mkWallet d /\ wallet_ok d /\ wVersion d = 1.
Proof.
  unfold NewWallet, RehydrateWallet. intros H Hr. apply guard_else_Ok in H as [Hv H].
  rewrite negb_false_iff, Z.eqb_eq in Hv. apply seq_Ok in H as [Hok [= <-]].
  by apply validateWallet_ok in Hok.
Qed.

Section create.
Context (C : Db -> Db -> Prop) (c : CreateWalletCommand) (player : ID).
Local Notation cur := (currency (cwInitialBalance c)).
Local Notation n := (minor (cwInitialBalance c)).
Context (Hplayer : ParseID (cwPlayerID c) = Ok player) (Hrange : Int64.in_range n).
Context (Hcreates : forall b v, creates c b v -> C b v).

(** The row of the opening transaction. *)
Lemma opening_row_ok tid w corr now wg wg' :
  NewOpening (mkWagerData tid w player "" "" "" "" "" "" KindOpening (cwInitialBalance c) "" zeroID
    StatusPending "" Money0 0 now now None) = Ok wg ->
  Process (Some wg) (cwInitialBalance c) 1 zeroID now = Ok wg' -> 1000 <= now ->
  row_ok tid (opening_row w player n cur corr now)
  /\ data_of tid (opening_row w player n cur corr now) = stored (wager_Snapshot wg')
  /\ wgID (wager_Snapshot wg') = tid /\ wgWalletID (wager_Snapshot wg') = w
  /\ wgMoney (wager_Snapshot wg') = cwInitialBalance c.
Proof using Hrange.
  intros Hn Hp Hnow. apply NewOpening_Ok in Hn as (_ & _ & _ & ->).
  apply (settled_by _ now _ wg' StatusProcessed "" (cwInitialBalance c) 1 zeroID) in Hp as (-> & Hv & _);
    [|done]. cbn [wager_Snapshot cloneWager wager_data].
  assert (Hdat : data_of tid (opening_row w player n cur corr now)
    = stored (settle (mkWagerData tid w player "" "" "" "" "" "" KindOpening (cwInitialBalance c) ""
        zeroID StatusPending "" Money0 0 now now None) StatusProcessed "" (cwInitialBalance c) 1 zeroID now)).
  { unfold data_of, stored, settle. cbn. by destruct (cwInitialBalance c). }
  split_and!; try done. constructor; cbn; try done.
  - rewrite Hdat. by apply stored_valid.
  - by eexists _, _, _.
  - split; [apply timestamptz_idem|by apply timestamptz_pos].
Qed.

Lemma wp_insert_opening {B} E `{!Tolerant E} (P : B -> sess Db lock -> Db -> Prop)
    s b w tid corr now k :
  created w (new_row player cur n now) None None [] s b -> mine s b tid ->
  (forall b' s' u, created w (new_row player cur n now)
       (Some (tid, opening_row w player n cur corr now)) None [] s' b' ->
     onward s b s' b' -> wp C (k u) b' s' (post E P)) ->
  wp C (andThen (map_err dbError (exec (insert_opening tid w player n cur corr now))) k) b s (post E P).
Proof using.
  intros Hcr Hm H. pose proof (cr_live _ _ _ _ Hcr) as Hlive. pose proof (cr_done _ _ _ _ Hcr) as Hdone.
  run_stmt as b1 cx u Hd1 Hcx Hr. apply (creating_rely _ _ _ _ b1) in Hcr; [|exact Hd1].
  apply (mine_rely _ _ b1) in Hm; [|exact Hd1]. unfold insert_opening in *.
  cbv zeta in Hr |- *. passed Hr. rewrite T, T0, T1, T2, T3.
  apply H; [|by eapply onward_write]. eapply creating_write; [exact Hcr|done|done|..].
  - cbn. split; [done|]. apply elem_of_app. right. apply list_elem_of_here.
  - apply Forall_singleton. intros d Hc Hin. destruct (Hin tid _ eq_refl) as [r0 Hr0].
    by eapply consistent_verify.
  - done.
Qed.

(** What the opening leaves pending, ready to commit. *)
Definition opened (w : ID) (now : Z) (s : sess Db lock) (b : Db) : Prop :=
  exists tid lid corr clock evs,
    let r := opening_row w player n cur corr now in
    let e := mkLedgerRow lid w tid DirectionCredit n cur 0 n clock in
    creating w (mkCreation (new_row player cur n now) (Some (tid, r)) (Some e) evs) s b
    /\ mine s b lid /\ emitted s b evs /\ notices tid r (Some e) evs /\ row_ok tid r
    /\ ledger_checks e = true.

(** What is pending when the commit is reached. *)
Definition created_now (w : ID) (now : Z) (s : sess Db lock) (b : Db) : Prop :=
  (n = 0 /\ created w (new_row player cur n now) None None [] s b) \/ opened w now s b.

Lemma opened_rely w now s b b' : opened w now s b -> depend (ss_locks s) b b' -> opened w now s b'.
Proof using.
  intros (tid & lid & corr & clock & evs & H1 & H2 & H3 & H4 & H5 & H6) Hd.
  exists tid, lid, corr, clock, evs. split_and!; try done.
  - by eapply creating_rely.
  - by eapply mine_rely.
  - eapply emitted_onward; [exact H3|]. by apply onward_depend.
Qed.

Lemma create_opening_triple s b w wl now :
  created w (new_row player cur n now) None None [] s b -> 1000 <= now ->
  wp C (create_opening c w player wl now) b s (post quiet (fun _ s' b' => opened w now s' b')).
Proof using Hrange.
  intros Hcr Hnow. unfold create_opening. cbv zeta.
  apply wp_seq_map; [exact _|].
  eapply wp_post; [by apply (allocateID_triple C (created w (new_row player cur n now) None None []))|].
  intros [tid|e] s1 b1; [|done]. intros (Hcr1 & Hm1 & _ & _). cbn [post].
  pose proof (cr_done _ _ _ _ Hcr1) as Hdone1.
  apply wp_lift; [exact _|done|]. intros wg Hwg. apply wp_lift; [exact _|done|]. intros wg' Hwg'.
  set (corr := corr_or _ _).
  destruct (opening_row_ok tid w corr now wg wg' Hwg Hwg' Hnow) as (Hrow & Hdat & Hid & Hw & Hmoney).
  eapply wp_insert_opening; [exact _|exact Hcr1|exact Hm1|]. intros b2 s2 u Hcr2 Ho2.
  pose proof (cr_done _ _ _ _ Hcr2) as Hdone2. apply wp_lift; [exact _|done|].
  intros zero Hzero. apply NewMoney_Ok in Hzero as [_ ->].
  apply wp_seq_map; [exact _|].
  eapply wp_post; [apply (insertLedger_triple
    (created w (new_row player cur n now) (Some (tid, opening_row w player n cur corr now)) None [])
    (fun e => created w (new_row player cur n now) (Some (tid, opening_row w player n cur corr now)) (Some e) []));
    [intros; rewrite Hid; by apply created_entry|exact Hcr2]|].
  intros [entry|er] s3 b3; [|done]. intros (e & Hcr3 & Hck & Hm3 & Ho3 & -> & He). cbn [post].
  rewrite Hid, Hw, Hmoney in *. destruct e as [lid ? ? ? ? ? ? ? clock]. cbn in He.
  injection He as -> -> -> -> -> -> ->.
  set (e := mkLedgerRow _ _ _ _ _ _ _ _ _) in *.
  assert (Hentry : mkLedgerData (lr_id e) w tid DirectionCredit (cwInitialBalance c) (mkMoney 0 cur)
    (cwInitialBalance c) (lr_created e) = entry_data e).
  { unfold entry_data, e. cbn. by destruct (cwInitialBalance c). }
  rewrite Hentry. change (Some (entry_data e)) with (entry_data <$> Some e).
  apply wp_map_tail.
  eapply wp_post; [by eapply (writeEvents_triple (created w (new_row player cur n now)
    (Some (tid, opening_row w player n cur corr now)) (Some e)) C s3 b3 tid _ (Some e))|].
  intros [u'|er] s4 b4; [|done]. intros (evs & Hn & Hcr4 & Hev & Ho4).
  exists tid, lid, corr, clock, evs. split_and!; try done. by eapply mine_onward.
Qed.

(** The commit of a creation, and what the reply says from then on. *)
Lemma creation_commits w now s b v :
  created_now w now s b -> wallet_ok (wallet_data_of w (new_row player cur n now)) ->
  v = view b s ->
  triggers_pass s v = true /\ guar (ss_locks s) b v /\ creates_as c b v w player now.
Proof using Hplayer.
  intros Hcn Hok ->.
  assert (exists p, creating w p s b /\ cp_row p = new_row player cur n now) as (p & Hcr & Hrow).
  { destruct Hcn as [[_ H]|(tid & lid & corr & clock & evs & H & _)]; eexists; (split; [exact H|done]). }
  pose proof (cr_consistent _ _ _ _ Hcr) as Hc.
  destruct (cr_mine _ _ _ _ Hcr) as (Hlid & Hu & _). pose proof (cr_lock _ _ _ _ Hcr) as Hlw.
  pose proof (cr_account _ _ _ _ Hcr) as Hla. pose proof (cr_new _ _ _ _ Hcr) as Hno.
  rewrite Hrow in Hla, Hno. cbn in Hla, Hno.
  set (empty := open_db w (new_row player cur 0 now) b).
  assert (Hoc : consistent empty).
  { apply open_consistent; try done. by apply (empty_ok w player cur n now). }
  pose proof (open_evolves b w Hu (new_row player cur 0 now)) as Hoe.
  pose proof (open_protected b w player cur now Hu (ss_locks s) 0 Hlw Hlid Hla) as Hop.
  (* either commit keeps the books *)
  assert (Hend : forall p d, creating w p s b -> view b s = d -> consistent d ->
    guar (ss_locks s) empty d ->
    (forall i r, cp_opening p = Some (i, r) -> is_Some (wagers d !! i)) ->
    triggers_pass s (view b s) = true /\ guar (ss_locks s) b (view b s)).
  { clear p Hcr Hrow. intros p d Hcr -> Hcd Hg Hin. split; [|by apply (guar_open _ _ empty)].
    pose proof (cr_deferred _ _ _ _ Hcr) as Hdf.
    unfold triggers_pass. apply forallb_forall. intros g Hg'. rewrite <- list_elem_of_In in Hg'.
    rewrite Forall_forall in Hdf. by apply (Hdf g Hg'). }
  destruct Hcn as [[Hn H]|(tid & lid & corr & clock & evs & H & Hl & Hev & Hnt & Hr & Hck)].
  - (* an empty wallet *)
    assert (Hv : view b s = empty).
    { rewrite (creating_view _ _ _ _ H). unfold create_db, empty, open_db, set_wallets. cbn.
      by rewrite List.app_nil_r, Hn. }
    destruct (Hend _ empty H Hv Hoc) as [Ht Hg]; [intros L' _; apply depend_refl|done|].
    split_and!; [done|done|]. constructor; [done|done|done| |by left].
    rewrite Hv. cbn. by rewrite lookup_insert_eq, Hn.
  - set (st := mkSettlement tid (opening_row w player n cur corr now)
      (Some (new_row player cur n now, mkLedgerRow lid w tid DirectionCredit n cur 0 n clock)) evs None).
    assert (Hst : settleable empty st) by by eapply opening_settleable.
    assert (Hv : view b s = settle_db st empty).
    { rewrite (creating_view _ _ _ _ H). apply create_settles. }
    destruct (Hend _ _ H Hv) as [Ht Hg].
    + by apply settle_consistent.
    + apply settle_guar; [done|]. by eapply opening_covers.
    + intros i r [= <- <-]. cbn. rewrite lookup_insert_eq. by eexists.
    + split_and!; [done|done|]. constructor; [done|done|done| |right; exists st; split_and!; [done..|by exists corr]].
      rewrite Hv. cbn. by rewrite lookup_insert_eq.
Qed.

Lemma created_now_rely w now s b b' :
  created_now w now s b -> depend (ss_locks s) b b' -> created_now w now s b'.
Proof using.
  intros [[Hn H]|H] Hd; [left|right; by eapply opened_rely]. split; [done|]. by eapply creating_rely.
Qed.

Lemma create_commit_triple s b w now view :
  created_now w now s b -> wallet_ok (wallet_data_of w (new_row player cur n now)) ->
  view = mkWalletView (ID_String w) (ID_String player) (cwInitialBalance c) 1 now now ->
  wp C (map_err dbError commit;;; ret view) b s
    (post failed (fun view s' b' => create_post c (Ok view) (ss_done s') b')).
Proof using All.
  intros Hcn Hok Hview.
  assert (exists p, creating w p s b) as [p Hcr].
  { destruct Hcn as [[_ H]|(tid & lid & corr & clock & evs & H & _)]; eexists; exact H. }
  apply wp_commit; [apply (cr_done _ _ _ _ Hcr)|apply (cr_live _ _ _ _ Hcr)|].
  intros b1 Hd1. change (depend (ss_locks s) b b1) in Hd1.
  pose proof (created_now_rely _ _ _ _ _ Hcn Hd1) as Hcn1.
  destruct (creation_commits _ _ _ _ _ Hcn1 Hok eq_refl) as (Ht & Hg & Hcs).
  split_and!; [done|done|apply Hcreates; by eexists _, _, _|].
  intros b2 Hd2. change (depend [] (Session.view b1 s) b2) in Hd2.
  eapply create_post_evolves; [apply (dp_evolves _ _ _ Hd2)|].
  eexists _, _, w, player, now, _. split_and!; [done|exact Hcs|done| |reflexivity].
  apply (ct_row _ _ _ _ _ _ Hcs).
Qed.
End create.

Lemma CreateWallet_triple c b :
  consistent b -> Int64.in_range (minor (cwInitialBalance c)) ->
  wp (creates c) (CreateWallet c) b fresh_sess
    (fun r s' b' => create_post c r (ss_done s') b').
Proof.
  intros Hc Hrange. pose proof (fresh_begun b Hc) as Hb.
  eapply (wp_post _ _ _ _ (post failed (fun view s' b' => create_post c (Ok view) (ss_done s') b')));
    [|by intros [res|e] s' b'].
  unfold CreateWallet. apply wp_lift; [exact _|done|]. intros player Hplayer.
  apply wp_lift; [exact _|done|]. intros _ _.
  begun_stmt Hb b1 cx r Hd1 Hr. begun_reads Hb. clear Hr Hd1 Hcx.
  apply wp_seq_map; [exact _|].
  eapply wp_post; [by apply (allocateID_triple _ (fun s b => begun s b (fun i => i)))|].
  intros [w|e] s2 b2; [|done]. intros (Hb2 & Hm2 & _ & _). cbn [post].
  apply wp_now. intros now Hnow. change (1000 <= now) in Hnow.
  pose proof (bg_done _ _ _ Hb2) as Hdone2. apply wp_lift; [exact _|done|]. intros wl Hwl.
  apply NewWallet_Ok in Hwl as (-> & Hok & _); [|by split; [|vm_compute; split]].
  assert (Hok' : wallet_ok (wallet_data_of w
    (new_row player (currency (cwInitialBalance c)) (minor (cwInitialBalance c)) now))).
  { destruct Hok as [? ? Hv ? ? ? ?]. constructor; cbn in *; try done.
    pose proof (timestamptz_pos _ Hnow). lia. }
  eapply wp_insert_wallet; [exact _|exact Hb2|exact Hm2|]. intros b3 s3 u Hcr3 _.
  pose proof (cr_done _ _ _ _ Hcr3) as Hdone3.
  apply wp_seq; [exact _|].
  eapply (wp_post _ _ _ _ (post quiet (fun _ s' b' => created_now c player w now s' b'))).
  - destruct (0 <? minor (cwInitialBalance c)) eqn:En; bools.
    + eapply wp_post; [by apply create_opening_triple|]. intros [u'|e] s' b'; [|done]. by right.
    + finish as b4 Hd4. left. split; [|by eapply creating_rely].
      pose proof (wok_nonneg _ Hok). cbn in *. lia.
  - intros [u'|e] s4 b4; [|done]. intros Hcn. cbn [post].
    eapply create_commit_triple; [exact Hplayer|done|done|exact Hcn|exact Hok'|done].
Qed.

