(* ===== verification/Reading.v ===== *)
(** * Reads: the triples of [GetWallet], [GetTransaction] and
    [GetExternalTransaction]

    A read answers from committed rows and commits nothing; what it says of a
    terminal transaction stays true. *)

From S2P Require Import Prelude GoStd Codec Errors Ident Money Wallet Ledger Wager Evaluate.
From S2P Require Import Command Events Session Rules Database Sql Store Rows Books Settle Pending.
From S2P Require Import Reference Applying Emitting Delivering Replaying Processing.
Import Str.
#[local] Open Scope prog_scope.

(** [view] is the wallet [w] as consistent books had it, before [d]. *)
Definition wallet_seen (d : Db) (w : ID) (view : WalletView) : Prop :=
  exists d0 r0, consistent d0 /\ evolves d0 d /\ wallets d0 !! w = Some r0
    /\ view = walletView (wallet_data_of w r0).

Lemma wallet_seen_evolves d d' w view : evolves d d' -> wallet_seen d w view -> wallet_seen d' w view.
Proof. intros He (d0 & r0 & Hc & He0 & Hr & Hv). exists d0, r0. split_and!; try done. by etrans. Qed.

(** The entries of a wallet then are the first ones of its entries now. *)
Lemma entries_taken d0 d w : evolves d0 d -> entries w d0 = take (length (entries w d0)) (entries w d).
Proof.
  intros He. destruct (ev_ledger _ _ He) as [l Hl]. unfold entries. rewrite Hl, filter_app.
  by rewrite take_app_length.
Qed.

(** What was seen of a wallet: whose it is, a version it had, and a balance that
    the first so many entries of its ledger add up to. *)
Definition wallet_had (d : Db) (w : ID) (view : WalletView) : Prop :=
  exists row n, wallets d !! w = Some row /\ wvID view = ID_String w /\ wvPlayerID view = ID_String (wr_player row)
    /\ currency (wvBalance view) = wr_currency row /\ minor (wvBalance view) = ledger_sum (take n (entries w d))
    /\ 1 <= wvVersion view <= wr_version row /\ wvCreatedAt view = wr_created row.

Lemma wallet_seen_had d w view : wallet_seen d w view -> wallet_had d w view.
Proof.
  intros (d0 & r0 & Hc & He & Hr & ->). destruct (ev_wallets _ _ He _ _ Hr) as (row & Hrow & Hp & Hcur & Hcr & Hv).
  destruct (cs_wallet _ Hc _ _ Hr) as (Hok & Hch & _). pose proof (chained_sum _ _ _ Hch) as Hsum.
  destruct (wok_version _ Hok) as [Hv1 _]. exists row, (length (entries w d0)). cbn in *. rewrite <- entries_taken by done.
  split_and!; try done; try lia; congruence.
Qed.

Definition get_wallet_post (id : string) (r : res WalletView) (commit : option (Db * Db)) (d : Db) : Prop :=
  commit = None /\ match r with
  | Ok view => exists w, ParseID id = Ok w /\ wallet_seen d w view
  | Err _ => True
  end.

(** [res] is about a transaction of [provider] that [P] names. *)
Definition get_transaction_post (provider : string) (P : ID -> wager_row -> Prop) (r : res Result)
    (commit : option (Db * Db)) (d : Db) : Prop :=
  commit = None /\ match r with
  | Ok res => exists i row, stands d res i row /\ rq_provider (tr_request row) = Some provider /\ P i row
  | Err _ => True
  end.

Lemma GetWallet_triple C id b :
  consistent b ->
  wp C (GetWallet id) b fresh_sess (fun r s' b' => get_wallet_post id r (ss_done s') b').
Proof.
  intros Hc. pose proof (fresh_begun b Hc) as Hb.
  eapply (wp_post _ _ _ _ (post quiet (fun view s' b' => get_wallet_post id (Ok view) (ss_done s') b')));
    [|by intros [view|e] s' b'].
  unfold GetWallet. apply wp_lift; [exact _|done|]. intros w Hw.
  begun_stmt Hb b1 cx r Hd1 Hr. unfold select_wallet, uuid_in in *. rewrite Hw in *.
  cbn [wallets set_inbox] in *. injection Hr as <-. begun_reads Hb.
  destruct (wallets b1 !! w) as [row|] eqn:Erow; cbn [fmap option_fmap option_map].
  2:{ by quit. }
  pose proof (cs_wallet _ (bg_consistent _ _ _ Hb) _ _ Erow) as (Hok & _).
  rewrite scanWallet_row by done. finish as b2 Hd2. split; [apply (bg_done _ _ _ Hb)|].
  exists w. split; [done|]. eapply wallet_seen_evolves; [apply (dp_evolves _ _ _ Hd2)|].
  exists b1, row. split_and!; [apply (bg_consistent _ _ _ Hb)|done..].
Qed.

(** Both lookups: a query, then the wallet. *)
Lemma getTransaction_triple C (st : statement (option wager_columns)) b provider (P : ID -> wager_row -> Prop) :
  consistent b ->
  (forall cx d r, out_reply (st cx d) = Ok r -> exists x, r = wager_found x /\ st cx d = reads r
     /\ forall i row, x = Some (i, row) -> wagers d !! i = Some row
        /\ rq_provider (tr_request row) = Some provider /\ P i row) ->
  (forall i r r', tr_request r' = tr_request r -> P i r -> P i r') ->
  wp C (getTransaction st) b fresh_sess
    (fun r s' b' => get_transaction_post provider P r (ss_done s') b').
Proof.
  intros Hc Hst HP. pose proof (fresh_begun b Hc) as Hb.
  eapply (wp_post _ _ _ _ (post quiet (fun res s' b' => get_transaction_post provider P (Ok res) (ss_done s') b')));
    [|by intros [view|e] s' b'].
  unfold getTransaction. begun_stmt Hb b1 cx r Hd1 Hr.
  destruct (Hst _ _ _ Hr) as (x & -> & Hrd & Hx). rewrite Hrd. begun_reads Hb.
  destruct x as [[i row]|]; cbn [wager_found fmap option_fmap option_map]; [|by quit].
  destruct (Hx i row eq_refl) as (Hrow & Hp & HPi). cbn [wagers set_inbox] in Hrow.
  destruct (cs_row _ (bg_consistent _ _ _ Hb) _ _ Hrow) as [Hok _].
  rewrite (scanWager_row i row) by done. refold. cbn [bind lift]. refold.
  eapply wp_read_wallet; [exact _|exact Hb|by apply known_now; [apply (bg_consistent _ _ _ Hb)|]|].
  intros b2 s2 w Hb2 Hk2 Ho2. finish as b3 Hd3.
  eapply known_evolves in Hk2; [|apply (dp_evolves _ _ _ Hd3)].
  destruct Hk2 as [(row3 & Hrow3 & Hg3) Hok3 Hs3 _]. split; [apply (bg_done _ _ _ Hb2)|].
  exists i, row3. destruct Hg3 as (Hq & Hg3'). split_and!.
  - apply resultOf_stands with (r0 := row); try done.
  - by rewrite Hq.
  - by eapply HP.
Qed.

Lemma GetTransaction_triple C provider id b :
  consistent b ->
  wp C (GetTransaction provider id) b fresh_sess
    (fun r s' b' => get_transaction_post provider (fun i _ => ParseID id = Ok i) r (ss_done s') b').
Proof.
  intros Hc. unfold GetTransaction. destruct (ParseID id) as [i|e] eqn:Ei.
  2:{ intros b' _. done. }
  change (wp C (getTransaction (select_provider_wager provider id)) b fresh_sess
    (fun r s' b' => get_transaction_post provider (fun j _ => (Ok i : res ID) = Ok j) r (ss_done s') b')).
  apply getTransaction_triple; [done| |done].
  intros cx d r. unfold select_provider_wager, uuid_in, wager_by_id. intros H. texts_pass H. rewrite Ei in *.
  injection H as <-. eexists. split; [reflexivity|]. split; [reflexivity|]. intros j row.
  destruct (wagers d !! i) as [r0|] eqn:Er; [|done]. cbn.
  destruct (_ == _) eqn:Ep; [|done]. bools. by intros [= <- <-].
Qed.

Lemma GetExternalTransaction_triple C provider external b :
  consistent b ->
  wp C (GetExternalTransaction provider external) b fresh_sess
    (fun r s' b' => get_transaction_post provider
       (fun _ row => rq_external (tr_request row) = Some external) r (ss_done s') b').
Proof.
  intros Hc. apply getTransaction_triple; [done| |by intros _ r r' ->].
  intros cx d r H. apply select_external_Ok in H as Hr. unfold select_external in *. texts_pass H. rewrite Hr.
  eexists. split; [reflexivity|]. split; [reflexivity|]. intros j row Hf.
  apply find_row_Some in Hf as [Hrow Hx]. unfold has_external in Hx. bools. done.
Qed.
