(* ===== verification/Paging.v ===== *)
(** * Pages of a ledger

    Following the cursors from the first page visits every entry of the wallet
    exactly once, the newest first. *)

From stdpp Require Import sorting.
From Stdlib Require Import Ascii OrderedTypeEx.
From S2P Require Import Prelude GoStd Codec JsonText JsonRound Base64 Errors Ident Money Wallet Ledger Wager.
From S2P Require Import Evaluate Command Events Timestamps Transport Documents Session Database Sql Store Work Read Rows Books.
Import Str.

(** ** The order of a page *)

Lemma ltb_lts s t : String.ltb s t = true <-> String_as_OT.lts s t.
Proof.
  rewrite <- String_as_OT.cmp_lt. change String_as_OT.cmp with String.compare.
  unfold String.ltb. by destruct (String.compare s t).
Qed.

Lemma leb_ltb s t : String.leb s t = negb (String.ltb t s).
Proof.
  unfold String.leb, String.ltb. rewrite (String.compare_antisym s t). by destruct (String.compare t s).
Qed.

Lemma leb_split s t : String.leb s t = true <-> s = t \/ String.ltb s t = true.
Proof.
  unfold String.leb, String.ltb. pose proof (String_as_OT.cmp_eq s t) as H.
  change String_as_OT.cmp with String.compare in H. destruct (String.compare s t); naive_solver.
Qed.

Lemma leb_trans s t u : String.leb s t = true -> String.leb t u = true -> String.leb s u = true.
Proof.
  rewrite !leb_split, !ltb_lts. intros [->|H1] [->|H2]; auto. right. by eapply String_as_OT.lt_trans.
Qed.

#[global] Instance newest_first_trans : Transitive newest_first.
Proof.
  intros x y z [H1|[H1 H1']] [H2|[H2 H2']]; [left; lia..|right]. split; [congruence|by eapply leb_trans].
Qed.

#[global] Instance newest_first_total : Total newest_first.
Proof.
  intros x y. unfold newest_first.
  destruct (Z.lt_trichotomy (lr_created x) (lr_created y)) as [H|[H|H]]; [auto| |auto].
  destruct (String.leb_total (id_bytes (lr_id x)) (id_bytes (lr_id y))); auto.
Qed.

Lemma newest_first_antisym x y : newest_first x y -> newest_first y x -> lr_id x = lr_id y.
Proof.
  intros [H|[E H]] [H'|[E' H']]; [lia..|]. apply ID_eq. by apply String.leb_antisym.
Qed.

(** What a page that starts after [x] may show. *)
Lemma older_after x y : timestamptz (lr_created x) = lr_created x ->
  older (Some (lr_created x, lr_id x)) y = true <-> ~ newest_first y x.
Proof.
  intros Hx. unfold older, newest_first. rewrite Hx, orb_true_iff, andb_true_iff, Z.ltb_lt, Z.eqb_eq.
  rewrite leb_ltb. destruct (String.ltb _ _); cbn; [|split; [intros [?|[_ ?]]; [lia|done]|]].
  - split; [intros [?|[? _]]; intros [?|[_ ?]]; [lia|done|lia|done]|].
    intros H. destruct (Z.lt_trichotomy (lr_created x) (lr_created y)) as [?|[?|?]]; [|by right|by left].
    destruct H. by left.
  - intros H. left. destruct (Z.lt_trichotomy (lr_created x) (lr_created y)) as [?|[?|?]]; [| |done].
    + destruct H. by left.
    + destruct H. by right.
Qed.

Lemma newest_first_refl x : newest_first x x.
Proof. destruct (newest_first_total x x); done. Qed.

(** ** Sorted lists and filters *)

Section lists.
Context {A : Type}.
Implicit Types (l : list A) (P : A -> Prop).

Lemma filter_none P `{!forall x, base.Decision (P x)} l : Forall (fun x => ~ P x) l -> filter P l = [].
Proof. induction 1 as [|x l Hx _ IH]; [done|]. by rewrite filter_cons_False. Qed.

Lemma filter_every P `{!forall x, base.Decision (P x)} l : Forall P l -> filter P l = l.
Proof. induction 1 as [|x l Hx _ IH]; [done|]. by rewrite filter_cons_True, IH. Qed.

Lemma filter_sorted (R : relation A) P `{!forall x, base.Decision (P x)} l :
  StronglySorted R l -> StronglySorted R (filter P l).
Proof.
  induction 1 as [|x l Hl IH Hx]; [constructor|]. destruct (decide (P x)).
  - rewrite filter_cons_True by done. constructor; [done|]. rewrite Forall_forall in *.
    intros y Hy. apply list_elem_of_filter in Hy as [_ Hy]. by apply Hx.
  - by rewrite filter_cons_False.
Qed.
End lists.

(** ** The entries of a wallet, the newest first *)

Section pages.
Context (d : Db) (w : ID) (Hc : consistent d).

Definition listed : list ledger_row := merge_sort newest_first (entries w d).

Lemma listed_perm : listed ≡ₚ entries w d.
Proof using Type. apply merge_sort_Permutation. Qed.

Lemma listed_sorted : StronglySorted newest_first listed.
Proof using Type. apply StronglySorted_merge_sort; apply _. Qed.

Lemma listed_entry e : e ∈ listed <-> e ∈ ledger d /\ lr_wallet e = w.
Proof using Type. rewrite listed_perm. unfold entries. rewrite list_elem_of_filter. tauto. Qed.

Lemma listed_ids : NoDup (lr_id <$> listed).
Proof using Hc.
  rewrite listed_perm. pose proof (cs_entry _ Hc) as Hnd. unfold entries.
  induction (ledger d) as [|e l IH]; [constructor|]. cbn in Hnd. apply NoDup_cons in Hnd as [He Hnd].
  rewrite filter_cons. destruct (decide _); [|by apply IH]. cbn. constructor; [|by apply IH].
  intros Hin. apply He. apply list_elem_of_fmap in Hin as (y & E & Hy).
  apply list_elem_of_filter in Hy as [_ Hy]. apply list_elem_of_fmap. by exists y.
Qed.

(** The rows of a page: those past the position, in the same order. *)
Lemma page_rows (at_ : option (Z * ID)) :
  merge_sort newest_first (filter (fun e => lr_wallet e = w /\ older at_ e = true) (ledger d))
  = filter (fun e => older at_ e = true) listed.
Proof using Hc.
  eapply (Sorted_unique_strong newest_first).
  - intros x y Hx Hy H1 H2. rewrite merge_sort_Permutation in Hx.
    apply list_elem_of_filter in Hx as [[Hx _] Hin]. apply list_elem_of_filter in Hy as [_ Hy].
    apply listed_entry in Hy as [Hy _]. pose proof (newest_first_antisym _ _ H1 H2) as E.
    apply list_elem_of_lookup in Hin as [n Hn], Hy as [k Hk].
    assert (k = n) as ->; [|congruence]. eapply NoDup_lookup; [apply (cs_entry _ Hc)| |];
      rewrite list_lookup_fmap; [by rewrite Hk|]. rewrite Hn. cbn. by rewrite E.
  - apply Sorted_merge_sort, _.
  - apply StronglySorted_Sorted, filter_sorted, listed_sorted.
  - rewrite merge_sort_Permutation. rewrite listed_perm. unfold entries. rewrite list_filter_filter.
    erewrite list_filter_iff; [done|]. intros x. tauto.
Qed.

Lemma older_from_start : filter (fun e => older None e = true) listed = listed.
Proof using Type. apply filter_every, Forall_true. done. Qed.

Lemma older_from k x : listed !! k = Some x ->
  filter (fun e => older (Some (lr_created x, lr_id x)) e = true) listed = skipn (S k) listed.
Proof using Hc.
  intros Hk. pose proof (take_drop_middle _ _ _ Hk) as E. pose proof listed_sorted as Hs.
  pose proof listed_ids as Hnd. assert (Hx : x ∈ ledger d) by (by eapply listed_entry, list_elem_of_lookup_2).
  destruct (cs_ledger _ Hc _ Hx) as (Hck & _).
  assert (Hts : timestamptz (lr_created x) = lr_created x) by (unfold ledger_checks in Hck; by bools).
  clear Hk. revert E Hs Hnd. set (h1 := take k listed). set (h2 := skipn (S k) listed).
  generalize listed. intros h <- Hs Hnd. clearbody h1 h2.
  rewrite filter_app, filter_cons_False; [|by rewrite older_after by done; intros []; apply newest_first_refl].
  apply StronglySorted_app in Hs as (Hx1 & _ & Hs2). apply StronglySorted_inv in Hs2 as [_ Hx2].
  rewrite fmap_app, NoDup_app in Hnd. cbn in Hnd. destruct Hnd as (_ & _ & Hnd). apply NoDup_cons in Hnd as [Hnd _].
  rewrite filter_none, filter_every; [done| |].
  - rewrite Forall_forall in *. intros y Hy. rewrite older_after by done. intros H. apply Hnd.
    rewrite (newest_first_antisym x y) by auto. by apply list_elem_of_fmap_2.
  - apply Forall_forall. intros y Hy. rewrite older_after by done. intros H. apply H, Hx1; [done|by left].
Qed.
End pages.

(** ** Texts of the cursor *)

(** [decode_cursor] reads back what [encode_cursor] wrote. *)
Lemma cursor_reads id w e i cursor :
  ParseID id = Ok w -> enID e = ID_String i -> i <> zeroID -> enCreatedAt e <> 0 ->
  encode_cursor id e = Ok cursor ->
  cursor <> "" /\ decode_cursor id cursor = Ok (Some (enCreatedAt e, i)).
Proof.
  intros Hid Hi Hz Ht. unfold encode_cursor, cursor_json. cbn [cuAt cuVersion cuWalletID cuID].
  destruct (time_json (enCreatedAt e)) as [ts|] eqn:Ets; [|done]. intros [= <-].
  destruct (time_reads _ _ Ets) as (Hts & Hlen & Hok).
  destruct (ParseID_plain _ _ Hid) as [Hp36 Hl36].
  pose proof (ParseID_String i Hz) as Hpi. destruct (ParseID_plain _ _ Hpi) as [Hpi36 Hli36]. rewrite Hi.
  set (l := [("v", "1", JNum "1"); ("w", Json.string_lit id, JStr id);
             ("i", Json.string_lit (ID_String i), JStr (ID_String i)); ("t", ts, JStr (Rfc3339.nano (enCreatedAt e)))]).
  change (Json.object _) with (Json.object (fst <$> l)).
  assert (Hparse : parse (Json.object (fst <$> l)) = Some (JObj ((fun x => (x.1.1, x.2)) <$> l))).
  { apply (object_parses 0); [done| |done]. subst l. repeat constructor; try done; [apply (number_reads 1)|by apply plain_reads..]. }
  assert (Hshort : (0 < len (Json.object (fst <$> l)) <= 200)%nat).
  { subst l. unfold Json.object. cbn [fmap list_fmap fst Json.members]. rewrite !(string_lit_plain _) by done.
    rewrite !length_app. cbn [String.length]. rewrite !length_app. cbn [String.length]. lia. }
  pose proof (Base64.encoded_length (Json.object (fst <$> l))) as Hel.
  set (raw := Json.object (fst <$> l)) in *. split.
  { intros E. rewrite E in Hel. cbn in Hel. lia. }
  unfold decode_cursor. destruct (_ == "") eqn:E; [bools; rewrite E in Hel; cbn in Hel; lia|].
  replace (512 <? len (Base64.encode raw))%nat with false by (symmetry; apply Nat.ltb_ge; lia).
  rewrite Base64.text_roundtrip. unfold Unmarshal. rewrite Hparse. cbn [mbind option_bind]. subst l.
  cbn [fmap list_fmap fst snd into_struct].
  assert (Hpn : plain (Rfc3339.nano (enCreatedAt e))) by apply nano_plain.
  rewrite (store_known _ _ _ _ (field cuVersion (fun v c => mkCursor v (cuWalletID c) (cuID c) (cuAt c)) into_int)) by done.
  unfold field at 1. cbn [into_int cuVersion]. change (Strconv.ParseInt "1") with (Ok 1 : result Strconv.NumError Z).
  cbn [fmap option_fmap option_map mbind option_bind cuWalletID cuID cuAt].
  rewrite (store_known _ _ _ _ (field cuWalletID (fun v c => mkCursor (cuVersion c) v (cuID c) (cuAt c)) into_string)) by done.
  unfold field at 1. rewrite into_plain by done.
  cbn [fmap option_fmap option_map mbind option_bind cuVersion cuWalletID cuID cuAt].
  rewrite (store_known _ _ _ _ (field cuID (fun v c => mkCursor (cuVersion c) (cuWalletID c) v (cuAt c)) into_string)) by done.
  unfold field at 1. rewrite into_plain by done.
  cbn [fmap option_fmap option_map mbind option_bind cuVersion cuWalletID cuID cuAt].
  rewrite (store_known _ _ _ _ (field cuAt (fun v c => mkCursor (cuVersion c) (cuWalletID c) (cuID c) v) into_time)) by done.
  unfold field at 1. cbn [into_time]. rewrite Rfc3339Text.parse_nano by done.
  cbn [fmap option_fmap option_map mbind option_bind cuVersion cuWalletID cuID cuAt store_members].
  change (1 =? 1) with true. rewrite bool_decide_eq_true_2 by done. unfold Time.IsZero.
  replace (enCreatedAt e =? 0) with false by (symmetry; by apply Z.eqb_neq). cbn [negb orb]. by rewrite Hpi.
Qed.

(** ** The page, and following the cursors *)

(** What PostgreSQL generates: [uuidv7()] is never nil, and its clock is in the
    years JSON can carry. *)
Definition stamped (e : ledger_row) : Prop := lr_id e <> zeroID /\ 0 < lr_created e < Time.year_10000.

Definition entry_view (id : string) (e : ledger_row) : LedgerEntry :=
  mkLedgerEntry (ID_String (lr_id e)) id (ID_String (lr_tx e)) (lr_direction e)
    (mkMoney (lr_amount e) (lr_currency e)) (mkMoney (lr_before e) (lr_currency e))
    (mkMoney (lr_after e) (lr_currency e)) (lr_created e).

Section page.
Context (id : string) (limit : Z) (Hlimit : 1 <= limit).
Local Notation n := (Z.to_nat limit).

Lemma build_rows L acc :
  (forall e, e ∈ L -> page_entry id (columns_of_entry e) = Ok (entry_view id e)) -> (length acc <= n)%nat ->
  build_page id limit (columns_of_entry <$> L) acc =
  if decide (length acc + length L <= n)%nat then Ok (mkLedgerPage (acc ++ (entry_view id <$> L)) "")
  else let es := take n (acc ++ (entry_view id <$> L)) in
       match last es with
       | Some l => cursor ← encode_cursor id l; Ok (mkLedgerPage es cursor)
       | None => Ok (mkLedgerPage es "")
       end.
Proof using Hlimit.
  revert acc. induction L as [|e L IH]; intros acc HL Hacc; cbn [fmap list_fmap build_page].
  - rewrite decide_True by (cbn; lia). by rewrite List.app_nil_r.
  - rewrite HL by left. cbn [mbind result_bind]. destruct (_ =? limit) eqn:E.
    + rewrite decide_False by (cbn; lia). cbv zeta.
      rewrite take_app_le, take_ge by lia. done.
    + rewrite IH; [|intros; apply HL; by right|rewrite List.length_app; cbn; lia].
      rewrite List.length_app. cbn [length]. by rewrite <- Nat.add_assoc, <- List.app_assoc.
Qed.
End page.

(** The page as a function of the database it reads. *)
Definition ledger_page (d : Db) (id : string) (w : ID) (limit : Z) (cursor : string) : res LedgerPage :=
  at_ ← decode_cursor id cursor;
  build_page id limit
    (columns_of_entry <$>
       take (Z.to_nat (limit + 1))
         (merge_sort newest_first (filter (fun e => lr_wallet e = w /\ older at_ e = true) (ledger d)))) [].

(** A client that follows the cursors: all it was shown. *)
Fixpoint walk (fuel : nat) (page : string -> res LedgerPage) (cursor : string) : res (list LedgerEntry) :=
  match fuel with
  | O => Err (OtherError "too many pages")
  | S fuel =>
      p ← page cursor;
      if lpNextCursor p == "" then Ok (lpEntries p)
      else rest ← walk fuel page (lpNextCursor p); Ok (lpEntries p ++ rest)
  end.

Section walking.
Context (d : Db) (w : ID) (id : string) (limit : Z).
Context (Hc : consistent d) (Hid : ParseID id = Ok w) (Hlimit : 1 <= limit).
Context (Hstamped : forall e, e ∈ ledger d -> stamped e).
Local Notation n := (Z.to_nat limit).
Local Notation l := (listed d w).

Lemma page_entry_row e : e ∈ ledger d -> page_entry id (columns_of_entry e) = Ok (entry_view id e).
Proof using Hc.
  intros He. destruct (cs_ledger _ Hc e He) as (_ & _ & (r & Hr & Hcur)).
  destruct (cs_wallet _ Hc _ _ Hr) as (Hok & _). pose proof (proj1 (wok_balance _ Hok)) as Hv.
  cbn in Hv. rewrite Hcur in Hv. unfold page_entry. cbn [columns_of_entry lc_amount lc_before lc_after lc_currency].
  by rewrite !NewMoney_valid.
Qed.

(** [cursor] continues after the first [k] entries. *)
Definition continues (k : nat) (cursor : string) : Prop :=
  match k with
  | O => cursor = ""
  | S k => exists x, l !! k = Some x /\ encode_cursor id (entry_view id x) = Ok cursor
  end.

Lemma continues_reads k cursor : continues k cursor ->
  (k <> O -> cursor <> "") /\ exists at_, decode_cursor id cursor = Ok at_
    /\ merge_sort newest_first (filter (fun e => lr_wallet e = w /\ older at_ e = true) (ledger d)) = skipn k l.
Proof using All.
  destruct k as [|k]; cbn [continues].
  - intros ->. split; [done|]. exists None. split; [done|]. rewrite page_rows by done. apply older_from_start.
  - intros (x & Hx & Henc). pose proof (list_elem_of_lookup_2 _ _ _ Hx) as Hin.
    apply listed_entry in Hin as [Hin _]. destruct (Hstamped x Hin) as [Hz Ht].
    destruct (cursor_reads id w (entry_view id x) (lr_id x) cursor) as [Hne Hdec]; cbn; try done; [lia|].
    split; [done|]. exists (Some (lr_created x, lr_id x)). split; [done|].
    rewrite page_rows by done. by apply older_from.
Qed.

Lemma encodes x : x ∈ l -> exists c, encode_cursor id (entry_view id x) = Ok c.
Proof using Hstamped.
  intros Hin. apply listed_entry in Hin as [Hin _]. destruct (Hstamped x Hin) as [_ Ht].
  unfold encode_cursor, cursor_json, time_json. cbn [cuAt enCreatedAt entry_view].
  replace (Time.json_ok (lr_created x)) with true; [by eexists|].
  symmetry. unfold Time.json_ok. apply andb_true_iff. split; [apply Z.leb_le|apply Z.ltb_lt; lia].
  unfold Time.year_zero, Time.Second. lia.
Qed.

Lemma page_after k cursor : continues k cursor -> (k <= length l)%nat ->
  exists next, ledger_page d id w limit cursor = Ok (mkLedgerPage (entry_view id <$> take n (skipn k l)) next)
    /\ if decide (k + n < length l)%nat then continues (k + n) next /\ next <> "" else next = "".
Proof using All.
  intros Hk Hle. destruct (continues_reads _ _ Hk) as (_ & at_ & Hdec & Hrows).
  unfold ledger_page. rewrite Hdec. cbn [mbind result_bind]. rewrite Hrows.
  replace (Z.to_nat (limit + 1)) with (S n) by lia.
  rewrite build_rows; [|done| |cbn; lia].
  2:{ intros e He. apply page_entry_row. eapply (listed_entry d w). rewrite <- (take_drop k (listed d w)).
      apply elem_of_app. right. rewrite <- (take_drop (S n) (skipn k l)). apply elem_of_app. by left. }
  cbn [length]. rewrite length_take, length_skipn. cbn [app].
  destruct (decide (k + n < length l)%nat) as [Hlt|Hge].
  - rewrite decide_False by lia. cbv zeta. rewrite <- fmap_take, take_take.
    replace (n `min` S n)%nat with n by lia.
    destruct (lookup_lt_is_Some_2 l (k + pred n)) as (x & Hx); [lia|].
    assert (Hlast : last (entry_view id <$> take n (skipn k l)) = Some (entry_view id x)).
    { rewrite last_lookup, list_lookup_fmap, length_fmap, length_take, length_skipn.
      replace (n `min` (length l - k))%nat with n by lia. rewrite lookup_take_lt by lia.
      by rewrite lookup_drop, Hx. }
    rewrite Hlast. destruct (encodes x) as (c & Hcur); [by eapply list_elem_of_lookup_2|].
    rewrite Hcur. cbn. exists c. split; [done|].
    assert (Hcont : continues (k + n) c).
    { replace (k + n)%nat with (S (k + pred n)) by lia. by exists x. }
    split; [done|]. by apply (continues_reads (k + n)); [|lia].
  - rewrite decide_True by lia. exists "". split; [|done].
    by rewrite !take_ge by (rewrite length_skipn; lia).
Qed.

(** Every entry once, the newest first. *)
Lemma walk_from fuel k cursor : continues k cursor -> (k <= length l)%nat -> (length l < k + fuel)%nat ->
  walk fuel (ledger_page d id w limit) cursor = Ok (entry_view id <$> skipn k l).
Proof using All.
  revert k cursor. induction fuel as [|fuel IH]; intros k cursor Hk Hle Hf; [lia|].
  cbn [walk]. destruct (page_after k cursor Hk Hle) as (next & -> & Hnext). cbn [mbind result_bind lpNextCursor lpEntries].
  destruct (decide (k + n < length l)%nat) as [Hlt|Hge].
  - destruct Hnext as [Hcont Hne]. rewrite bool_decide_eq_false_2 by done.
    rewrite (IH (k + n)%nat) by (done || lia). cbn [mbind result_bind]. f_equal.
    replace (skipn (k + n) l) with (skipn n (skipn k l)) by (rewrite skipn_skipn; f_equal; lia).
    by rewrite <- fmap_app, take_drop.
  - rewrite Hnext. cbn [bool_decide]. change ("" == "") with true. cbv iota.
    by rewrite take_ge by (rewrite length_skipn; lia).
Qed.

Lemma walk_all fuel : (length (entries w d) < fuel)%nat ->
  walk fuel (ledger_page d id w limit) "" = Ok (entry_view id <$> l).
Proof using All.
  intros Hf. rewrite (walk_from fuel 0); [done|done|lia|]. by rewrite (listed_perm d w).
Qed.
End walking.

(** A page shows entries of the wallet as they are, at most [limit]. *)
Lemma page_shows d id w limit cursor p :
  consistent d -> 1 <= limit -> ledger_page d id w limit cursor = Ok p ->
  (length (lpEntries p) <= Z.to_nat limit)%nat
  /\ forall v, v ∈ lpEntries p -> exists e, e ∈ entries w d /\ v = entry_view id e.
Proof.
  intros Hc Hl H. unfold ledger_page in H. apply bind_Ok in H as (at_ & _ & H). set (L := take _ _) in H.
  assert (HL : forall e, e ∈ L -> e ∈ entries w d).
  { intros e He. unfold L in He. apply (subseteq_take _ _ e) in He.
    rewrite merge_sort_Permutation in He. unfold entries. apply list_elem_of_filter in He as [[Hw _] He].
    by apply list_elem_of_filter. }
  rewrite build_rows in H; [|done| |cbn; lia].
  2:{ intros e He. eapply page_entry_row; [done|]. by apply HL, list_elem_of_filter in He as [_ ?]. }
  assert (Hp : lpEntries p = take (Z.to_nat limit) (entry_view id <$> L)).
  { cbn [app length] in H. destruct (decide _) as [Hle|].
    - injection H as <-. cbn. by rewrite take_ge by (rewrite length_fmap; lia).
    - cbv zeta in H. destruct (last _); [|by injection H as <-]. by apply bind_Ok in H as (? & _ & [= <-]). }
  rewrite Hp. split; [rewrite length_take; lia|]. intros v Hv. apply (subseteq_take _ _ v) in Hv.
  apply list_elem_of_fmap in Hv as (e & -> & He). exists e. auto.
Qed.
