(* ===== verification/Auditing.v ===== *)
(** * Reads of the ledger: the triples of [Ledger] and [Reconcile]

    What a page and a reconciliation answer, from one committed snapshot. *)

From Stdlib Require Import Ascii.
From S2P Require Import Prelude GoStd Codec Errors Ident Money Wallet Ledger Wager Evaluate.
From S2P Require Import Command Events Session Rules Database Sql Store Work Read Rows Books Settle.
From S2P Require Import Pending Reference Applying Emitting Delivering Replaying Processing Reading Paging.
Import Str.
#[local] Open Scope prog_scope.

(** ** Totals as text *)

Lemma unsigned_digits s : all_chars Strconv.is_digit s = true -> s <> "" ->
  SetString s = Some (Strconv.dec_value 0 s).
Proof.
  intros Hd Hne. unfold SetString. destruct s as [|c s]; [done|]. cbn in Hd. apply andb_true_iff in Hd as [Hc Hd].
  assert (E : (match String c s with String "+" r => (false, r) | String "-" r => (true, r) | _ => (false, String c s) end)
    = (false, String c s)) by (by destruct c as [[] [] [] [] [] [] [] []]).
  rewrite E. rewrite bool_decide_eq_false_2 by done. cbn [all_chars orb negb]. by rewrite Hc, Hd.
Qed.

Lemma SetString_text z : SetString (numeric_text z) = Some z.
Proof.
  unfold numeric_text, Strconv.FormatInt. destruct (z <? 0) eqn:E.
  - destruct (Strconv.dec_string_spec (- z)) as (Hd & Hv & Hne); [lia|].
    unfold SetString. rewrite bool_decide_eq_false_2, Hd, Hv by done. cbn. f_equal. lia.
  - destruct (Strconv.dec_string_spec z) as (Hd & Hv & Hne); [lia|]. by rewrite unsigned_digits, Hv.
Qed.

(** ** Reconciliation *)

Lemma signed_total l : foldr (fun e total => signed_amount e + total) 0 l = ledger_sum l.
Proof. induction l as [|e l IH]; [done|]. cbn. by rewrite IH. Qed.

(** What a reconciliation of a consistent database finds: the wallet, and
    nothing to explain. *)
Definition reconciled (id : string) (d : Db) (r : Reconciliation) : Prop :=
  exists w row, ParseID id = Ok w /\ wallets d !! w = Some row
    /\ r = mkReconciliation (ID_String w) (mkMoney (wr_balance row) (wr_currency row))
             (mkMoney (ledger_sum (entries w d)) (wr_currency row)) (mkMoney 0 (wr_currency row)) true
             (Z.of_nat (length (entries w d))).

Definition reconcile_post (id : string) (r : res Reconciliation) (commit : option (Db * Db)) (d : Db) : Prop :=
  commit = None /\ match r with
  | Ok rc => exists d0, consistent d0 /\ evolves d0 d /\ reconciled id d0 rc
  | Err e => Code e <> "RECONCILIATION_OVERFLOW"
  end.

Lemma external_code e : external e -> Code (dbError e) <> "RECONCILIATION_OVERFLOW".
Proof.
  intros (Ha & Hd & Hn). unfold dbError, Code. rewrite Hn.
  destruct (as_pg e) as [[st c]|]; [destruct (_ && _)|]; cbn; by rewrite ?Ha, ?Hd.
Qed.

Lemma ParseID_code id e : ParseID id = Err e -> Code e = CodeInvalidID.
Proof.
  unfold ParseID. destruct (_ || _); [by intros [= <-]|].
  destruct (_ ≫= _); [|by intros [= <-]]. case_bool_decide; [by intros [= <-]|done].
Qed.

Lemma Subtract_same n c : validCurrency c = true -> Int64.in_range n ->
  Subtract (mkMoney n c) (mkMoney n c) = Ok (mkMoney 0 c).
Proof.
  intros Hv Hr. apply Subtract_Ok; [done|done|]. cbn. rewrite Z.sub_diag. split; [by apply check_refl|done].
Qed.

(** The Go code after the query. *)
Lemma reconcile_row d w row :
  consistent d -> wallets d !! w = Some row ->
  wr_balance row = ledger_sum (entries w d)
  /\ validCurrency (wr_currency row) = true /\ Int64.in_range (wr_balance row).
Proof.
  intros Hc Hw. destruct (cs_wallet _ Hc _ _ Hw) as (Hok & Hch & _). pose proof (wok_balance _ Hok) as [Hv Hr].
  pose proof (chained_sum _ _ _ Hch). cbn in *. split_and!; [lia|done|done].
Qed.

Lemma Reconcile_triple C id b :
  consistent b ->
  wp C (Reconcile id) b fresh_sess (fun r s' b' => reconcile_post id r (ss_done s') b').
Proof.
  intros Hc. unfold Reconcile. destruct (ParseID id) as [w|e] eqn:Ew.
  2:{ intros b' _. split; [done|]. by rewrite (ParseID_code _ _ Ew). }
  apply wp_do; [done|intros b' e He b'' _; split; [done|]; by apply external_code|].
  intros b1 cx r Hd Hcx Hr. change (view b1 fresh_sess) with b1 in *.
  unfold select_reconcile, uuid_in in Hr |- *. rewrite Ew in Hr |- *. cbn [out_reply reads] in Hr. injection Hr as <-.
  destruct (wallets b1 !! w) as [row|] eqn:Erow; cbn [fmap option_fmap option_map].
  2:{ intros b2 _. split; [done|]. cbn. done. }
  assert (Hc1 : consistent b1) by by apply (dp_consistent _ _ _ Hd).
  destruct (reconcile_row b1 w row Hc1 Erow) as (Hsum & Hcur & Hrange).
  cbn. rewrite signed_total, SetString_text. fold (entries w b1). rewrite <- Hsum.
  rewrite bool_decide_eq_true_2 by done. cbn [negb]. rewrite !NewMoney_valid by done.
  rewrite Subtract_same by done. intros b2 Hd2. split; [done|]. exists b1. split; [done|].
  split; [apply (dp_evolves _ _ _ Hd2)|]. exists w, row. rewrite <- Hsum. done.
Qed.

(** ** Pages *)

Definition page_post (id cursor : string) (limit : Z) (r : res LedgerPage) (commit : option (Db * Db)) (d : Db) : Prop :=
  commit = None /\ match r with
  | Ok page => exists w d0, ParseID id = Ok w /\ 1 <= limit <= 100 /\ consistent d0 /\ evolves d0 d
      /\ is_Some (wallets d0 !! w) /\ ledger_page d0 id w limit cursor = Ok page
  | Err _ => True
  end.

Lemma Ledger_triple C id cursor limit b :
  consistent b ->
  wp C (Ledger id cursor limit) b fresh_sess (fun r s' b' => page_post id cursor limit r (ss_done s') b').
Proof.
  intros Hc. unfold Ledger, GetWallet. destruct (ParseID id) as [w|e] eqn:Ew; [|by intros b' _].
  cbn [lift andThen bind]. destruct ((limit <? 1) || (100 <? limit)) eqn:El; [by intros b' _|].
  apply orb_false_iff in El as [El1 El2].
  apply wp_do; [done|by intros b' e He b'' _|]. intros b1 cx r Hd Hcx Hr.
  change (view b1 fresh_sess) with b1 in *. unfold select_wallet, uuid_in in Hr |- *. rewrite Ew in Hr |- *.
  cbn [out_reply reads] in Hr. injection Hr as <-.
  assert (Hc1 : consistent b1) by by apply (dp_consistent _ _ _ Hd).
  destruct (wallets b1 !! w) as [row|] eqn:Erow; cbn [fmap option_fmap option_map]; [|by intros b' _].
  destruct (cs_wallet _ Hc1 _ _ Erow) as (Hok & _). cbn [bind lift].
  rewrite scanWallet_row by done. cbn [bind lift andThen map_err].
  destruct (decode_cursor id cursor) as [at_|e] eqn:Ecur; [|by intros b' _]. cbn [bind lift andThen].
  apply wp_do; [done|by intros b' e He b'' _|]. intros b2 cx2 u Hd2 Hcx2 _. cbn [bind].
  apply wp_do; [done|by intros b' e He b'' _|]. intros b3 cx3 rows Hd3 Hcx3 Hr.
  unfold select_ledger, uuid_in in Hr |- *. rewrite Ew in Hr |- *. cbn [out_reply reads] in Hr. injection Hr as <-.
  cbn [bind lift]. intros b4 Hd4. split; [done|].
  change (view b3 _) with b3. destruct (build_page _ _ _ _) as [page|e] eqn:Ep; [|done].
  assert (He : evolves b1 b3) by (etrans; [apply (dp_evolves _ _ _ Hd2)|apply (dp_evolves _ _ _ Hd3)]).
  exists w, b3. split_and!; [done|lia|lia| |apply (dp_evolves _ _ _ Hd4)| |].
  - apply (dp_consistent _ _ _ Hd3), (dp_consistent _ _ _ Hd2), Hc1.
  - destruct (ev_wallets _ _ He _ _ Erow) as (row' & Hrow' & _). by exists row'.
  - unfold ledger_page. rewrite Ecur. exact Ep.
Qed.

(** ** Calls nobody disturbs *)

(** Nothing fails and no one else commits. *)
Definition calm (e : env Db Cx) : Prop :=
  (forall n, env_fault e n = NoFault) /\ (forall n d, env_rivals e n d = d).

(** What a call answers then. *)
Definition answer {A} (e : env Db Cx) (p : program A) (d : Db) : A := (run e p 0 d fresh_sess).1.1.

Lemma run_do {A R} e (st : statement R) (k : res R -> program A) n d s :
  calm e -> ss_live s = true ->
  run e (Do st k) n d s =
  let o := st (env_cx e n) (view d s) in
  match out_reply o with
  | Ok r => run e (k (Ok r)) (S n) d (sess_write s o)
  | Err err => run e (k (Err err)) (S n) d (sess_abort s)
  end.
Proof. intros [Hf Hr] Hl. cbn. by rewrite Hf, Hr, Hl. Qed.

(** An undisturbed [Ledger] answers with the page. *)
Lemma Ledger_answers e id cursor limit w d row :
  calm e -> consistent d -> ParseID id = Ok w -> wallets d !! w = Some row -> 1 <= limit <= 100 ->
  answer e (Ledger id cursor limit) d = ledger_page d id w limit cursor.
Proof.
  intros He Hc Ew Erow Hl. unfold answer, Ledger, GetWallet. rewrite Ew. cbn [lift andThen bind].
  replace ((limit <? 1) || (100 <? limit)) with false by (symmetry; apply orb_false_iff; lia).
  destruct (cs_wallet _ Hc _ _ Erow) as (Hok & _).
  cbn [andThen map_err query_row exec bind lift].
  rewrite run_do by done. cbv zeta. change (view d fresh_sess) with d.
  unfold select_wallet, uuid_in. rewrite Ew. cbn [out_reply reads]. rewrite Erow.
  cbn [fmap option_fmap option_map bind lift]. rewrite scanWallet_row by done.
  unfold ledger_page. destruct (decode_cursor id cursor) as [at_|err]; [|done].
  cbn [andThen map_err query_row exec bind lift ret].
  rewrite run_do by done. cbv zeta. cbn [out_reply reads send_query].
  cbn [andThen map_err query_row exec bind lift ret].
  rewrite run_do by done. cbv zeta. unfold select_ledger, uuid_in. rewrite Ew. cbn [out_reply reads].
  done.
Qed.

Lemma walk_ext f g fuel cursor : (forall c, f c = g c) -> walk fuel f cursor = walk fuel g cursor.
Proof.
  intros H. revert cursor. induction fuel as [|fuel IH]; intros cursor; [done|]. cbn. rewrite H.
  destruct (g cursor) as [p|e]; [|done]. cbn. case_bool_decide; [done|]. by rewrite IH.
Qed.
