(* ===== verification/Tending.v ===== *)
(** * Tending: the triples of the workers' single statements

    Claiming, publishing and releasing change no financial row: only leases,
    attempts and the publication of events, under the locks of the rows. *)

From stdpp Require Import sorting.
From S2P Require Import Prelude GoStd Codec Errors Ident Money Wallet Ledger Wager Evaluate.
From S2P Require Import Command Events Session Rules Database Sql Store Work Rows Books Settle.
From S2P Require Import Pending Reference Applying Emitting Delivering.
Import Str.
#[local] Open Scope prog_scope.

(** ** Maintenance commits *)

(** The same request, result and correlation. *)
Definition same_books (r r' : wager_row) : Prop :=
  tr_request r' = tr_request r /\ tr_outcome r' = tr_outcome r
  /\ tr_correlation r' = tr_correlation r /\ tr_causation r' = tr_causation r.

Definition map_same {A} (R : A -> A -> Prop) (m m' : gmap ID A) : Prop :=
  forall i, match m !! i, m' !! i with
            | Some x, Some y => R x y
            | None, None => True
            | _, _ => False
            end.

(** The commit touched nothing but maintenance columns and the outbox's state. *)
Record tends (b v : Db) : Prop := {
  td_wallets : wallets v = wallets b;
  td_ledger : ledger v = ledger b;
  td_inbox : inbox v = inbox b;
  td_wagers : map_same same_books (wagers b) (wagers v);
  td_outbox : map_same outbox_grows (outbox b) (outbox v)
}.

(** The commit published no event but those of [P]. *)
Definition publishes (P : ID -> Prop) (b v : Db) : Prop :=
  forall j y, outbox v !! j = Some y -> ob_published y <> None ->
  P j \/ exists x, outbox b !! j = Some x /\ ob_published x <> None.

Definition tended (P : ID -> Prop) (b v : Db) : Prop := tends b v /\ publishes P b v.

Lemma publishes_same P b v : outbox v = outbox b -> publishes P b v.
Proof. intros E j y Hj Hp. right. exists y. by rewrite <- E. Qed.

Lemma map_same_refl {A} (R : A -> A -> Prop) m : Reflexive R -> map_same R m m.
Proof. intros HR i. by destruct (m !! i). Qed.
#[global] Instance same_books_refl : Reflexive same_books.
Proof. by intros r. Qed.

Lemma map_same_grows {A} (R : A -> A -> Prop) m m' : map_same R m m' -> map_grows R m m'.
Proof. intros H i x Hx. specialize (H i). rewrite Hx in H. destruct (m' !! i) as [y|]; [by exists y|done]. Qed.

Lemma map_same_back {A} (R : A -> A -> Prop) m m' i y :
  map_same R m m' -> m' !! i = Some y -> exists x, m !! i = Some x /\ R x y.
Proof. intros H Hy. specialize (H i). rewrite Hy in H. destruct (m !! i) as [x|]; [by exists x|done]. Qed.

Lemma same_books_grows r r' : same_books r r' -> wager_grows r r'.
Proof. intros (? & ? & ? & ?). by unfold wager_grows. Qed.

Lemma tends_evolves b v : tends b v -> evolves b v.
Proof.
  intros [Hw Hl Hi Hg Ho]. constructor.
  - by rewrite Hw.
  - intros i r Hr. destruct (map_same_grows _ _ _ Hg _ _ Hr) as (r' & ? & ?).
    exists r'. split; [done|]. by apply same_books_grows.
  - by rewrite Hl.
  - by rewrite Hi.
  - by apply map_same_grows.
Qed.

Lemma row_ok_same i r r' : same_books r r' -> row_ok i r -> row_ok i r'.
Proof.
  intros (Hq & Ho & _) [H1 H2 H3 H4 H5 H6 H7]. constructor; rewrite ?Hq, ?Ho; try done.
  unfold data_of in *. by rewrite Hq, Ho.
Qed.

Lemma data_of_same i r r' : same_books r r' -> data_of i r' = data_of i r.
Proof. intros (Hq & Ho & _). unfold data_of. by rewrite Hq, Ho. Qed.

Lemma stored_event_grows i x y : outbox_grows x y -> stored_event i x -> stored_event i y.
Proof. unfold stored_event. by intros (-> & -> & -> & _ & _ & -> & _). Qed.

Lemma tends_consistent b v : consistent b -> tends b v -> consistent v.
Proof.
  intros Hc Ht. pose proof (tends_evolves _ _ Ht) as He. destruct Ht as [Hw Hl Hi Hg Ho].
  pose proof (ev_wagers _ _ He) as Hgr. pose proof (ev_outbox _ _ He) as Hgo.
  assert (Hback : forall i r', wagers v !! i = Some r' -> exists r, wagers b !! i = Some r /\ same_books r r')
    by (intros; by eapply map_same_back).
  assert (Huniq : forall P : wager_row -> bool, (forall r r', same_books r r' -> P r' = P r) ->
    (forall i j r r', wagers b !! i = Some r -> wagers b !! j = Some r' -> P r = true -> P r' = true -> i = j) ->
    forall i j r r', wagers v !! i = Some r -> wagers v !! j = Some r' -> P r = true -> P r' = true -> i = j).
  { intros P HP Hu i j r r' Hr Hr' H1 H2. destruct (Hback _ _ Hr) as (x & Hx & Sx).
    destruct (Hback _ _ Hr') as (y & Hy & Sy). rewrite (HP _ _ Sx) in H1. rewrite (HP _ _ Sy) in H2. eauto. }
  constructor; rewrite ?Hw, ?Hl, ?Hi.
  - intros w r Hr. unfold entries. rewrite Hl. by apply (cs_wallet _ Hc).
  - apply (cs_account _ Hc).
  - intros i r' Hr. destruct (Hback _ _ Hr) as (r & Hr0 & Hs). destruct (cs_row _ Hc _ _ Hr0) as [? ?].
    split; [by eapply row_ok_same|]. destruct Hs as (_ & Hoc & _). unfold status_of. by rewrite Hoc.
  - intros i r' Hr. destruct (Hback _ _ Hr) as (r & Hr0 & (Hq & _)).
    unfold wallet_of. rewrite Hq. by apply (cs_owner _ Hc i).
  - intros i r' Hr. destruct (Hback _ _ Hr) as (r & Hr0 & Hs).
    assert (Hrec : recorded v i r).
    { eapply recorded_grow; [exact Hgr|by rewrite Hl| |by apply (cs_recorded _ Hc)]. rewrite Hl. by left. }
    destruct Hs as (Hq & Hoc & _). unfold recorded, moving, status_of, expected_direction in *.
    rewrite Hq, Hoc. destruct (_ && _); [|done]. destruct Hrec as (e & He' & [M1 M2 M3 M4 M5] & Hd).
    exists e. split_and!; try done. constructor; unfold wallet_of in *; by rewrite ?Hq, ?Hoc.
  - intros i r' Hr. destruct (Hback _ _ Hr) as (r & Hr0 & Hs).
    pose proof (resolved_grow _ v _ _ Hgr (cs_resolved _ Hc _ _ Hr0)) as Hres.
    pose proof (data_of_same i _ _ Hs) as Hdat. destruct Hs as (Hq & Hoc & _).
    unfold resolved, status_of in *. rewrite Hdat, Hq, Hoc. exact Hres.
  - intros i r' Hr. destruct (Hback _ _ Hr) as (r & Hr0 & Hs).
    pose proof (announced_evolves _ _ _ _ Hgo (cs_announced _ Hc _ _ Hr0)) as Ha.
    pose proof (data_of_same i _ _ Hs) as Hdat. destruct Hs as (Hq & Hoc & _).
    unfold announced, event_of, status_of, wallet_of in *. rewrite Hdat, Hq, Hoc. exact Ha.
  - intros i j r r' p k. apply (Huniq (has_key p k)); [|intros *; apply (cs_key _ Hc)].
    intros x y (Hq & _). by apply has_key_request.
  - intros i j r r' p k. apply (Huniq (has_external p k)); [|intros *; apply (cs_external _ Hc)].
    intros x y (Hq & _). by apply has_external_request.
  - intros i j r r' y. apply (Huniq (reverses y)); [|intros *; apply (cs_reversal _ Hc)].
    intros x z (Hq & Hoc & _). unfold reverses. by rewrite Hq, Hoc.
  - intros e Hin. destruct (cs_ledger _ Hc e Hin) as (Hk & (r & Hr & Hwr) & Hwl). split_and!; [done| |done].
    destruct (Hgr _ _ Hr) as (r' & Hr' & (Hq & _)). exists r'. split; [done|]. unfold wallet_of in *. by rewrite Hq.
  - apply (cs_tx _ Hc).
  - apply (cs_entry _ Hc).
  - intros e Hin. eapply entry_announced_evolves; [exact Hgo|]. by apply (cs_moved _ Hc).
  - intros i y Hy. destruct (map_same_back _ _ _ _ _ Ho Hy) as (x & Hx & Hs).
    eapply stored_event_grows; [exact Hs|]. by apply (cs_event _ Hc).
  - intros k r Hr. destruct (cs_inbox _ Hc _ _ Hr) as (i & c & ? & ? & [x Hx]). exists i, c.
    split_and!; [done..|]. destruct (Hgr _ _ Hx) as (x' & -> & _). by eexists.
Qed.

Lemma tends_protected (L : list lock) b v :
  tends b v ->
  (forall i, LWager i ∉ L -> wagers v !! i = wagers b !! i) ->
  (forall i, LOutbox i ∉ L -> outbox v !! i = outbox b !! i) ->
  (forall w, LWallet w ∉ L -> forall i, own w v i = own w b i) ->
  protected (fun l => l ∉ L) b v.
Proof.
  intros [Hw Hl Hi Hg Ho] Hlw Hlo Hown.
  assert (Hno : forall P : wager_row -> bool, (forall r r', same_books r r' -> P r' = P r) ->
    no_row P (wagers b) -> no_row P (wagers v)).
  { intros P HP Hno i r' Hr. destruct (map_same_back _ _ _ _ _ Hg Hr) as (r & Hr0 & Hs).
    rewrite (HP _ _ Hs). by eapply Hno. }
  constructor; try done.
  - intros w HLw. rewrite Hw. split; [done|]. split; [unfold entries; by rewrite Hl|by apply Hown].
  - intros i _ (H1 & H2 & H3 & H4). unfold unused. rewrite Hw, Hl. split_and!; [done| | |done].
    + specialize (Hg i). rewrite H2 in Hg. by destruct (wagers v !! i).
    + specialize (Ho i). rewrite H3 in Ho. by destruct (outbox v !! i).
  - intros p c _. by rewrite Hw.
  - intros p k _. apply Hno. intros x y (Hq & _). by apply has_key_request.
  - intros p k _. apply Hno. intros x y (Hq & _). by apply has_external_request.
  - intros c m _. by rewrite Hi.
Qed.

(** ** Rows changed together *)

Lemma alter_all_other {A B} (f : B -> A -> A) l (m : gmap ID A) i :
  i ∉ l.*1 -> alter_all f l m !! i = m !! i.
Proof.
  unfold alter_all. revert m. induction l as [|[j x] l IH]; cbn; intros m Hi; [done|].
  apply not_elem_of_cons in Hi as [Hne Hi]. rewrite IH by done. by rewrite lookup_alter_ne.
Qed.

Lemma alter_all_lookup {A B} (f : B -> A -> A) l (m : gmap ID A) i x :
  NoDup l.*1 -> (i, x) ∈ l -> alter_all f l m !! i = f x <$> m !! i.
Proof.
  unfold alter_all. revert m. induction l as [|[j y] l IH]; cbn; intros m Hnd Hi; [by apply elem_of_nil in Hi|].
  apply NoDup_cons in Hnd as [Hj Hnd]. apply elem_of_cons in Hi as [[= -> ->]|Hi].
  - change (alter_all f l (alter (f y) j m) !! j = f y <$> m !! j).
    rewrite (alter_all_other f l _ j Hj). apply lookup_alter_eq.
  - rewrite IH by done. rewrite lookup_alter_ne; [done|]. intros ->. apply Hj, list_elem_of_fmap. by eexists (_, _).
Qed.

Lemma alter_all_same {A B} (R : A -> A -> Prop) (f : B -> A -> A) l m :
  PreOrder R -> (forall x r, R r (f x r)) -> map_same R m (alter_all f l m).
Proof.
  intros HR Hf i. unfold alter_all. revert m. induction l as [|[j x] l IH]; cbn; intros m; [by destruct (m !! i)|].
  specialize (IH (alter (f x) j m)). destruct (decide (j = i)) as [->|Hne].
  - rewrite lookup_alter_eq in IH. destruct (m !! i) as [r|]; cbn in IH; [|done].
    destruct (foldl _ _ _ !! i); [|done]. etrans; [apply Hf|exact IH].
  - by rewrite lookup_alter_ne in IH.
Qed.

Lemma publishes_altered {A} P (f : A -> outbox_row -> outbox_row) l d :
  (forall x r, ob_published (f x r) = ob_published r) ->
  publishes P d (set_outbox (alter_all f l) d).
Proof.
  intros Hf j y Hj Hp. right. cbn in Hj.
  assert (Hs : map_same (fun r r' => ob_published r' = ob_published r) (outbox d) (alter_all f l (outbox d))).
  { apply alter_all_same; [|done]. split; [by intros r|]. intros r1 r2 r3 H1 H2. congruence. }
  destruct (map_same_back _ _ _ _ _ Hs Hj) as (x & Hx & E). exists x. split; [done|congruence].
Qed.

(** ** Candidates *)

Lemma candidates_spec {A} cx (P : ID -> A -> bool) key limit (m : gmap ID A) :
  NoDup (candidates cx P key limit m).*1
  /\ (length (candidates cx P key limit m) <= Z.to_nat limit)%nat
  /\ forall i r, (i, r) ∈ candidates cx P key limit m -> m !! i = Some r /\ P i r = true /\ cx_skip cx i = false.
Proof.
  unfold candidates. set (f := filter _ _). set (R := fun x y : ID * A => Is_true _).
  assert (Hp : merge_sort R f ≡ₚ f) by apply merge_sort_Permutation.
  assert (Hsub : forall n (l : list (ID * A)), NoDup l.*1 -> NoDup (take n l).*1).
  { intros n l Hl. rewrite <- (take_drop n l), fmap_app in Hl. by apply NoDup_app in Hl as [? _]. }
  split_and!.
  - apply Hsub. rewrite Hp. subst f. pose proof (NoDup_fst_map_to_list m) as Hnd.
    clear Hp. induction (map_to_list m) as [|x l IH]; [done|]. cbn in Hnd. apply NoDup_cons in Hnd as [Hx Hnd].
    rewrite filter_cons. destruct (decide _); [|by apply IH]. cbn. constructor; [|by apply IH].
    intros Hin. apply Hx. apply list_elem_of_fmap in Hin as (y & -> & Hy).
    apply list_elem_of_filter in Hy as [_ Hy]. apply list_elem_of_fmap. by exists y.
  - rewrite length_take. lia.
  - intros i r Hin. apply elem_of_take in Hin as (n & Hn & _). apply list_elem_of_lookup_2 in Hn.
    rewrite Hp in Hn. apply list_elem_of_filter in Hn as [HP Hn]. apply elem_of_map_to_list in Hn.
    apply Is_true_true in HP. apply andb_true_iff in HP as [? HP]. by rewrite negb_true_iff in HP.
Qed.

(** Nothing is passed over while there is room. *)
Lemma candidates_take {A} cx (P : ID -> A -> bool) key limit (m : gmap ID A) i r :
  m !! i = Some r -> P i r = true -> cx_skip cx i = false ->
  (i, r) ∈ candidates cx P key limit m \/ length (candidates cx P key limit m) = Z.to_nat limit.
Proof.
  intros Hi HP Hs. unfold candidates. set (f := filter _ _). set (R := fun x y : ID * A => Is_true _).
  assert (Hp : merge_sort R f ≡ₚ f) by apply merge_sort_Permutation.
  assert (Hin : (i, r) ∈ merge_sort R f).
  { rewrite Hp. apply list_elem_of_filter. split; [|by apply elem_of_map_to_list]. cbn. by rewrite HP, Hs. }
  destruct (decide (length (merge_sort R f) <= Z.to_nat limit)%nat) as [Hl|Hl].
  - left. by rewrite take_ge.
  - right. rewrite length_take. lia.
Qed.

Lemma leased_elem {A} cx owner ms (l : list (ID * A)) i r t :
  (i, r, t) ∈ leased cx owner ms l ->
  (i, r) ∈ l /\ exists n, t = new_lease cx owner ms n.
Proof.
  unfold leased. intros Hin. apply elem_of_lookup_imap_1 in Hin as (n & x & Hx).
  destruct Hx as [Hx0 Hx]. revert Hx0. intros [= <- ->].
  split; [by eapply list_elem_of_lookup_2|by exists n].
Qed.

Lemma leased_fst {A} cx owner ms (l : list (ID * A)) :
  ((fun x => (x.1.1, x.2)) <$> leased cx owner ms l).*1 = l.*1.
Proof.
  unfold leased. rewrite <- list_fmap_compose. generalize (new_lease cx owner ms). intros f.
  revert f. induction l as [|[i r] l IH]; intros f; [done|]. cbn. f_equal. apply (IH (f ∘ S)).
Qed.
