(* ===== verification/Leases.v ===== *)
(** * Claims and publications: the triples of the workers' statements

    [ClaimOutbox], [MarkPublished], [RetryOutbox], [ClaimReferences] and the two
    statements of [ReleaseClaims]: what each commits, and what it answers. *)

From S2P Require Import Prelude GoStd Codec Errors Ident Money Wallet Ledger Wager Evaluate.
From S2P Require Import Command Events Session Rules Database Sql Store Work Rows Books Settle.
From S2P Require Import Pending Reference Applying Emitting Delivering Replaying Processing.
From S2P Require Import Tending.
Import Str.
#[local] Open Scope prog_scope.

(** ** One statement, its own transaction *)

(** Whatever the others commit while its locks are held, the statement's writes
    tend the books, publish no event but those of [P], and its deferred triggers
    pass. *)
Definition tending {R} (P : ID -> Prop) (o : outcome Db lock R) (d : Db) : Prop :=
  forall d', depend (out_locks o) d d' -> consistent d' ->
  tended P d' (out_write o d')
  /\ protected (fun l => l ∉ out_locks o) d' (out_write o d')
  /\ Forall (fun g => g (out_write o d') = true) (out_deferred o).

Definition committed {R} (o : outcome Db lock R) (d : Db) (commit : option (Db * Db)) : Prop :=
  exists b, depend (out_locks o) d b /\ commit = Some (b, out_write o b).

(** Nothing done yet in this transaction. *)
Record idle (s : sess Db lock) : Prop := {
  id_live : ss_live s = true;
  id_done : ss_done s = None;
  id_locks : ss_locks s = [];
  id_deferred : ss_deferred s = [];
  id_view : forall b, view b s = b
}.

Lemma fresh_idle : idle fresh_sess.
Proof. by constructor. Qed.

Lemma idle_read {R} (r : R) s : idle s -> idle (sess_write s (reads r)).
Proof.
  intros [Hl Hd Hk Hf Hv].
  constructor; [by cbn..| | |]; [by cbn; rewrite Hk|by cbn; rewrite Hf|].
  intros b. rewrite view_write, Hv. reflexivity.
Qed.

(** The driver's own error, when the statement's transaction may have been
    committed. *)
Definition unacknowledged (e : GoError) (s : sess Db lock) : Prop :=
  ss_done s = None \/ commit_error e.

Definition alone {R} (st : statement R) (r : R) (s : sess Db lock) (_ : Db) : Prop :=
  exists cx d, consistent d /\ out_reply (st cx d) = Ok r /\ committed (st cx d) d (ss_done s).

(** A statement, then the commit of its transaction. *)
Lemma commit_alone {R S} P (st : statement R) (fe : GoError -> program S) (fc : R -> res unit -> program S)
    s b (Q : S -> sess Db lock -> Db -> Prop) :
  idle s -> consistent b ->
  (forall cx d r, consistent d -> out_reply (st cx d) = Ok r -> tending P (st cx d) d) ->
  (forall e b', wp (tended P) (fe e) b' (sess_abort s) Q) ->
  (forall cx d r, consistent d -> out_reply (st cx d) = Ok r ->
     let o := st cx d in
     (forall b2 e, depend (out_locks o) d b2 -> commit_error e ->
        wp (tended P) (fc r (Err e)) b2 (sess_end None) Q)
     /\ forall b2 c, depend (out_locks o) d b2 -> commit_reply c ->
        wp (tended P) (fc r c) (out_write o b2) (sess_end (Some (b2, out_write o b2))) Q) ->
  wp (tended P) (Do st (fun r => match r with Ok a => Commit (fc a) | Err e => fe e end)) b s Q.
Proof.
  intros [Hl Hdn Hk Hf Hv] Hc H He Hok. apply wp_do; [done|intros b' e _; apply He|].
  intros b1 cx r Hd Hcx Hr. rewrite Hv in *.
  assert (Hc1 : consistent b1) by by apply (dp_consistent _ _ _ Hd).
  pose proof (H cx b1 r Hc1 Hr) as Ht. destruct (Hok cx b1 r Hc1 Hr) as [Hno Hyes].
  cbv zeta in Hno, Hyes. set (o := st cx b1) in *.
  intros b2 Hd2. cbn [ss_locks sess_write] in Hd2 |- *. rewrite Hk in Hd2 |- *.
  change ([] ++ out_locks o) with (out_locks o) in *.
  split; [intros e Hce; by apply Hno|]. intros _. rewrite view_write, Hv.
  destruct (Ht b2 Hd2) as (Hte & Hp & Hg); [by apply (dp_consistent _ _ _ Hd2)|].
  split_and!; [done| | |done|].
  - unfold triggers_pass. cbn. rewrite Hf. cbn. apply forallb_forall. rewrite Forall_forall in Hg.
    intros g Hin. apply Hg. by apply list_elem_of_In.
  - apply guar_protected; [done|apply tends_evolves, Hte|]. intros. eapply tends_consistent; [done|apply Hte].
  - intros c Hcr. by apply Hyes.
Qed.

Lemma autocommit_alone {R} P (st : statement R) s b :
  idle s -> consistent b ->
  (forall cx d r, consistent d -> out_reply (st cx d) = Ok r -> tending P (st cx d) d) ->
  wp (tended P) (autocommit st) b s (post unacknowledged (alone st)).
Proof.
  intros Hi Hc H. apply (commit_alone P st (fun e => Ret (Err e))
    (fun r c => match c with Ok _ => Ret (Ok r) | Err e => Ret (Err e) end)); [done..| |].
  - intros e b'. apply wp_done. intros b'' _. left. apply (id_done _ Hi).
  - intros cx d r Hcd Hr. split.
    + intros b2 e _ He. apply wp_done. intros b3 _. by right.
    + intros b2 [u|e] Hd He; apply wp_done; intros b3 _; cbn; [|by right].
      exists cx, d. split_and!; [done..|]. by exists b2.
Qed.

Lemma autocommit_triple {R} P (st : statement R) b :
  consistent b ->
  (forall cx d r, consistent d -> out_reply (st cx d) = Ok r -> tending P (st cx d) d) ->
  wp (tended P) (map_err dbError (autocommit st)) b fresh_sess (post failed (alone st)).
Proof.
  intros Hc H.
  apply (wp_bind_ret _ _ _ (fun r => match r with Ok a => Ok a | Err e => Err (dbError e) end));
    [by intros []|].
  eapply wp_post; [apply (autocommit_alone P st fresh_sess b fresh_idle Hc H)|].
  intros [r|e] s' b'; [done|]. intros [He|He]; [by left|right; by apply commit_error_code].
Qed.

(** Rows a statement answered, and the database since. *)
Definition arrived {R} (st : statement (list R)) (rows : list R) (d : Db) : Prop :=
  rows = [] \/ exists cx d0, consistent d0 /\ evolves d0 d /\ out_reply (st cx d0) = Ok rows.

(** [Query], then its rows: the error of the rows is returned as it is. *)
Definition streamed_post {R} (st : statement (list R)) (a : list R * option GoError)
    (s : sess Db lock) (d : Db) : Prop :=
  arrived st a.1 d /\ match a.2 with
                      | None => alone st a.1 s d
                      | Some e => failed e s
                      end.

Lemma query_rows_triple {R} P (st : statement (list R)) b :
  consistent b ->
  (forall cx d r, consistent d -> out_reply (st cx d) = Ok r -> tending P (st cx d) d) ->
  wp (tended P) (query_rows st) b fresh_sess (streamed_post st).
Proof.
  intros Hc H. apply wp_do; [done|intros b' e _; apply wp_done; intros b'' _; split; [by left|by left]|].
  intros b1 cx u Hd Hcx _.
  assert (Hi : idle (sess_write fresh_sess (send_query cx b1))) by apply idle_read, fresh_idle.
  apply (commit_alone P st (fun e => Ret ([], Some e))
    (fun r c => Ret (r, match c with Ok _ => None | Err e => Some e end))); [done| |done| |].
  - by apply (dp_consistent _ _ _ Hd).
  - intros e b'. apply wp_done. intros b'' _. split; [by left|]. left. apply (id_done _ Hi).
  - intros cx' d r Hcd Hr. split.
    + intros b2 e Hd2 (Hx & _). apply wp_done. intros b3 Hd3. split.
      * right. exists cx', d. split_and!; [done| |done].
        etrans; [apply (dp_evolves _ _ _ Hd2)|apply (dp_evolves _ _ _ Hd3)].
      * right. destruct Hx as (Ha & Hdm & _). unfold Code. by rewrite Ha, Hdm.
    + intros b2 c Hd2 Hcr. apply wp_done. intros b3 Hd3. split.
      * right. exists cx', d. split_and!; [done| |done].
        etrans; [apply (dp_evolves _ _ _ Hd2)|]. etrans; [|apply (dp_evolves _ _ _ Hd3)].
        apply tends_evolves, (H cx' d r Hcd Hr b2 Hd2), (dp_consistent _ _ _ Hd2), Hcd.
      * destruct c as [u'|e]; cbn.
        -- exists cx', d. split_and!; [done..|]. by exists b2.
        -- right. destruct Hcr as ((Ha & Hdm & _) & _). unfold Code. by rewrite Ha, Hdm.
Qed.

(** A reply computed from the rows affected. *)
Lemma autocommit_then {R S} (C : Db -> Db -> Prop) (st : statement R) (f : R -> program (res S))
    (g : R -> res S) b (Q : res S -> option (Db * Db) -> Prop) :
  (forall r, f r = Ret (g r)) -> (forall e (s : sess Db lock), failed e s -> Q (Err e) (ss_done s)) ->
  wp C (map_err dbError (autocommit st)) b fresh_sess
    (post failed (fun r s' _ => Q (g r) (ss_done s'))) ->
  wp C (andThen (map_err dbError (autocommit st)) f) b fresh_sess (fun r s' _ => Q r (ss_done s')).
Proof.
  intros Hf HQ H.
  apply (wp_bind_ret _ _ _ (fun r => match r with Ok a => g a | Err e => Err e end));
    [by intros []|].
  eapply wp_post; [exact H|]. intros [r|e] s b'; cbn; [done|]. apply HQ.
Qed.

(** Nothing was written. *)
Lemma tending_reads {R} P (r : R) d : tending P (reads r) d.
Proof.
  intros d' _ Hc. cbn. split_and!; [|apply protected_refl|done].
  split; [|by apply publishes_same]. constructor; try done; apply map_same_refl; [exact _|]. intros x. reflexivity.
Qed.

(** Rows of the outbox. *)
Lemma tending_outbox {A R} P (f : A -> outbox_row -> outbox_row) l (r : res R) locks d :
  (forall x y, outbox_grows y (f x y)) -> (forall x y, ob_published (f x y) = ob_published y) ->
  (forall i, LOutbox i ∉ locks -> i ∉ l.*1) ->
  tending P (mkOutcome r (set_outbox (alter_all f l)) locks []) d.
Proof.
  intros Hf Hp Hl d' _ Hc. cbn.
  assert (Ht : tends d' (set_outbox (alter_all f l) d')).
  { constructor; cbn; try done; [by apply map_same_refl; exact _|].
    apply alter_all_same; [exact _|done]. }
  split_and!; [split; [done|by apply publishes_altered]| |done].
  apply tends_protected; [done|done| |done]. intros i Hi. cbn. by apply alter_all_other, Hl.
Qed.

(** The leases of transactions: no lock but the rows' own is needed. *)
Lemma tending_wagers {A R} P (f : A -> option lease) l (r : res R) locks d :
  (forall i, LWager i ∉ locks -> i ∉ l.*1) -> (forall i, i ∈ l.*1 -> LWager i ∈ locks) ->
  (forall i, i ∈ l.*1 -> is_Some (wagers d !! i)) ->
  tending P (mkOutcome r (set_wagers (alter_all (fun x => wager_leased (f x)) l)) locks
    (verify_wager_ledger <$> l.*1)) d.
Proof.
  intros Hl Hlk Hin d' Hd Hc. cbn in *. set (v := set_wagers _ d').
  assert (Hsame : map_same same_books (wagers d') (wagers v)).
  { apply alter_all_same; [|done]. split; [exact _|]. intros a b0 c (?&?&?&?) (?&?&?&?).
    unfold same_books. split_and!; congruence. }
  assert (Ht : tends d' v) by (constructor; try done; apply map_same_refl; intros x; reflexivity).
  assert (Hcv : consistent v) by by eapply tends_consistent.
  split_and!; [split; [done|by apply publishes_same]| |].
  - apply tends_protected; [done| |done|].
    + intros i Hi. cbn. by apply alter_all_other, Hl.
    + intros w _ i. unfold own. cbn.
      assert (Hs : map_same (fun r r' => strip r' = strip r) (wagers d') (wagers v)).
      { apply alter_all_same; [|done]. split; [by intros x|]. intros a b0 c H1 H2. congruence. }
      specialize (Hs i). destruct (wagers d' !! i) as [r0|] eqn:E0, (alter_all _ _ _ !! i) as [r1|] eqn:E1;
        cbn in Hs; rewrite E1 in Hs; try done.
      unfold wallet_of. rewrite <- Hs. assert (tr_request r1 = tr_request r0) as -> by by injection Hs.
      done.
  - rewrite Forall_fmap, Forall_forall. intros i Hi. cbn. destruct (Hin i Hi) as [r0 Hr0].
    destruct (map_same_grows _ _ _ Hsame i r0) as (r1 & Hr1 & _).
    + rewrite (pt_wager _ _ _ (dp_protected _ _ _ Hd)); [done|by apply Hlk].
    + by eapply consistent_verify.
Qed.

(** ** Claims *)

Lemma leased_map {A B} cx owner ms (g : ID -> B) (l : list (ID * A)) :
  (fun x => g x.1.1) <$> leased cx owner ms l = g <$> l.*1.
Proof. rewrite <- (leased_fst cx owner ms l), <- !list_fmap_compose. done. Qed.

(** The server's clock does not run backwards within the statement: the rows are
    examined before they are written. *)
Definition clock_forward (cx : Cx) : Prop := forall i k n, cx_scan cx i k <= cx_now cx n.

(** The lease [t] starts after the one it replaces had ended. *)
Definition takes_over (cx : Cx) (duration : Z) (old : option lease) (t : lease) : Prop :=
  clock_forward cx -> forall o, old = Some o -> ls_until o < ls_until t - duration.

(** What [ClaimOutbox] hands out: events that were due by the readings of the
    statement's own clock, each under a lease of its own that replaces one that
    had run out. *)
Record outbox_claimed (owner : string) (limit duration : Z) (l : list OutboxRecord) (b v : Db) : Prop := {
  ol_limit : Z.of_nat (length l) <= limit;
  ol_distinct : NoDup (orEventID <$> l);
  ol_claimed : exists cx, forall x, x ∈ l -> exists i r t,
    x = outbox_record (i, r, t) /\ outbox b !! i = Some r /\ unpublished r = true
    /\ ob_next r <= cx_clock_at cx i 0 /\ lease_over (cx_clock_at cx i 1) (ob_lease r) = true
    /\ ls_by t = owner /\ takes_over cx (Milliseconds duration * Millisecond) (ob_lease r) t
    /\ outbox v !! i = Some (outbox_leased (Some t) r);
  ol_rest : forall i, ID_String i ∉ (orEventID <$> l) -> outbox v !! i = outbox b !! i
}.

Record references_claimed (owner : string) (limit duration : Z) (l : list ReferenceClaim) (b v : Db) : Prop := {
  rl_limit : Z.of_nat (length l) <= limit;
  rl_distinct : NoDup (rcTransactionID <$> l);
  rl_claimed : exists cx, forall x, x ∈ l -> exists i r t next,
    x = reference_claim (i, r, t) /\ wagers b !! i = Some r
    /\ status_of r = StatusPendingReference /\ tr_next r = Some next /\ next <= cx_clock_at cx i 0
    /\ lease_over (cx_clock_at cx i 1) (tr_lease r) = true /\ ls_by t = owner
    /\ takes_over cx (Milliseconds duration * Millisecond) (tr_lease r) t
    /\ wagers v !! i = Some (wager_leased (Some t) r);
  rl_rest : forall i, ID_String i ∉ (rcTransactionID <$> l) -> wagers v !! i = wagers b !! i
}.

Section claims.
Context {A R : Type} (cx : Cx) (P : ID -> A -> bool) (key : ID -> A -> Z * Z * ID).
Context (owner : string) (limit ms : Z) (m m' : gmap ID A).
Context (render : ID * A * lease -> R) (id_of : R -> string) (f : lease -> A -> A).
Local Notation cands := (candidates cx P key limit m).
Local Notation claimed := (leased cx owner ms cands).
Local Notation altered := (alter_all f ((fun x => (x.1.1, x.2)) <$> claimed) m').
Context (Hid : forall x, id_of (render x) = ID_String x.1.1).
Context (Hsame : forall i, i ∈ cands.*1 -> m' !! i = m !! i) (Hlimit : 0 <= limit).

Lemma claim_ids : id_of <$> (render <$> claimed) = ID_String <$> cands.*1.
Proof using Hid.
  rewrite <- list_fmap_compose. rewrite <- (leased_map cx owner ms). apply list_fmap_ext.
  intros n x _. apply Hid.
Qed.

Lemma claim_limit : Z.of_nat (length (render <$> claimed)) <= limit.
Proof using Hlimit.
  rewrite length_fmap. unfold leased. rewrite length_imap.
  destruct (candidates_spec cx P key limit m) as (_ & Hl & _). lia.
Qed.

Lemma claim_distinct : NoDup (id_of <$> (render <$> claimed)).
Proof using Hid.
  rewrite claim_ids. destruct (candidates_spec cx P key limit m) as (Hnd & _).
  apply NoDup_fmap_2; [|done]. intros i j. apply ID_String_inj.
Qed.

Lemma claim_row y : y ∈ render <$> claimed ->
  exists i r n, let t := new_lease cx owner ms n in
  y = render (i, r, t) /\ m' !! i = Some r /\ P i r = true /\ altered !! i = Some (f t r).
Proof using Hsame.
  intros Hy. apply list_elem_of_fmap in Hy as ([[i r] t] & -> & Hin).
  pose proof Hin as Hin'. apply leased_elem in Hin' as [Hc (n & ->)].
  destruct (candidates_spec cx P key limit m) as (Hnd & _ & Hs). destruct (Hs i r Hc) as (Hm & HP & _).
  assert (Hi : i ∈ cands.*1) by (apply list_elem_of_fmap; by exists (i, r)).
  exists i, r, n. cbv zeta. split_and!; [done|by rewrite Hsame|done|].
  rewrite (alter_all_lookup f _ m' i (new_lease cx owner ms n)); [by rewrite Hsame, Hm|by rewrite leased_fst|].
  apply list_elem_of_fmap. by exists (i, r, new_lease cx owner ms n).
Qed.

Lemma claim_rest i : ID_String i ∉ (id_of <$> (render <$> claimed)) -> altered !! i = m' !! i.
Proof using Hid.
  rewrite claim_ids. intros Hi. apply alter_all_other. rewrite leased_fst. intros Hin.
  apply Hi, list_elem_of_fmap. by exists i.
Qed.
End claims.

Lemma bad_claim_ok owner limit lease : bad_claim owner limit lease = false ->
  1 <= limit <= MaxOutboxBatch /\ 0 < lease /\ owner <> "".
Proof. unfold bad_claim. intros H. bools. split_and!; try done; lia. Qed.

(** A record says what its row says, now and later. *)
Definition offers_event (d : Db) (x : OutboxRecord) : Prop :=
  exists i r, outbox d !! i = Some r /\ orEventID x = ID_String i /\ orEventType x = ob_type r
    /\ orAggregateID x = ID_String (ob_aggregate r) /\ orPayload x = ob_payload r.
Definition offers_reference (d : Db) (x : ReferenceClaim) : Prop :=
  exists i r, wagers d !! i = Some r /\ rcTransactionID x = ID_String i
    /\ rcWalletID x = ID_String (wallet_of r).

Lemma offers_event_evolves d d' x : evolves d d' -> offers_event d x -> offers_event d' x.
Proof.
  intros He (i & r & Hi & ? & ? & ? & ?). destruct (ev_outbox _ _ He _ _ Hi) as (r' & Hi' & Hg).
  destruct Hg as (? & _ & ? & _ & _ & ? & _). exists i, r'. split_and!; congruence.
Qed.
Lemma offers_reference_evolves d d' x : evolves d d' -> offers_reference d x -> offers_reference d' x.
Proof.
  intros He (i & r & Hi & ? & ?). destruct (ev_wagers _ _ He _ _ Hi) as (r' & Hi' & (Hq & _)).
  exists i, r'. unfold wallet_of in *. split_and!; congruence.
Qed.

(** What a worker's claim may answer: rows that exist, and without an error the
    rows it committed to its owner. *)
Definition claim_post {R} (offers : Db -> R -> Prop) (P : list R -> Db -> Db -> Prop)
    (a : list R * option GoError) (commit : option (Db * Db)) (d : Db) : Prop :=
  Forall (offers d) a.1 /\ match a.2 with
  | None => exists b v, commit = Some (b, v) /\ P a.1 b v
  | Some e => commit = None \/ Code e = "UNAVAILABLE"
  end.

Lemma claim_post_evolves {R} (offers : Db -> R -> Prop) P a commit d d' :
  (forall x, offers d x -> offers d' x) -> claim_post offers P a commit d -> claim_post offers P a commit d'.
Proof. intros H [Ho Hp]. split; [|done]. by eapply Forall_impl. Qed.

(** The rows a claim answered, from where they were. *)
Lemma claim_offers {R} (st : statement (list R)) (offers : Db -> R -> Prop) rows d :
  (forall d d' x, evolves d d' -> offers d x -> offers d' x) ->
  (forall cx d0 l, out_reply (st cx d0) = Ok l -> Forall (offers d0) l) ->
  arrived st rows d -> Forall (offers d) rows.
Proof.
  intros He Ho [->|(cx & d0 & _ & Hev & Hr)]; [done|].
  eapply Forall_impl; [by eapply Ho|]. intros x. by apply He.
Qed.

Lemma claimed_rows {A R} cx (P : ID -> A -> bool) key limit (m : gmap ID A) owner ms (render : ID * A * lease -> R) :
  Forall (fun y => exists i r t, y = render (i, r, t) /\ m !! i = Some r)
    (render <$> leased cx owner ms (candidates cx P key limit m)).
Proof.
  apply Forall_fmap, Forall_forall. intros [[i r] t] Hin. apply leased_elem in Hin as [Hin _].
  destruct (candidates_spec cx P key limit m) as (_ & _ & Hs). destruct (Hs i r Hin) as (Hm & _).
  cbn. by exists i, r, t.
Qed.

(** The lease of a row whose old one was over when the row was examined. *)
Lemma new_lease_takes_over cx owner ms i k n old :
  lease_over (cx_clock_at cx i k) old = true ->
  takes_over cx (ms * Millisecond) old (new_lease cx owner ms n).
Proof.
  unfold takes_over, clock_forward, cx_clock_at, lease_over. intros Ho H o ->. specialize (H i k n). bools.
  unfold new_lease, cx_clock. cbn [ls_until]. assert (timestamptz (cx_scan cx i k) <= timestamptz (cx_now cx n)).
  { unfold timestamptz. apply Z.mul_le_mono_nonneg_l; [done|]. by apply Z.div_le_mono. }
  lia.
Qed.

(** What the two statements are when they answer. *)
Definition outbox_candidates (cx : Cx) (limit : Z) (d : Db) : list (ID * outbox_row) :=
  candidates cx (outbox_due cx) (fun i r => (ob_next r, ob_occurred r, i)) limit (outbox d).
Definition reference_candidates (cx : Cx) (limit : Z) (d : Db) : list (ID * wager_row) :=
  candidates cx (reference_due cx) (fun i r => (default 0 (tr_next r), rq_created (tr_request r), i)) limit (wagers d).

Lemma claim_outbox_Ok owner limit ms cx d l :
  out_reply (claim_outbox owner limit ms cx d) = Ok l ->
  let claimed := leased cx owner ms (outbox_candidates cx limit d) in
  l = outbox_record <$> claimed
  /\ claim_outbox owner limit ms cx d =
     mkOutcome (Ok l) (set_outbox (alter_all (fun l => outbox_leased (Some l)) ((fun x => (x.1.1, x.2)) <$> claimed)))
       (LOutbox <$> (outbox_candidates cx limit d).*1) [].
Proof.
  unfold claim_outbox, outbox_candidates. intros H. texts_pass H. injection H as <-.
  by rewrite (leased_map cx owner ms LOutbox).
Qed.

Lemma claim_references_Ok owner limit ms cx d l :
  out_reply (claim_references owner limit ms cx d) = Ok l ->
  let claimed := leased cx owner ms (reference_candidates cx limit d) in
  l = reference_claim <$> claimed
  /\ claim_references owner limit ms cx d =
     mkOutcome (Ok l) (set_wagers (alter_all (fun l => wager_leased (Some l)) ((fun x => (x.1.1, x.2)) <$> claimed)))
       (LWager <$> (reference_candidates cx limit d).*1)
       (verify_wager_ledger <$> (reference_candidates cx limit d).*1).
Proof.
  unfold claim_references, reference_candidates. intros H. texts_pass H. injection H as <-.
  by rewrite (leased_map cx owner ms LWager), (leased_map cx owner ms verify_wager_ledger).
Qed.

Lemma ClaimOutbox_triple owner limit lease b :
  consistent b ->
  wp (tended (fun _ => False)) (ClaimOutbox owner limit lease) b fresh_sess
    (fun r s' b' => claim_post offers_event (outbox_claimed owner limit lease) r (ss_done s') b').
Proof.
  intros Hc. unfold ClaimOutbox. destruct (bad_claim _ _ _) eqn:Eb; [intros ? _; by split; [|left]|].
  apply bad_claim_ok in Eb as ([H1 _] & _).
  eapply wp_post; [apply query_rows_triple; [done|]|].
  - intros cx d r _ Hr. destruct (claim_outbox_Ok _ _ _ _ _ _ Hr) as [_ ->].
    apply tending_outbox; [by intros; unfold outbox_grows|done|].
    intros i Hi. rewrite leased_fst. intros Hin. apply Hi, list_elem_of_fmap. by exists i.
  - intros [l e] s b' [Harr Hp]. cbn [fst snd] in *. split.
    { eapply claim_offers; [apply offers_event_evolves| |exact Harr]. intros cx d l' [-> _]%claim_outbox_Ok.
      eapply Forall_impl; [apply claimed_rows|]. intros y (i & r & t & -> & Hi). by exists i, r. }
    destruct e as [e|]; [exact Hp|]. destruct Hp as (cx & d & Hcd & Hr & b1 & Hd & ->).
    eexists _, _. split; [done|]. destruct (claim_outbox_Ok _ _ _ _ _ _ Hr) as [-> E]. rewrite E in *. cbn in Hd |- *.
    assert (Hsame : forall i, i ∈ (outbox_candidates cx limit d).*1 -> outbox b1 !! i = outbox d !! i).
    { intros i Hi. apply (pt_outbox _ _ _ (dp_protected _ _ _ Hd)). apply list_elem_of_fmap. by exists i. }
    constructor.
    + apply claim_limit. lia.
    + apply claim_distinct. by intros [[? ?] ?].
    + exists cx. intros x Hx.
      eapply (claim_row _ _ _ _ _ _ _ _ outbox_record (fun l => outbox_leased (Some l)) Hsame) in Hx.
      destruct Hx as (i & r & n & -> & Hr' & HP & Hv). eexists i, r, _. split; [done|].
      unfold outbox_due in HP. bools. split_and!; try done; try lia. by eapply new_lease_takes_over.
    + intros i Hi. by eapply claim_rest; [|exact Hi]; intros [[? ?] ?].
Qed.

Lemma ClaimReferences_triple owner limit lease b :
  consistent b ->
  wp (tended (fun _ => False)) (ClaimReferences owner limit lease) b fresh_sess
    (fun r s' b' => claim_post offers_reference (references_claimed owner limit lease) r (ss_done s') b').
Proof.
  intros Hc. unfold ClaimReferences. destruct (bad_claim _ _ _) eqn:Eb; [intros ? _; by split; [|left]|].
  apply bad_claim_ok in Eb as ([H1 _] & _).
  eapply wp_post; [apply query_rows_triple; [done|]|].
  - intros cx d r _ Hr. destruct (claim_references_Ok _ _ _ _ _ _ Hr) as [_ ->].
    rewrite <- (leased_fst cx owner (Milliseconds lease)). apply (tending_wagers _ Some).
    + intros i Hi Hin. apply Hi, list_elem_of_fmap. by exists i.
    + intros i Hi. apply list_elem_of_fmap. by exists i.
    + intros i Hi. rewrite leased_fst in Hi. apply list_elem_of_fmap in Hi as ([j r0] & -> & Hin).
      apply candidates_spec in Hin as (Hr0 & _). by exists r0.
  - intros [l e] s b' [Harr Hp]. cbn [fst snd] in *. split.
    { eapply claim_offers; [apply offers_reference_evolves| |exact Harr]. intros cx d l' [-> _]%claim_references_Ok.
      eapply Forall_impl; [apply claimed_rows|]. intros y (i & r & t & -> & Hi). by exists i, r. }
    destruct e as [e|]; [exact Hp|]. destruct Hp as (cx & d & Hcd & Hr & b1 & Hd & ->).
    eexists _, _. split; [done|]. destruct (claim_references_Ok _ _ _ _ _ _ Hr) as [-> E]. rewrite E in *. cbn in Hd |- *.
    assert (Hsame : forall i, i ∈ (reference_candidates cx limit d).*1 -> wagers b1 !! i = wagers d !! i).
    { intros i Hi. apply (pt_wager _ _ _ (dp_protected _ _ _ Hd)). apply list_elem_of_fmap. by exists i. }
    constructor.
    + apply claim_limit. lia.
    + apply claim_distinct. by intros [[? ?] ?].
    + exists cx. intros x Hx.
      eapply (claim_row _ _ _ _ _ _ _ _ reference_claim (fun l => wager_leased (Some l)) Hsame) in Hx.
      destruct Hx as (i & r & n & -> & Hr' & HP & Hv). unfold reference_due, waiting in HP.
      destruct (tr_next r) as [next|] eqn:En; [|by bools]. eexists i, r, _, next. split; [done|].
      bools. split_and!; try done; try lia. by eapply new_lease_takes_over.
    + intros i Hi. by eapply claim_rest; [|exact Hi]; intros [[? ?] ?].
Qed.

(** A claim that has room takes every event that is unpublished, due and free,
    unless another session holds its row at that moment. *)
Lemma claim_takes owner limit ms cx d l i r :
  out_reply (claim_outbox owner limit ms cx d) = Ok l -> 0 <= limit ->
  outbox d !! i = Some r -> outbox_due cx i r = true -> cx_skip cx i = false ->
  ID_String i ∈ (orEventID <$> l) \/ Z.of_nat (length l) = limit.
Proof.
  intros H Hlim Hi Hdue Hs. destruct (claim_outbox_Ok _ _ _ _ _ _ H) as [-> _].
  destruct (candidates_take cx (outbox_due cx) (fun i r => (ob_next r, ob_occurred r, i)) limit (outbox d) i r) as [Hin|Hl];
    [done..| |].
  - left. unfold outbox_candidates. rewrite (claim_ids cx (outbox_due cx) _ owner limit ms (outbox d) outbox_record orEventID) by by intros [[? ?] ?].
    apply list_elem_of_fmap. exists i. split; [done|]. apply list_elem_of_fmap. by exists (i, r).
  - right. rewrite length_fmap. unfold leased. rewrite length_imap. unfold outbox_candidates. lia.
Qed.

(** ** Publication *)

(** The claim on an unpublished event is the one [token] names. *)
Definition claim_current (id token : string) (d : Db) (i t : ID) (row : outbox_row) : Prop :=
  ParseID id = Ok i /\ ParseID token = Ok t /\ outbox d !! i = Some row
  /\ ls_token <$> ob_lease row = Some t /\ unpublished row = true.

(** [MarkPublished] and [RetryOutbox]: the update went through exactly when the
    token was the one of the current claim; otherwise nothing changed. *)
Definition update_post (id token : string) (f : outbox_row -> outbox_row -> Prop) (r : res unit)
    (commit : option (Db * Db)) : Prop :=
  match r with
  | Ok _ => exists b v i t row row', commit = Some (b, v) /\ claim_current id token b i t row
      /\ f row row' /\ v = set_outbox (<[i := row']>) b
  | Err e => commit = None \/ Code e = "UNAVAILABLE"
      \/ e = AppError "CLAIM_LOST" /\ exists d b, commit = Some (b, b) /\ evolves d b
         /\ forall i t row, ~ claim_current id token d i t row
  end.

Lemma update_claimed_triple P id token ok f (F : outbox_row -> outbox_row -> Prop) b :
  consistent b ->
  (forall cx r, unpublished r = true -> outbox_grows r (f cx r)) -> (forall cx r, F r (f cx r)) ->
  (forall cx r i, unpublished r = true -> ParseID id = Ok i -> P i \/ ob_published (f cx r) = None) ->
  wp (tended P) (tag <-- map_err dbError (autocommit (update_claimed id token ok f));; claim_lost tag)
    b fresh_sess (fun r s' _ => update_post id token F r (ss_done s')).
Proof.
  intros Hc Hf HF HP.
  apply (autocommit_then _ _ _ (fun n => if n =? 0 then Err (AppError "CLAIM_LOST") else Ok tt)).
  { intros n. unfold claim_lost. by destruct (n =? 0). }
  { intros e s [He|He]; [by left|by right; left]. }
  eapply wp_post; [apply autocommit_triple; [done|]|].
  - intros cx d n Hcd. unfold update_claimed. intros Hr.
    destruct (uuid_in id) as [i|] eqn:Eid; [|done]. destruct (uuid_in token) as [t|]; [|done].
    destruct (outbox d !! i) as [row|] eqn:Erow; [|apply tending_reads].
    destruct (negb (_ && _)) eqn:Etok; [apply tending_reads|]. destruct (negb (ok row)); [done|]. bools.
    intros d' Hd Hcd'. cbn in Hd |- *.
    assert (Erow' : outbox d' !! i = Some row).
    { rewrite (pt_outbox _ _ _ (dp_protected _ _ _ Hd)); [done|]. by apply list_elem_of_singleton. }
    assert (Ht : tends d' (set_outbox (alter (f cx) i) d')).
    { constructor; cbn; try done; [by apply map_same_refl; exact _|]. intros j.
      destruct (decide (i = j)) as [<-|Hne].
      - rewrite lookup_alter_eq, Erow'. by apply Hf.
      - rewrite lookup_alter_ne by done. destruct (outbox d' !! j); [reflexivity|done]. }
    split_and!; [split; [done|]| |done].
    { intros j y Hj Hy. cbn in Hj. destruct (decide (i = j)) as [<-|Hne].
      - rewrite lookup_alter_eq, Erow' in Hj. injection Hj as <-. left. unfold uuid_in in Eid.
        destruct (ParseID id) as [i'|] eqn:Ei; [|done]. injection Eid as ->.
        by destruct (HP cx row i H0 eq_refl).
      - rewrite lookup_alter_ne in Hj by done. right. by exists y. }
    apply tends_protected; [done|done| |done]. intros j Hj. cbn.
    rewrite lookup_alter_ne; [done|]. intros ->. apply Hj. by apply list_elem_of_singleton.
  - intros [n|e] s b'; [|done]. cbn. intros (cx & d & Hcd & Hr & b1 & Hd & ->).
    unfold update_claimed, uuid_in in *.
    destruct (ParseID id) as [i|] eqn:Ei; [|done]. destruct (ParseID token) as [t|] eqn:Et; [|done].
    destruct (outbox d !! i) as [row|] eqn:Erow.
    2:{ injection Hr as <-. right. right. split; [done|]. exists d, b1. split; [done|].
        split; [apply (dp_evolves _ _ _ Hd)|]. intros i' t' r (H1 & _ & H3 & _). congruence. }
    destruct (negb (bool_decide _ && _)) eqn:Etok.
    { injection Hr as <-. right. right. split; [done|]. exists d, b1. split; [done|].
      split; [apply (dp_evolves _ _ _ Hd)|]. intros i' t' r (H1 & H2 & H3 & H4 & H5). bools.
      assert (i' = i) as -> by congruence. assert (t' = t) as -> by congruence.
      assert (r = row) as -> by congruence. rewrite H4, H5, bool_decide_refl in Etok. done. }
    destruct (negb (ok row)); [done|]. injection Hr as <-. bools. cbn in Hd.
    assert (Erow' : outbox b1 !! i = Some row).
    { rewrite (pt_outbox _ _ _ (dp_protected _ _ _ Hd)); [done|]. by apply list_elem_of_singleton. }
    exists b1, (set_outbox (alter (f cx) i) b1), i, t, row, (f cx row). split_and!; try done.
    unfold set_outbox. by rewrite (alter_insert _ _ _ _ Erow').
Qed.

Lemma MarkPublished_triple id token b :
  consistent b ->
  wp (tended (fun i => ParseID id = Ok i)) (MarkPublished id token) b fresh_sess
    (fun r s' _ => update_post id token (fun r r' => exists t, r' = outbox_published t r) r (ss_done s')).
Proof.
  intros Hc. unfold MarkPublished, mark_published. apply update_claimed_triple; [done| | |by left].
  - intros cx r. unfold unpublished, outbox_grows. intros Hu. cbn. split_and!; try done.
    by destruct (ob_published r).
  - intros cx r. by eexists.
Qed.

Lemma RetryOutbox_triple id token delay b :
  consistent b ->
  wp (tended (fun _ => False)) (RetryOutbox id token delay) b fresh_sess
    (fun r s' _ => update_post id token (fun r r' => exists t, r' = outbox_retried t r) r (ss_done s')).
Proof.
  intros Hc. unfold RetryOutbox, retry_outbox. apply update_claimed_triple; [done| | |].
  - intros cx r _. unfold outbox_grows. by cbn.
  - intros cx r. by eexists.
  - intros cx r i Hu _. right. unfold unpublished in Hu. cbn. by destruct (ob_published r).
Qed.

(** ** Release *)

(** Only leases of [owner] are gone. *)
Definition released_outbox (owner : string) (b v : Db) : Prop :=
  forall i, outbox v !! i = outbox b !! i
    \/ exists r, outbox b !! i = Some r /\ owned owner (ob_lease r) = true /\ unpublished r = true
       /\ outbox v !! i = Some (outbox_leased None r).

Definition released_references (owner : string) (b v : Db) : Prop :=
  forall i, wagers v !! i = wagers b !! i
    \/ exists r, wagers b !! i = Some r /\ owned owner (tr_lease r) = true /\ waiting r = true
       /\ wagers v !! i = Some (wager_leased None r).

(** A release's post: what it committed, or nothing. *)
Definition release_post (P : Db -> Db -> Prop) (r : res unit) (commit : option (Db * Db)) : Prop :=
  match r with
  | Ok _ => exists b v, commit = Some (b, v) /\ P b v
  | Err e => commit = None \/ Code e = "UNAVAILABLE"
  end.

Section release.
Context {A : Type} (P : A -> bool) (f : A -> A) (m m' : gmap ID A).
Local Notation ids := (filter (fun x => Is_true (P x.2)) (map_to_list m)).
Context (Hsame : forall i, i ∈ ids.*1 -> m' !! i = m !! i).

Lemma release_ids : NoDup ids.*1.
Proof using Type.
  pose proof (NoDup_fst_map_to_list m) as Hnd. clear Hsame.
  induction (map_to_list m) as [|x l IH]; [done|]. cbn in Hnd. apply NoDup_cons in Hnd as [Hx Hnd].
  rewrite filter_cons. destruct (decide _); [|by apply IH]. cbn. constructor; [|by apply IH].
  intros Hin. apply Hx. apply list_elem_of_fmap in Hin as (y & -> & Hy).
  apply list_elem_of_filter in Hy as [_ Hy]. apply list_elem_of_fmap. by exists y.
Qed.

Lemma release_elem i : i ∈ ids.*1 -> exists r, m !! i = Some r /\ P r = true /\ (i, r) ∈ ids.
Proof using Type.
  intros Hi. apply list_elem_of_fmap in Hi as ([j r] & -> & Hin). exists r.
  pose proof Hin as Hin'. apply list_elem_of_filter in Hin' as [HP Hm].
  apply elem_of_map_to_list in Hm. split_and!; [done|by apply Is_true_true in HP|done].
Qed.

Lemma release_rows i :
  alter_all (fun _ => f) ids m' !! i = m' !! i
  \/ exists r, m' !! i = Some r /\ P r = true /\ alter_all (fun _ => f) ids m' !! i = Some (f r).
Proof using Hsame.
  destruct (decide (i ∈ ids.*1)) as [Hi|Hi]; [right|left; by apply alter_all_other].
  destruct (release_elem i Hi) as (r & Hr & HP & Hin). exists r.
  rewrite (alter_all_lookup (fun _ => f) ids m' i r release_ids Hin), Hsame, Hr by done. done.
Qed.
End release.

Lemma release_outbox_triple owner b :
  consistent b ->
  wp (tended (fun _ => False)) (map_err dbError (autocommit (release_outbox owner))) b fresh_sess
    (fun r s' _ => release_post (released_outbox owner) r (ss_done s')).
Proof.
  intros Hc. eapply wp_post; [apply autocommit_triple; [done|]|].
  - intros cx d r _ Hr. unfold release_outbox, writes in *. texts_pass Hr. apply tending_outbox; [by intros; unfold outbox_grows|done|].
    intros i Hi Hin. apply list_elem_of_fmap in Hin as (x & -> & Hin). apply Hi, list_elem_of_fmap. by exists x.
  - intros [u|e] s b'; [|done]. cbn. intros (cx & d & Hcd & Hr & b1 & Hd & ->). unfold release_outbox in *. texts_pass Hr.
    eexists _, _. split; [done|]. intros i. cbn in Hd |- *. clear Hr.
    destruct (release_rows (fun r => owned owner (ob_lease r) && unpublished r) (outbox_leased None)
      (outbox d) (outbox b1)) with (i := i) as [?|(r & Hr & HP & Hv)].
    + intros j Hj. apply (pt_outbox _ _ _ (dp_protected _ _ _ Hd)).
      apply list_elem_of_fmap in Hj as (x & -> & Hin). apply list_elem_of_fmap. by exists x.
    + by left.
    + right. exists r. bools. done.
Qed.

Lemma release_references_triple owner b :
  consistent b ->
  wp (tended (fun _ => False)) (map_err dbError (autocommit (release_references owner))) b fresh_sess
    (fun r s' _ => release_post (released_references owner) r (ss_done s')).
Proof.
  intros Hc. eapply wp_post; [apply autocommit_triple; [done|]|].
  - intros cx d r _ Hr. unfold release_references, writes in *. texts_pass Hr. clear Hr.
    set (ids := filter _ _).
    replace ((fun x => verify_wager_ledger x.1) <$> ids) with (verify_wager_ledger <$> ids.*1)
      by (by rewrite <- list_fmap_compose).
    replace ((fun x => LWager x.1) <$> ids) with (LWager <$> ids.*1) by (by rewrite <- list_fmap_compose).
    apply (tending_wagers _ (fun _ => None)).
    + intros i Hi Hin. apply Hi, list_elem_of_fmap. by exists i.
    + intros i Hi. apply list_elem_of_fmap. by exists i.
    + intros i Hi.
      destruct (release_elem (fun r => owned owner (tr_lease r) && waiting r) (wagers d) i Hi) as (r0 & ? & _).
      by exists r0.
  - intros [u|e] s b'; [|done]. cbn. intros (cx & d & Hcd & Hr & b1 & Hd & ->). unfold release_references in *. texts_pass Hr.
    eexists _, _. split; [done|]. intros i. cbn in Hd |- *. clear Hr.
    destruct (release_rows (fun r => owned owner (tr_lease r) && waiting r) (wager_leased None)
      (wagers d) (wagers b1)) with (i := i) as [?|(r & Hr & HP & Hv)].
    + intros j Hj. apply (pt_wager _ _ _ (dp_protected _ _ _ Hd)).
      apply list_elem_of_fmap in Hj as (x & -> & Hin). apply list_elem_of_fmap. by exists x.
    + by left.
    + right. exists r. bools. done.
Qed.

(** ** Queue sizes *)

(** [Backlog] reads, and commits nothing. *)
Lemma GetBacklog_triple C b :
  wp C GetBacklog b fresh_sess (fun _ s' _ => ss_done s' = None).
Proof.
  apply wp_do; [done|intros b' e _; by apply wp_done|].
  intros b1 cx [[o r] ms] Hd Hcx Hr. by apply wp_done.
Qed.
