(* ===== verification/Waiting.v ===== *)
(** * A claimed transaction: what a session of [RetryReference] knows

    The transaction a worker claimed, once its wallet and its row are locked,
    and the maintenance updates that keep its request and its result. *)

From S2P Require Import Prelude GoStd Codec Errors Ident Money Wallet Ledger Wager Evaluate.
From S2P Require Import Command Events Session Rules Database Sql Store Work Rows Books Settle.
From S2P Require Import Pending Reference Verdict Applying Emitting Apply Committing Delivering.
From S2P Require Import Replaying Admitting Tending.
Import Str.
#[local] Open Scope prog_scope.

(** ** Rows with the same books *)

#[global] Instance same_books_preorder : PreOrder same_books.
Proof.
  split; [by intros r|]. intros a b c (?&?&?&?) (?&?&?&?). unfold same_books. split_and!; congruence.
Qed.

Lemma same_books_sym r r' : same_books r r' -> same_books r' r.
Proof. intros (?&?&?&?). by unfold same_books. Qed.

Lemma same_books_strip r r' : same_books r r' -> status_of r' = status_of r /\ wallet_of r' = wallet_of r.
Proof. intros (Hq & Ho & _). unfold status_of, wallet_of. by rewrite Hq, Ho. Qed.

Lemma event_of_same i r r' y : same_books r r' -> event_of i r y -> event_of i r' y.
Proof.
  intros Hs. pose proof (data_of_same i _ _ Hs) as Hd. destruct (same_books_strip _ _ Hs) as [Hst Hw].
  unfold event_of. by rewrite Hst, Hw, Hd.
Qed.

Lemma announced_same o i r r' : same_books r r' -> announced o i r -> announced o i r'.
Proof. intros Hs (j & b & Hj & He). exists j, b. split; [done|]. by eapply event_of_same. Qed.

Lemma notices_same i r r' pe evs : same_books r r' -> notices i r pe evs -> notices i r' pe evs.
Proof.
  intros Hs. unfold notices. destruct pe, evs as [|? [|? [|]]]; try done; [|by apply event_of_same].
  intros [He ?]. split; [by eapply event_of_same|done].
Qed.

Lemma decided_same b w i wrow r r' pw pe :
  same_books r r' -> decided b w i wrow r pw pe -> decided b w i wrow r' pw pe.
Proof.
  intros Hs [H1 H2 H3 H4]. pose proof (data_of_same i _ _ Hs) as Hd.
  destruct (same_books_strip _ _ Hs) as [Hst Hw]. destruct Hs as (Hq & Ho & _).
  constructor; rewrite ?Hst, ?Hq, ?Ho, ?Hd; try done.
  - intros y. unfold reverses. rewrite Hq, Ho. apply H3.
  - destruct pw, pe; unfold moving in *; rewrite ?Hst, ?Hq; try done.
    destruct H4 as (? & [M1 M2 M3 M4 M5] & He & H4). split; [done|]. split; [|split; [|exact H4]].
    + constructor; by rewrite ?Hw, ?Hq, ?Ho.
    + unfold expected_direction in *. by rewrite Hq, Ho.
Qed.

(** A pending settlement whose row had a maintenance update. *)
Definition en_maintained (x : ending) (r : wager_row) : ending :=
  mkEnding r (en_moved x) (en_entry x) (en_events x).

Lemma ended_maintained w i wrow fi x r s b s' b' :
  ended w i wrow fi x s b -> same_books (en_row x) r ->
  holding s' b' w i wrow (en_pend (en_maintained x r) fi) -> onward s b s' b' ->
  ended w i wrow fi (en_maintained x r) s' b'.
Proof.
  intros [E1 E2 E3 E4 E5] Hs Hh Ho. pose proof (ho_lock _ _ _ _ _ _ E1) as Hl.
  constructor; cbn [en_row en_moved en_entry en_events en_maintained]; [done|..].
  - eapply decided_same; [exact Hs|]. eapply decided_rely; [exact Hl|apply Ho| |done].
    apply (ho_consistent _ _ _ _ _ _ E1).
  - by eapply emitted_onward.
  - destruct E4 as [?|(Hw & ? & ? & Ha)]; [left; by eapply notices_same|right].
    split_and!; [by rewrite (proj1 (same_books_strip _ _ Hs))|done..|]. eapply announced_same; [exact Hs|].
    eapply announced_evolves; [|exact Ha]. apply (ev_outbox _ _ (dp_evolves _ _ _ (proj2 Ho))).
  - intros e He. eapply mine_onward; [by apply E5|done].
Qed.

(** ** Maintenance updates *)

Definition with_row (p : pend) (r : wager_row) : pend :=
  mkPend (p_wallet p) r (p_entry p) (p_events p) (p_inbox p).

Lemma maintain_triple {R} C s b w i wrow p id ok (f : Cx -> wager_row -> wager_row) (reply : wager_row -> R) :
  holding s b w i wrow p -> ParseID id = Ok i -> (forall cx r, same_books r (f cx r)) ->
  wp C (exec (maintain id ok f reply)) b s (post quiet (fun o s' b' => exists cx,
    o = Some (reply (f cx (p_row p))) /\ holding s' b' w i wrow (with_row p (f cx (p_row p)))
    /\ onward s b s' b')).
Proof.
  intros Hh Hid Hf. pose proof (ho_live _ _ _ _ _ _ Hh) as Hlive.
  pose proof (ho_done _ _ _ _ _ _ Hh) as Hdone.
  run_stmt as b1 cx o Hd Hcx Hr. advance Hh Hd. unfold maintain, uuid_in in *. rewrite Hid in *.
  assert (Hrow : wagers (pend_db w i p b1) !! i = Some (p_row p)) by (cbn; apply lookup_insert_eq).
  rewrite Hrow in *. destruct (Terminal _) eqn:Et; [done|]. destruct (negb (ok _)); [done|].
  injection Hr as <-. finish as b2 Hd2. exists cx. split; [done|]. split; [|by split; [apply locks_write|eapply depend_trans; [exact Hd|by eapply depend_write]]].
  eapply holding_rely; [|exact Hd2]. destruct (Hf cx (p_row p)) as (Hq & Ho & Hc1 & Hc2).
  eapply holding_write; [exact Hh|..].
  - cbn. unfold wallet_of. rewrite Hq. split; [apply (ho_owner _ _ _ _ _ _ Hh)|done].
  - cbn. eapply row_ok_same; [apply Hf|]. apply (ho_row _ _ _ _ _ _ Hh).
  - cbn. destruct (ho_origin _ _ _ _ _ _ Hh) as [Hl Hor]. split; [done|].
    destruct (wagers b1 !! i) as [r0|].
    + destruct Hor as [Hg Ht]. split; [|done]. etrans; [exact Hg|]. apply same_books_grows, Hf.
    + destruct Hor as (? & ? & Hk & Hx). split_and!; try done; intros q y; unfold has_key, has_external; rewrite Hq;
        [apply Hk|apply Hx].
  - apply Forall_singleton, verify_harmless.
  - intros b' Hd'. unfold pend_db, with_row, set_wagers. cbn. f_equal.
    rewrite (alter_insert _ _ _ (p_row p)) by apply lookup_insert_eq. by rewrite insert_insert_eq.
Qed.

(** ** The claimed transaction *)

(** The session holds the wallet and the row of a transaction that waits. *)
Record taken (s : sess Db lock) (b : Db) (w i : ID) (wrow : wallet_row) (r : wager_row) : Prop := {
  tk_locked : locked s b w wrow (fun m => m);
  tk_lock : LWager i ∈ ss_locks s;
  tk_row : wagers b !! i = Some r;
  tk_waits : status_of r = StatusPendingReference;
  tk_wallet : wallet_of r = w
}.

Lemma taken_rely s b b' w i wrow r : taken s b w i wrow r -> depend (ss_locks s) b b' -> taken s b' w i wrow r.
Proof.
  intros [Hlk Hl Hr Hs Hw] Hd. constructor; try done; [by eapply locked_rely|].
  by rewrite (pt_wager _ _ _ (dp_protected _ _ _ Hd)).
Qed.

(** Its row, unchanged, is what is pending. *)
Lemma taken_holding s b w i wrow r : taken s b w i wrow r -> holding s b w i wrow (only_row r (fun m => m)).
Proof.
  intros [[Hb Hlw Hw] Hl Hr Hs Hwal]. pose proof (bg_consistent _ _ _ Hb) as Hc.
  constructor; cbn; try done; try apply Hb.
  - split; [done|]. destruct (cs_owner _ Hc _ _ Hr) as (w0 & Hw0 & Hp). congruence.
  - by destruct (cs_row _ Hc _ _ Hr).
  - split; [done|]. rewrite Hr. split; [done|]. unfold terminal. by rewrite Hs.
  - eapply Forall_impl; [apply (bg_deferred _ _ _ Hb)|]. intros g Hg d Hd _. by apply Hg.
  - intros b' Hd. rewrite (bg_view _ _ _ Hb) by done. unfold pend_db, set_inbox. cbn.
    rewrite insert_id by by rewrite (pt_wager _ _ _ (dp_protected _ _ _ Hd)).
    by rewrite List.app_nil_r.
Qed.

(** A transaction that waits, as [apply] takes it. *)
Lemma waiting_in_memory i r r' :
  row_ok i r -> same_books r r' -> status_of r = StatusPendingReference -> in_memory i r' (data_of i r).
Proof.
  intros Hok Hs Hst. pose proof (data_of_same i _ _ Hs) as Hd. destruct (same_books_strip _ _ Hs) as [Hst' _].
  assert (Hopen : Terminal (oc_status (tr_outcome r)) = false) by (unfold status_of in Hst; by rewrite Hst).
  pose proof (rk_result _ _ Hok) as Hres. rewrite Hopen in Hres. destruct Hres as (Eb & Ev & Ec).
  pose proof (rk_valid _ _ Hok) as Hv.
  constructor.
  - rewrite Hd. unfold same_request, stored. cbn. destruct (rk_created _ _ Hok) as [-> _]. done.
  - done.
  - done.
  - cbn. unfold result_of. rewrite Eb. split_and!; [done..|].
    destruct (oc_reference (tr_outcome r)) as [j|] eqn:Ej; [|done].
    destruct (rk_reference _ _ Hok _ Ej) as [_ Hp]. unfold status_of in Hst. by rewrite Hp in Hst.
  - apply (rk_created _ _ Hok).
  - by rewrite Hst'.
  - intros Hk. destruct Hv as ([_ _ _ _ _ _ Hkind] & _ & Hso). rewrite Hk in Hkind. eval_tests. cbn iota in Hkind.
    unfold validate_opening in Hkind. rewrite guard_err_Ok, !orb_false_iff in Hkind. destruct_and!. bools.
    destruct Hso as [E|_ Hx _|E _ _|[E|E] _ _ _]; cbn in *; unfold status_of in Hst; try congruence;
      rewrite E in Hst; discriminate Hst.
Qed.
