(* ===== verification/Retry.v ===== *)
(** * [RetryReference]: its triple

    One attempt at a transaction that waits: it is decided again, with its wait
    expired once the attempts or the time ran out; an invariant failure of the
    domain rolls the decision back, and is recorded when the wait is over. *)

From S2P Require Import Prelude GoStd Codec Errors Ident Money Wallet Ledger Wager Evaluate.
From S2P Require Import Command Events Session Rules Framing Database Sql Store Work Rows Books.
From S2P Require Import Settle Pending Reference Verdict Applying Emitting Apply Committing.
From S2P Require Import Delivering Replaying Admitting Processing Tending Waiting.
Import Str.
#[local] Open Scope prog_scope.

(** ** What an attempt promises *)

(** The wait of [r] is over, as [RetryReference] reckons at [since]. *)
Definition exhausts (maxAttempts ttl : Z) (r : wager_row) (since : Z) : bool :=
  (maxAttempts <=? tr_attempts r + 1) || (ttl <=? since - rq_created (tr_request r)).

(** What becomes of the transaction [i], whose row was [r], and the reply. *)
Inductive retry_outcome (b : Db) (w i : ID) (wrow : wallet_row) (r : wager_row) (exhausted : bool) :
    wager_row -> Result -> Prop :=
| ro_decided u row :
    verdict (wallet_data_of w wrow) (data_of i r) (ru_reference u) (ru_reversed u) exhausted
      (ru_now u) (ru_data u) (ru_wallet u) ->
    referenced b w i (ru_reference u) (ru_reversed u) ->
    same_books (settled_row (outcome_of (ru_data u)) (ru_clock u) r) row ->
    data_of i row = stored (ru_data u) ->
    retry_outcome b w i wrow r exhausted row (resultOf (ru_data u) (ru_wallet u) false)
| ro_failed row now clock d :
    exhausted = true ->
    d = settle (data_of i r) StatusFailed "PERMANENT_PROCESSING_FAILURE" (mkMoney (wr_balance wrow) (wr_currency wrow))
          (wr_version wrow) zeroID now ->
    same_books (settled_row (outcome_of d) clock r) row ->
    data_of i row = stored d ->
    retry_outcome b w i wrow r exhausted row (resultOf d (wallet_data_of w wrow) false)
| ro_kept row :
    exhausted = false -> same_books r row ->
    retry_outcome b w i wrow r exhausted row (resultOf (data_of i r) (wallet_data_of w wrow) false).

(** The commit of an attempt on [claim]: a settlement of the transaction the
    claim names, which was waiting under the claim's own lease. *)
Record retried (claim : ReferenceClaim) (maxAttempts ttl : Z) (res : Result) (b v : Db) (w i : ID)
    (wrow : wallet_row) (r : wager_row) (since : Z) (x : ending) : Prop := {
  rt_id : ParseID (rcTransactionID claim) = Ok i;
  rt_wallet_id : ParseID (rcWalletID claim) = Ok w;
  rt_token : exists l, tr_lease r = Some l /\ ParseID (rcClaimToken claim) = Ok (ls_token l);
  rt_wallet : wallets b !! w = Some wrow;
  rt_row : wagers b !! i = Some r;
  rt_waits : status_of r = StatusPendingReference;
  rt_owner : wallet_of r = w;
  rt_outcome : retry_outcome b w i wrow r (exhausts maxAttempts ttl r since) (en_row x) res;
  rt_attempts : tr_attempts (en_row x) = tr_attempts r + 1;
  rt_lease : tr_lease (en_row x) = None;
  rt_next : status_of (en_row x) = StatusPendingReference -> is_some (tr_next (en_row x)) = true;
  rt_settleable : settleable b (settlement_of i x None);
  rt_commit : v = settle_db (settlement_of i x None) b
}.

Definition retry_spec (claim : ReferenceClaim) (maxAttempts ttl : Z) (b v : Db) : Prop :=
  exists res w i wrow r since x, retried claim maxAttempts ttl res b v w i wrow r since x.

Definition retry_post (claim : ReferenceClaim) (maxAttempts ttl : Z) (r : res Result)
    (commit : option (Db * Db)) (d : Db) : Prop :=
  match r with
  | Ok res => exists b v w i wrow r since x row, commit = Some (b, v)
      /\ retried claim maxAttempts ttl res b v w i wrow r since x /\ stands d res i row
  | Err e => commit = None \/ Code e = "UNAVAILABLE"
  end.

Lemma retry_post_evolves claim maxAttempts ttl r cm d d' :
  evolves d d' -> retry_post claim maxAttempts ttl r cm d -> retry_post claim maxAttempts ttl r cm d'.
Proof.
  intros He. destruct r as [res|e]; [|done].
  intros (b & v & w & i & wrow & r & since & x & row & -> & Hr & Hs).
  destruct (stands_evolves _ _ _ _ _ Hs He) as (row' & Hs' & _). by exists b, v, w, i, wrow, r, since, x, row'.
Qed.

(** ** Pending *)

Section attempt.
Context (w i : ID) (wrow : wallet_row) (r : wager_row) (exhausted : bool).
Local Notation wd := (wallet_data_of w wrow).
Local Notation nothing := (fun m : gmap (string * string) inbox_row => m).

(** The attempt is counted; the row is otherwise the one that waited. *)
Record counted (s : sess Db lock) (b : Db) (r1 : wager_row) : Prop := {
  ct_holding : holding s b w i wrow (only_row r1 nothing);
  ct_row : wagers b !! i = Some r;
  ct_lock : LWager i ∈ ss_locks s;
  ct_same : same_books r r1;
  ct_attempts : tr_attempts r1 = tr_attempts r + 1;
  ct_waits : status_of r = StatusPendingReference
}.

(** A settlement of it is pending. *)
Record concluded (s : sess Db lock) (b : Db) (x : ending) (res : Result) : Prop := {
  cc_ended : ended w i wrow nothing x s b;
  cc_row : wagers b !! i = Some r;
  cc_lock : LWager i ∈ ss_locks s;
  cc_outcome : retry_outcome b w i wrow r exhausted (en_row x) res;
  cc_attempts : tr_attempts (en_row x) = tr_attempts r + 1;
  cc_lease : tr_lease (en_row x) = None
}.

Lemma locked_row s b s' b' : LWager i ∈ ss_locks s -> wagers b !! i = Some r -> onward s b s' b' ->
  LWager i ∈ ss_locks s' /\ wagers b' !! i = Some r.
Proof using Type.
  intros Hl Hr [Hs Hd]. split; [by apply Hs|]. by rewrite (pt_wager _ _ _ (dp_protected _ _ _ Hd)).
Qed.

Lemma counted_rely s b b' r1 : counted s b r1 -> depend (ss_locks s) b b' -> counted s b' r1.
Proof using Type.
  intros [] Hd. constructor; try done; [by eapply holding_rely|].
  by destruct (locked_row s b s b' ct_lock0 ct_row0 (onward_depend _ _ _ Hd)).
Qed.

Lemma counted_save s b r1 : counted s b r1 -> counted (sess_save s) b r1.
Proof using Type. intros [[] ]. constructor; [by constructor|done..]. Qed.

Lemma retry_outcome_rely L b b' row res :
  LWallet w ∈ L -> depend L b b' -> consistent b ->
  retry_outcome b w i wrow r exhausted row res -> retry_outcome b' w i wrow r exhausted row res.
Proof using Type.
  intros Hl Hd Hc [u row0 Hv Hr Hs Hdat|row0 now clock d He -> Hs Hdat|row0 He Hs].
  - apply ro_decided; try done. by eapply referenced_rely.
  - by eapply ro_failed.
  - by apply ro_kept.
Qed.

Lemma retry_outcome_same b row row' res :
  same_books row row' -> retry_outcome b w i wrow r exhausted row res ->
  retry_outcome b w i wrow r exhausted row' res.
Proof using Type.
  intros Hs' H. revert Hs'. destruct H as [u row Hv Hr Hs Hdat|row now clock d He -> Hs Hdat|row He Hs];
    intros Hs'; pose proof (data_of_same i _ _ Hs') as Hsame.
  - apply ro_decided; try done; [by etrans; [exact Hs|exact Hs']|congruence].
  - eapply ro_failed; [done|done|by etrans; [exact Hs|exact Hs']|congruence].
  - apply ro_kept; [done|by etrans; [exact Hs|exact Hs']].
Qed.

Lemma concluded_onward s b x res s' b' :
  concluded s b x res -> onward s b s' b' -> holding s' b' w i wrow (en_pend x nothing) ->
  concluded s' b' x res.
Proof using Type.
  intros [He Hr Hl Ho Ha Hle] Hon Hh. pose proof (nd_holding _ _ _ _ _ _ _ He) as Hh0.
  destruct (locked_row _ _ _ _ Hl Hr Hon) as [Hl' Hr']. constructor; try done.
  - by eapply ended_onward.
  - eapply retry_outcome_rely; [apply (ho_lock _ _ _ _ _ _ Hh0)|apply Hon| |done].
    apply (ho_consistent _ _ _ _ _ _ Hh0).
Qed.

Lemma concluded_rely s b x res b' : concluded s b x res -> depend (ss_locks s) b b' -> concluded s b' x res.
Proof using Type.
  intros H Hd. eapply concluded_onward; [done|by apply onward_depend|].
  eapply holding_rely; [|done]. apply (nd_holding _ _ _ _ _ _ _ (cc_ended _ _ _ _ H)).
Qed.

(** The reply's status is the row's. *)
Lemma outcome_status b row res :
  status_of r = StatusPendingReference -> retry_outcome b w i wrow r exhausted row res ->
  rsStatus res = status_of row.
Proof using Type.
  assert (Hst : forall d wd rep, rsStatus (resultOf d wd rep) = wgStatus d).
  { intros. unfold resultOf. by destruct (Terminal _). }
  intros Hw [u row0 Hv Hr Hs Hdat|row0 now clock d He -> Hs Hdat|row0 He Hs]; rewrite Hst.
  - exact (f_equal wgStatus (eq_sym Hdat)).
  - exact (f_equal wgStatus (eq_sym Hdat)).
  - by rewrite (proj1 (same_books_strip _ _ Hs)).
Qed.
End attempt.

(** ** apply, within the attempt *)

Lemma plain_apply w wg correlation causation expired : plain (apply w wg correlation causation expired).
Proof.
  unfold apply, find_reference, carry_out, execute, insertLedger, allocateID, persistResult, writeEvents,
    insertEvent, query_row. cbv zeta. plain_tac.
Qed.

Section conclude.
Context (w i : ID) (wrow : wallet_row) (r : wager_row) (exhausted : bool).
Local Notation wd := (wallet_data_of w wrow).
Local Notation nothing := (fun m : gmap (string * string) inbox_row => m).
Local Notation counted := (counted w i wrow r).
Local Notation concluded := (concluded w i wrow r exhausted).

Lemma counted_memory s b r1 : counted s b r1 -> in_memory i r1 (data_of i r) /\ row_ok i r.
Proof using Type.
  intros [Hh Hr _ Hs _ Hw]. destruct (cs_row _ (ho_consistent _ _ _ _ _ _ Hh) _ _ Hr) as [Hok _].
  split; [by apply waiting_in_memory|done].
Qed.

Lemma counted_announced s b r1 : counted s b r1 -> announced (outbox b) i r1.
Proof using Type.
  intros [Hh Hr _ Hs _ _]. eapply announced_same; [exact Hs|].
  by apply (cs_announced _ (ho_consistent _ _ _ _ _ _ Hh)).
Qed.

Lemma settled_row_same o clock r1 : same_books r r1 -> same_books (settled_row o clock r) (settled_row o clock r1).
Proof using Type. intros (Hq & _ & Hc & Hk). by unfold same_books. Qed.

(** A decision of the domain concludes the attempt. *)
Lemma applied_concludes s0 b0 r1 u x res s b :
  counted s0 b0 r1 -> applied s0 b0 w i wrow r1 nothing (data_of i r) exhausted u x res s b ->
  concluded s b x res.
Proof using Type.
  intros Hct [He Hrow -> Hv Hkn Hreq Hvalid _ Ho]. destruct (counted_memory _ _ _ Hct) as [Hm Hok].
  destruct Hct as [Hh Hr Hl Hs Ha Hw].
  destruct (locked_row _ _ _ _ _ _ Hl Hr Ho) as [Hl' Hr']. constructor; try done.
  - apply ro_decided; [done|done|rewrite Hrow; by apply settled_row_same|].
    rewrite Hrow. eapply (final_data i r1 (data_of i r) Hm); [done|]. eapply verdict_unset; [exact Hv|apply (im_result _ _ _ Hm)..].
  - by rewrite Hrow.
  - by rewrite Hrow.
Qed.

(** A failure of the domain, once the wait is over. *)
Lemma fail_exhausted_triple C s b r1 claim correlation cause :
  counted s b r1 -> exhausted = true ->
  wp C (fail_reference claim wd (mkWagerTransaction (data_of i r)) correlation cause true) b s
    (post quiet (fun res s' b' => exists x, concluded s' b' x res)).
Proof using Type.
  intros Hct Hex. destruct (counted_memory _ _ _ Hct) as [Hm Hok].
  pose proof (ct_holding _ _ _ _ _ _ _ Hct) as Hh.
  pose proof (ho_done _ _ _ _ _ _ Hh) as Hdone. destruct (holding_wallet _ _ _ _ _ _ Hh) as [Hwok _].
  pose proof (ho_row _ _ _ _ _ _ Hh) as Hr1. cbn in Hr1.
  destruct (im_result _ _ _ Hm) as (_ & _ & Eref).
  unfold fail_reference. apply wp_now. intros now _. apply wp_lift; [exact _|done|]. intros wg Hwg.
  apply (settled_by (data_of i r) now _ wg StatusFailed "PERMANENT_PROCESSING_FAILURE" (wBalance wd) (wVersion wd)
    (wgReferenceID (data_of i r))) in Hwg as (-> & Hv & _); [|done].
  set (d := settle _ _ _ _ _ _ _) in *. cbn [wager_Snapshot cloneWager wager_data].
  assert (Hopen : terminal r1 = false).
  { unfold terminal. rewrite <- (im_status _ _ _ Hm). apply (im_open _ _ _ Hm). }
  assert (Hdat : forall clock, data_of i (settled_row (outcome_of d) clock r1) = stored d)
    by (intros; by apply (final_data _ _ (data_of i r))).
  eapply wp_persist; [exact _|exact Hh|done|done| |].
  { intros clock. apply unmoved_row; try done. by apply wallet_ok_ranged. }
  intros b1 s1 clock Hh1 Hs1 Hd1. assert (Ho1 : onward s b s1 b1) by done.
  apply wp_seq_map; [exact _|]. eapply wp_post; [apply (writeEvents_triple (fun evs s b =>
      holding s b w i wrow (mkPend None (settled_row (outcome_of d) clock r1) None evs nothing)) C s1 b1 i
      (settled_row (outcome_of d) clock r1) None); [exact Hh1|apply Hdat]|].
  intros [u|e] s2 b2; [|done]. intros (evs & Hn & Hh2 & He2 & Ho2). cbn [post].
  finish as b3 Hd3. assert (Ho3 : onward s b s2 b3).
  { eapply onward_trans; [exact Ho1|]. eapply onward_trans; [exact Ho2|]. by apply onward_depend. }
  destruct (locked_row _ _ _ _ _ _ (ct_lock _ _ _ _ _ _ _ Hct) (ct_row _ _ _ _ _ _ _ Hct) Ho3) as [Hl3 Hr3].
  exists (mkEnding (settled_row (outcome_of d) clock r1) None None evs). constructor; cbn [en_row]; try done.
  - constructor; cbn [en_row en_moved en_entry en_events]; try done.
    + by eapply holding_rely.
    + by apply unmoved_decided.
    + eapply emitted_onward; [exact He2|by apply onward_depend].
    + by left.
  - eapply ro_failed; [done| |apply settled_row_same, (ct_same _ _ _ _ _ _ _ Hct)|apply Hdat].
    unfold d. by rewrite Eref.
  - apply (ct_attempts _ _ _ _ _ _ _ Hct).
Qed.

(** A failure of the domain with attempts left: the claim is given up. *)
Lemma fail_later_triple C s b r1 claim correlation cause :
  counted s b r1 -> exhausted = false -> ParseID (rcTransactionID claim) = Ok i ->
  wp C (fail_reference claim wd (mkWagerTransaction (data_of i r)) correlation cause false) b s
    (post quiet (fun res s' b' => exists x, concluded s' b' x res)).
Proof using Type.
  intros Hct Hex Hid. destruct (counted_memory _ _ _ Hct) as [Hm Hok].
  pose proof (ct_holding _ _ _ _ _ _ _ Hct) as Hh.
  pose proof (counted_announced _ _ _ Hct) as Hann.
  unfold fail_reference. apply wp_seq_map; [exact _|].
  eapply wp_post; [by eapply maintain_triple|]. intros [o|e] s1 b1; [|done].
  intros (cx & _ & Hh1 & Ho1). cbn [post]. cbn [p_row only_row] in Hh1.
  finish as b2 Hd2. assert (Ho2 : onward s b s1 b2) by (eapply onward_trans; [exact Ho1|by apply onward_depend]).
  destruct (locked_row _ _ _ _ _ _ (ct_lock _ _ _ _ _ _ _ Hct) (ct_row _ _ _ _ _ _ _ Hct) Ho2) as [Hl2 Hr2].
  assert (Hs1 : same_books r (wager_leased None r1)) by (etrans; [apply (ct_same _ _ _ _ _ _ _ Hct)|done]).
  assert (Hst : status_of (wager_leased None r1) = StatusPendingReference).
  { rewrite (proj1 (same_books_strip _ _ Hs1)). apply (ct_waits _ _ _ _ _ _ _ Hct). }
  exists (mkEnding (wager_leased None r1) None None []). constructor; cbn [en_row]; try done.
  - constructor; cbn [en_row en_moved en_entry en_events]; try done.
    + by eapply holding_rely.
    + constructor; try (intros; rewrite Hst in *; done).
      * intros y. unfold reverses. fold (status_of (wager_leased None r1)). rewrite Hst. by rewrite andb_false_r.
      * apply unsettled_not_moving. unfold terminal. by rewrite Hst.
    + apply emitted_nil.
    + right. split_and!; [done..|]. eapply announced_same; [by instantiate (1 := r1)|].
      eapply announced_evolves; [|exact Hann]. apply (ev_outbox _ _ (dp_evolves _ _ _ (proj2 Ho2))).
  - by apply ro_kept.
  - apply (ct_attempts _ _ _ _ _ _ _ Hct).
Qed.

Lemma fail_reference_triple C s b r1 claim correlation cause :
  counted s b r1 -> ParseID (rcTransactionID claim) = Ok i ->
  wp C (fail_reference claim wd (mkWagerTransaction (data_of i r)) correlation cause exhausted) b s
    (post quiet (fun res s' b' => exists x, concluded s' b' x res)).
Proof using Type.
  intros Hct Hid.
  enough (H : forall e, exhausted = e -> wp C (fail_reference claim wd (mkWagerTransaction (data_of i r))
    correlation cause e) b s (post quiet (fun res s' b' => exists x, concluded s' b' x res))) by by apply H.
  intros [] He; [by eapply fail_exhausted_triple|by eapply fail_later_triple].
Qed.
End conclude.

(** ** From the claim to the savepoint *)

(** The row is the claim's, under its lease, and now locked. *)
Lemma select_claimed_triple C s b w wrow id wallet token :
  locked s b w wrow (fun m => m) -> ParseID wallet = Ok w ->
  wp C (query_row (select_claimed id wallet token) scanWager) b s (post quiet (fun d s' b' =>
    exists i r l, ParseID id = Ok i /\ d = data_of i r /\ taken s' b' w i wrow r
      /\ tr_lease r = Some l /\ ParseID token = Ok (ls_token l) /\ onward s b s' b')).
Proof.
  intros Hlk Hw. unfold query_row. pose proof (lk_begun _ _ _ _ _ Hlk) as Hb.
  begun_stmt Hb b1 cx r Hd1 Hr. pose proof (locked_rely _ _ _ _ _ _ Hlk Hd1) as [_ Hlk1 Hwal1].
  unfold select_claimed, uuid_in in *. rewrite Hw in *.
  destruct (ParseID id) as [i|]; [|done]. destruct (ParseID token) as [t|]; [|done].
  cbn [wagers set_inbox] in *. destruct (wagers b1 !! i) as [row|] eqn:Erow.
  2:{ injection Hr as <-. intros b2 _. apply (bg_done _ _ _ Hb). }
  destruct (holds_claim w t (cx_clock cx 0) row) eqn:Ehold.
  2:{ injection Hr as <-. intros b2 _. apply (bg_done _ _ _ Hb). }
  injection Hr as <-. destruct (cs_row _ (bg_consistent _ _ _ Hb) _ _ Erow) as [Hok _].
  cbn [bind lift]. refold. rewrite (scanWager_row i row) by done. begun_reads Hb. finish as b2 Hd2.
  unfold holds_claim, waiting in Ehold. destruct (tr_lease row) as [l|] eqn:El; [|by bools]. bools.
  exists i, row, l. split_and!; [done|done| |done|congruence|stepped Hd1; by apply onward_depend].
  eapply taken_rely; [|exact Hd2]. constructor; [|..|done|done].
  - constructor; [done|by apply locks_write|done].
  - cbn. apply elem_of_app. right. by apply list_elem_of_singleton.
  - done.
Qed.

(** The attempt is counted before it is made. *)
Lemma bump_triple C s b w i wrow r id :
  taken s b w i wrow r -> ParseID id = Ok i ->
  wp C (query_row (bump_attempts id) scan) b s (post quiet (fun row s' b' =>
    row.1.1 = tr_attempts r + 1 /\ (exists r1, counted w i wrow r s' b' r1) /\ onward s b s' b')).
Proof.
  intros Ht Hid. unfold query_row. apply wp_seq; [exact _|].
  eapply wp_post; [eapply maintain_triple; [by apply taken_holding|exact Hid|done]|].
  intros [o|e] s1 b1; [|done]. intros (cx & -> & Hh & Ho). cbn [post scan].
  finish as b2 Hd2. assert (Ho2 : onward s b s1 b2) by (eapply onward_trans; [exact Ho|by apply onward_depend]).
  destruct Ht as [Hlk Hl Hr Hs Hw]. destruct (locked_row _ _ _ _ _ _ Hl Hr Ho2) as [Hl2 Hr2].
  split_and!; [done| |done]. exists (wager_attempted r). constructor; try done. by eapply holding_rely.
Qed.

(** ** The commit *)

Section finish.
Context (claim : ReferenceClaim) (maxAttempts ttl : Z) (w i : ID) (wrow : wallet_row) (r : wager_row) (since : Z).
Context (Hid : ParseID (rcTransactionID claim) = Ok i) (Hwal : ParseID (rcWalletID claim) = Ok w).
Context (Htok : exists l, tr_lease r = Some l /\ ParseID (rcClaimToken claim) = Ok (ls_token l)).
Context (Hwaits : status_of r = StatusPendingReference) (Hown : wallet_of r = w).
Local Notation concluded := (concluded w i wrow r (exhausts maxAttempts ttl r since)).
Local Notation C := (retry_spec claim maxAttempts ttl).
Local Notation reply := (fun res s' b' => retry_post claim maxAttempts ttl (Ok res) (ss_done s') b').

Lemma conclude_stands s b x res :
  concluded s b x res -> stands (settle_db (settlement_of i x None) b) res i (en_row x).
Proof using Type.
  intros [He Hr Hl Ho _ _]. pose proof (ho_row _ _ _ _ _ _ (nd_holding _ _ _ _ _ _ _ He)) as Hok.
  cbn in Hok. pose proof (de_status _ _ _ _ _ _ _ (nd_decided _ _ _ _ _ _ _ He)) as Hst.
  assert (Hrow : wagers (settle_db (settlement_of i x None) b) !! i = Some (en_row x))
    by (cbn; apply lookup_insert_eq).
  assert (Hres : forall d wd, data_of i (en_row x) = stored d ->
    stands (settle_db (settlement_of i x None) b) (resultOf d wd false) i (en_row x)).
  { intros d wd Hd. change (resultOf d wd false) with (resultOf (stored d) wd false). rewrite <- Hd.
    by apply resultOf_stands. }
  destruct Ho as [u row _ _ _ Hd|row now clock d _ _ _ Hd|row _ Hs]; [by apply Hres..|].
  pose proof (data_of_same i _ _ Hs) as Hd. rewrite <- Hd. by apply resultOf_stands.
Qed.

Lemma conclude_commits s b x res :
  concluded s b x res ->
  (status_of (en_row x) = StatusPendingReference -> is_some (tr_next (en_row x)) = true) ->
  wp C (map_err dbError commit;;; ret res) b s (post failed reply).
Proof using All.
  intros Hcc Hnext. pose proof (nd_holding _ _ _ _ _ _ _ (cc_ended _ _ _ _ _ _ _ _ _ Hcc)) as Hh.
  apply wp_commit; [apply (ho_done _ _ _ _ _ _ Hh)|apply (ho_live _ _ _ _ _ _ Hh)|].
  intros b1 Hd1. change (depend (ss_locks s) b b1) in Hd1.
  pose proof (concluded_rely _ _ _ _ _ _ _ _ _ _ Hcc Hd1) as Hcc1. pose proof (cc_ended _ _ _ _ _ _ _ _ _ Hcc1) as He1.
  assert (Hdl : delivered (ss_locks s) b1 i None (fun m => m)) by done.
  destruct (settlement_commits _ _ _ _ _ _ _ _ He1 Hdl) as [Ht Hg].
  assert (Hrt : retried claim maxAttempts ttl res b1 (view b1 s) w i wrow r since x).
  { pose proof (ho_wallet _ _ _ _ _ _ (nd_holding _ _ _ _ _ _ _ He1)) as Hw1.
    assert (Hst1 : settleable b1 (settlement_of i x None)) by by eapply settlement_settleable.
    assert (Hv1 : view b1 s = settle_db (settlement_of i x None) b1) by by eapply committed_view.
    destruct Hcc1 as [_ Hr1 _ Ho1 Ha1 Hl1]. by constructor. }
  split_and!; [done|done|by eexists _, _, _, _, _, _, _|].
  intros b2 Hd2. change (depend [] (view b1 s) b2) in Hd2. unfold retry_post.
  pose proof (conclude_stands _ _ _ _ Hcc1) as Hst. rewrite <- (rt_commit _ _ _ _ _ _ _ _ _ _ _ _ Hrt) in Hst.
  destruct (stands_evolves _ _ _ _ _ Hst (dp_evolves _ _ _ Hd2)) as (row & Hs2 & _).
  by eexists _, _, _, _, _, _, _, _, row.
Qed.

(** A transaction that waits on is given a later attempt. *)
Lemma delay_and_commit s b x res ms :
  concluded s b x res ->
  wp C ((if rsStatus res == "PENDING_REFERENCE" then
           map_err dbError (exec (delay_reference (rcTransactionID claim) ms));;; ret tt
         else ret tt);;; map_err dbError commit;;; ret res) b s (post failed reply).
Proof using All.
  intros Hcc. pose proof (cc_ended _ _ _ _ _ _ _ _ _ Hcc) as He.
  pose proof (nd_holding _ _ _ _ _ _ _ He) as Hh.
  pose proof (outcome_status _ _ _ _ _ _ _ _ Hwaits (cc_outcome _ _ _ _ _ _ _ _ _ Hcc)) as Est.
  destruct (rsStatus res == "PENDING_REFERENCE") eqn:Ew; bools.
  2:{ apply wp_seq; [exact _|]. apply wp_done. intros b1 Hd1. cbn.
      apply conclude_commits with (x := x); [by eapply concluded_rely|]. intros Hf. by rewrite <- Est in Hf. }
  apply wp_seq; [exact _|]. apply wp_seq_map; [exact _|].
  eapply wp_post; [eapply maintain_triple; [exact Hh|exact Hid|done]|].
  intros [o|e] s1 b1; [|done]. intros (cx & _ & Hh1 & Ho1). cbn [post]. apply wp_done. intros b2 Hd2. cbn.
  set (row := wager_delayed _ _) in *.
  assert (Hs : same_books (en_row x) row) by done.
  assert (Ho2 : onward s b s1 b2) by (eapply onward_trans; [exact Ho1|by apply onward_depend]).
  eapply holding_rely in Hh1; [|exact Hd2].
  destruct (locked_row _ _ _ _ _ _ (cc_lock _ _ _ _ _ _ _ _ _ Hcc) (cc_row _ _ _ _ _ _ _ _ _ Hcc) Ho2) as [Hl2 Hr2].
  apply conclude_commits with (x := en_maintained x row); [|done].
  constructor; try done.
  - by eapply ended_maintained.
  - eapply retry_outcome_same; [exact Hs|].
    eapply retry_outcome_rely; [apply (ho_lock _ _ _ _ _ _ Hh)|apply Ho2|apply (ho_consistent _ _ _ _ _ _ Hh)|].
    apply (cc_outcome _ _ _ _ _ _ _ _ _ Hcc).
  - apply (cc_attempts _ _ _ _ _ _ _ _ _ Hcc).
  - apply (cc_lease _ _ _ _ _ _ _ _ _ Hcc).
Qed.
End finish.

(** ** RetryReference *)

(** The decision, or what replaces it after the rollback to the savepoint. *)
Lemma attempt_triple C w i wrow r exhausted s b r1 claim correlation cause :
  counted w i wrow r s b r1 -> ParseID (rcTransactionID claim) = Ok i ->
  wp C (bind (apply (wallet_data_of w wrow) (mkWagerTransaction (data_of i r)) correlation cause exhausted)
          (fun x => match x with
                    | Ok result => ret result
                    | Err err =>
                        match as_domain err with
                        | None => fail err
                        | Some _ =>
                            map_err dbError rollback_to;;;
                            fail_reference claim (wallet_data_of w wrow) (mkWagerTransaction (data_of i r))
                              correlation cause exhausted
                        end
                    end)) b (sess_save s)
    (post quiet (fun res s' b' => exists x, concluded w i wrow r exhausted s' b' x res)).
Proof.
  intros Hct Hid. pose proof (counted_save _ _ _ _ _ _ _ Hct) as Hsv.
  pose proof (ct_holding _ _ _ _ _ _ _ Hct) as Hh. pose proof (ho_live _ _ _ _ _ _ Hh) as Hlive.
  destruct (counted_memory _ _ _ _ _ _ _ Hct) as [Hm _].
  apply wp_bind. eapply wp_post; [apply wp_frame; [apply plain_apply|]|].
  { eapply apply_triple; [apply (ct_holding _ _ _ _ _ _ _ Hsv)|exact Hm|].
    intros _. by eapply counted_announced. }
  intros [res|e] s1 b1; intros [Hr Hf]; cbn [post] in Hr.
  - destruct Hr as (u & x & Ha). finish as b2 Hd2. exists x. eapply concluded_rely; [|exact Hd2].
    by eapply applied_concludes.
  - destruct (as_domain e); [|by apply wp_fail; [exact _|]].
    split; [intros e' _ b2 _; exact Hr|].
    pose proof Hf as (_ & _ & _ & Hd). change (depend (ss_locks s) b b1) in Hd.
    cbn [bind]. refold. rewrite (restore_saved _ _ _ _ Hlive Hf).
    apply fail_reference_triple with (r1 := r1); [|done]. by eapply counted_rely.
Qed.

Lemma RetryReference_triple claim maxAttempts ttl b :
  consistent b ->
  wp (retry_spec claim maxAttempts ttl) (RetryReference claim maxAttempts ttl) b fresh_sess
    (fun r s' b' => retry_post claim maxAttempts ttl r (ss_done s') b').
Proof.
  intros Hc. pose proof (fresh_begun b Hc) as Hb. set (C := retry_spec claim maxAttempts ttl).
  eapply (wp_post _ _ _ _ (post failed (fun res s' b' => retry_post claim maxAttempts ttl (Ok res) (ss_done s') b')));
    [|by intros [res|e] s' b'].
  unfold RetryReference. destruct (_ || _); [by apply wp_fail; [exact _|]|].
  begun_stmt Hb b1 cx r0 Hd1 Hr. begun_reads Hb. clear Hr Hd1 Hcx.
  set (s1 := sess_write _ _) in *.
  apply wp_seq_map; [exact _|]. eapply wp_post; [by apply lockWallet_text|].
  intros [wd|e] s2 b2; [|done]. intros (w & wrow & Hw & -> & Hlk2 & Ho2). cbn [post].
  apply wp_seq_map; [exact _|]. eapply wp_post; [by eapply select_claimed_triple|].
  intros [d|e] s3 b3; [|done]. intros (i & r & l & Hid & -> & Ht3 & Hl & Htok & Ho3). cbn [post].
  apply wp_seq_map; [exact _|]. eapply wp_post; [by eapply bump_triple|].
  intros [[[attempts correlation] causation]|e] s4 b4; [|done].
  intros (Hat & (r1 & Hct) & Ho4). cbn [post]. cbn in Hat. subst attempts.
  pose proof (ct_holding _ _ _ _ _ _ _ Hct) as Hh. pose proof (ho_done _ _ _ _ _ _ Hh) as Hdone.
  apply wp_lift; [exact _|done|]. intros wg Hwg.
  assert (wg = mkWagerTransaction (data_of i r)) as ->.
  { unfold RehydrateWager, cloneWager in Hwg. destruct (validateWager _); [|done]. by injection Hwg as <-. }
  cbv zeta. split; [intros e _ b5 _; by left|]. intros _. refold. cbn [bind]. refold.
  apply wp_now. intros since _.
  apply wp_seq; [exact _|].
  eapply wp_post; [eapply (attempt_triple C w i wrow r (exhausts maxAttempts ttl r since)); [exact Hct|exact Hid]|].
  intros [res|e] s5 b5; [|done]. intros (x & Hcc). cbn [post].
  eapply (delay_and_commit claim maxAttempts ttl w i wrow r since); try done; try apply Ht3.
  by exists l.
Qed.
