(* ===== verification/System.v ===== *)
(** * The system: every method, interleaved over one database

    The store's methods as the operations of the machine of Machine.v, and what
    each promises.  [store_sound]: any number of calls, from any number of
    processes, in any interleaving, with crashes, failed statements and lost
    acknowledgements, keep the books and every promise made to a caller. *)

From S2P Require Import Prelude GoStd Codec Errors Ident Money Wallet Ledger Wager Evaluate.
From S2P Require Import Command Events Session Rules Machine Database Sql Store Work Rows Books.
From S2P Require Import Settle Pending Replaying Processing Opening Read Reading Paging Auditing Tending Leases Retry.
Import Str.

(** ** Operations *)

(** A call of a method of the store.  An amount of a command is a Go [int64].
    [ReleaseClaims] runs its two statements in transactions of their own. *)
Inductive Op : Type :=
| OpCreateWallet (c : CreateWalletCommand) (H : Int64.in_range (minor (cwInitialBalance c)))
| OpProcessWager (c : Command) (m : option InboxMessage) (H : Int64.in_range (minor (cMoney c)))
| OpGetWallet (id : string)
| OpGetTransaction (provider id : string)
| OpGetExternalTransaction (provider external : string)
| OpClaimOutbox (owner : string) (limit lease : Z)
| OpMarkPublished (id token : string)
| OpRetryOutbox (id token : string) (delay : Z)
| OpClaimReferences (owner : string) (limit lease : Z)
| OpRetryReference (claim : ReferenceClaim) (maxAttempts ttl : Z)
| OpReleaseOutbox (owner : string)
| OpReleaseReferences (owner : string)
| OpBacklog
| OpLedger (id cursor : string) (limit : Z)
| OpReconcile (id : string).

Inductive Reply : Type :=
| RpWallet (r : res WalletView)
| RpResult (r : res Result)
| RpOutbox (rows : list OutboxRecord) (err : option GoError)
| RpReferences (rows : list ReferenceClaim) (err : option GoError)
| RpDone (r : res unit)
| RpBacklog (r : res Backlog)
| RpPage (r : res LedgerPage)
| RpReconciliation (r : res Reconciliation).

Definition replying {A} (p : program A) (f : A -> Reply) : program Reply := bind p (fun r => Ret (f r)).

Definition code (o : Op) : program Reply :=
  match o with
  | OpCreateWallet c _ => replying (CreateWallet c) RpWallet
  | OpProcessWager c m _ => replying (ProcessWager c m) RpResult
  | OpGetWallet id => replying (GetWallet id) RpWallet
  | OpGetTransaction provider id => replying (GetTransaction provider id) RpResult
  | OpGetExternalTransaction provider external =>
      replying (GetExternalTransaction provider external) RpResult
  | OpClaimOutbox owner limit lease => replying (ClaimOutbox owner limit lease) (fun a => RpOutbox a.1 a.2)
  | OpMarkPublished id token => replying (MarkPublished id token) RpDone
  | OpRetryOutbox id token delay => replying (RetryOutbox id token delay) RpDone
  | OpClaimReferences owner limit lease => replying (ClaimReferences owner limit lease) (fun a => RpReferences a.1 a.2)
  | OpRetryReference claim maxAttempts ttl => replying (RetryReference claim maxAttempts ttl) RpResult
  | OpReleaseOutbox owner => replying (map_err dbError (autocommit (release_outbox owner))) RpDone
  | OpReleaseReferences owner => replying (map_err dbError (autocommit (release_references owner))) RpDone
  | OpBacklog => replying GetBacklog RpBacklog
  | OpLedger id cursor limit => replying (Ledger id cursor limit) RpPage
  | OpReconcile id => replying (Reconcile id) RpReconciliation
  end.

(** ** Promises *)

(** The commits an operation may make. *)
Definition spec (o : Op) (b v : Db) : Prop :=
  match o with
  | OpCreateWallet c _ => creates c b v
  | OpProcessWager c m _ => process_spec c m b v
  | OpRetryReference claim maxAttempts ttl => retry_spec claim maxAttempts ttl b v
  | OpMarkPublished id _ => tended (fun i => ParseID id = Ok i) b v
  | OpClaimOutbox _ _ _ | OpRetryOutbox _ _ _ | OpClaimReferences _ _ _
  | OpReleaseOutbox _ | OpReleaseReferences _ => tended (fun _ => False) b v
  | OpGetWallet _ | OpGetTransaction _ _ | OpGetExternalTransaction _ _ | OpBacklog
  | OpLedger _ _ _ | OpReconcile _ => False
  end.

(** What its reply says, of its commit and of the database from then on. *)
Definition promise (o : Op) (a : Reply) (commit : option (Db * Db)) (d : Db) : Prop :=
  match o, a with
  | OpCreateWallet c _, RpWallet r => create_post c r commit d
  | OpProcessWager c m _, RpResult r => process_post c m r commit d
  | OpGetWallet id, RpWallet r => get_wallet_post id r commit d
  | OpGetTransaction provider id, RpResult r =>
      get_transaction_post provider (fun i _ => ParseID id = Ok i) r commit d
  | OpGetExternalTransaction provider external, RpResult r =>
      get_transaction_post provider (fun _ row => rq_external (tr_request row) = Some external) r commit d
  | OpClaimOutbox owner limit lease, RpOutbox rows err =>
      claim_post offers_event (outbox_claimed owner limit lease) (rows, err) commit d
  | OpMarkPublished id token, RpDone r =>
      update_post id token (fun x y => exists t, y = outbox_published t x) r commit
  | OpRetryOutbox id token _, RpDone r =>
      update_post id token (fun x y => exists t, y = outbox_retried t x) r commit
  | OpClaimReferences owner limit lease, RpReferences rows err =>
      claim_post offers_reference (references_claimed owner limit lease) (rows, err) commit d
  | OpRetryReference claim maxAttempts ttl, RpResult r => retry_post claim maxAttempts ttl r commit d
  | OpReleaseOutbox owner, RpDone r => release_post (released_outbox owner) r commit
  | OpReleaseReferences owner, RpDone r => release_post (released_references owner) r commit
  | OpBacklog, RpBacklog _ => commit = None
  | OpLedger id cursor limit, RpPage r => page_post id cursor limit r commit d
  | OpReconcile id, RpReconciliation r => reconcile_post id r commit d
  | _, _ => False
  end.

Lemma get_transaction_evolves provider P r commit d d' :
  (forall i r r', tr_request r' = tr_request r -> P i r -> P i r') -> evolves d d' ->
  get_transaction_post provider P r commit d -> get_transaction_post provider P r commit d'.
Proof.
  intros HP He [Hc H]. split; [done|]. destruct r as [res|e]; [|done].
  destruct H as (i & row & Hs & Hp & HPi). destruct (stands_evolves _ _ _ _ _ Hs He) as (row' & Hs' & Hg).
  destruct Hg as (Hq & _). exists i, row'. split_and!; [done|by rewrite Hq|by eapply HP].
Qed.

(** A promise stays kept. *)
Lemma promise_stable o a commit d d' : promise o a commit d -> evolves d d' -> promise o a commit d'.
Proof.
  intros H He. destruct o, a; cbn in *; try done.
  - by eapply create_post_evolves.
  - destruct r as [res|e]; [|done]. destruct H as (c' & hash & bv & ? & ? & ? & H).
    exists c', hash, bv. split_and!; try done. by eapply replied_evolves.
  - destruct H as [Hc H]. split; [done|]. destruct r as [view|e]; [|done]. destruct H as (k & Hk & Hv).
    exists k. split; [done|by eapply wallet_seen_evolves].
  - eapply get_transaction_evolves; [|exact He|done]. done.
  - eapply get_transaction_evolves; [|exact He|done]. by intros _ r0 r' ->.
  - eapply claim_post_evolves; [|exact H]. intros x. by apply offers_event_evolves.
  - eapply claim_post_evolves; [|exact H]. intros x. by apply offers_reference_evolves.
  - by eapply retry_post_evolves.
  - destruct H as [Hc H]. split; [done|]. destruct r as [page|e]; [|done].
    destruct H as (w & d0 & ? & ? & ? & Hev & ?). exists w, d0.
    split; [done|]. split; [done|]. split; [done|]. split; [by transitivity d|done].
  - destruct H as [Hc H]. split; [done|]. destruct r as [rc|e]; [|done].
    destruct H as (d0 & ? & ? & ?). exists d0. split_and!; [done|by etrans|done].
Qed.

Lemma replying_ok {A} C (p : program A) (f : A -> Reply) b (Q : Reply -> sess Db lock -> Db -> Prop) :
  wp C p b fresh_sess (fun r => Q (f r)) -> wp C (replying p f) b fresh_sess Q.
Proof. by apply wp_bind_ret. Qed.

(** Each method keeps its promise, whatever happens around it. *)
Lemma code_ok o b :
  consistent b ->
  wp (spec o) (code o) b fresh_sess (fun a s b' => promise o a (ss_done s) b').
Proof.
  intros Hc. destruct o; apply replying_ok; cbn [spec promise].
  - by apply CreateWallet_triple.
  - by apply ProcessWager_triple.
  - by apply GetWallet_triple.
  - by apply GetTransaction_triple.
  - by apply GetExternalTransaction_triple.
  - by apply ClaimOutbox_triple.
  - by apply MarkPublished_triple.
  - by apply RetryOutbox_triple.
  - by apply ClaimReferences_triple.
  - by apply RetryReference_triple.
  - by apply release_outbox_triple.
  - by apply release_references_triple.
  - apply GetBacklog_triple.
  - by apply Ledger_triple.
  - by apply Reconcile_triple.
Qed.

(** ** The machine *)

Notation system := (machine Db lock Cx Op Reply).
Definition reaches (m : system) : Prop := reachable code empty_db m.

Lemma store_sound m : reaches m -> sound spec promise empty_db m.
Proof.
  intros Hr. eapply machine_sound; [| |apply consistent_empty|exact Hr].
  - intros o a c d d' Hp [_ He _]. by eapply promise_stable.
  - intros o d Hc. by apply code_ok.
Qed.

Lemma reached_consistent m : reaches m -> consistent (m_db m).
Proof. intros Hr. apply (snd_inv _ _ _ _ (store_sound _ Hr)). Qed.

Lemma reached_promise m o a c : reaches m -> (o, a, c) ∈ m_log m -> promise o a c (m_db m).
Proof. intros Hr. apply (snd_log _ _ _ _ (store_sound _ Hr)). Qed.

(** Commits of a run: consistent before, and everything evolves from there. *)
Lemma reached_commit m o b v : reaches m -> (o, b, v) ∈ m_commits m ->
  spec o b v /\ consistent b /\ consistent v /\ evolves b v /\ evolves v (m_db m).
Proof.
  intros Hr Hin. pose proof (store_sound _ Hr) as Hs. pose proof Hs as [_ _ _ _ Hc _ _ Hst Hh].
  destruct (Hst _ _ _ Hin) as [Hb [_ He Hcv]]. split_and!; [by apply Hc|done|by apply Hcv|done|].
  apply list_elem_of_split in Hin as (k1 & k2 & E).
  assert (Hsteps : forall o b v, (o, b, v) ∈ m_commits m -> rely [] b v) by (intros; by eapply Hst).
  by destruct (history_after _ _ _ _ _ _ _ _ Hsteps Hh E) as [[_ Hv _] _].
Qed.

(** Of two different commits, one is after the other. *)
Lemma reached_order m o1 b1 v1 o2 b2 v2 :
  reaches m -> (o1, b1, v1) ∈ m_commits m -> (o2, b2, v2) ∈ m_commits m ->
  (o1, b1, v1) = (o2, b2, v2) \/ evolves v1 b2 \/ evolves v2 b1.
Proof.
  intros Hr H1 H2. pose proof (store_sound _ Hr) as Hs.
  destruct (history_order _ _ _ _ _ _ _ _ _ _ Hs H1 H2) as [?|[[_ ? _]|[_ ? _]]]; auto.
Qed.

(** ** Publication *)

(** Only [MarkPublished] publishes. *)
Lemma spec_publishes o b v : spec o b v ->
  publishes (fun i => exists id token, o = OpMarkPublished id token /\ ParseID id = Ok i) b v.
Proof.
  assert (Hsettle : forall P x d, settleable d x -> publishes P d (settle_db x d)).
  { intros P x d Hx j y Hj Hp. right. exists y. split; [|done]. by eapply settle_published. }
  assert (Hnone : forall P b v, tended (fun _ => False) b v -> publishes P b v).
  { intros P b0 v0 [_ Hpub] j y Hj Hp. destruct (Hpub j y Hj Hp) as [?|?]; [done|by right]. }
  destruct o as [c Hrg|c m Hrg| | | | | | | | | | | | | ]; cbn [spec]; intros H; try done; try by apply Hnone.
  - destruct H as (w & player & now & H). destruct (ct_commit _ _ _ _ _ _ H) as [[_ ->]|(x & Hx & -> & _)].
    + by apply publishes_same.
    + by apply (Hsettle _ x _ Hx).
  - destruct H as [->|[(_ & _ & i & _ & _ & _ & H & _)|(c' & hash & i & res & _ & _ & h & w & wrow & now & u & x & ib & H)]].
    + by apply publishes_same.
    + destruct m as [m|]; cbn in H; [|subst; by apply publishes_same].
      destruct H as (row & _ & -> & _). by apply publishes_same.
    + rewrite (sd_commit _ _ _ _ _ _ _ _ _ _ _ _ _ _ H).
      apply Hsettle, (sd_settleable _ _ _ _ _ _ _ _ _ _ _ _ _ _ H).
  - destruct H as [_ H]. intros j y Hj Hp. destruct (H j y Hj Hp) as [?|?]; [left|by right]. by exists id, token.
  - destruct H as (res & w & i & wrow & r & since & x & H).
    rewrite (rt_commit _ _ _ _ _ _ _ _ _ _ _ _ H). apply Hsettle, (rt_settleable _ _ _ _ _ _ _ _ _ _ _ _ H).
Qed.

(** What holds now and did not at first is the work of a commit. *)
Lemma history_cause (now : Db -> Prop) (by_ : Op -> Db -> Db -> Prop) cm d :
  (forall o b v, (o, b, v) ∈ cm -> now v -> now b \/ by_ o b v) -> ~ now empty_db ->
  history empty_db cm d -> now d -> exists o b v, (o, b, v) ∈ cm /\ by_ o b v.
Proof.
  intros Hs H0. revert d. induction cm as [|[[o b] v] cm IH]; cbn; intros d Hh Hd; [by subst|].
  destruct Hh as [-> Hh]. destruct (Hs o b v (list_elem_of_here _ _) Hd) as [Hb|Hby].
  - destruct (IH (fun o' b' v' H => Hs _ _ _ (list_elem_of_further _ _ _ H)) b Hh Hb)
      as (o' & b' & v' & Hin & Hby).
    exists o', b', v'. split; [by apply list_elem_of_further|done].
  - exists o, b, v. split; [apply list_elem_of_here|done].
Qed.

Lemma reached_cause (now : Db -> Prop) (by_ : Op -> Db -> Db -> Prop) m :
  (forall o b v, spec o b v -> now v -> now b \/ by_ o b v) -> ~ now empty_db ->
  reaches m -> now (m_db m) -> exists o b v, (o, b, v) ∈ m_commits m /\ by_ o b v.
Proof.
  intros Hs H0 Hr. pose proof (store_sound _ Hr) as Hsound. apply history_cause; [|done|].
  - intros o b v Hin. apply Hs. by apply (snd_commits _ _ _ _ Hsound).
  - apply (snd_history _ _ _ _ Hsound).
Qed.

(** A published event was marked by a call of [MarkPublished]. *)
Lemma published_by m i y :
  reaches m -> outbox (m_db m) !! i = Some y -> ob_published y <> None ->
  exists id token b v, (OpMarkPublished id token, b, v) ∈ m_commits m /\ ParseID id = Ok i.
Proof.
  intros Hr Hy Hp.
  destruct (reached_cause (fun d => exists y, outbox d !! i = Some y /\ ob_published y <> None)
    (fun o _ _ => exists id token, o = OpMarkPublished id token /\ ParseID id = Ok i) m)
    as (o & b & v & Hin & id & token & -> & Hid); [..|by exists id, token, b, v].
  - intros o b v Hs (z & Hz & Hpz).
    destruct (spec_publishes o b v Hs i z Hz Hpz) as [?|?]; [by right|by left].
  - intros (z & Hz & _). done.
  - done.
  - by exists y.
Qed.

(** ** Where transactions and wallets come from *)

(** The request of a row is the command's. *)
Record asks (c : Command) (q : wager_request) : Prop := {
  as_provider : rq_provider q = Some (cProviderID c);
  as_external : rq_external q = Some (cExternalTransactionID c);
  as_key : rq_key q = Some (cIdempotencyKey c);
  as_wallet : ParseID (cWalletID c) = Ok (rq_wallet q);
  as_player : ParseID (cPlayerID c) = Ok (rq_player q);
  as_round : rq_round q = Some (cRoundID c);
  as_game : rq_game q = Some (cGameID c);
  as_kind : rq_kind q = ToUpper (cKind c) /\ externalKind (rq_kind q) = true;
  as_money : mkMoney (rq_amount q) (rq_currency q) = cMoney c;
  as_reference : rq_refext q = optional (cReferenceExternalTransactionID c);
  as_hash : exists c' h, NormalizeCommand c = Ok c' /\ PayloadHash c' = Ok (Hex.encode h) /\ rq_hash q = Some h
}.

(** An opening is the command's: its player's, of its initial balance. *)
Record asks_opening (c : CreateWalletCommand) (q : wager_request) : Prop := {
  ao_kind : rq_kind q = KindOpening;
  ao_player : ParseID (cwPlayerID c) = Ok (rq_player q);
  ao_money : mkMoney (rq_amount q) (rq_currency q) = cwInitialBalance c
}.

(** What may bring a request into the books. *)
Definition brings (q : wager_request) (o : Op) : Prop :=
  match o with
  | OpCreateWallet c _ => asks_opening c q
  | OpProcessWager c _ _ => asks c q
  | _ => False
  end.

Lemma settled_asks c c' hash m i res b v :
  NormalizeCommand c = Ok c' -> PayloadHash c' = Ok hash -> settled c' hash m i res b v ->
  forall r, wagers v !! i = Some r -> asks c (tr_request r).
Proof.
  intros Hn Hhash (h & w & wrow & now & u & x & ib & H) r Hr. pose proof Hn as Hn'.
  apply NormalizeCommand_inv in Hn as (Hnorm & player & wallet & Hp & Hw & ->).
  rewrite (sd_commit _ _ _ _ _ _ _ _ _ _ _ _ _ _ H) in Hr. cbn in Hr.
  rewrite lookup_insert_eq in Hr. injection Hr as <-. rewrite (sd_row _ _ _ _ _ _ _ _ _ _ _ _ _ _ H).
  pose proof (sd_wallet_id _ _ _ _ _ _ _ _ _ _ _ _ _ _ H) as Ew.
  pose proof (sd_player _ _ _ _ _ _ _ _ _ _ _ _ _ _ H) as Ep. cbn in Ew, Ep.
  rewrite (sd_hash _ _ _ _ _ _ _ _ _ _ _ _ _ _ H) in Hhash.
  apply (inj ID_String) in Ew, Ep. subst. constructor; cbn; try done; [|by destruct (cMoney c)|by eexists _, _].
  split; [done|apply (nm_kind _ Hnorm)].
Qed.

Lemma settle_requests x b i r :
  settleable b x -> wagers (settle_db x b) !! i = Some r ->
  (exists r', wagers b !! i = Some r' /\ tr_request r' = tr_request r) \/ (i = st_id x /\ r = st_row x).
Proof.
  intros Hx Hr. cbn in Hr. apply lookup_insert_Some in Hr as [[<- <-]|[_ Hr]]; [by right|].
  left. by exists r.
Qed.

Lemma spec_requests o b v i r :
  spec o b v -> wagers v !! i = Some r ->
  (exists r', wagers b !! i = Some r' /\ tr_request r' = tr_request r) \/ brings (tr_request r) o.
Proof.
  assert (Hsame : forall v, wagers v = wagers b -> wagers v !! i = Some r ->
    exists r', wagers b !! i = Some r' /\ tr_request r' = tr_request r).
  { intros v0 -> ?. by exists r. }
  assert (Hnone : forall P v, tended P b v -> wagers v !! i = Some r ->
    exists r', wagers b !! i = Some r' /\ tr_request r' = tr_request r).
  { intros P v0 [Ht _] Hr. destruct (map_same_back _ _ _ _ _ (td_wagers _ _ Ht) Hr) as (r' & Hr' & Hs & _).
    exists r'. by rewrite Hs. }
  destruct o as [c Hrg|c m Hrg| | | | | | | | | | | | | ]; cbn [spec brings]; intros H Hr; try done;
    try (left; by eapply Hnone).
  - destruct H as (w & player & now & H). destruct (ct_commit _ _ _ _ _ _ H) as [[_ ->]|(x & Hx & -> & _ & corr & Hk)].
    + left. by eapply Hsame.
    + destruct (settle_requests _ _ _ _ Hx Hr) as [?|[_ ->]]; [by left|right]. rewrite Hk.
      constructor; cbn; [done|apply (ct_player _ _ _ _ _ _ H)|by destruct (cwInitialBalance c)].
  - destruct H as [->|[(_ & _ & j & _ & _ & _ & H & _)|(c' & hash & j & res & Hn & Hhash & H)]].
    + left. by eapply Hsame.
    + left. destruct m as [m|]; cbn in H; [|subst; by eapply Hsame].
      destruct H as (row & _ & -> & _). by eapply Hsame.
    + pose proof (settled_asks _ _ _ _ _ _ _ _ Hn Hhash H) as Ha. destruct H as (h & w & wrow & now & u & x & ib & H).
      pose proof Hr as Hr'. rewrite (sd_commit _ _ _ _ _ _ _ _ _ _ _ _ _ _ H) in Hr'.
      destruct (settle_requests _ _ _ _ (sd_settleable _ _ _ _ _ _ _ _ _ _ _ _ _ _ H) Hr') as [?|[-> _]];
        [by left|right; by apply Ha].
  - left. destruct H as (res & w & j & wrow & r0 & since & x & H).
    rewrite (rt_commit _ _ _ _ _ _ _ _ _ _ _ _ H) in Hr.
    pose proof (rt_settleable _ _ _ _ _ _ _ _ _ _ _ _ H) as Hx.
    destruct (settle_requests _ _ _ _ Hx Hr) as [?|[-> ->]]; [done|].
    pose proof (sp_old _ _ Hx) as Ho. cbn in *. rewrite (rt_row _ _ _ _ _ _ _ _ _ _ _ _ H) in Ho.
    destruct Ho as [(Hq & _) _]. exists r0. split; [apply (rt_row _ _ _ _ _ _ _ _ _ _ _ _ H)|done].
Qed.

(** Every transaction was brought by a call: an opening by [CreateWallet], any
    other by [ProcessWager], for the command it carries. *)
Lemma brought_by m i r :
  reaches m -> wagers (m_db m) !! i = Some r ->
  exists o b v, (o, b, v) ∈ m_commits m /\ brings (tr_request r) o.
Proof.
  intros Hr Hi.
  apply (reached_cause (fun d => exists r', wagers d !! i = Some r' /\ tr_request r' = tr_request r)
    (fun o _ _ => brings (tr_request r) o)); [|by intros (? & ? & _)|done|by exists r].
  intros o b v Hs (r' & Hr' & E). rewrite <- E. by eapply spec_requests.
Qed.

(** Every delivery on record was completed by a commit of [ProcessWager], for the
    request it answered. *)
Lemma spec_deliveries o b v k irow :
  spec o b v -> inbox v !! k = Some irow ->
  inbox b !! k = Some irow \/ exists c m H c', o = OpProcessWager c m H /\ completes_for c m b v k irow c'.
Proof.
  assert (Hnone : forall P, tended P b v -> inbox v !! k = Some irow -> inbox b !! k = Some irow).
  { intros P [Ht _]. by rewrite (td_inbox _ _ Ht). }
  destruct o as [c Hrg|c m Hrg| | | | | | | | | | | | | ]; cbn [spec]; intros H Hk; try done;
    try (left; by eapply Hnone).
  - left. destruct H as (w & player & now & H).
    destruct (ct_commit _ _ _ _ _ _ H) as [[_ ->]|(x & Hx & -> & Hib & _)]; [done|]. cbn in Hk. by rewrite Hib in Hk.
  - destruct (process_completes _ _ _ _ _ _ H Hk) as [?|[c' ?]]; [by left|right]. by exists c, m, Hrg, c'.
  - left. destruct H as (res & w & j & wrow & r0 & since & x & H).
    by rewrite (rt_commit _ _ _ _ _ _ _ _ _ _ _ _ H) in Hk.
Qed.

Lemma delivered_by m k irow :
  reaches m -> inbox (m_db m) !! k = Some irow ->
  exists c mi H b v c', (OpProcessWager c mi H, b, v) ∈ m_commits m /\ completes_for c mi b v k irow c'.
Proof.
  intros Hr Hk.
  destruct (reached_cause (fun d => inbox d !! k = Some irow)
    (fun o b v => exists c mi H c', o = OpProcessWager c mi H /\ completes_for c mi b v k irow c') m)
    as (o & b & v & Hin & c & mi & H & c' & -> & Hc); [|done|done|done|by exists c, mi, H, b, v, c'].
  intros o b v Hs Hv. by apply spec_deliveries.
Qed.

(** Every wallet was created by a call of [CreateWallet] for its player and
    currency. *)
Lemma opened_by m w row :
  reaches m -> wallets (m_db m) !! w = Some row ->
  exists c H b v, (OpCreateWallet c H, b, v) ∈ m_commits m
    /\ ParseID (cwPlayerID c) = Ok (wr_player row) /\ currency (cwInitialBalance c) = wr_currency row.
Proof.
  intros Hr Hw. set (mine := fun r => wr_player r = wr_player row /\ wr_currency r = wr_currency row).
  set (has := fun d => exists r, wallets d !! w = Some r /\ mine r).
  destruct (reached_cause has
    (fun o _ _ => exists c H, o = OpCreateWallet c H /\ ParseID (cwPlayerID c) = Ok (wr_player row)
       /\ currency (cwInitialBalance c) = wr_currency row) m)
    as (o & b & v & Hin & c & H & -> & Hc); [|by intros (? & ? & _)|done|by exists row|by exists c, H, b, v].
  assert (Hsettle : forall x d, settleable d x -> has (settle_db x d) -> has d).
  { intros x d Hx (r & Hl & Hm). cbn in Hl. pose proof (sp_moved _ _ Hx) as Hmm.
    destruct (st_moved x) as [[w' e]|]; [|by exists r].
    apply lookup_insert_Some in Hl as [[<- <-]|[_ ?]]; [|by exists r].
    destruct (mm_wallet _ _ _ _ _ Hmm) as (w0 & Hw0 & (G1 & G2 & _) & _). exists w0. split; [done|].
    destruct Hm as [M1 M2]. split; congruence. }
  clear Hw Hr. intros o b v H Hv.
  destruct o as [c Hrg|c mi Hrg| | | | | | | | | | | | | ]; cbn [spec] in H; try done;
    try (destruct H as [Ht _]; left; unfold has; by rewrite <- (td_wallets _ _ Ht)).
  - destruct H as (k & player & now & H). pose proof (Opening.ct_row _ _ _ _ _ _ H) as Hk.
    destruct (decide (w = k)) as [->|Hne].
    + right. exists c, Hrg. destruct Hv as (r & Hr & M1 & M2). rewrite Hk in Hr. injection Hr as <-. cbn in *.
      split_and!; [done| |congruence]. rewrite <- M1. apply (Opening.ct_player _ _ _ _ _ _ H).
    + left. assert (Ho : has (open_db k (new_row player (currency (cwInitialBalance c)) 0 now) b)).
      { destruct (ct_commit _ _ _ _ _ _ H) as [[_ <-]|(x & Hx & E & _)]; [done|]. subst v. by eapply Hsettle. }
      destruct Ho as (r & Hr & Hm). cbn in Hr. rewrite lookup_insert_ne in Hr by done. by exists r.
  - left. destruct H as [->|[(_ & _ & j & _ & _ & _ & H & _)|(c' & hash & j & res & _ & _ & h & w' & wrow & now & u & x & ib & H)]]; [done|..].
    + destruct mi as [mi|]; cbn in H; [|by subst]. by destruct H as (y & _ & -> & _).
    + rewrite (sd_commit _ _ _ _ _ _ _ _ _ _ _ _ _ _ H) in Hv. eapply Hsettle; [|exact Hv].
      apply (sd_settleable _ _ _ _ _ _ _ _ _ _ _ _ _ _ H).
  - left. destruct H as (res & w' & j & wrow & r0 & since & x & H).
    rewrite (rt_commit _ _ _ _ _ _ _ _ _ _ _ _ H) in Hv. eapply Hsettle; [|exact Hv].
    apply (rt_settleable _ _ _ _ _ _ _ _ _ _ _ _ H).
Qed.
