(* ===== verification/Guards.v ===== *)
(** * The row triggers: [migrations/000003_database_guards.sql]

    The ledger takes no UPDATE and no DELETE, an event's snapshot and a
    transaction's request never change, and a terminal transaction is not
    updated at all.  [let_through]: what a statement may write under these
    triggers.  [code_let_through]: no statement of any method of the store, in
    any state of its program, writes anything else. *)

From S2P Require Import Prelude GoStd Errors Ident Money Wallet Ledger Wager Evaluate Command.
From S2P Require Import Events Session Database Sql Store Work Read Tending System.
Import Str.
#[local] Open Scope prog_scope.

(** ** The statements a program can issue *)

Section issues.
Context {Db Lock Cx : Type} (P : forall R, stmt Db Lock Cx R -> Prop).

(** Every statement at every point [p] can come to satisfies [P]. *)
Fixpoint issues {A} (p : prog Db Lock Cx A) : Prop :=
  match p with
  | Ret _ => True
  | Do s k => P _ s /\ forall r, issues (k r)
  | Clock k => forall t, issues (k t)
  | Savepoint k | RollbackTo k | Commit k => forall r, issues (k r)
  end.

Lemma issues_bind {A B} (p : prog Db Lock Cx A) (f : A -> prog Db Lock Cx B) :
  issues p -> (forall a, issues (f a)) -> issues (bind p f).
Proof. intros Hp Hf. induction p as [a|R s k IH|k IH|k IH|k IH|k IH]; cbn in *; naive_solver. Qed.

Lemma issues_andThen {A B} (p : prog Db Lock Cx (res A)) (f : A -> prog Db Lock Cx (res B)) :
  issues p -> (forall a, issues (f a)) -> issues (andThen p f).
Proof. intros Hp Hf. apply issues_bind; [done|]. by intros [a|e]. Qed.

Lemma issues_map_err {A} w (p : prog Db Lock Cx (res A)) : issues p -> issues (map_err w p).
Proof. intros Hp. apply issues_bind; [done|]. by intros [a|e]. Qed.

Lemma issues_exec {R} (s : stmt Db Lock Cx R) : P _ s -> issues (exec s).
Proof. done. Qed.
End issues.

(** ** What the triggers let a statement write *)

(** Over the rows there were; inserts fire no row trigger. *)
Record let_through (d d' : Db) : Prop := {
  lt_ledger : forall n e, ledger d !! n = Some e ->
    ledger d' !! n = Some e \/ protect_ledger e (ledger d' !! n) = true;
  lt_outbox : forall i r, outbox d !! i = Some r ->
    exists r', outbox d' !! i = Some r' /\ protect_outbox_snapshot r r' = true;
  lt_wagers : forall i r, wagers d !! i = Some r ->
    exists r', wagers d' !! i = Some r' /\ (r' = r \/ protect_wager r r' = true)
}.

Lemma snapshot_kept r : protect_outbox_snapshot r r = true.
Proof. apply bool_decide_refl. Qed.

#[global] Instance let_through_refl : Reflexive let_through.
Proof.
  intros d. constructor; [by left| |].
  - intros i r Hr. exists r. split; [done|apply snapshot_kept].
  - intros i r Hr. exists r. split; [done|by left].
Qed.

(** The writes of the statements, one table at a time. *)
Section writes.
Variable d : Db.

Lemma write_wallets f : let_through d (set_wallets f d).
Proof. destruct (let_through_refl d). by constructor. Qed.

Lemma write_inbox f : let_through d (set_inbox f d).
Proof. destruct (let_through_refl d). by constructor. Qed.

Lemma append_ledger e : let_through d (set_ledger (fun l => l ++ [e]) d).
Proof.
  destruct (let_through_refl d) as [_ Ho Hw]. constructor; [|done..].
  intros n x Hx. left. cbn. by apply lookup_app_l_Some.
Qed.

Lemma write_outbox m :
  (forall i r, outbox d !! i = Some r -> exists r', m !! i = Some r' /\ protect_outbox_snapshot r r' = true) ->
  let_through d (set_outbox (fun _ => m) d).
Proof. intros Hm. destruct (let_through_refl d) as [Hl _ Hw]. by constructor. Qed.

Lemma write_wagers m :
  (forall i r, wagers d !! i = Some r -> exists r', m !! i = Some r' /\ (r' = r \/ protect_wager r r' = true)) ->
  let_through d (set_wagers (fun _ => m) d).
Proof. intros Hm. destruct (let_through_refl d) as [Hl Ho _]. by constructor. Qed.

Lemma insert_outbox_row i row :
  is_some (outbox d !! i) = false -> let_through d (set_outbox (<[i := row]>) d).
Proof.
  intros Hi. apply (write_outbox (<[i := row]> (outbox d))). intros j r Hj. exists r.
  split; [|apply snapshot_kept]. rewrite lookup_insert_ne; [done|]. intros ->. by rewrite Hj in Hi.
Qed.

Lemma insert_wager_row i row :
  is_some (wagers d !! i) = false -> let_through d (set_wagers (<[i := row]>) d).
Proof.
  intros Hi. apply (write_wagers (<[i := row]> (wagers d))). intros j r Hj. exists r.
  split; [|by left]. rewrite lookup_insert_ne; [done|]. intros ->. by rewrite Hj in Hi.
Qed.

Lemma alter_outbox_row f i :
  (forall r, outbox_snapshot (f r) = outbox_snapshot r) -> let_through d (set_outbox (alter f i) d).
Proof.
  intros Hf. apply (write_outbox (alter f i (outbox d))). intros j r Hj.
  destruct (decide (i = j)) as [->|Hne].
  - exists (f r). rewrite lookup_alter_eq, Hj. split; [done|]. by apply bool_decide_eq_true.
  - exists r. rewrite lookup_alter_ne by done. split; [done|apply snapshot_kept].
Qed.

Lemma alter_wager_row f i r :
  wagers d !! i = Some r -> Terminal (oc_status (tr_outcome r)) = false ->
  tr_request (f r) = tr_request r -> let_through d (set_wagers (alter f i) d).
Proof.
  intros Hi Ht Hf. apply (write_wagers (alter f i (wagers d))). intros j x Hj.
  destruct (decide (i = j)) as [->|Hne].
  - rewrite Hi in Hj. injection Hj as <-. exists (f r). rewrite lookup_alter_eq, Hi. split; [done|].
    right. unfold protect_wager. rewrite Ht. by apply bool_decide_eq_true.
  - exists x. rewrite lookup_alter_ne by done. split; [done|by left].
Qed.

(** The same over several rows. *)
Lemma alter_outbox_rows {B} (f : B -> outbox_row -> outbox_row) l :
  (forall x r, outbox_snapshot (f x r) = outbox_snapshot r) ->
  let_through d (set_outbox (alter_all f l) d).
Proof.
  intros Hf. apply (write_outbox (alter_all f l (outbox d))). intros j r Hj.
  assert (Hs : map_same (fun r r' => outbox_snapshot r' = outbox_snapshot r) (outbox d)
                 (alter_all f l (outbox d))).
  { apply alter_all_same; [|done]. split; [by intros x|]. intros x y z ? ?. by etrans. }
  specialize (Hs j). rewrite Hj in Hs. destruct (alter_all f l (outbox d) !! j) as [r'|]; [|done].
  exists r'. split; [done|]. by apply bool_decide_eq_true.
Qed.

Lemma alter_wager_rows {B} (f : B -> wager_row -> wager_row) l :
  (forall x r, tr_request (f x r) = tr_request r) ->
  (forall i r, i ∈ l.*1 -> wagers d !! i = Some r -> waiting r = true) ->
  let_through d (set_wagers (alter_all f l) d).
Proof.
  intros Hf Hl. apply (write_wagers (alter_all f l (wagers d))). intros j r Hj.
  assert (Hs : map_same (fun r r' => tr_request r' = tr_request r) (wagers d) (alter_all f l (wagers d))).
  { apply alter_all_same; [|done]. split; [by intros x|]. intros x y z ? ?. by etrans. }
  specialize (Hs j). rewrite Hj in Hs.
  destruct (alter_all f l (wagers d) !! j) as [r'|] eqn:E; [|done]. exists r'. split; [done|].
  destruct (decide (j ∈ l.*1)) as [Hin|Hin].
  - right. pose proof (Hl _ _ Hin Hj) as Hw. unfold waiting in Hw. apply bool_decide_eq_true in Hw.
    unfold protect_wager. rewrite Hw. by apply bool_decide_eq_true.
  - left. rewrite (alter_all_other f l _ j Hin) in E. congruence.
Qed.
End writes.

(** ** The statements *)

(** In every database and context, what the statement writes is let through. *)
Definition guarded (R : Type) (st : statement R) : Prop :=
  forall cx d, let_through d (out_write (st cx d) d).


Create HintDb guards.
#[export] Hint Resolve write_wallets write_inbox append_ledger insert_outbox_row insert_wager_row
  let_through_refl : guards.

(** A statement that only reads, inserts, or writes a table without row triggers. *)
Ltac plain st :=
  intros cx d; unfold st, integer_overflow, invalid_text, check_violation, foreign_key_violation,
    unique_violation, refuse, writes, reads;
  repeat case_match; bools; cbn [out_write]; try reflexivity; auto with guards.

Lemma begin_tx_guarded : guarded _ begin_tx.
Proof. plain begin_tx. Qed.
Lemma send_query_guarded : guarded _ send_query.
Proof. plain send_query. Qed.
Lemma allocate_id_guarded : guarded _ allocate_id.
Proof. plain allocate_id. Qed.
Lemma select_backlog_guarded : guarded _ select_backlog.
Proof. plain select_backlog. Qed.
Lemma select_wallet_guarded text : guarded _ (select_wallet text).
Proof. plain select_wallet. Qed.
Lemma get_wallet_for_update_guarded id : guarded _ (get_wallet_for_update id).
Proof. plain get_wallet_for_update. Qed.
Lemma insert_wallet_guarded id player cur balance now : guarded _ (insert_wallet id player cur balance now).
Proof. plain insert_wallet. Qed.
Lemma update_wallet_guarded id balance version updated : guarded _ (update_wallet id balance version updated).
Proof. plain update_wallet. Qed.
Lemma select_wager_guarded text : guarded _ (select_wager text).
Proof. plain select_wager. Qed.
Lemma select_wager_for_update_guarded id : guarded _ (select_wager_for_update id).
Proof. plain select_wager_for_update. Qed.
Lemma select_external_guarded provider external : guarded _ (select_external provider external).
Proof. plain select_external. Qed.
Lemma select_provider_wager_guarded provider text : guarded _ (select_provider_wager provider text).
Proof. plain select_provider_wager. Qed.
Lemma select_identity_guarded provider key external : guarded _ (select_identity provider key external).
Proof. plain select_identity. Qed.
Lemma exists_reversal_guarded reference : guarded _ (exists_reversal reference).
Proof. plain exists_reversal. Qed.
Lemma insert_wager_guarded id provider external key hash wallet player round game kind amount cur refext correlation causation now : guarded _ (insert_wager id provider external key hash wallet player round game kind amount cur refext correlation causation now).
Proof. plain insert_wager. Qed.
Lemma insert_opening_guarded id wallet player amount cur correlation now : guarded _ (insert_opening id wallet player amount cur correlation now).
Proof. plain insert_opening. Qed.
Lemma insert_ledger_row_guarded e : guarded _ (insert_ledger_row e).
Proof. plain insert_ledger_row. Qed.
Lemma insert_outbox_guarded id type version aggregate correlation causation payload : guarded _ (insert_outbox id type version aggregate correlation causation payload).
Proof. plain insert_outbox. Qed.
Lemma insert_inbox_guarded consumer message hash : guarded _ (insert_inbox consumer message hash).
Proof. plain insert_inbox. Qed.
Lemma select_inbox_guarded consumer message : guarded _ (select_inbox consumer message).
Proof. plain select_inbox. Qed.
Lemma complete_inbox_guarded consumer message tx : guarded _ (complete_inbox consumer message tx).
Proof. plain complete_inbox. Qed.
Lemma select_claimed_guarded id wallet token : guarded _ (select_claimed id wallet token).
Proof. plain select_claimed. Qed.
Lemma select_ledger_guarded wallet at_ limit : guarded _ (select_ledger wallet at_ limit).
Proof. plain select_ledger. Qed.
Lemma select_reconcile_guarded text : guarded _ (select_reconcile text).
Proof. plain select_reconcile. Qed.

(** The result of a transaction: the trigger itself refuses a terminal row. *)
Lemma update_result_guarded id o : guarded _ (update_result id o).
Proof.
  intros cx d. unfold update_result. destruct (wagers d !! id) as [r|] eqn:Er; [|reflexivity].
  unfold check_violation, foreign_key_violation, unique_violation, refuse, writes.
  repeat case_match; cbn [out_write]; try reflexivity; by eapply alter_wager_row.
Qed.

Lemma update_claimed_guarded id token ok f :
  (forall cx r, outbox_snapshot (f cx r) = outbox_snapshot r) -> guarded _ (update_claimed id token ok f).
Proof.
  intros Hf cx d. unfold update_claimed, invalid_text, integer_overflow, refuse, writes, reads.
  repeat case_match; cbn [out_write]; try reflexivity; by apply alter_outbox_row.
Qed.

Lemma mark_published_guarded id token : guarded _ (mark_published id token).
Proof. by apply update_claimed_guarded. Qed.
Lemma retry_outbox_guarded id token ms : guarded _ (retry_outbox id token ms).
Proof. by apply update_claimed_guarded. Qed.

Lemma maintain_guarded {R} id ok f (reply : wager_row -> R) :
  (forall cx r, tr_request (f cx r) = tr_request r) -> guarded _ (maintain id ok f reply).
Proof.
  intros Hf cx d. unfold maintain, invalid_text, check_violation, integer_overflow, refuse, writes, reads.
  repeat case_match; cbn [out_write]; try reflexivity; by eapply alter_wager_row.
Qed.

Lemma bump_attempts_guarded id : guarded _ (bump_attempts id).
Proof. by apply maintain_guarded. Qed.
Lemma clear_claim_guarded id : guarded _ (clear_claim id).
Proof. by apply maintain_guarded. Qed.
Lemma delay_reference_guarded id ms : guarded _ (delay_reference id ms).
Proof. by apply maintain_guarded. Qed.

Lemma claim_outbox_guarded owner limit ms : guarded _ (claim_outbox owner limit ms).
Proof. intros cx d. unfold claim_outbox. case_match; [reflexivity|by apply alter_outbox_rows]. Qed.
Lemma release_outbox_guarded owner : guarded _ (release_outbox owner).
Proof. intros cx d. unfold release_outbox. case_match; [reflexivity|by apply alter_outbox_rows]. Qed.

(** The leases on transactions touch only those that wait. *)
Lemma claim_references_guarded owner limit ms : guarded _ (claim_references owner limit ms).
Proof.
  intros cx d. unfold claim_references. case_match; [reflexivity|].
  apply alter_wager_rows; [done|]. intros i r Hi Hr. rewrite leased_fst in Hi.
  apply list_elem_of_fmap in Hi as ([j x] & -> & Hx).
  apply candidates_spec in Hx as (Hj & Hdue & _). cbn in Hr. rewrite Hj in Hr. injection Hr as ->.
  unfold reference_due in Hdue. by bools.
Qed.

Lemma release_references_guarded owner : guarded _ (release_references owner).
Proof.
  intros cx d. unfold release_references. case_match; [reflexivity|].
  apply alter_wager_rows; [done|]. intros i r Hi Hr.
  apply list_elem_of_fmap in Hi as ([j x] & -> & Hx). apply list_elem_of_filter in Hx as [Hx Hj].
  apply elem_of_map_to_list in Hj. cbn in *. rewrite Hj in Hr. injection Hr as ->.
  apply Is_true_true in Hx. by bools.
Qed.

#[export] Hint Resolve begin_tx_guarded send_query_guarded allocate_id_guarded
  select_backlog_guarded select_wallet_guarded get_wallet_for_update_guarded insert_wallet_guarded
  update_wallet_guarded select_wager_guarded select_wager_for_update_guarded
  select_external_guarded select_provider_wager_guarded select_identity_guarded
  exists_reversal_guarded insert_wager_guarded insert_opening_guarded insert_ledger_row_guarded
  insert_outbox_guarded insert_inbox_guarded select_inbox_guarded complete_inbox_guarded
  select_claimed_guarded select_ledger_guarded select_reconcile_guarded update_result_guarded
  mark_published_guarded retry_outbox_guarded bump_attempts_guarded clear_claim_guarded
  delay_reference_guarded claim_outbox_guarded release_outbox_guarded claim_references_guarded
  release_references_guarded : guards.

(** ** The methods *)

Notation passes := (issues guarded).

(** One step into a program: a sequence, a statement, a test. *)
Ltac issue :=
  intros;
  lazymatch goal with
  | |- issues _ (andThen _ _) => apply issues_andThen
  | |- issues _ (map_err _ _) => apply issues_map_err
  | |- issues _ (query_row _ _) => apply issues_andThen
  | |- issues _ (bind _ _) => apply issues_bind
  | |- issues _ (exec _) => apply issues_exec
  | |- issues _ (match ?x with _ => _ end) => destruct x
  | |- issues _ (let '_ := ?x in _) => destruct x
  | |- issues _ _ => first [solve [eauto with guards] | done]
  | |- guarded _ _ => solve [eauto with guards]
  end.
Ltac passing m := intros; unfold m; cbv zeta; repeat issue.

Lemma allocateID_passes : passes allocateID.
Proof. passing allocateID. Qed.
Lemma lockWallet_passes id : passes (lockWallet id).
Proof. passing lockWallet. Qed.
Lemma insertEvent_passes e correlation causation : passes (insertEvent e correlation causation).
Proof. passing insertEvent. Qed.
#[export] Hint Resolve allocateID_passes lockWallet_passes insertEvent_passes : guards.

Lemma writeEvents_passes d w entry correlation causation now :
  passes (writeEvents d w entry correlation causation now).
Proof. passing writeEvents. Qed.
Lemma persistResult_passes d : passes (persistResult d).
Proof. passing persistResult. Qed.
Lemma insertLedger_passes d direction from to now : passes (insertLedger d direction from to now).
Proof. passing insertLedger. Qed.
Lemma find_reference_passes w d : passes (find_reference w d).
Proof. passing find_reference. Qed.
#[export] Hint Resolve writeEvents_passes persistResult_passes insertLedger_passes
  find_reference_passes : guards.

Lemma execute_passes w wg reference direction now : passes (execute w wg reference direction now).
Proof. passing execute. Qed.
#[export] Hint Resolve execute_passes : guards.
Lemma carry_out_passes w wg reference decision now : passes (carry_out w wg reference decision now).
Proof. passing carry_out. Qed.
#[export] Hint Resolve carry_out_passes : guards.
Lemma apply_passes w wg correlation causation expired : passes (apply w wg correlation causation expired).
Proof. passing apply. Qed.
Lemma reserveInbox_passes m : passes (reserveInbox m).
Proof. passing reserveInbox. Qed.
Lemma completeInbox_passes m id : passes (completeInbox m id).
Proof. passing completeInbox. Qed.
Lemma findIdentity_passes c hash : passes (findIdentity c hash).
Proof. passing findIdentity. Qed.
#[export] Hint Resolve apply_passes reserveInbox_passes completeInbox_passes findIdentity_passes : guards.

Lemma commitReplay_passes m d : passes (commitReplay m d).
Proof. passing commitReplay. Qed.
Lemma inboxReplay_passes c existing : passes (inboxReplay c existing).
Proof. passing inboxReplay. Qed.
Lemma insertWager_passes c hash id now : passes (insertWager c hash id now).
Proof. passing insertWager. Qed.
#[export] Hint Resolve commitReplay_passes inboxReplay_passes insertWager_passes : guards.
Lemma process_new_passes c hash m : passes (process_new c hash m).
Proof. passing process_new. Qed.
#[export] Hint Resolve process_new_passes : guards.
Lemma ProcessWager_passes c m : passes (ProcessWager c m).
Proof. passing ProcessWager. Qed.

Lemma create_opening_passes c id pid w now : passes (create_opening c id pid w now).
Proof. passing create_opening. Qed.
#[export] Hint Resolve create_opening_passes : guards.
Lemma CreateWallet_passes c : passes (CreateWallet c).
Proof. passing CreateWallet. Qed.

Lemma GetWallet_passes id : passes (GetWallet id).
Proof. passing GetWallet. Qed.
Lemma getTransaction_passes s : guarded _ s -> passes (getTransaction s).
Proof. passing getTransaction. Qed.
#[export] Hint Resolve GetWallet_passes getTransaction_passes : guards.

Lemma fail_reference_passes claim w wg correlation cause exhausted :
  passes (fail_reference claim w wg correlation cause exhausted).
Proof. passing fail_reference. Qed.
#[export] Hint Resolve fail_reference_passes : guards.
Lemma RetryReference_passes claim maxAttempts ttl : passes (RetryReference claim maxAttempts ttl).
Proof. passing RetryReference. Qed.

Lemma autocommit_passes {R} (s : statement R) : guarded _ s -> passes (autocommit s).
Proof. passing (@autocommit). Qed.
Lemma query_rows_passes {R} (s : statement (list R)) : guarded _ s -> passes (query_rows s).
Proof. intros. unfold query_rows, streamed. repeat issue. Qed.
#[export] Hint Resolve autocommit_passes query_rows_passes : guards.

(** No statement of any method is one a row trigger refuses. *)
Lemma code_let_through o : passes (code o).
Proof.
  destruct o; cbn [code]; apply issues_bind; try done;
    first [apply CreateWallet_passes | apply ProcessWager_passes | apply RetryReference_passes | idtac];
    unfold GetTransaction, GetExternalTransaction, ClaimOutbox, MarkPublished, RetryOutbox,
      ClaimReferences, GetBacklog, Ledger, Reconcile, claim_lost; repeat issue.
Qed.
