(* ===== verification/Tasks.v ===== *)
(** * Goroutines and the outside

    The program's goroutines as trees of requests: to the store, to the broker,
    to the identity provider, to the clients.  Any number of them run over one
    store, each request is answered by whatever the outside answers, and a
    process may die at any point.  [worlds_safe]: what [safe] proves of each
    goroutine alone holds of everything the program ever asks. *)

From S2P Require Import Prelude GoStd Errors Command Session Machine Oidc Database Read System.

(** ** The vocabulary *)

(** [sqs.Message]. *)
Record Message : Type := mkMessage {
  msID : string; msBody : string; msReceipt : string; msReceiveCount : Z
}.

(** The routes of [httpapi.New], with what chi read from the path and the query. *)
Inductive Endpoint : Type :=
| PostWallet
| GetWalletByID (walletId : string)
| GetLedger (walletId limit cursor : string)
| PostReconciliation (walletId : string)
| PostTransaction
| GetTransactionByID (transactionId : string)
| GetProviderTransaction (providerId externalTransactionId : string)
| HealthLive
| HealthReady.

(** An HTTP request: the route (and chi's text of it), the headers the handlers
    read, the body. *)
Record Request : Type := mkHttpRequest {
  hrMethod : string; hrRoute : string; hrEndpoint : Endpoint; hrAuthorization : string; hrCorrelation : string;
  hrContentType : string; hrIdempotencyKey : string; hrBody : string
}.

(** What [writeJSON] is given. *)
Inductive Body : Type :=
| BodyWallet (v : WalletView)
| BodyResult (r : Result)
| BodyPage (p : LedgerPage)
| BodyReconciliation (r : Reconciliation)
| BodyFailure (code message correlation : string)
| BodyHealth (status : string)
| BodyText (text : string).

(** The contexts of [workers.Engine]. *)
Inductive context : Type := Intake | Work.

(** What a goroutine waits for. *)
Inductive request : Type :=
| Call (o : Op)
| Receive (max : Z)
| Delete (receipt : string)
| Visibility (receipt : string) (delay : Z)
| Publish (event aggregate payload : string)
| DLQDepths
| Cancelled (c : context)                         (* c.Err() != nil *)
| Wait (delay : Z)                                (* wait(e.intake, delay) *)
| Int64N (n : Z)                                  (* rand.Int64N *)
| Meter (metric : string) (labels : list string)  (* the metrics *)
| Arrived                                         (* rows read before rows.Err() *)
| Validate (token : string)
| Ready
| RandomID                                        (* rand.Read of 16 bytes *)
| TooLarge                                        (* decoder.Decode met the body limit first *)
| Respond (r : Request) (status : Z) (body : Body).

Definition answer (r : request) : Type :=
  match r with
  | Call _ => Reply
  | Receive _ => res (list Message)
  | Delete _ | Visibility _ _ | Publish _ _ _ | Ready => res unit
  | DLQDepths => res (list (string * Z))
  | Cancelled _ | Wait _ | TooLarge => bool
  | Int64N _ => Z
  | Arrived => nat
  | Validate _ => res Principal
  | RandomID => res string
  | Meter _ _ | Respond _ _ _ => unit
  end.

(** What the outside may answer: anything, but [rand.Int64N] keeps its range.
    It panics on a bound that is not positive, which is never asked (Program.v). *)
Definition may_answer (r : request) : answer r -> Prop :=
  match r with
  | Int64N n => fun x => 0 < n -> 0 <= x < n
  | _ => fun _ => True
  end.

(** Calls of the store are sessions of its machine. *)
Definition is_call (r : request) : bool := match r with Call _ => true | _ => false end.

(** The loops of the engine. *)
Inductive loop : Type := ConsumeLoop | PublishLoop | ReferenceLoop | ObserveLoop.

(** A goroutine: requests one after another; [Par] starts others and waits for
    all of them; [Again] is one more round of a loop. *)
#[warnings="-register-all,-automation"]
Inductive task : Type :=
| Done (b : bool)
| Ask (r : request) (k : answer r -> task)
| Par (ts : list task) (k : list bool -> task)
| Again (l : loop).

Declare Scope task_scope.
Delimit Scope task_scope with task.
Notation "x <~ r ;; k" := (Ask r (fun x => k))
  (at level 90, r at level 89, right associativity) : task_scope.
Notation "r ~;; k" := (Ask r (fun _ => k)) (at level 90, right associativity) : task_scope.

(** ** Threads and worlds *)

#[warnings="-register-all,-automation"]
Inductive thread : Type :=
| Running (t : task)
| Waiting (r : request) (k : answer r -> task)
| Calling (n : nat) (o : Op) (k : Reply -> task)   (* session [n] of the store *)
| Joining (ths : list thread) (k : list bool -> task).

(** A goroutine was started, for an HTTP request that came in or by the runtime;
    something was asked; it was answered. *)
Inductive event : Type :=
| Started (rq : option Request)
| Asked (r : request)
| Answered (r : request) (a : answer r).

(** The store and what has been asked of the outside, newest first. *)
Definition scene : Type := system * list event.

Record world : Type := mkWorld { w_store : system; w_threads : list thread; w_trace : list event }.
Definition scene_of (w : world) : scene := (w_store w, w_trace w).

Section steps.
Context (body : loop -> task).

Inductive tstep : scene -> thread -> scene -> thread -> Prop :=
| ts_ask m tr r k :
    is_call r = false ->
    tstep (m, tr) (Running (Ask r k)) (m, Asked r :: tr) (Waiting r k)
| ts_answer m tr r k a :
    may_answer r a -> tstep (m, tr) (Waiting r k) (m, Answered r a :: tr) (Running (k a))
| ts_call d ss lg cm tr n o k :
    n ∉ ss.*1 ->
    tstep (mkMachine d ss lg cm, tr) (Running (Ask (Call o) k))
      (mkMachine d ((n, (o, code o, fresh_sess)) :: ss) lg cm, Asked (Call o) :: tr) (Calling n o k)
| ts_return d ss1 ss2 lg cm tr n o a s k :
    tstep (mkMachine d (ss1 ++ (n, (o, Ret a, s)) :: ss2) lg cm, tr) (Calling n o k)
      (mkMachine d (ss1 ++ ss2) ((o, a, ss_done s) :: lg) cm, tr) (Running (k a))
| ts_again s l : tstep s (Running (Again l)) s (Running (body l))
| ts_par s ts k : tstep s (Running (Par ts k)) s (Joining (Running <$> ts) k)
| ts_child s th s' th' ths1 ths2 k :
    tstep s th s' th' -> tstep s (Joining (ths1 ++ th :: ths2) k) s' (Joining (ths1 ++ th' :: ths2) k)
| ts_join s bs k : tstep s (Joining (Running ∘ Done <$> bs) k) s (Running (k bs)).

(** The store goes on by itself, or a session of it dies. *)
Inductive background : system -> system -> Prop :=
| bg_move d ss1 ss2 lg cm i o p s d' p' s' :
    moves (held (ss1 ++ ss2)) d p s d' p' s' ->
    background (mkMachine d (ss1 ++ (i, (o, p, s)) :: ss2) lg cm)
      (mkMachine d' (ss1 ++ (i, (o, p', s')) :: ss2) lg (commit_of o s s' ++ cm))
| bg_crash d ss1 ss2 lg cm x :
    background (mkMachine d (ss1 ++ x :: ss2) lg cm) (mkMachine d (ss1 ++ ss2) lg cm).

(** [starts]: the goroutines the runtime may start at any time, some for an HTTP
    request. *)
Context (starts : option Request -> task -> Prop).

Inductive wstep : world -> world -> Prop :=
| ws_thread ths1 ths2 m tr th m' tr' th' :
    tstep (m, tr) th (m', tr') th' ->
    wstep (mkWorld m (ths1 ++ th :: ths2) tr) (mkWorld m' (ths1 ++ th' :: ths2) tr')
| ws_store m m' ths tr : background m m' -> wstep (mkWorld m ths tr) (mkWorld m' ths tr)
| ws_start m ths tr rq t : starts rq t -> wstep (mkWorld m ths tr) (mkWorld m (Running t :: ths) (Started rq :: tr))
| ws_die m ths1 ths2 tr th : wstep (mkWorld m (ths1 ++ th :: ths2) tr) (mkWorld m (ths1 ++ ths2) tr).

Definition first_world : world := mkWorld (mkMachine empty_db [] [] []) [] [].

Inductive arises : world -> Prop :=
| ar_first : arises first_world
| ar_step w w' : arises w -> wstep w w' -> arises w'.
End steps.

(** ** Safety *)

(** What has been said stays said. *)
Record later (s s' : scene) : Prop := {
  lt_log : forall x, x ∈ m_log s.1 -> x ∈ m_log s'.1;
  lt_trace : forall e, e ∈ s.2 -> e ∈ s'.2
}.

#[global] Instance later_preorder : PreOrder later.
Proof.
  split; [by intros s|]. intros s1 s2 s3 [H1 H2] [H3 H4]. constructor; auto.
Qed.

(** The answer was given. *)
Definition told (s : scene) (r : request) : answer r -> Prop :=
  match r with
  | Call o => fun a : Reply => exists c, (o, a, c) ∈ m_log s.1
  | r => fun a => Answered r a ∈ s.2 /\ may_answer r a
  end.

(** A call of the store that was begun. *)
Definition called (m : system) (o : Op) : Prop :=
  (exists n p s, (n, (o, p, s)) ∈ m_sessions m)
  \/ (exists a c, (o, a, c) ∈ m_log m) \/ (exists b v, (o, b, v) ∈ m_commits m).

Section safety.
Context (permitted : scene -> request -> Prop).
Context (permitted_later : forall s s' r, later s s' -> permitted s r -> permitted s' r).

(** Everything the goroutine asks is permitted, whatever it has been told. *)
Fixpoint safe (t : task) (s : scene) {struct t} : Prop :=
  match t with
  | Done _ | Again _ => True
  | Ask r k => permitted s r /\ forall s' a, later s s' -> told s' r a -> safe (k a) s'
  | Par ts k =>
      (fix all (ts : list task) : Prop :=
         match ts with [] => True | t :: ts => safe t s /\ all ts end) ts
      /\ forall s' bs, later s s' -> safe (k bs) s'
  end.

Fixpoint thread_safe (th : thread) (s : scene) {struct th} : Prop :=
  match th with
  | Running t => safe t s
  | Waiting r k => is_call r = false /\ forall s' a, later s s' -> told s' r a -> safe (k a) s'
  | Calling _ o k => forall s' a, later s s' -> told s' (Call o) a -> safe (k a) s'
  | Joining ths k =>
      (fix all (ths : list thread) : Prop :=
         match ths with [] => True | th :: ths => thread_safe th s /\ all ths end) ths
      /\ forall s' bs, later s s' -> safe (k bs) s'
  end.

Lemma safe_par ts k s :
  safe (Par ts k) s <-> Forall (fun t => safe t s) ts /\ forall s' bs, later s s' -> safe (k bs) s'.
Proof using Type.
  cbn. match goal with |- ?F ts /\ _ <-> _ => assert (H : F ts <-> Forall (fun t => safe t s) ts) end.
  { induction ts as [|t ts IH]; [by split|]. rewrite Forall_cons, <- IH. done. }
  by rewrite H.
Qed.

Lemma thread_safe_joining ths k s :
  thread_safe (Joining ths k) s
  <-> Forall (fun th => thread_safe th s) ths /\ forall s' bs, later s s' -> safe (k bs) s'.
Proof using Type.
  cbn. match goal with |- ?F ths /\ _ <-> _ => assert (H : F ths <-> Forall (fun th => thread_safe th s) ths) end.
  { induction ths as [|th ths IH]; [by split|]. rewrite Forall_cons, <- IH. done. }
  by rewrite H.
Qed.

Lemma safe_later t s s' : later s s' -> safe t s -> safe t s'.
Proof using permitted_later.
  intros Hl. revert t. fix IH 1. intros [b|r k|ts k|l] H; [done| | |done].
  - destruct H as [Hp H]. split; [by eapply permitted_later|]. intros s2 a Hl2. apply H. by etrans.
  - apply safe_par in H as [Hts H]. apply safe_par. split; [|intros s2 bs Hl2; apply H; by etrans].
    clear H. induction ts as [|t ts IHts]; [done|]. apply Forall_cons in Hts as [H1 H2].
    apply Forall_cons. split; [by apply IH|by apply IHts].
Qed.

Lemma thread_safe_later th s s' : later s s' -> thread_safe th s -> thread_safe th s'.
Proof using permitted_later.
  intros Hl. revert th. fix IH 1. intros [t|r k|n o k|ths k] H.
  - by eapply safe_later.
  - destruct H as [Hc H]. split; [done|]. intros s2 a Hl2. apply H. by etrans.
  - intros s2 a Hl2. apply H. by etrans.
  - apply thread_safe_joining in H as [Hts H]. apply thread_safe_joining.
    split; [|intros s2 bs Hl2; apply H; by etrans].
    clear H. induction ths as [|th ths IHts]; [done|]. apply Forall_cons in Hts as [H1 H2].
    apply Forall_cons. split; [by apply IH|by apply IHts].
Qed.

Context (body : loop -> task) (body_safe : forall l s, safe (body l) s).

(** One step of a goroutine. *)
Record stepped (s s' : scene) : Prop := {
  sp_store : s'.1 = s.1 \/ step code s.1 s'.1;
  sp_later : later s s';
  sp_asked : (forall r, Asked r ∈ s.2 -> permitted s r) -> forall r, Asked r ∈ s'.2 -> permitted s' r;
  sp_called : forall o, called s'.1 o -> called s.1 o \/ Asked (Call o) ∈ s'.2
}.

Lemma stepped_refl s : stepped s s.
Proof using Type. constructor; auto. reflexivity. Qed.

Lemma stepped_trace m tr e :
  (forall r, e = Asked r -> permitted (m, tr) r) -> stepped (m, tr) (m, e :: tr).
Proof using permitted_later.
  intros He. assert (Hl : later (m, tr) (m, e :: tr)) by (constructor; cbn; [done|by right]).
  constructor; [by left|done| |by left]. cbn. intros H r Hr.
  apply elem_of_cons in Hr as [Hr|Hr]; eapply permitted_later; [exact Hl|by apply He|exact Hl|by apply H].
Qed.

Lemma tstep_safe s th s' th' :
  tstep body s th s' th' -> thread_safe th s -> thread_safe th' s' /\ stepped s s'.
Proof using permitted_later body_safe.
  induction 1 as [m tr r k Hr|m tr r k a Ha|d ss lg cm tr n o k Hn|d ss1 ss2 lg cm tr n o a s k|s l|s ts k
    |s th s' th' ths1 ths2 k Hst IH|s bs k]; intros H.
  - destruct H as [Hp H]. split; [|apply stepped_trace; by intros r0 [= ->]].
    split; [done|]. intros s2 a Hl. apply H. etrans; [|exact Hl]. constructor; cbn; [done|by right].
  - destruct H as [Hc H]. split; [|by apply stepped_trace]. apply H; [constructor; cbn; [done|by right]|].
    destruct r; cbn in *; try done; (split; [by left|done]).
  - destruct H as [Hp H]. set (s1 := (mkMachine d ss lg cm, tr)) in *. set (s2 := (_, _)).
    assert (Hl : later s1 s2) by (constructor; cbn; [done|by right]).
    split; [intros s3 a Hl3; apply H; by etrans|]. constructor; [|done| |].
    + right. apply st_start.
    + intros Hall r Hin. cbn in Hin. apply elem_of_cons in Hin as [[= ->]|Hin];
        (eapply permitted_later; [exact Hl|]); [done|by apply Hall].
    + intros o' [(n' & p & s & Hin)|[Hin|Hin]]; cbn in Hin.
      * apply elem_of_cons in Hin as [[= -> -> -> ->]|Hin]; [right; by left|left; left; by exists n', p, s].
      * left. by right; left.
      * left. by right; right.
  - set (s1 := (mkMachine _ _ _ _, tr)) in *. set (s2 := (_, _)).
    assert (Hl : later s1 s2) by (constructor; cbn; [by right|done]).
    split; [apply H; [done|]; exists (ss_done s); by left|]. constructor; [|done| |].
    + right. apply st_finish.
    + intros Hall r Hin. eapply permitted_later; [exact Hl|by apply Hall].
    + intros o' Hc. left. destruct Hc as [(n' & p & s' & Hin)|[(a' & c & Hin)|Hin]]; cbn in Hin.
      * left. exists n', p, s'. cbn. rewrite elem_of_app, elem_of_cons in *. naive_solver.
      * apply elem_of_cons in Hin as [[= -> -> ->]|Hin]; [left|right; left; by exists a', c].
        exists n, (Ret a), s. cbn. rewrite elem_of_app, elem_of_cons. auto.
      * right. by right.
  - split; [apply body_safe|apply stepped_refl].
  - split; [|apply stepped_refl]. apply safe_par in H as [Hts H]. apply thread_safe_joining. split; [|done].
    by apply Forall_fmap.
  - apply thread_safe_joining in H as [Hts H]. apply Forall_app in Hts as [H1 H2].
    apply Forall_cons in H2 as [Hth H2]. destruct (IH Hth) as [Hth' Hstep]. split; [|done].
    pose proof (sp_later _ _ Hstep) as Hl. apply thread_safe_joining. split.
    + apply Forall_app. split; [|apply Forall_cons; split; [done|]];
        (eapply Forall_impl; [eassumption|]); intros x; by eapply thread_safe_later.
    + intros s2 bs' Hl2. apply H. by etrans.
  - split; [|apply stepped_refl]. apply thread_safe_joining in H as [_ H]. by apply H.
Qed.

(** Everything the program ever asks is permitted. *)
Record world_safe (w : world) : Prop := {
  wf_reaches : reaches (w_store w);
  wf_threads : Forall (fun th => thread_safe th (scene_of w)) (w_threads w);
  wf_asked : forall r, Asked r ∈ w_trace w -> permitted (scene_of w) r;
  wf_called : forall o, called (w_store w) o -> Asked (Call o) ∈ w_trace w
}.

Context (starts : option Request -> task -> Prop).
Context (starts_safe : forall rq t s, starts rq t -> Started rq ∈ s.2 -> safe t s).

Lemma background_step m m' : background m m' -> step code m m' /\ m_log m' = m_log m
  /\ forall o, called m' o -> called m o.
Proof using Type.
  intros H. destruct H as [d ss1 ss2 lg cm i o p s d' p' s' Hm|d ss1 ss2 lg cm x];
    (split; [by constructor|]); (split; [done|]);
    intros o' [(n & q & t & Hin)|[Hin|(b & v & Hin)]]; cbn in Hin.
  - rewrite elem_of_app, elem_of_cons in Hin. destruct Hin as [Hin|[[= -> -> -> ->]|Hin]]; left.
    + exists n, q, t. cbn. rewrite elem_of_app. by left.
    + exists i, p, s. cbn. rewrite elem_of_app, elem_of_cons. auto.
    + exists n, q, t. cbn. rewrite elem_of_app, elem_of_cons. auto.
  - right. by left.
  - apply elem_of_app in Hin as [Hin|Hin]; [left|right; right; by exists b, v].
    exists i, p, s. cbn. unfold commit_of in Hin. destruct (ss_done s); [by apply elem_of_nil in Hin|].
    destruct (ss_done s') as [[b' v']|]; [|by apply elem_of_nil in Hin].
    apply list_elem_of_singleton in Hin as [= -> -> ->]. rewrite elem_of_app, elem_of_cons. auto.
  - left. exists n, q, t. cbn. rewrite elem_of_app, elem_of_cons in *. naive_solver.
  - right. by left.
  - right. right. by exists b, v.
Qed.

Lemma wstep_safe w w' : wstep body starts w w' -> world_safe w -> world_safe w'.
Proof using permitted_later body_safe starts_safe.
  intros Hst [Hr Ht Ha Hc]. destruct Hst as [ths1 ths2 m tr th m' tr' th' Hst|m m' ths tr Hb|m ths tr rq t Hs
    |m ths1 ths2 tr th]; unfold scene_of in *; cbn in *.
  - apply Forall_app in Ht as [H1 H2]. apply Forall_cons in H2 as [Hth H2].
    destruct (tstep_safe _ _ _ _ Hst Hth) as [Hth' [Hm Hl Has Hca]]. constructor; unfold scene_of; cbn in *.
    + destruct Hm as [->|Hm]; [done|]. by eapply reach_step.
    + apply Forall_app. split; [|apply Forall_cons; split; [done|]];
        (eapply Forall_impl; [eassumption|]); intros x; by eapply thread_safe_later.
    + by apply Has.
    + intros o Ho. destruct (Hca o Ho) as [Ho'|?]; [|done]. apply (lt_trace _ _ Hl), Hc, Ho'.
  - destruct (background_step _ _ Hb) as (Hm & Hlog & Hca).
    assert (Hl : later (m, tr) (m', tr)) by (constructor; cbn; [by rewrite Hlog|done]).
    constructor; unfold scene_of; cbn.
    + by eapply reach_step.
    + eapply Forall_impl; [exact Ht|]. intros x. by eapply thread_safe_later.
    + intros r Hin. eapply permitted_later; [exact Hl|by apply Ha].
    + intros o Ho. by apply Hc, Hca.
  - assert (Hl : later (m, tr) (m, Started rq :: tr)) by (constructor; cbn; [done|by right]).
    constructor; unfold scene_of; cbn; [done|..].
    + apply Forall_cons. split; [by apply (starts_safe rq); [|left]|].
      eapply Forall_impl; [exact Ht|]. intros x. by eapply thread_safe_later.
    + intros r Hin. apply elem_of_cons in Hin as [?|Hin]; [done|]. eapply permitted_later; [exact Hl|by apply Ha].
    + intros o Ho. right. by apply Hc.
  - constructor; unfold scene_of; cbn; [done| |done|done].
    apply Forall_app in Ht as [H1 H2]. apply Forall_cons in H2 as [_ H2]. by apply Forall_app.
Qed.

Lemma worlds_safe w : arises body starts w -> world_safe w.
Proof using permitted_later body_safe starts_safe.
  induction 1 as [|w w' _ IH Hst]; [|by eapply wstep_safe].
  constructor; cbn; [apply reach_init|done|..].
  - intros r Hin. by apply elem_of_nil in Hin.
  - intros o [(? & ? & ? & Hin)|[(? & ? & Hin)|(? & ? & Hin)]]; by apply elem_of_nil in Hin.
Qed.
End safety.
