(* ===== verification/Service.v ===== *)
(** * Instrumented use cases: [internal/adapters/observability]

    [service.go] wraps the store's methods for the HTTP adapter; the labels its
    metrics and those of [metrics.go] may carry.  Durations are not modelled:
    an observation is its labels. *)

From S2P Require Import Prelude GoStd Codec Errors Ident Money Command Session Database Read System.
From S2P Require Import Oidc Tasks.
Import Str.
#[local] Open Scope task_scope.

(** ** Metrics *)

Definition Results := "jungle_wager_results_total".
Definition WagerDuration := "jungle_wager_duration_seconds".
Definition Duplicates := "jungle_duplicates_total".
Definition Retries := "jungle_retries_total".
Definition OutboxPublished := "jungle_outbox_published_total".
Definition Messages := "jungle_sqs_messages_total".
Definition ReferenceAttempts := "jungle_reference_attempts_total".
Definition Reconciliations := "jungle_reconciliations_total".
Definition ReconciliationMismatch := "jungle_reconciliation_mismatch_total".
Definition Conflicts := "jungle_conflicts_total".
Definition Latency := "jungle_processing_seconds".
Definition Requests := "jungle_http_requests_total".
Definition RouteDuration := "jungle_http_request_seconds".

Definition ObserveResult (transport kind status failureCode : string) : request :=
  Meter Results [transport; kind; status; failureCode].
Definition ObserveWager (transport kind outcome : string) : request :=
  Meter WagerDuration [transport; kind; outcome].

Definition statusClass (status : Z) : string :=
  if 500 <=? status then "5xx" else if 400 <=? status then "4xx"
  else if 300 <=? status then "3xx" else "2xx".

Definition known_method (m : string) : string :=
  if existsb (fun k => m == k) ["GET"; "HEAD"; "POST"; "PUT"; "PATCH"; "DELETE"; "OPTIONS"; "CONNECT"; "TRACE"]
  then m else "OTHER".

(** [Metrics.Observe]: the requests it makes, in order. *)
Definition Observe (method route : string) (status : Z) (k : task) : task :=
  Meter Requests [known_method method; route; Strconv.FormatInt status] ~;;
  Meter Latency ["http"] ~;;
  Meter RouteDuration [known_method method; route; statusClass status] ~;;
  k.

Definition WagerOutcome (r : res Result) : string :=
  match r with
  | Err _ => "ERROR"
  | Ok r => if rsIdempotentReplay r then "REPLAY" else if rsStatus r == "" then "UNKNOWN" else rsStatus r
  end.

(** A conflict the metrics count. *)
Definition conflict (code : string) : bool :=
  (code == "IDEMPOTENCY_KEY_REUSED") || (code == "EXTERNAL_TRANSACTION_ID_REUSED").

Definition when (b : bool) (r : request) (k : task) : task := if b then r ~;; k else k.

(** ** Calls of the store

    A goroutine continues with the result its method returned.  A method
    answers with its own kind of reply, and every amount is an [int64]: the
    other branches are never taken. *)
Definition on_result (o : Op) (k : res Result -> task) : task :=
  Ask (Call o) (fun a : Reply => match a with RpResult r => k r | _ => Done false end).
Definition on_wallet (o : Op) (k : res WalletView -> task) : task :=
  Ask (Call o) (fun a : Reply => match a with RpWallet r => k r | _ => Done false end).
Definition on_done (o : Op) (k : res unit -> task) : task :=
  Ask (Call o) (fun a : Reply => match a with RpDone r => k r | _ => Done false end).

Definition ProcessWagerCall (c : Command) (inbox : option InboxMessage) (k : res Result -> task) : task :=
  match decide (Int64.in_range (minor (cMoney c))) with
  | left H => on_result (OpProcessWager c inbox H) k
  | right _ => Done false
  end.
Definition CreateWalletCall (c : CreateWalletCommand) (k : res WalletView -> task) : task :=
  match decide (Int64.in_range (minor (cwInitialBalance c))) with
  | left H => on_wallet (OpCreateWallet c H) k
  | right _ => Done false
  end.

(** ** [Service] *)

Definition ProcessWagerService (c : Command) (inbox : option InboxMessage) (k : res Result -> task) : task :=
  ProcessWagerCall c inbox (fun r =>
    if is_some inbox then k r
    else
      ObserveWager "http" (cKind c) (WagerOutcome r) ~;;
      match r with
      | Err e => when (conflict (Code e)) (Meter Conflicts ["http"]) (k (Err e))
      | Ok v =>
          ObserveResult "http" (cKind c) (rsStatus v) (rsFailureCode v) ~;;
          when (rsIdempotentReplay v) (Meter Duplicates ["http"]) (k (Ok v))
      end).

Definition ReconcileService (id : string) (k : res Reconciliation -> task) : task :=
  Ask (Call (OpReconcile id)) (fun a : Reply =>
    match a with
    | RpReconciliation (Ok r) =>
        Meter Reconciliations [if rcnConsistent r then "true" else "false"] ~;;
        when (negb (rcnConsistent r)) (Meter ReconciliationMismatch []) (k (Ok r))
    | RpReconciliation (Err e) => k (Err e)
    | _ => Done false
    end).
