(* ===== verification/Tracing.v ===== *)
(** * Statement names: [internal/adapters/observability/postgres.go]

    The labels under which statements are timed, and the conflicts counted.
    Whatever the text of a statement that carries no name of its own, its label
    is one of a closed set. *)

From Stdlib Require Import Ascii.
From S2P Require Import Prelude GoStd MediaType Errors Command Tasks Service.
Import Str.

Definition tables : list string := ["wallet"; "wager_transaction"; "wallet_ledger_entry"; "inbox"; "outbox"].
Definition table (raw : string) : string := if bool_decide (raw ∈ tables) then raw else "".

(** The text before the first character of [cut]. *)
Fixpoint before_any (cut : list ascii) (s : string) : string :=
  match s with
  | "" => ""
  | String c s => if bool_decide (c ∈ cut) then "" else String c (before_any cut s)
  end.

Definition queryName (sql : string) : string :=
  let marker := "-- name: " in
  match String.index 0 marker sql with
  | None => "adhoc"
  | Some i =>
      let rest := before_any [" "; "009"; "013"; "010"]%char (drop (i + len marker) sql) in
      if (rest == "") || (64 <? Z.of_nat (len rest)) then "adhoc" else rest
  end.

Definition control : list string := ["begin"; "commit"; "rollback"; "savepoint"; "release"; "prepare"; "deallocate"].
Definition identifier (raw : string) : string := table (before_any ["("; ")"; ","; ";"]%char raw).

(** The loop over the words of the statement. *)
Fixpoint scan_words (words : list string) (verb target : string) : string * string :=
  match words with
  | [] => (verb, target)
  | f :: words =>
      let next target :=
        match words with w :: _ => if target == "" then identifier w else target | [] => target end in
      let verb' := if verb == "other" then f else verb in
      if bool_decide (f ∈ ["select"; "insert"; "delete"; "with"]) then scan_words words verb' target
      else if f == "update" then scan_words words verb' (next target)
      else if bool_decide (f ∈ ["from"; "into"; "join"]) then scan_words words verb (next target)
      else scan_words words verb target
  end.

Definition statementName (sql : string) : string :=
  let named := queryName sql in
  if named != "adhoc" then named
  else
    let fields := Fields (ToLower sql) in
    match fields with
    | f :: _ => if bool_decide (f ∈ control) then "tx:" +:+ f
                else let '(verb, target) := scan_words fields "other" "" in
                     verb +:+ ":" +:+ (if target == "" then "other" else target)
    | [] => "other:other"
    end.

(** A statement as it starts. *)
Record lockTiming : Type := mkTiming { ltQuery : string; ltStatement : string; ltLocking : bool }.
Definition TraceQueryStart (sql : string) : lockTiming :=
  mkTiming (queryName sql) (statementName sql) (if String.index 0 "FOR UPDATE" sql then true else false).

(** What is counted when it ends. *)
Definition TraceQueryEnd (timing : lockTiming) (err : option GoError) : list request :=
  Meter "jungle_database_query_seconds" [ltStatement timing]
  :: (if ltLocking timing then [Meter "jungle_database_lock_query_seconds" [ltQuery timing]] else [])
  ++ match err ≫= as_pg with
     | Some (state, _) =>
         if (state == "40001") || (state == "40P01") then [Meter Conflicts ["postgres"]] else []
     | None => []
     end.

(** ** The labels are bounded *)

Definition verbs : list string := ["other"; "select"; "insert"; "delete"; "with"; "update"].

(** Every label of a statement without a name. *)
Definition labels : list string :=
  ((fun c => "tx:" +:+ c) <$> control)
  ++ (v ← verbs; t ← "other" :: tables; [v +:+ ":" +:+ t]).

Lemma identifier_known raw : identifier raw ∈ "" :: tables.
Proof. unfold identifier, table. case_bool_decide; [by right|by left]. Qed.

Lemma scan_known words verb target :
  verb ∈ verbs -> target ∈ "" :: tables ->
  (scan_words words verb target).1 ∈ verbs /\ (scan_words words verb target).2 ∈ "" :: tables.
Proof.
  revert verb target. induction words as [|f words IH]; cbn [scan_words]; intros verb target Hv Ht; [done|].
  assert (Hnext : forall words : list string,
    match words with w :: _ => if target == "" then identifier w else target | [] => target end ∈ "" :: tables).
  { intros [|w ws]; [done|]. destruct (_ == _); [apply identifier_known|done]. }
  assert (Hverb : f ∈ verbs -> (if verb == "other" then f else verb) ∈ verbs) by (intros Hf; destruct (verb == "other"); [exact Hf|exact Hv]).
  cbv zeta. destruct (bool_decide (f ∈ ["select"; "insert"; "delete"; "with"])) eqn:E1.
  { apply bool_decide_eq_true in E1. apply IH; [apply Hverb; unfold verbs; set_solver|done]. }
  destruct (f == "update") eqn:E2; [bools; apply IH; [apply Hverb; unfold verbs; set_solver|apply Hnext]|].
  destruct (bool_decide (f ∈ ["from"; "into"; "join"])); apply IH; auto.
Qed.

Lemma statementName_bounded sql : queryName sql = "adhoc" -> statementName sql ∈ labels.
Proof.
  intros H. unfold statementName. rewrite H. cbn [bool_decide]. change ("adhoc" != "adhoc") with false. cbv iota.
  unfold labels. rewrite elem_of_app. destruct (Fields _) as [|f fs] eqn:E.
  - right. apply list_elem_of_bind. exists "other". split; [|by left].
    apply list_elem_of_bind. exists "other". split; [by left|by left].
  - case_bool_decide as Ec; [left; by apply list_elem_of_fmap_2|]. right.
    destruct (scan_known (f :: fs) "other" "") as [Hv Ht]; [by left|by left|].
    destruct (scan_words _ _ _) as [verb target]. cbn in Hv, Ht. apply list_elem_of_bind. exists verb. split; [|done].
    apply list_elem_of_bind. exists (if target == "" then "other" else target). split; [by left|].
    apply elem_of_cons in Ht as [->|Ht]; [by left|]. destruct (target == "") eqn:E2; [by left|by right].
Qed.

Example named_statement : statementName "-- name: GetWallet :one" = "GetWallet".
Proof. vm_compute. reflexivity. Qed.
Example derived_statement :
  statementName "INSERT INTO wallet_ledger_entry(wallet_id, amount) SELECT 1" = "insert:wallet_ledger_entry".
Proof. vm_compute. reflexivity. Qed.
