(* ===== verification/Metrics.v ===== *)
(** * The metrics a process declares: [internal/adapters/observability/metrics.go]

    The collectors [New], [SQLTracer], [PoolCollector] and [BuildInfo] register,
    with the labels of each; the collectors of the Go runtime and of the process
    are Prometheus' own.  Prometheus panics when a name is registered twice or a
    collector is given another number of values than it declares labels; a label
    that can take any value grows series without bound.  [labelled] is what a
    measurement must be to do neither. *)

From S2P Require Import Prelude GoStd MediaType Errors Money Wager Command System Oidc Tasks Service Tracing.
Import Str.

(** ** Sets of label values *)

Definition among (values : list string) (label : string) : bool := existsb (fun v => label == v) values.

Definition methods : list string :=
  ["GET"; "HEAD"; "POST"; "PUT"; "PATCH"; "DELETE"; "OPTIONS"; "CONNECT"; "TRACE"; "OTHER"].
Definition classes : list string := ["2xx"; "3xx"; "4xx"; "5xx"].
Definition kinds : list string := ["BET"; "WIN"; "LOSS"; "REFUND"; "ROLLBACK"].
Definition reasons : list string :=
  ["receive"; "publish"; "claim"; "resolve"; "idempotency_key_reused"; "external_transaction_id_reused";
   "inbox_message_reused"; "invalid_message"; "not_found"; "infrastructure"].

(** ** Collectors *)

(** The name of a collector and of its labels. *)
Record collector : Type := mkCollector { co_name : string; co_labels : list string }.

Definition New : list collector :=
  [mkCollector Requests ["method"; "route"; "status"];
   mkCollector Latency ["transport"];
   mkCollector RouteDuration ["method"; "route"; "status_class"];
   mkCollector WagerDuration ["transport"; "kind"; "outcome"];
   mkCollector Results ["transport"; "kind"; "status"; "failure_code"];
   mkCollector Duplicates ["transport"];
   mkCollector Retries ["worker"; "reason"];
   mkCollector OutboxPublished ["event_type"; "outcome"];
   mkCollector Messages ["queue"; "outcome"];
   mkCollector ReferenceAttempts ["outcome"];
   mkCollector Reconciliations ["consistent"];
   mkCollector Conflicts ["transport"];
   mkCollector "jungle_outbox_pending" [];
   mkCollector "jungle_outbox_oldest_seconds" [];
   mkCollector "jungle_references_pending" [];
   mkCollector "jungle_dlq_messages" ["queue"];
   mkCollector ReconciliationMismatch []].

Definition SQLTracer : list collector :=
  [mkCollector "jungle_database_lock_query_seconds" ["query"];
   mkCollector "jungle_database_query_seconds" ["statement"]].

Definition PoolCollector : list collector :=
  (fun name => mkCollector name []) <$>
    ["jungle_db_pool_connections"; "jungle_db_pool_max_connections"; "jungle_db_pool_acquired_connections";
     "jungle_db_pool_empty_acquires_total"; "jungle_db_pool_acquire_seconds_total";
     "jungle_db_pool_canceled_acquires_total"].

Definition BuildInfo : list collector :=
  [mkCollector "jungle_build_info" ["version"; "go_version"; "instance"]].

(** In the order a process registers them. *)
Definition registry : list collector := New ++ SQLTracer ++ PoolCollector ++ BuildInfo.

(** What this development claims of a label: the values it is limited to, if it
    is.  Prometheus itself accepts any text. *)
Definition limits (name label : string) : option (list string) :=
  if label == "method" then Some methods
  else if label == "status_class" then Some classes
  else if label == "worker" then Some ["consumer"; "outbox"; "reference"]
  else if label == "reason" then Some reasons
  else if label == "consistent" then Some ["true"; "false"]
  else if label == "queue" then if name == Messages then Some ["input"] else None
  else if label == "transport" then
    Some (if name == Results then ["http"; "sqs"; "reference"]
          else if name == Conflicts then ["http"; "sqs"; "postgres"] else ["http"; "sqs"])
  else if label == "outcome" then
    if name == OutboxPublished then Some ["published"; "retry"]
    else if name == Messages then Some ["acknowledged"; "retained"]
    else if name == ReferenceAttempts then Some ["resolved"; "deferred"; "error"] else None
  else None.

Definition value_ok (name label v : string) : bool :=
  match limits name label with Some values => among values v | None => true end.

(** One value for each label, within its limits. *)
Fixpoint values_ok (name : string) (declared labels : list string) : bool :=
  match declared, labels with
  | [], [] => true
  | d :: declared, l :: labels => value_ok name d l && values_ok name declared labels
  | _, _ => false
  end.

Definition find_collector (name : string) : option collector :=
  List.find (fun c => co_name c == name) registry.

(** The queue's commands are normalized before they are measured. *)
Definition queue_kind_ok (name : string) (labels : list string) : bool :=
  if (name == WagerDuration) || (name == Results) then
    match labels with
    | transport :: kind :: _ => negb (transport == "sqs") || among kinds kind
    | _ => true
    end
  else true.

Definition labelled (name : string) (labels : list string) : bool :=
  match find_collector name with
  | Some c => values_ok name (co_labels c) labels && queue_kind_ok name labels
  | None => false
  end.

(** ** What is measured is declared *)

Lemma registry_distinct : NoDup (co_name <$> registry).
Proof. apply (bool_decide_unpack _). vm_compute. exact I. Qed.

Lemma among_spec values v : among values v = true <-> v ∈ values.
Proof.
  unfold among. rewrite existsb_exists, list_elem_of_In. split.
  - intros (x & Hx & E). bools. by subst.
  - intros H. exists v. split; [done|]. by apply bool_decide_eq_true.
Qed.

Lemma values_ok_spec name declared labels :
  values_ok name declared labels = true
  <-> Forall2 (fun d v => forall l, limits name d = Some l -> v ∈ l) declared labels.
Proof.
  revert labels. induction declared as [|d ds IH]; intros [|v vs]; cbn [values_ok].
  - split; [by constructor|done].
  - split; [done|]. intros H. by apply Forall2_nil_inv_l in H.
  - split; [done|]. intros H. by apply Forall2_nil_inv_r in H.
  - rewrite andb_true_iff, IH, Forall2_cons. unfold value_ok. destruct (limits name d) as [values|].
    + rewrite among_spec. naive_solver.
    + naive_solver.
Qed.

Lemma known_method_listed m : among methods (known_method m) = true.
Proof.
  unfold known_method. destruct (existsb _ _) eqn:E; [|done].
  revert E. unfold among, methods. cbn [existsb]. rewrite !orb_true_iff. tauto.
Qed.

Lemma statusClass_listed st : among classes (statusClass st) = true.
Proof. unfold statusClass. by repeat case_match. Qed.

(** The tracer of SQL statements, too. *)
Lemma TraceQueryEnd_labelled timing err m labels :
  Meter m labels ∈ TraceQueryEnd timing err -> labelled m labels = true.
Proof.
  unfold TraceQueryEnd. rewrite elem_of_cons, elem_of_app. intros [[= -> ->]|[H|H]]; [done|..].
  - destruct (ltLocking timing); [|by apply elem_of_nil in H]. by apply list_elem_of_singleton in H as [= -> ->].
  - destruct (err ≫= as_pg) as [[state txt]|]; [|by apply elem_of_nil in H].
    destruct (_ || _); [|by apply elem_of_nil in H]. by apply list_elem_of_singleton in H as [= -> ->].
Qed.

Lemma Requests_labelled method route status : labelled Requests [known_method method; route; status] = true.
Proof.
  change (among methods (known_method method) && true && true = true). by rewrite known_method_listed.
Qed.
Lemma RouteDuration_labelled method route st :
  labelled RouteDuration [known_method method; route; statusClass st] = true.
Proof.
  change (among methods (known_method method) && (true && (among classes (statusClass st) && true)) && true = true).
  by rewrite known_method_listed, statusClass_listed.
Qed.

Lemma WagerDuration_labelled kind outcome :
  kind ∈ kinds -> labelled WagerDuration ["sqs"; kind; outcome] = true.
Proof.
  intros H. change (true && (negb true || among kinds kind) = true). by apply among_spec.
Qed.
Lemma Results_labelled kind status code :
  kind ∈ kinds -> labelled Results ["sqs"; kind; status; code] = true.
Proof. apply (WagerDuration_labelled kind ""). Qed.

Lemma externalKind_listed kind : externalKind kind = true -> kind ∈ kinds.
Proof.
  unfold externalKind. rewrite !orb_true_iff, !bool_decide_eq_true.
  by intros [[[[->| ->]| ->]| ->]| ->]; apply (bool_decide_unpack _).
Qed.

(** ** What is not bounded *)

(** Over HTTP the kind is measured as the client wrote it, whatever the store
    answered: before it is normalized, and when it is refused. *)
Lemma kind_is_measured_as_given c k :
  Int64.in_range (minor (cMoney c)) -> exists H f, ProcessWagerService c None k = Ask (Call (OpProcessWager c None H)) f
  /\ forall r : res Result, exists k', f (RpResult r) = Ask (ObserveWager "http" (cKind c) (WagerOutcome r)) k'.
Proof.
  intros Hr. unfold ProcessWagerService, ProcessWagerCall. destruct (decide _) as [H|H]; [|done].
  exists H. eexists. split; [reflexivity|]. intros r. by eexists.
Qed.
