(* ===== verification/Engine.v ===== *)
(** * The workers: [internal/workers/engine.go]

    Four loops: the consumer of the input queue, the publisher of the outbox,
    the retry of waiting references and the observation of the backlog.  The
    hooks tests inject and the log are not modelled; a cancelled context is one
    answer of [Cancelled], at any time. *)

From S2P Require Import Prelude GoStd Codec Errors Ident Money Command Config Transport Session Store.
From S2P Require Import Work Read System Oidc Tasks Service.
Import Str.
#[local] Open Scope task_scope.

(** ** Delays *)

(** [time.Second * (1 << attempt)], at most [max]. *)
Definition backoff_delay (attempt max : Z) : Z :=
  let attempt := if attempt <? 0 then 0 else attempt in
  let attempt := if 20 <? attempt then 20 else attempt in
  let delay := Time.Second * Z.shiftl 1 attempt in
  if max <? delay then max else delay.

(** Half of it, and a random part of the other half. *)
Definition Backoff (attempt max : Z) (k : Z -> task) : task :=
  let half := Z.quot (backoff_delay attempt max) 2 in
  jitter <~ Int64N (half + 1) ;; k (half + jitter).

Lemma backoff_range attempt max : 0 <= max -> 0 <= backoff_delay attempt max <= max.
Proof.
  intros H. unfold backoff_delay. destruct (attempt <? 0) eqn:E1; bools.
  all: cbv zeta; destruct (_ <? _) eqn:E2; destruct (max <? _) eqn:E3; bools; split; try lia.
  all: apply Z.mul_nonneg_nonneg; [unfold Time.Second; lia|rewrite Z.shiftl_nonneg; lia].
Qed.

(** [rand.Int64N] is asked for a positive bound, and the delay stays in range. *)
Lemma backoff_jitter attempt max : 0 <= max ->
  let half := Z.quot (backoff_delay attempt max) 2 in
  0 < half + 1 /\ forall x, 0 <= x < half + 1 -> 0 <= half + x <= max.
Proof.
  intros H. pose proof (backoff_range attempt max H) as Hb. cbv zeta.
  rewrite Z.quot_div_nonneg by lia. revert Hb. generalize (backoff_delay attempt max). intros d Hd.
  pose proof (Z.mod_pos_bound d 2). pose proof (Z.div_mod d 2). split; [lia|]. intros x Hx. lia.
Qed.

(** [strings.ToLower] on the codes it is applied to. *)
Definition retryReason (code : string) : string :=
  if code == "IDEMPOTENCY_KEY_REUSED" then "idempotency_key_reused"
  else if code == "EXTERNAL_TRANSACTION_ID_REUSED" then "external_transaction_id_reused"
  else if code == "INBOX_MESSAGE_REUSED" then "inbox_message_reused"
  else if code == "INVALID_MESSAGE" then "invalid_message"
  else if code == "NOT_FOUND" then "not_found"
  else "infrastructure".

Section engine.
Context (c : Config).

(** [New] normalizes the batch. *)
Definition publishBatch : Z := if PublishBatch c <? 1 then 1 else PublishBatch c.

(** [wait(e.intake, d)], then another round or the end of the loop. *)
Definition pause (delay : Z) (l : loop) : task :=
  fired <~ Wait delay ;; if fired : bool then Again l else Done true.

(** ** The consumer *)

(** The message stays for redelivery or redrive. *)
Definition retain (message : Message) (err : GoError) : task :=
  let code := Code err in
  when (conflict code) (Meter Conflicts ["sqs"]) (
  Meter Messages ["input"; "retained"] ~;;
  Meter Retries ["consumer"; retryReason code] ~;;
  Backoff (msReceiveCount message) (30 * Time.Second) (fun delay =>
  cancelled <~ Cancelled Work ;;
  Visibility (msReceipt message) (if cancelled : bool then 0 else delay) ~;;
  Meter Latency ["sqs"] ~;;
  Done true)).

Definition handle (message : Message) : task :=
  match Decode (msBody message) (TrustedProviders c) with
  | Err e => retain message e
  | Ok (command, inbox) =>
      ProcessWagerCall command (Some inbox) (fun r =>
        ObserveWager "sqs" (cKind command) (WagerOutcome r) ~;;
        match r with
        | Err e => retain message e
        | Ok result =>
            ObserveResult "sqs" (cKind command) (rsStatus result) (rsFailureCode result) ~;;
            when (rsIdempotentReplay result) (Meter Duplicates ["sqs"]) (
            deleted <~ Delete (msReceipt message) ;;
            match deleted : res unit with
            | Ok _ => Meter Messages ["input"; "acknowledged"] ~;; Meter Latency ["sqs"] ~;; Done true
            | Err e => retain message e
            end)
        end)
  end.

Definition consume : task :=
  stopped <~ Cancelled Intake ;;
  if stopped : bool then Done true
  else
    received <~ Receive (Concurrency c) ;;
    match received : res (list Message) with
    | Err _ =>
        stopped <~ Cancelled Intake ;;
        if stopped : bool then Done true
        else Meter Retries ["consumer"; "receive"] ~;; pause Time.Second ConsumeLoop
    | Ok messages => Par (handle <$> messages) (fun _ => Again ConsumeLoop)
    end.

(** ** The publisher *)

(** Whether the event reached the broker and was marked. *)
Definition publishOne (record : OutboxRecord) : task :=
  let again :=
    Meter OutboxPublished [orEventType record; "retry"] ~;;
    Meter Retries ["outbox"; "publish"] ~;;
    Backoff (orAttempts record) Time.Hour (fun delay =>
    on_done (OpRetryOutbox (orEventID record) (orClaimToken record) delay) (fun _ => Done false)) in
  sent <~ Publish (orEventID record) (orAggregateID record) (orPayload record) ;;
  match sent : res unit with
  | Err _ => again
  | Ok _ =>
      on_done (OpMarkPublished (orEventID record) (orClaimToken record)) (fun r =>
        match r with
        | Ok _ => Meter OutboxPublished [orEventType record; "published"] ~;; Done true
        | Err _ => again
        end)
  end.

(** Of the rows of a claim that failed, those that had arrived. *)
Definition arriving {A} (rows : list A) (err : option GoError) (k : list A -> task) : task :=
  match err with
  | None => k rows
  | Some _ => n <~ Arrived ;; k (take n rows)
  end.

Definition publish : task :=
  stopped <~ Cancelled Intake ;;
  if stopped : bool then Done true
  else
    let drain records :=
      Par (publishOne <$> records) (fun published =>
        if (Z.of_nat (length records) =? publishBatch)
           && (length (List.filter Datatypes.id published) =? length records)%nat
        then Again PublishLoop
        else pause (PollInterval c) PublishLoop) in
    claimed <~ Call (OpClaimOutbox (InstanceID c) publishBatch (Lease c)) ;;
    match claimed : Reply with
    | RpOutbox rows None => drain rows
    | RpOutbox rows (Some e) =>
        stopped <~ Cancelled Intake ;;
        if stopped : bool then Done true
        else Meter Retries ["outbox"; "claim"] ~;; arriving rows (Some e) drain
    | _ => Done false
    end.

(** ** Waiting references *)

Definition resolve (claim : ReferenceClaim) : task :=
  on_result (OpRetryReference claim (ReferenceMaxAttempts c) (ReferenceTTL c)) (fun r =>
    match r with
    | Err _ =>
        Meter ReferenceAttempts ["error"] ~;; Meter Retries ["reference"; "resolve"] ~;; Done true
    | Ok result =>
        if rsStatus result == "" then Meter ReferenceAttempts ["deferred"] ~;; Done true
        else
          Meter ReferenceAttempts ["resolved"] ~;;
          ObserveResult "reference" "" (rsStatus result) (rsFailureCode result) ~;;
          Done true
    end).

Definition references : task :=
  stopped <~ Cancelled Intake ;;
  if stopped : bool then Done true
  else
    claimed <~ Call (OpClaimReferences (InstanceID c) (Concurrency c) (Lease c)) ;;
    match claimed : Reply with
    | RpReferences rows err =>
        arriving rows err (fun claims =>
          Par (resolve <$> claims) (fun _ => pause (PollInterval c) ReferenceLoop))
    | _ => Done false
    end.

(** ** The observer *)

Fixpoint set_depths (l : list (string * Z)) (k : task) : task :=
  match l with
  | [] => k
  | (queue, _) :: l => Meter "jungle_dlq_messages" [queue] ~;; set_depths l k
  end.

Definition observe : task :=
  stopped <~ Cancelled Intake ;;
  if stopped : bool then Done true
  else
    let depths :=
      got <~ DLQDepths ;;
      match got : res (list (string * Z)) with
      | Ok l => set_depths l (pause (10 * Time.Second) ObserveLoop)
      | Err _ => pause (10 * Time.Second) ObserveLoop
      end in
    backlog <~ Call OpBacklog ;;
    match backlog : Reply with
    | RpBacklog (Ok _) =>
        Meter "jungle_outbox_pending" [] ~;; Meter "jungle_outbox_oldest_seconds" [] ~;;
        Meter "jungle_references_pending" [] ~;; depths
    | RpBacklog (Err _) => depths
    | _ => Done false
    end.

(** ** The engine *)

Definition round (l : loop) : task :=
  match l with
  | ConsumeLoop => consume
  | PublishLoop => publish
  | ReferenceLoop => references
  | ObserveLoop => observe
  end.

(** [Start] runs the loops until they have all ended; then [Stop] gives up the
    leases this process still holds, each table in its own statement. *)
Definition ReleaseClaimsCall (k : task) : task :=
  on_done (OpReleaseOutbox (InstanceID c)) (fun r =>
    match r with
    | Ok _ => on_done (OpReleaseReferences (InstanceID c)) (fun _ => k)
    | Err _ => k
    end).

Definition Start : task :=
  Par (Again <$> [ConsumeLoop; PublishLoop; ReferenceLoop; ObserveLoop])
    (fun _ => ReleaseClaimsCall (Done true)).
End engine.
