(* ===== verification/Http.v ===== *)
(** * The HTTP adapter: [internal/adapters/httpapi/http.go]

    The middlewares and the handlers as goroutines, and the JSON they answer.
    chi's router matches a route and reads its parameters; the request carries
    what it found.  Panics, the log and the deadline of a request are not
    modelled. *)

From Stdlib Require Import Ascii.
From S2P Require Import Prelude GoStd Codec JsonText MediaType Errors Ident Money Command Config Oidc.
From S2P Require Import Events Transport Session Database Read System Tasks Service.
Import Str.
#[local] Open Scope task_scope.

(** ** [New] *)

(** [Dependencies]: which of the four it cannot do without are there, and its
    numbers; zero takes a default. *)
Record Dependencies : Type := mkDependencies {
  dpWallets : bool; dpWagers : bool; dpAuth : bool; dpReady : bool; dpBodyLimit : Z; dpRequestTimeout : Z
}.

Definition New (d : Dependencies) : res Dependencies :=
  if negb (dpWallets d) || negb (dpWagers d) || negb (dpAuth d) || negb (dpReady d)
  then Err (OtherError "HTTP requires wallet/wager use cases, authentication and readiness")
  else
    let limit := if dpBodyLimit d =? 0 then 65536 else dpBodyLimit d in
    if limit <? 1 then Err (OtherError "HTTP body limit must be positive")
    else
      let timeout := if dpRequestTimeout d =? 0 then 30 * Time.Second else dpRequestTimeout d in
      if timeout <? 0 then Err (OtherError "HTTP request timeout must be positive")
      else Ok (mkDependencies (dpWallets d) (dpWagers d) (dpAuth d) (dpReady d) limit timeout).

Lemma New_positive d d' : New d = Ok d' -> 1 <= dpBodyLimit d' /\ 0 < dpRequestTimeout d'.
Proof.
  unfold New. destruct (_ || _); [done|]. destruct (_ <? 1) eqn:El; [done|].
  destruct (_ <? 0) eqn:Et in |- *; [done|]. intros [= <-]. cbn. bools. split; [done|].
  destruct (dpRequestTimeout d =? 0) eqn:E; bools; unfold Time.Second; lia.
Qed.

(** ** [writeJSON] *)

Definition bool_json (b : bool) : string := if b then "true" else "false".
Definition list_json (l : list string) : string :=
  "[" +:+ match l with
          | [] => ""
          | x :: l => x +:+ foldr (fun y s => "," +:+ y +:+ s) "" l
          end +:+ "]".

Definition wallet_view_json (v : WalletView) : res string :=
  balance ← money_json (wvBalance v);
  created ← time_json (wvCreatedAt v);
  updated ← time_json (wvUpdatedAt v);
  Ok (Json.object [("id", Json.string_lit (wvID v)); ("playerId", Json.string_lit (wvPlayerID v));
                   ("balance", balance); ("version", Strconv.FormatInt (wvVersion v));
                   ("createdAt", created); ("updatedAt", updated)]).

Definition result_json (r : Result) : res string :=
  balance ← money_json (rsBalance r);
  Ok (Json.object
        ([("transactionId", Json.string_lit (rsTransactionID r)); ("status", Json.string_lit (rsStatus r));
          ("balance", balance); ("walletVersion", Strconv.FormatInt (rsWalletVersion r))]
         ++ omit_string "failureCode" (rsFailureCode r)
         ++ [("idempotentReplay", bool_json (rsIdempotentReplay r))])).

Definition entry_json (e : LedgerEntry) : res string :=
  money ← money_json (enMoney e);
  before ← money_json (enBalanceBefore e);
  after ← money_json (enBalanceAfter e);
  created ← time_json (enCreatedAt e);
  Ok (Json.object [("id", Json.string_lit (enID e)); ("walletId", Json.string_lit (enWalletID e));
                   ("transactionId", Json.string_lit (enTransactionID e));
                   ("direction", Json.string_lit (enDirection e)); ("money", money);
                   ("balanceBefore", before); ("balanceAfter", after); ("createdAt", created)]).

Fixpoint entries_json (l : list LedgerEntry) : res (list string) :=
  match l with
  | [] => Ok []
  | e :: l => x ← entry_json e; xs ← entries_json l; Ok (x :: xs)
  end.

Definition page_json (p : LedgerPage) : res string :=
  entries ← entries_json (lpEntries p);
  Ok (Json.object (("entries", list_json entries) :: omit_string "nextCursor" (lpNextCursor p))).

Definition reconciliation_json (r : Reconciliation) : res string :=
  stored ← money_json (rcnStoredBalance r);
  calculated ← money_json (rcnCalculatedBalance r);
  difference ← money_json (rcnDifference r);
  Ok (Json.object [("walletId", Json.string_lit (rcnWalletID r)); ("storedBalance", stored);
                   ("calculatedBalance", calculated); ("difference", difference);
                   ("consistent", bool_json (rcnConsistent r));
                   ("checkedEntries", Strconv.FormatInt (rcnCheckedEntries r))]).

(** The text of a body; a value [json.Marshal] refuses has none. *)
Definition render (b : Body) : res string :=
  match b with
  | BodyWallet v => wallet_view_json v
  | BodyResult r => result_json r
  | BodyPage p => page_json p
  | BodyReconciliation r => reconciliation_json r
  | BodyFailure code message correlation =>
      Ok (Json.object [("code", Json.string_lit code); ("message", Json.string_lit message);
                       ("correlationId", Json.string_lit correlation)])
  | BodyHealth status => Ok (Json.object [("status", Json.string_lit status)])
  | BodyText text => Ok text
  end.

Section adapter.
Context (BodyLimit : Z).

(** What [requestContext] does once the handler is done. *)
Definition http_method (m : string) : string :=
  if existsb (fun k => m == k) ["GET"; "POST"; "PUT"; "DELETE"; "PATCH"; "HEAD"; "OPTIONS"; "CONNECT"; "TRACE"]
  then m else "OTHER".

Definition observed (rq : Request) (status : Z) : task :=
  Observe (http_method (hrMethod rq)) (if hrRoute rq == "" then "unmatched" else hrRoute rq) status (Done true).

Definition writeJSON (rq : Request) (status : Z) (value : Body) : task :=
  match render value with
  | Ok _ => Respond rq status value ~;; observed rq status
  | Err _ => Respond rq 500 (BodyText "response unavailable") ~;; observed rq 500
  end.

Definition failure (rq : Request) (correlation : string) (status : Z) (code message : string) : task :=
  writeJSON rq status (BodyFailure code message correlation).

(** ** [applicationError] *)

Definition unavailable : Z * string * string := (503, "service temporarily unavailable", "UNAVAILABLE").
Definition is_one_of (code : string) (l : list string) : bool := existsb (fun k => code == k) l.

(** Status, message and code of an error. *)
Definition error_answer (code : string) : Z * string * string :=
  if is_one_of code ["REFERENCE_REQUIRED"; "PLAYER_MISMATCH"]
  then (400, "request does not match the required transaction identity", code)
  else if code == "NOT_FOUND" then (404, "resource not found", code)
  else if is_one_of code ["WALLET_ALREADY_EXISTS"; "IDEMPOTENCY_KEY_REUSED"; "EXTERNAL_TRANSACTION_ID_REUSED"]
  then (409, "operation conflicts with persisted state", code)
  else if code == "FORBIDDEN" then (403, "operation not permitted", code)
  else if code == "UNAVAILABLE" then unavailable
  else if is_one_of code ["INSUFFICIENT_FUNDS"; "INSUFFICIENT_FUNDS_FOR_REVERSAL"; "CURRENCY_MISMATCH";
      "REFERENCE_NOT_FOUND"; "REFERENCE_NOT_PROCESSED"; "REFERENCE_MISMATCH"; "REFERENCE_ALREADY_REVERSED";
      "INVALID_AMOUNT_FOR_KIND"]
  then (422, "operation rejected by business rule", code)
  else if negb (HasPrefix code "INVALID_") && (code != "OVERFLOW") then unavailable
  else (400, "invalid request", code).

Definition applicationError (rq : Request) (correlation : string) (err : GoError) : task :=
  let '(status, message, code) := error_answer (Code err) in
  failure rq correlation status code message.

(** [if err != nil { a.applicationError(w, r, err); return }]. *)
Definition or_error {A} (rq : Request) (correlation : string) (r : res A) (k : A -> task) : task :=
  match r with Ok a => k a | Err e => applicationError rq correlation e end.

(** ** Middlewares *)

Definition correlation_char (c : ascii) : bool :=
  let n := Json.code c in
  ((97 <=? n) && (n <=? 122)) || ((65 <=? n) && (n <=? 90)) || ((48 <=? n) && (n <=? 57))
  || existsb (fun d => c == d) ["-"; "_"; "."; ":"]%char.
Definition validCorrelation (value : string) : bool :=
  (Z.of_nat (len value) <=? 128) && all_chars correlation_char value.

(** A refusal before the request has a context is not observed. *)
Definition refuse_early (rq : Request) (status : Z) (code message : string) : task :=
  Respond rq status (BodyFailure code message "") ~;; Done true.

Definition requestContext (rq : Request) (next : string -> task) : task :=
  let correlation := hrCorrelation rq in
  if (correlation != "") && negb (validCorrelation correlation)
  then refuse_early rq 400 "INVALID_CORRELATION_ID" "invalid correlation header"
  else if correlation == "" then
    random <~ RandomID ;;
    match random : res string with
    | Ok id => next (Hex.encode id)
    | Err _ => refuse_early rq 503 "UNAVAILABLE" "service unavailable"
    end
  else next correlation.

Definition authorize (rq : Request) (correlation scope : string) (providerRequired : bool)
    (next : Principal -> task) : task :=
  let refuse := failure rq correlation 401 "UNAUTHENTICATED" "valid bearer token required" in
  match Fields (hrAuthorization rq) with
  | [scheme; token] =>
      if negb (EqualFold scheme "Bearer") then refuse
      else
        validated <~ Validate token ;;
        match validated : res Principal with
        | Err _ => refuse
        | Ok principal =>
            if negb (HasScope principal scope)
               || (providerRequired && (prProviderID principal == ""))
               || (negb providerRequired && (prProviderID principal != ""))
            then failure rq correlation 403 "FORBIDDEN" "operation not permitted"
            else next principal
        end
  | _ => refuse
  end.

(** ** [decode] *)

(** A body over the limit is never accepted; whether the decoder met the limit
    or another fault first is the transport's. *)
Definition decode {A} (rq : Request) (correlation : string) (d : decoder A) (zero : A) (k : A -> task) : task :=
  let invalid := failure rq correlation 400 "INVALID_JSON" "one valid JSON document with known fields required" in
  match ParseMediaType (hrContentType rq) with
  | Some mediaType =>
      if mediaType != "application/json"
      then failure rq correlation 415 "INVALID_CONTENT_TYPE" "application/json required"
      else if BodyLimit <? Z.of_nat (len (hrBody rq)) then
        limit <~ TooLarge ;;
        if limit : bool then failure rq correlation 413 "BODY_TOO_LARGE" "request body exceeds limit"
        else invalid
      else match Unmarshal d (hrBody rq) zero with Some a => k a | None => invalid end
  | None => failure rq correlation 415 "INVALID_CONTENT_TYPE" "application/json required"
  end.

(** ** Handlers *)

Section handlers.
Context (rq : Request) (correlation : string).
Local Notation or_error := (or_error rq correlation).
Local Notation failure := (failure rq correlation).

Definition createWallet : task :=
  decode rq correlation (into_struct true wallet_fields) no_wallet (fun body =>
  or_error (ParseID (dwPlayerID body)) (fun player =>
  or_error (ParseMoney (dtAmount (dwInitialBalance body)) (dtCurrency (dwInitialBalance body))) (fun money =>
  CreateWalletCall (mkCreateWalletCommand (ID_String player) money correlation) (fun result =>
  or_error result (fun view =>
  writeJSON rq 201 (BodyWallet view)))))).

(** The status of a transaction's result. *)
Definition result_status (r : Result) : Z :=
  if rsIdempotentReplay r then 200
  else if (rsStatus r == "PENDING_REFERENCE") || (rsStatus r == "PENDING") then 202
  else if rsStatus r == "REJECTED" then 422
  else if rsStatus r == "FAILED" then 503
  else 201.

Definition http_command (principal : Principal) (body : wagerDTO) (wallet player : ID) (money : Money) : Command :=
  mkCommand (prProviderID principal) (dtExternalTransactionID body) (hrIdempotencyKey rq)
    (ID_String player) (ID_String wallet) (dtRoundID body) (dtGameID body) (dtKind body) money
    (dtReference body) correlation "".

Definition processWager (principal : Principal) : task :=
  decode rq correlation (into_struct true wager_fields) no_wager (fun body =>
  if dtProviderID body != prProviderID principal
  then failure 403 "FORBIDDEN" "provider does not match authenticated principal"
  else if (TrimSpace (hrIdempotencyKey rq) == "") || (256 <? Z.of_nat (len (hrIdempotencyKey rq)))
  then failure 400 "INVALID_IDEMPOTENCY_KEY" "Idempotency-Key required, maximum 256 bytes"
  else
    or_error (ParseID (dtWalletID body)) (fun wallet =>
    or_error (ParseID (dtPlayerID body)) (fun player =>
    or_error (ParseMoney (dtAmount (dtMoney body)) (dtCurrency (dtMoney body))) (fun money =>
    ProcessWagerService (http_command principal body wallet player money) None (fun result =>
    or_error result (fun r =>
    writeJSON rq (result_status r) (BodyResult r))))))).

Definition walletID (walletId : string) (k : string -> task) : task :=
  or_error (ParseID walletId) (fun id => k (ID_String id)).

Definition getWallet (walletId : string) : task :=
  walletID walletId (fun id =>
  on_wallet (OpGetWallet id) (fun result =>
  or_error result (fun view => writeJSON rq 200 (BodyWallet view)))).

(** The limit of a page: 50 unless the query names one. *)
Definition page_limit (value : string) : option Z :=
  if value == "" then Some 50
  else match Atoi value with
       | Some parsed => if (parsed <? 1) || (100 <? parsed) then None else Some parsed
       | None => None
       end.

Definition ledger (walletId limit cursor : string) : task :=
  walletID walletId (fun id =>
  match page_limit limit with
  | None => failure 400 "INVALID_LIMIT" "limit must be between 1 and 100"
  | Some n =>
      if 1024 <? Z.of_nat (len cursor) then failure 400 "INVALID_CURSOR" "invalid cursor"
      else
        Ask (Call (OpLedger id cursor n)) (fun a : Reply =>
          match a with
          | RpPage result => or_error result (fun page => writeJSON rq 200 (BodyPage page))
          | _ => Done false
          end)
  end).

Definition reconcile (walletId : string) : task :=
  walletID walletId (fun id =>
  ReconcileService id (fun result =>
  or_error result (fun r => writeJSON rq 200 (BodyReconciliation r)))).

Definition getTransaction (principal : Principal) (transactionId : string) : task :=
  or_error (ParseID transactionId) (fun id =>
  on_result (OpGetTransaction (prProviderID principal) (ID_String id)) (fun result =>
  or_error result (fun r => writeJSON rq 200 (BodyResult r)))).

Definition getExternal (principal : Principal) (providerId external : string) : task :=
  if providerId != prProviderID principal
  then failure 403 "FORBIDDEN" "provider does not match authenticated principal"
  else
    on_result (OpGetExternalTransaction (prProviderID principal) external) (fun result =>
    or_error result (fun r => writeJSON rq 200 (BodyResult r))).

Definition ready : task :=
  checked <~ Ready ;;
  match checked : res unit with
  | Ok _ => writeJSON rq 200 (BodyHealth "ready")
  | Err _ => failure 503 "NOT_READY" "dependencies unavailable"
  end.
End handlers.

(** ** The router *)

(** The scope a route asks for, and whether its principal must be a provider. *)
Definition access (e : Endpoint) : option (string * bool) :=
  match e with
  | PostWallet => Some ("wallet:write", false)
  | GetWalletByID _ | GetLedger _ _ _ => Some ("wallet:read", false)
  | PostReconciliation _ => Some ("wallet:reconcile", false)
  | PostTransaction => Some ("wager:write", true)
  | GetTransactionByID _ | GetProviderTransaction _ _ => Some ("wager:read", true)
  | HealthLive | HealthReady => None
  end.

Definition handler (rq : Request) (correlation : string) (principal : Principal) : task :=
  match hrEndpoint rq with
  | PostWallet => createWallet rq correlation
  | GetWalletByID walletId => getWallet rq correlation walletId
  | GetLedger walletId limit cursor => ledger rq correlation walletId limit cursor
  | PostReconciliation walletId => reconcile rq correlation walletId
  | PostTransaction => processWager rq correlation principal
  | GetTransactionByID transactionId => getTransaction rq correlation principal transactionId
  | GetProviderTransaction providerId external => getExternal rq correlation principal providerId external
  | HealthLive => writeJSON rq 200 (BodyHealth "live")
  | HealthReady => ready rq correlation
  end.

Definition nobody : Principal := mkPrincipal "" "" ∅.

Definition serve (rq : Request) : task :=
  requestContext rq (fun correlation =>
  match access (hrEndpoint rq) with
  | Some (scope, providerRequired) =>
      authorize rq correlation scope providerRequired (handler rq correlation)
  | None => handler rq correlation nobody
  end).
End adapter.
