(* ===== verification/Identity.v ===== *)
(** * What a request is, and what its hash says

    The hashes the store compares name operations, as far as SHA-256 does, and
    a message written with the tags of [requestEnvelope] is understood. *)

From S2P Require Import Prelude GoStd Codec JsonText JsonRound Errors Ident Money Wallet Ledger Wager.
From S2P Require Import Evaluate Command Events Timestamps Oidc Transport Documents Tasks Http.
Import Str.

(** A body of HTTP, its amount parsed and its command normalized by the store. *)
Lemma body_sound rq correlation principal body wallet player money c :
  Unmarshal (into_struct true wager_fields) (hrBody rq) no_wager = Some body ->
  dtProviderID body = prProviderID principal ->
  ParseMoney (dtAmount (dtMoney body)) (dtCurrency (dtMoney body)) = Ok money ->
  NormalizeCommand (http_command rq correlation principal body wallet player money) = Ok c -> sound c.
Proof.
  intros Hb Hp Hm Hn. apply body_utf8 in Hb as [Hd _]. eapply normalized_sound; [exact Hn|by eapply parsed_range|].
  repeat (apply Forall_cons in Hd as [? Hd]). cbn [http_command cProviderID cExternalTransactionID cRoundID cGameID cReferenceExternalTransactionID].
  rewrite <- Hp. by repeat (apply Forall_cons; split).
Qed.

(** C11: a hash names an operation.  Two commands have one financial hash
    exactly if they ask for the same operation (provider, external transaction,
    player, wallet, round, game, kind, amount and reference; neither the key nor
    the correlation), unless SHA-256 gives their two documents one digest; two
    deliveries have one hash exactly if type, instant (in any year), operation and
    idempotency key agree, with the same exception.  This holds of every [sound]
    command, and what a transport hands over is sound: what the store normalizes
    of a body of HTTP, and what [Decode] returns; so of two messages [Decode]
    accepts, the hashes agree exactly if their instants, operations and keys
    do. *)
Theorem hash_names_operation :
  (forall c c', sound c -> sound c' ->
     PayloadHash c = PayloadHash c' <->
     same_operation c c' \/ collision (payload_document c) (payload_document c'))
  /\ (forall ty ty' t t' c c', sound c -> sound c' -> utf8 (cIdempotencyKey c) -> utf8 (cIdempotencyKey c') ->
     utf8 ty -> utf8 ty' ->
     InboxHash ty t c = InboxHash ty' t' c' <->
     (ty = ty' /\ t = t' /\ same_operation c c' /\ cIdempotencyKey c = cIdempotencyKey c')
     \/ collision (inbox_document ty t c) (inbox_document ty' t' c'))
  /\ (forall body body' providers providers' e e' c c' m m',
     envelope_of body = Some e -> envelope_of body' = Some e' ->
     Decode body providers = Ok (c, m) -> Decode body' providers' = Ok (c', m') ->
     sound c /\ sound c'
     /\ (imPayloadHash m = imPayloadHash m' <->
        (rqeOccurredAt e = rqeOccurredAt e' /\ same_operation c c' /\ cIdempotencyKey c = cIdempotencyKey c')
        \/ collision (inbox_document "WagerTransactionRequested" (rqeOccurredAt e) c)
             (inbox_document "WagerTransactionRequested" (rqeOccurredAt e') c')))
  /\ (forall rq correlation principal body wallet player money c,
     Unmarshal (into_struct true wager_fields) (hrBody rq) no_wager = Some body ->
     dtProviderID body = prProviderID principal ->
     ParseMoney (dtAmount (dtMoney body)) (dtCurrency (dtMoney body)) = Ok money ->
     NormalizeCommand (http_command rq correlation principal body wallet player money) = Ok c -> sound c).
Proof.
  split; [exact payload_hash_eq|]. split; [exact inbox_hash_eq|]. split; [|exact body_sound].
  intros * He He' H H'. split_and!; [by eapply Decode_sound|by eapply Decode_sound|by eapply delivery_hash_eq].
Qed.

(** C12: a message is understood.  The envelope a producer marshals with the
    tags of [requestEnvelope] is unmarshalled to itself, whatever its texts of
    UTF-8 hold; and the message for a sound command of a trusted provider, under
    an identity of 1 to 200 bytes and at any instant but the zero one, is
    decoded to that very command, with the message as its correlation and
    causation, to be received under that identity with the hash of the delivery. *)
Theorem messages_are_understood e text :
  utf8_request e -> request_json e = Ok text ->
  Unmarshal (into_struct true request_fields) text no_request = Some e
  /\ forall c providers, e = request_of c (rqeMessageID e) (rqeOccurredAt e) ->
     sound c -> utf8 (cIdempotencyKey c) -> cProviderID c ∈ providers ->
     rqeMessageID e <> "" -> (len (rqeMessageID e) <= 200)%nat -> rqeOccurredAt e <> 0 ->
     exists hash, InboxHash (rqeType e) (rqeOccurredAt e) (carried c (rqeMessageID e)) = Ok hash
     /\ Decode text providers = Ok (carried c (rqeMessageID e), mkInboxMessage "wager-transactions-v1" (rqeMessageID e) hash).
Proof.
  intros Hu Hj. split; [by apply request_reads|]. intros c providers He Hc Hk Hp Hi Hl Ht.
  assert (Hty : rqeType e = "WagerTransactionRequested") by by rewrite He.
  rewrite Hty. rewrite He in Hj. apply Decode_request; try done. apply Hu.
Qed.

Lemma demo_sound : sound demo_normal /\ utf8 (cIdempotencyKey demo_normal).
Proof.
  split; [|by apply plain_valid]. apply (normalized_sound demo_command); [vm_compute; reflexivity|by vm_compute|].
  repeat (apply Forall_cons; split); [by apply plain_valid..|by apply Forall_nil].
Qed.

Lemma messages_are_understood_witness : exists text hash,
  request_json (request_of demo_normal "message-1" 1600) = Ok text
  /\ Decode text ["provider-b"; "provider-a"]
     = Ok (carried demo_normal "message-1", mkInboxMessage "wager-transactions-v1" "message-1" hash).
Proof.
  destruct demo_sound as [Hc Hk].
  assert (Hu : utf8_request (request_of demo_normal "message-1" 1600)).
  { apply utf8_request_of; [exact Hc|exact Hk|by apply plain_valid]. }
  destruct (messages_are_understood _ _ Hu eq_refl) as [_ H].
  destruct (H demo_normal ["provider-b"; "provider-a"] eq_refl Hc Hk) as (hash & _ & Hd);
    [right; left|discriminate|apply Nat.leb_le; reflexivity|discriminate|].
  eexists; exists hash. split; [reflexivity|exact Hd].
Defined.

(** The same bet under another key and another correlation. *)
Definition retried : Command :=
  mkCommand "provider-a" "bet-1" "provider-a:retry" (ID_String (demo_id 2)) (ID_String (demo_id 1))
    "round-1" "game-1" "BET" (mkMoney 8000 "BRL") "" "bet-2" "".

Lemma hash_names_operation_witness :
  sound demo_normal /\ sound retried /\ PayloadHash demo_normal = PayloadHash retried
  /\ PayloadHash demo_normal = PayloadHash (carried demo_normal "message-1")
  /\ InboxHash "WagerTransactionRequested" Time.year_10000 demo_normal
     = InboxHash "WagerTransactionRequested" Time.year_10000 (carried demo_normal "message-1").
Proof.
  destruct demo_sound as [Hc Hk].
  assert (Hr : sound retried).
  { apply (normalized_sound retried); [vm_compute; reflexivity|by vm_compute|].
    repeat (apply Forall_cons; split); [by apply plain_valid..|by apply Forall_nil]. }
  assert (Hm : sound (carried demo_normal "message-1")).
  { destruct Hc as (Hn & Hu & Hi). split; [|done]. by apply carried_normal. }
  assert (Hty : utf8 "WagerTransactionRequested") by by apply plain_valid.
  destruct hash_names_operation as (H & Hd & _ & _).
  split; [exact Hc|]. split; [exact Hr|]. split; [|split].
  - apply (H demo_normal retried Hc Hr). left. repeat split.
  - apply (H demo_normal (carried demo_normal "message-1") Hc Hm). left. repeat split.
  - apply (Hd _ _ _ _ demo_normal (carried demo_normal "message-1") Hc Hm Hk Hk Hty Hty). left. repeat split.
Defined.
