(* ===== verification/Writer.v ===== *)
(** * The response writer: [responseWriter] and the recovery of [requestContext]

    What reaches the connection of a request, line by line, when a handler
    writes its answer, writes none, or panics at any point of it.  The
    goroutines of Http.v answer by one request to the outside; here is what the
    writer underneath makes of it. *)

From S2P Require Import Prelude GoStd Codec JsonText Errors Tasks Http.
Import Str.

(** ** The server's writer *)

(** What goes out on the connection: a status line with the headers set so far,
    and bytes of the body. *)
Inductive sent : Type :=
| Head (status : Z) (header : list (string * string))
| Bytes (p : string).

(** The [http.ResponseWriter] of net/http underneath: [reStatus] is 0 until a
    final status is sent; [reSent] is what went out, oldest first. *)
Record response : Type := mkResponse {
  reStatus : Z; reHeader : list (string * string); reSent : list sent
}.

(** A status that another one follows: 1xx, but for 101. *)
Definition informational (status : Z) : bool := (100 <=? status) && (status <=? 199) && negb (status =? 101).
(** [bodyAllowedForStatus]. *)
Definition bodyAllowed (status : Z) : bool :=
  negb ((100 <=? status) && (status <=? 199)) && negb (status =? 204) && negb (status =? 304).

Definition send_header (status : Z) (u : response) : response :=
  if negb (reStatus u =? 0) then u
  else if informational status then mkResponse 0 (reHeader u) (reSent u ++ [Head status (reHeader u)])
  else mkResponse status (reHeader u) (reSent u ++ [Head status (reHeader u)]).

Definition send_bytes (p : string) (u : response) : response :=
  let u := send_header 200 u in
  if (p == "") || negb (bodyAllowed (reStatus u)) then u
  else mkResponse (reStatus u) (reHeader u) (reSent u ++ [Bytes p]).

(** The server, once the handler has returned. *)
Definition finishRequest (u : response) : response := send_header 200 u.

(** ** The writer *)

(** [status] is 0 until a status is asked for. *)
Record responseWriter : Type := mkResponseWriter { rwStatus : Z; rwUnder : response }.
Definition unwritten : responseWriter := mkResponseWriter 0 (mkResponse 0 [] []).
Definition rwSent (w : responseWriter) : list sent := reSent (rwUnder w).
Definition rwHeader (w : responseWriter) : list (string * string) := reHeader (rwUnder w).

(** [Header().Set]. *)
Definition SetHeader (k v : string) (w : responseWriter) : responseWriter :=
  let u := rwUnder w in
  mkResponseWriter (rwStatus w)
    (mkResponse (reStatus u) (List.filter (fun x => x.1 != k) (reHeader u) ++ [(k, v)]) (reSent u)).

Definition WriteHeader (status : Z) (w : responseWriter) : responseWriter :=
  if rwStatus w =? 0 then mkResponseWriter status (send_header status (rwUnder w)) else w.

Definition Write (p : string) (w : responseWriter) : responseWriter :=
  let w := if rwStatus w =? 0 then WriteHeader 200 w else w in
  mkResponseWriter (rwStatus w) (send_bytes p (rwUnder w)).

(** An informational status is followed by the one the server sends. *)
Example early_hints :
  reSent (finishRequest (rwUnder (WriteHeader 103 unwritten))) = [Head 103 []; Head 200 []].
Proof. reflexivity. Qed.

(** ** What a handler does to it *)

Inductive act : Type :=
| DoSet (k v : string)
| DoHeader (status : Z)
| DoWrite (p : string).

Definition do_act (w : responseWriter) (a : act) : responseWriter :=
  match a with
  | DoSet k v => SetHeader k v w
  | DoHeader status => WriteHeader status w
  | DoWrite p => Write p w
  end.
Definition do_acts (l : list act) (w : responseWriter) : responseWriter := fold_left do_act l w.

Definition newline : string := String (Ascii.ascii_of_N 10) "".

(** [writeJSON]; [http.Error] writes a text and its newline. *)
Definition writeJSON_acts (status : Z) (value : Body) : list act :=
  match render value with
  | Ok body =>
      [DoSet "Content-Type" "application/json"; DoSet "Cache-Control" "no-store";
       DoSet "X-Content-Type-Options" "nosniff"; DoHeader status; DoWrite (body +:+ newline)]
  | Err _ =>
      [DoSet "Content-Type" "text/plain; charset=utf-8"; DoSet "X-Content-Type-Options" "nosniff";
       DoHeader 500; DoWrite ("response unavailable" +:+ newline)]
  end.

(** The body of [failure]. *)
Definition panic_body (correlation : string) : Body := BodyFailure "INTERNAL_ERROR" "request failed" correlation.

(** [requestContext] around a handler that did [acts] and then returned or
    panicked: the writer it leaves, and the status it observes. *)
Definition around (correlation : string) (acts : list act) (panicked : bool) : responseWriter * Z :=
  let wrapped := do_acts acts (SetHeader "X-Correlation-ID" correlation unwritten) in
  let wrapped :=
    if panicked && (rwStatus wrapped =? 0)
    then do_acts (writeJSON_acts 500 (panic_body correlation)) wrapped else wrapped in
  (wrapped, if rwStatus wrapped =? 0 then 200 else rwStatus wrapped).

(** ** What reaches the connection *)

Definition is_head (s : sent) : bool := match s with Head _ _ => true | Bytes _ => false end.

(** The final statuses; those of 1xx are followed by another, and on a status
    below 100 or above 999 the [WriteHeader] of net/http panics. *)
Definition valid_act (a : act) : Prop := match a with DoHeader st => 200 <= st <= 999 | _ => True end.

(** Nothing was sent, or one head, first, with the status both writers remember,
    and a body if the status has one. *)
Definition one_head (status : Z) (l : list sent) : Prop :=
  exists header body, l = Head status header :: body /\ Forall (fun s => is_head s = false) body
    /\ (bodyAllowed status = false -> body = []).
Definition well_sent (w : responseWriter) : Prop :=
  reStatus (rwUnder w) = rwStatus w
  /\ ((rwStatus w = 0 /\ rwSent w = []) \/ (200 <= rwStatus w <= 999 /\ one_head (rwStatus w) (rwSent w))).

Lemma send_header_final status u : 200 <= status -> reStatus u = 0 ->
  send_header status u = mkResponse status (reHeader u) (reSent u ++ [Head status (reHeader u)]).
Proof.
  intros Hs E. unfold send_header, informational. rewrite E. cbn [Z.eqb negb].
  replace (status <=? 199) with false by (symmetry; apply Z.leb_gt; lia). by rewrite andb_false_r.
Qed.

Lemma send_header_sent status u : reStatus u <> 0 -> send_header status u = u.
Proof. intros E. unfold send_header. by apply Z.eqb_neq in E as ->. Qed.

Lemma one_head_bytes status l p :
  one_head status l -> bodyAllowed status = true -> one_head status (l ++ [Bytes p]).
Proof.
  intros (h & body & -> & Hb & _) Ha. exists h, (body ++ [Bytes p]). split; [done|]. split; [|congruence].
  by apply Forall_app; split; [|apply Forall_singleton].
Qed.

Lemma WriteHeader_sent st w : 200 <= st <= 999 -> well_sent w ->
  well_sent (WriteHeader st w) /\ rwStatus (WriteHeader st w) <> 0.
Proof.
  intros Hst [Hu Hw]. unfold WriteHeader. destruct (rwStatus w =? 0) eqn:E; bools; [|done].
  rewrite E in Hu. unfold well_sent, rwSent. cbn [rwStatus rwUnder]. rewrite send_header_final by lia. cbn.
  split; [|lia]. split; [done|]. right. split; [done|]. destruct Hw as [[_ Hs]|[? _]]; [|lia].
  unfold rwSent in Hs. rewrite Hs. by exists (reHeader (rwUnder w)), [].
Qed.

Lemma do_act_sent w a : valid_act a -> well_sent w -> well_sent (do_act w a).
Proof.
  intros Ha Hw. destruct a as [k v|st|p]; cbn [do_act]; [exact Hw|by apply WriteHeader_sent|].
  unfold Write. set (w' := if rwStatus w =? 0 then _ else w).
  assert (Hw' : well_sent w' /\ rwStatus w' <> 0).
  { subst w'. destruct (rwStatus w =? 0) eqn:E; bools; [by apply WriteHeader_sent|done]. }
  clearbody w'. destruct Hw' as [[Hu Hs] Hne]. unfold well_sent, rwSent. cbn [rwStatus rwUnder]. unfold send_bytes.
  rewrite send_header_sent by lia.
  destruct (_ || _) eqn:E; [by split|]. apply orb_false_iff in E as [_ E]. apply negb_false_iff in E.
  split; [done|]. right. destruct Hs as [[? _]|[Hr Hs]]; [done|]. split; [done|].
  rewrite Hu in E. by apply one_head_bytes.
Qed.

Lemma do_acts_sent l w : Forall valid_act l -> well_sent w -> well_sent (do_acts l w).
Proof.
  intros Hl. revert w. induction Hl as [|a l Ha Hl IH]; intros w Hw; [done|]. apply IH. by apply do_act_sent.
Qed.

(** A handler that answers as every handler does: one call of [writeJSON]. *)
Lemma writeJSON_sends correlation status value : 200 <= status <= 999 -> bodyAllowed status = true ->
  exists b text header seen, (forall rq, writeJSON rq status value = Ask (Respond rq seen b) (fun _ => observed rq seen))
  /\ render b = Ok text
  /\ rwSent (do_acts (writeJSON_acts status value) (SetHeader "X-Correlation-ID" correlation unwritten))
     = [Head seen header; Bytes (text +:+ newline)]
  /\ rwStatus (do_acts (writeJSON_acts status value) (SetHeader "X-Correlation-ID" correlation unwritten)) = seen.
Proof.
  intros Hs Hb.
  assert (Hd : forall k st h p, 200 <= st -> bodyAllowed st = true ->
    do_acts [DoHeader st; DoWrite (p +:+ newline)] (mkResponseWriter 0 (mkResponse 0 h k))
    = mkResponseWriter st (mkResponse st h ((k ++ [Head st h]) ++ [Bytes (p +:+ newline)]))).
  { intros k st h p Hst Hbs. cbn [do_acts fold_left do_act]. unfold WriteHeader. cbn [rwStatus Z.eqb rwUnder].
    rewrite send_header_final by done. cbn [reHeader reSent]. unfold Write. cbn [rwStatus rwUnder].
    replace (st =? 0) with false by (symmetry; apply Z.eqb_neq; lia). cbn [rwStatus rwUnder]. unfold send_bytes.
    rewrite send_header_sent by (cbn; lia). cbn [reStatus reHeader reSent]. rewrite Hbs, orb_false_r.
    by rewrite bool_decide_eq_false_2 by (by destruct p). }
  unfold writeJSON, writeJSON_acts. destruct (render value) as [text|e] eqn:Et.
  - exists value, text. eexists _, status. split; [done|]. split; [done|].
    match goal with |- context [do_acts ?l ?w] =>
      change (do_acts l w) with (do_acts [DoHeader status; DoWrite (text +:+ newline)]
        (mkResponseWriter 0 (mkResponse 0 [("X-Correlation-ID", correlation); ("Content-Type", "application/json");
           ("Cache-Control", "no-store"); ("X-Content-Type-Options", "nosniff")] []))) end.
    rewrite Hd by (done || lia). split; reflexivity.
  - exists (BodyText "response unavailable"), "response unavailable". eexists _, 500. by split_and!.
Qed.

(** The failure of a panic, on an untouched writer. *)
Lemma panic_sends header correlation :
  let w := do_acts (writeJSON_acts 500 (panic_body correlation)) (mkResponseWriter 0 (mkResponse 0 header [])) in
  exists h text, render (panic_body correlation) = Ok text
  /\ rwSent w = [Head 500 h; Bytes (text +:+ newline)] /\ rwStatus w = 500 /\ reStatus (rwUnder w) = 500.
Proof. do 2 eexists. split; [reflexivity|]. by split_and!. Qed.

(** ** What the connection carries in the end *)

Lemma finish_sends w : well_sent w ->
  one_head (if rwStatus w =? 0 then 200 else rwStatus w) (reSent (finishRequest (rwUnder w)))
  /\ (rwStatus w <> 0 -> reSent (finishRequest (rwUnder w)) = rwSent w).
Proof.
  intros [Hu Hs]. unfold finishRequest. destruct (rwStatus w =? 0) eqn:E; bools.
  - split; [|done]. rewrite send_header_final by lia. destruct Hs as [[_ Hs]|[? _]]; [|lia].
    unfold rwSent in Hs. cbn. rewrite Hs. by exists (reHeader (rwUnder w)), [].
  - rewrite send_header_sent by lia. split; [|done]. by destruct Hs as [[? _]|[_ ?]].
Qed.

Lemma unsent w : well_sent w -> rwStatus w = 0 <-> rwSent w = [].
Proof. intros [_ [[-> ->]|(Hr & h & body & -> & _)]]; [done|]. split; [lia|done]. Qed.

Section around.
Context (correlation : string) (acts : list act) (Hv : Forall valid_act acts).
Notation before := (do_acts acts (SetHeader "X-Correlation-ID" correlation unwritten)).

Lemma before_sent : well_sent before.
Proof using Hv. apply do_acts_sent; [done|by split; [|left]]. Qed.

Lemma around_kept panicked : rwSent before <> [] \/ panicked = false ->
  around correlation acts panicked = (before, if rwStatus before =? 0 then 200 else rwStatus before).
Proof using Hv.
  intros Hp. unfold around. assert (E : panicked && (rwStatus before =? 0) = false).
  { apply andb_false_iff. destruct Hp as [Hp| ->]; [right|by left]. apply Z.eqb_neq. by rewrite unsent by apply before_sent. }
  by rewrite E.
Qed.

Lemma around_panicked panicked : rwSent before = [] -> panicked = true ->
  exists w header text, around correlation acts panicked = (w, 500) /\ reStatus (rwUnder w) = 500
  /\ render (panic_body correlation) = Ok text /\ rwSent w = [Head 500 header; Bytes (text +:+ newline)].
Proof using Hv.
  intros Hs ->. pose proof (proj2 (unsent _ before_sent) Hs) as E. destruct before_sent as [Hu _]. unfold around.
  set (b := before) in *. clearbody b. rewrite E. cbn [andb Z.eqb].
  destruct (panic_sends (rwHeader b) correlation) as (h & text & Ht & Hsent & Hst & Hre).
  assert (Eb : b = mkResponseWriter 0 (mkResponse 0 (rwHeader b) [])).
  { rewrite E in Hu. unfold rwSent in Hs. unfold rwHeader. destruct b as [st [x y z]]. cbn in *. congruence. }
  rewrite <- Eb in Hsent, Hst, Hre. rewrite Hst. eexists _, h, text. by split_and!.
Qed.
End around.

(** C26: a request is answered in one piece, whatever its handler does.  For any
    writes of a handler, with any final statuses (200 to 999), that then returns
    or panics: once the server has finished the request, one status line has gone
    out, with the status observed, before all else, and a body only if that status
    has one; what the handler sent went out as it was sent; a panic before
    anything was sent is answered with 500 and the JSON of [INTERNAL_ERROR], and a
    panic after it adds nothing.  An answer of [writeJSON] is such a sequence: its
    goroutine responds with the status and the body that then go out. *)
Theorem response_is_written_once correlation acts panicked :
  Forall valid_act acts ->
  let before := do_acts acts (SetHeader "X-Correlation-ID" correlation unwritten) in
  let '(w, seen) := around correlation acts panicked in
  one_head seen (reSent (finishRequest (rwUnder w)))
  /\ (rwSent before <> [] \/ panicked = false -> rwSent w = rwSent before)
  /\ (rwSent before = [] -> panicked = true -> exists header text,
        render (panic_body correlation) = Ok text /\ rwSent w = [Head 500 header; Bytes (text +:+ newline)])
  /\ forall rq status value, 200 <= status <= 999 -> bodyAllowed status = true ->
        acts = writeJSON_acts status value -> panicked = false ->
        exists b text header, writeJSON rq status value = Ask (Respond rq seen b) (fun _ => observed rq seen)
        /\ render b = Ok text /\ reSent (finishRequest (rwUnder w)) = [Head seen header; Bytes (text +:+ newline)].
Proof.
  intros Hv. cbv zeta. pose proof (before_sent correlation acts Hv) as Hb.
  pose proof (around_kept correlation acts Hv panicked) as Hkept.
  pose proof (around_panicked correlation acts Hv panicked) as Hpanic.
  set (before := do_acts acts _) in *. destruct (around correlation acts panicked) as [w seen]. split_and!.
  - destruct (decide (rwSent before = [] /\ panicked = true)) as [[Hs ->]|Hn].
    + destruct (Hpanic Hs eq_refl) as (v & h & text & [= <- ->] & Hre & _ & Hw). unfold finishRequest.
      rewrite send_header_sent by lia. unfold rwSent in Hw. rewrite Hw.
      exists h, [Bytes (text +:+ newline)]. split; [done|]. split; [by apply Forall_singleton|done].
    + assert (Hp : rwSent before <> [] \/ panicked = false).
      { destruct panicked; [left|by right]. intros Hs. by apply Hn. }
      pose proof (Hkept Hp) as [= -> ->]. by apply finish_sends.
  - intros Hp. by pose proof (Hkept Hp) as [= -> _].
  - intros Hs ->. destruct (Hpanic Hs eq_refl) as (v & h & text & [= <- _] & _ & ? & ?). by exists h, text.
  - intros rq status value Hr Ha -> ->. pose proof (Hkept (or_intror eq_refl)) as [= -> ->].
    destruct (writeJSON_sends correlation status value Hr Ha) as (b & text & h & seen' & Hw & Ht & Hsent & Hst).
    fold before in Hsent, Hst.
    assert (Hne : rwStatus before <> 0) by (rewrite (unsent _ Hb), Hsent; done).
    exists b, text, h. rewrite (proj2 (finish_sends before Hb) Hne), Hsent, Hst.
    replace (seen' =? 0) with false by (symmetry; apply Z.eqb_neq; lia). by rewrite Hw.
Qed.

Lemma response_is_written_once_witness :
  one_head 200 (reSent (finishRequest (rwUnder (around "c-1" [DoHeader 200; DoWrite "{"] true).1)))
  /\ rwSent (around "c-1" [DoHeader 200; DoWrite "{"] true).1
     = [Head 200 [("X-Correlation-ID", "c-1")]; Bytes "{"].
Proof.
  assert (Hv : Forall valid_act [DoHeader 200; DoWrite "{"]).
  { repeat (apply Forall_cons; split); cbn; [lia|exact I|by apply Forall_nil]. }
  destruct (response_is_written_once "c-1" [DoHeader 200; DoWrite "{"] true Hv) as (H & Hs & _).
  split; [exact H|]. apply Hs. left. discriminate.
Defined.
