(* ===== verification/Answers.v ===== *)
(** * Requests and answers: what the HTTP interface promises

    What a request says, on its own terms (its route, its headers, its body),
    which call of the store it asks for, and which failures it may be told: the
    handlers of Http.v are proved against these in Program.v. *)

From S2P Require Import Prelude GoStd Codec JsonText MediaType Errors Ident Money Command Config Oidc Transport.
From S2P Require Import Session Machine Database Read System Tasks Service Http.
Import Str.

(** ** What a request says *)

(** [Authorization: Bearer <token>]. *)
Definition bearer (rq : Request) (token : string) : Prop :=
  exists scheme, Fields (hrAuthorization rq) = [scheme; token] /\ EqualFold scheme "Bearer" = true.

(** The request's own token was verified, as [p]'s. *)
Definition principal_of (s : scene) (rq : Request) (p : Principal) : Prop :=
  exists token, bearer rq token /\ Answered (Validate token) (Ok p) ∈ s.2.

(** It came in with a provider's token, or with an operator's, that has the scope. *)
Definition provider_may (s : scene) (rq : Request) (scope provider : string) : Prop :=
  exists p, principal_of s rq p /\ HasScope p scope = true /\ prProviderID p = provider /\ provider <> "".
Definition operator_may (s : scene) (rq : Request) (scope : string) : Prop :=
  exists p, principal_of s rq p /\ HasScope p scope = true /\ prProviderID p = "".

Section requests.
Context (BodyLimit : Z).

(** The body: one JSON document of known fields, within the limit. *)
Definition document {A} (d : decoder A) (zero : A) (rq : Request) (a : A) : Prop :=
  ParseMediaType (hrContentType rq) = Some "application/json"
  /\ Z.of_nat (len (hrBody rq)) <= BodyLimit /\ Unmarshal d (hrBody rq) zero = Some a.
Definition wallet_body : Request -> walletDTO -> Prop := document (into_struct true wallet_fields) no_wallet.
Definition wager_body : Request -> wagerDTO -> Prop := document (into_struct true wager_fields) no_wager.

(** A text and an identity of a command name the same one. *)
Definition same_id (text id : string) : Prop := exists i, ParseID text = Ok i /\ ParseID id = Ok i.

(** The command is what the members of a body ask for, whoever sent it. *)
Record wager_says (d : wagerDTO) (command : Command) : Prop := {
  wa_provider : cProviderID command = dtProviderID d;
  wa_external : cExternalTransactionID command = dtExternalTransactionID d;
  wa_wallet : same_id (dtWalletID d) (cWalletID command);
  wa_player : same_id (dtPlayerID d) (cPlayerID command);
  wa_round : cRoundID command = dtRoundID d;
  wa_game : cGameID command = dtGameID d;
  wa_kind : ToUpper (cKind command) = ToUpper (dtKind d);
  wa_money : ParseMoney (dtAmount (dtMoney d)) (dtCurrency (dtMoney d)) = Ok (cMoney command);
  wa_reference : cReferenceExternalTransactionID command = dtReference d
}.

(** [POST /v1/transactions] asks for the command, under the key of its header. *)
Definition wager_request (rq : Request) (command : Command) : Prop :=
  hrEndpoint rq = PostTransaction /\ cIdempotencyKey command = hrIdempotencyKey rq
  /\ exists body, wager_body rq body /\ wager_says body command.

(** [POST /v1/wallets] asks for the wallet. *)
Definition wallet_request (rq : Request) (cw : CreateWalletCommand) : Prop :=
  hrEndpoint rq = PostWallet
  /\ exists body, wallet_body rq body /\ same_id (dwPlayerID body) (cwPlayerID cw)
     /\ ParseMoney (dtAmount (dwInitialBalance body)) (dtCurrency (dwInitialBalance body)) = Ok (cwInitialBalance cw).

(** The call of the store a request asks for. *)
Definition op_of (rq : Request) (o : Op) : Prop :=
  let names text id := exists i, ParseID text = Ok i /\ id = ID_String i in
  match hrEndpoint rq, o with
  | PostWallet, OpCreateWallet cw _ => wallet_request rq cw
  | GetWalletByID w, OpGetWallet id => names w id
  | GetLedger w limit cursor, OpLedger id at_ n => names w id /\ at_ = cursor /\ page_limit limit = Some n
  | PostReconciliation w, OpReconcile id => names w id
  | PostTransaction, OpProcessWager command None _ => wager_request rq command
  | GetTransactionByID t, OpGetTransaction _ id => names t id
  | GetProviderTransaction p x, OpGetExternalTransaction provider external => provider = p /\ external = x
  | _, _ => False
  end.

(** ** Failures *)

(** The statuses of the errors a client can be told; a code that is not listed is
    not told. *)
Definition error_statuses : list (string * Z) :=
  [("REFERENCE_REQUIRED", 400); ("PLAYER_MISMATCH", 400); ("OVERFLOW", 400);
   ("FORBIDDEN", 403); ("NOT_FOUND", 404);
   ("WALLET_ALREADY_EXISTS", 409); ("IDEMPOTENCY_KEY_REUSED", 409); ("EXTERNAL_TRANSACTION_ID_REUSED", 409);
   ("INSUFFICIENT_FUNDS", 422); ("INSUFFICIENT_FUNDS_FOR_REVERSAL", 422); ("CURRENCY_MISMATCH", 422);
   ("REFERENCE_NOT_FOUND", 422); ("REFERENCE_NOT_PROCESSED", 422); ("REFERENCE_MISMATCH", 422);
   ("REFERENCE_ALREADY_REVERSED", 422); ("INVALID_AMOUNT_FOR_KIND", 422)].
Definition code_status (code : string) : Z * string :=
  match List.find (fun x => code == x.1) error_statuses with
  | Some (_, status) => (status, code)
  | None => if HasPrefix code "INVALID_" then (400, code) else (503, "UNAVAILABLE")
  end.

Lemma error_answer_status code :
  let '(status, _, told) := error_answer code in (status, told) = code_status code.
Proof.
  unfold code_status. destruct (List.find _ error_statuses) as [[k status]|] eqn:Ef.
  - apply List.find_some in Ef as [Hin E]. bools. cbn [fst] in E. subst k.
    repeat (destruct Hin as [[= <- <-]|Hin]; [vm_compute; reflexivity|]). done.
  - assert (Hne : forall x, x ∈ error_statuses.*1 -> (code == x) = false).
    { intros x Hx. apply list_elem_of_fmap in Hx as (y & -> & Hy).
      apply (List.find_none _ _ Ef y). by apply list_elem_of_In. }
    assert (Hno : forall l, Forall (fun x => x ∈ error_statuses.*1) l -> is_one_of code l = false).
    { intros l Hl. unfold is_one_of. induction Hl as [|x l Hx Hl IH]; [done|]. cbn [existsb]. by rewrite (Hne x). }
    unfold error_answer. rewrite !Hno by repeat constructor. rewrite !Hne by repeat constructor.
    destruct (code == "UNAVAILABLE") eqn:Eu; bools; [by rewrite Eu|]. cbn [negb andb].
    rewrite (Hne "OVERFLOW") by (repeat constructor). by destruct (HasPrefix code "INVALID_").
Qed.

(** An identity or an amount of the request is not one. *)
Definition bad_input (rq : Request) (e : GoError) : Prop :=
  match hrEndpoint rq with
  | PostWallet => exists body, wallet_body rq body
      /\ (ParseID (dwPlayerID body) = Err e
          \/ ParseMoney (dtAmount (dwInitialBalance body)) (dtCurrency (dwInitialBalance body)) = Err e)
  | PostTransaction => exists body, wager_body rq body
      /\ (ParseID (dtWalletID body) = Err e \/ ParseID (dtPlayerID body) = Err e
          \/ ParseMoney (dtAmount (dtMoney body)) (dtCurrency (dtMoney body)) = Err e)
  | GetWalletByID w | GetLedger w _ _ | PostReconciliation w | GetTransactionByID w => ParseID w = Err e
  | _ => False
  end.

(** The store's error. *)
Definition reply_error (a : Reply) : option GoError :=
  match a with
  | RpWallet (Err e) | RpResult (Err e) | RpPage (Err e) | RpReconciliation (Err e) => Some e
  | _ => None
  end.

Definition has_body (rq : Request) : Prop := hrEndpoint rq = PostWallet \/ hrEndpoint rq = PostTransaction.
Definition unreadable (rq : Request) : Prop :=
  BodyLimit < Z.of_nat (len (hrBody rq))
  \/ match hrEndpoint rq with
     | PostWallet => Unmarshal (into_struct true wallet_fields) (hrBody rq) no_wallet = None
     | _ => Unmarshal (into_struct true wager_fields) (hrBody rq) no_wager = None
     end.

(** The failures a request may be told, each with its cause. *)
Inductive fails (s : scene) (rq : Request) : Z -> string -> Prop :=
| fails_correlation :
    hrCorrelation rq <> "" -> validCorrelation (hrCorrelation rq) = false -> fails s rq 400 "INVALID_CORRELATION_ID"
| fails_random e : hrCorrelation rq = "" -> Answered RandomID (Err e) ∈ s.2 -> fails s rq 503 "UNAVAILABLE"
| fails_no_token :
    access (hrEndpoint rq) <> None -> (forall token, ~ bearer rq token) -> fails s rq 401 "UNAUTHENTICATED"
| fails_token token e :
    access (hrEndpoint rq) <> None -> bearer rq token -> Answered (Validate token) (Err e) ∈ s.2 ->
    fails s rq 401 "UNAUTHENTICATED"
| fails_scope scope required p :
    access (hrEndpoint rq) = Some (scope, required) -> principal_of s rq p ->
    HasScope p scope = false \/ required = bool_decide (prProviderID p = "") -> fails s rq 403 "FORBIDDEN"
| fails_provider p body :
    hrEndpoint rq = PostTransaction -> principal_of s rq p -> wager_body rq body ->
    dtProviderID body <> prProviderID p -> fails s rq 403 "FORBIDDEN"
| fails_path p provider external :
    hrEndpoint rq = GetProviderTransaction provider external -> principal_of s rq p ->
    provider <> prProviderID p -> fails s rq 403 "FORBIDDEN"
| fails_type :
    has_body rq -> ParseMediaType (hrContentType rq) <> Some "application/json" -> fails s rq 415 "INVALID_CONTENT_TYPE"
| fails_size : has_body rq -> BodyLimit < Z.of_nat (len (hrBody rq)) -> fails s rq 413 "BODY_TOO_LARGE"
| fails_json : has_body rq -> unreadable rq -> fails s rq 400 "INVALID_JSON"
| fails_key :
    hrEndpoint rq = PostTransaction ->
    TrimSpace (hrIdempotencyKey rq) = "" \/ 256 < Z.of_nat (len (hrIdempotencyKey rq)) ->
    fails s rq 400 "INVALID_IDEMPOTENCY_KEY"
| fails_limit w limit cursor :
    hrEndpoint rq = GetLedger w limit cursor -> limit <> "" -> (forall n, Atoi limit = Some n -> n < 1 \/ 100 < n) ->
    fails s rq 400 "INVALID_LIMIT"
| fails_cursor w limit cursor :
    hrEndpoint rq = GetLedger w limit cursor -> 1024 < Z.of_nat (len cursor) -> fails s rq 400 "INVALID_CURSOR"
| fails_ready e : hrEndpoint rq = HealthReady -> Answered Ready (Err e) ∈ s.2 -> fails s rq 503 "NOT_READY"
| fails_input e status code : bad_input rq e -> (status, code) = code_status (Code e) -> fails s rq status code
| fails_call o a cm e status code :
    op_of rq o -> (o, a, cm) ∈ m_log s.1 -> reply_error a = Some e -> (status, code) = code_status (Code e) ->
    fails s rq status code.

(** Every failure is a client's or a server's error. *)
Lemma code_status_range code : 400 <= (code_status code).1 < 600.
Proof using Type.
  unfold code_status. destruct (List.find _ _) as [[k status]|] eqn:Ef; [|by case_match].
  apply List.find_some in Ef as [Hin _]. cbn [fst].
  repeat (destruct Hin as [[= <- <-]|Hin]; [lia|]). done.
Qed.

Lemma fails_range s rq status code : fails s rq status code -> 400 <= status < 600.
Proof using Type.
  intros H. destruct H; try lia; match goal with H : _ = code_status (Code ?e) |- _ =>
    pose proof (code_status_range (Code e)) as Hr; rewrite <- H in Hr; exact Hr end.
Qed.
End requests.

(** ** Facts last *)

Lemma principal_of_later s s' rq p : later s s' -> principal_of s rq p -> principal_of s' rq p.
Proof. intros Hl (t & H & ?). exists t. split; [done|by apply (lt_trace _ _ Hl)]. Qed.

Lemma provider_may_later s s' rq scope p : later s s' -> provider_may s rq scope p -> provider_may s' rq scope p.
Proof. intros Hl (q & H & ?). exists q. split; [by eapply principal_of_later|done]. Qed.

Lemma operator_may_later s s' rq scope : later s s' -> operator_may s rq scope -> operator_may s' rq scope.
Proof. intros Hl (q & H & ?). exists q. split; [by eapply principal_of_later|done]. Qed.

Lemma fails_later L s s' rq status code : later s s' -> fails L s rq status code -> fails L s' rq status code.
Proof.
  intros Hl H. pose proof (lt_trace _ _ Hl) as Ht. pose proof (lt_log _ _ Hl) as Hg.
  destruct H.
  - by eapply fails_correlation.
  - by eapply fails_random; eauto.
  - by eapply fails_no_token.
  - by eapply fails_token; eauto.
  - by eapply fails_scope; eauto using principal_of_later.
  - by eapply fails_provider; eauto using principal_of_later.
  - by eapply fails_path; eauto using principal_of_later.
  - by eapply fails_type.
  - by eapply fails_size.
  - by eapply fails_json.
  - by eapply fails_key.
  - by eapply fails_limit.
  - by eapply fails_cursor.
  - by eapply fails_ready; eauto.
  - by eapply fails_input.
  - by eapply fails_call; eauto.
Qed.
