(* ===== verification/Program.v ===== *)
(** * The whole program

    The engine's loops and the HTTP requests as goroutines over one store, and
    what each of them may ask of the outside: [program_safe].  Every fact here
    is about the trace of one run; Delivery.v reads it in the books. *)

From S2P Require Import Prelude GoStd Codec JsonText MediaType Errors Ident Money Command Config.
From S2P Require Import Oidc Transport.
From S2P Require Import Session Machine Database Store Work Read System Tasks Service Metrics Engine Http Answers.
Import Str.

Section program.
Context (c : Config) (BodyLimit : Z).

(** ** Facts of a run *)

Definition received (s : scene) (m : Message) : Prop :=
  exists max l, Answered (Receive max) (Ok l) ∈ s.2 /\ m ∈ l.

(** The message decodes to a command, for a provider the queue is trusted with. *)
Definition message_says (m : Message) (command : Command) (inbox : InboxMessage) : Prop :=
  Decode (msBody m) (TrustedProviders c) = Ok (command, inbox).

(** The HTTP request came in. *)
Definition incoming (s : scene) (rq : Request) : Prop := Started (Some rq) ∈ s.2.

(** A request that came in, with a provider's token or an operator's that has the
    scope, asks for the call. *)
Definition provider_asks (s : scene) (scope provider : string) (o : Op) : Prop :=
  exists rq, incoming s rq /\ provider_may s rq scope provider /\ op_of BodyLimit rq o.
Definition operator_asks (s : scene) (scope : string) (o : Op) : Prop :=
  exists rq, incoming s rq /\ operator_may s rq scope /\ op_of BodyLimit rq o.

Definition claimed (s : scene) (record : OutboxRecord) : Prop :=
  exists owner limit lease rows err cm,
    (OpClaimOutbox owner limit lease, RpOutbox rows err, cm) ∈ m_log s.1 /\ record ∈ rows.
Definition offered (s : scene) (claim : ReferenceClaim) : Prop :=
  exists owner limit lease rows err cm,
    (OpClaimReferences owner limit lease, RpReferences rows err, cm) ∈ m_log s.1 /\ claim ∈ rows.

(** The broker accepted the event. *)
Definition sent (s : scene) (event aggregate payload : string) : Prop :=
  Answered (Publish event aggregate payload) (Ok tt) ∈ s.2.

(** The store answered the message with this receipt. *)
Definition processed (s : scene) (receipt : string) : Prop :=
  exists m command inbox H res cm,
    received s m /\ msReceipt m = receipt /\ message_says m command inbox
    /\ (OpProcessWager command (Some inbox) H, RpResult (Ok res), cm) ∈ m_log s.1.

Definition replied (s : scene) (o : Op) (a : Reply) : Prop := exists cm, (o, a, cm) ∈ m_log s.1.

(** ** What may be asked *)

Definition call_permitted (s : scene) (o : Op) : Prop :=
  match o with
  | OpCreateWallet _ _ => operator_asks s "wallet:write" o
  | OpProcessWager command None _ => provider_asks s "wager:write" (cProviderID command) o
  | OpProcessWager command (Some inbox) _ => exists m, received s m /\ message_says m command inbox
  | OpGetWallet _ | OpLedger _ _ _ => operator_asks s "wallet:read" o
  | OpReconcile _ => operator_asks s "wallet:reconcile" o
  | OpGetTransaction provider _ | OpGetExternalTransaction provider _ => provider_asks s "wager:read" provider o
  | OpClaimOutbox owner limit lease =>
      owner = InstanceID c /\ limit = publishBatch c /\ lease = Lease c
  | OpClaimReferences owner limit lease =>
      owner = InstanceID c /\ limit = Concurrency c /\ lease = Lease c
  | OpMarkPublished event token =>
      exists r, claimed s r /\ orEventID r = event /\ orClaimToken r = token
                /\ sent s event (orAggregateID r) (orPayload r)
  | OpRetryOutbox event token delay =>
      0 <= delay <= Time.Hour /\ exists r, claimed s r /\ orEventID r = event /\ orClaimToken r = token
  | OpRetryReference claim _ _ => offered s claim
  | OpReleaseOutbox owner | OpReleaseReferences owner => owner = InstanceID c
  | OpBacklog => True
  end.

(** The call a successful answer reports, one the request itself asks for. *)
Definition says (s : scene) (rq : Request) (status : Z) (b : Body) : Prop :=
  match hrEndpoint rq, b with
  | PostWallet, BodyWallet v => status = 201 /\ exists cw H, wallet_request BodyLimit rq cw
      /\ operator_may s rq "wallet:write" /\ replied s (OpCreateWallet cw H) (RpWallet (Ok v))
  | GetWalletByID w, BodyWallet v => status = 200 /\ exists id, ParseID w = Ok id
      /\ operator_may s rq "wallet:read" /\ replied s (OpGetWallet (ID_String id)) (RpWallet (Ok v))
  | GetLedger w limit cursor, BodyPage p => status = 200 /\ exists id n, ParseID w = Ok id /\ page_limit limit = Some n
      /\ operator_may s rq "wallet:read" /\ replied s (OpLedger (ID_String id) cursor n) (RpPage (Ok p))
  | PostReconciliation w, BodyReconciliation r => status = 200 /\ exists id, ParseID w = Ok id
      /\ operator_may s rq "wallet:reconcile" /\ replied s (OpReconcile (ID_String id)) (RpReconciliation (Ok r))
  | PostTransaction, BodyResult r => status = result_status r
      /\ exists command H, wager_request BodyLimit rq command
           /\ provider_may s rq "wager:write" (cProviderID command)
           /\ replied s (OpProcessWager command None H) (RpResult (Ok r))
  | GetTransactionByID t, BodyResult r => status = 200
      /\ exists provider id, ParseID t = Ok id /\ provider_may s rq "wager:read" provider
        /\ replied s (OpGetTransaction provider (ID_String id)) (RpResult (Ok r))
  | GetProviderTransaction provider external, BodyResult r => status = 200
      /\ provider_may s rq "wager:read" provider
      /\ replied s (OpGetExternalTransaction provider external) (RpResult (Ok r))
  | HealthLive, BodyHealth text => status = 200 /\ text = "live"
  | HealthReady, BodyHealth text => status = 200 /\ text = "ready" /\ Answered Ready (Ok tt) ∈ s.2
  | _, _ => False
  end.

(** An answer: the report of a call, a failure with its cause, or the text that
    stands for a report JSON cannot carry. *)
Definition reports (s : scene) (rq : Request) (status : Z) (b : Body) : Prop :=
  match b with
  | BodyFailure code _ _ => fails BodyLimit s rq status code
  | BodyText _ => status = 500 /\ exists status' b' e, says s rq status' b' /\ render b' = Err e
  | b => says s rq status b
  end.

Definition permitted (s : scene) (r : request) : Prop :=
  match r with
  | Call o => call_permitted s o
  | Receive max => max = Concurrency c
  | Delete receipt => processed s receipt
  | Visibility receipt delay =>
      0 <= delay <= 30 * Time.Second /\ exists m, received s m /\ msReceipt m = receipt
  | Publish event aggregate payload =>
      exists r, claimed s r /\ orEventID r = event /\ orAggregateID r = aggregate /\ orPayload r = payload
  | Respond rq status b => incoming s rq /\ reports s rq status b
  | Int64N n => 0 < n
  | Meter metric labels => labelled metric labels = true
  | _ => True
  end.

(** ** Facts last *)

Lemma received_later s s' m : later s s' -> received s m -> received s' m.
Proof using Type. intros Hl (max & l & H & ?). exists max, l. split; [by apply (lt_trace _ _ Hl)|done]. Qed.

Lemma provider_asks_later s s' scope p o : later s s' -> provider_asks s scope p o -> provider_asks s' scope p o.
Proof using Type.
  intros Hl (rq & H & ? & ?). exists rq. split; [by apply (lt_trace _ _ Hl)|]. split; [by eapply provider_may_later|done].
Qed.

Lemma operator_asks_later s s' scope o : later s s' -> operator_asks s scope o -> operator_asks s' scope o.
Proof using Type.
  intros Hl (rq & H & ? & ?). exists rq. split; [by apply (lt_trace _ _ Hl)|]. split; [by eapply operator_may_later|done].
Qed.

Lemma claimed_later s s' r : later s s' -> claimed s r -> claimed s' r.
Proof using Type.
  intros Hl (o & n & t & rows & e & cm & H & ?). exists o, n, t, rows, e, cm. split; [by apply (lt_log _ _ Hl)|done].
Qed.

Lemma offered_later s s' r : later s s' -> offered s r -> offered s' r.
Proof using Type.
  intros Hl (o & n & t & rows & e & cm & H & ?). exists o, n, t, rows, e, cm. split; [by apply (lt_log _ _ Hl)|done].
Qed.

Lemma sent_later s s' e a p : later s s' -> sent s e a p -> sent s' e a p.
Proof using Type. intros Hl H. by apply (lt_trace _ _ Hl). Qed.

Lemma processed_later s s' r : later s s' -> processed s r -> processed s' r.
Proof using Type.
  intros Hl (m & cm & i & H & res & k & H1 & H2 & H3 & H4). exists m, cm, i, H, res, k.
  split_and!; [by eapply received_later|done|done|by apply (lt_log _ _ Hl)].
Qed.

Lemma replied_later s s' o a : later s s' -> replied s o a -> replied s' o a.
Proof using Type. intros Hl (cm & H). exists cm. by apply (lt_log _ _ Hl). Qed.

Hint Resolve received_later principal_of_later provider_may_later operator_may_later provider_asks_later
  operator_asks_later claimed_later offered_later sent_later processed_later replied_later fails_later : later.

Lemma says_later s s' rq status b : later s s' -> says s rq status b -> says s' rq status b.
Proof using Type.
  intros Hl. pose proof (lt_trace _ _ Hl) as Ht. unfold says.
  destruct (hrEndpoint rq), b; try done; intros (Hst & Hr); (split; [done|]); naive_solver eauto with later.
Qed.
Hint Resolve says_later : later.

Lemma permitted_later s s' r : later s s' -> permitted s r -> permitted s' r.
Proof using Type.
  intros Hl. destruct r as [o|max|receipt|receipt delay|event aggregate payload| |cx|delay|n|mt labels| |token| | |
    |rq status b]; cbn; try done.
  - destruct o as [cw H|command [inbox|] H|id|provider id|provider external|owner limit lease|event token
      |event token delay|owner limit lease|claim n ttl|owner|owner| |id cursor n|id]; cbn; try done;
      try by eauto with later.
    + intros (m & H1 & H2). exists m. eauto with later.
    + intros (r & H1 & H2 & H3 & H4). exists r. eauto 6 with later.
    + intros (Hd & r & H1 & H2 & H3). split; [done|]. exists r. eauto 6 with later.
  - eauto with later.
  - intros (Hd & m & H1 & H2). split; [done|]. exists m. eauto with later.
  - intros (r & H1 & H2). exists r. eauto with later.
  - intros [Hi Hr]. split; [by apply (lt_trace _ _ Hl)|]. unfold reports in *.
    destruct b; eauto with later. destruct Hr as (Hst & st & b & e & Hs & He). split; [done|]. exists st, b, e. eauto with later.
Qed.

Notation safe := (safe permitted).

(** ** Rules *)

Lemma safe_mono t s s' : later s s' -> safe t s -> safe t s'.
Proof using Type. apply safe_later, permitted_later. Qed.

(** A request whose answer does not matter. *)
Lemma safe_ask r k s : permitted s r -> safe k s -> safe (Ask r (fun _ => k)) s.
Proof using Type. intros Hp Hk. split; [done|]. intros s' a Hl _. by eapply safe_mono. Qed.

Lemma safe_when b r k s : permitted s r -> safe k s -> safe (when b r k) s.
Proof using Type. intros Hp Hk. unfold when. destruct b; [by apply safe_ask|done]. Qed.

Lemma safe_Backoff attempt max k s :
  0 <= max -> (forall d, 0 <= d <= max -> safe (k d) s) -> safe (Backoff attempt max k) s.
Proof using Type.
  intros Hmax Hk. destruct (backoff_jitter attempt max Hmax) as [Hpos Hin]. split; [done|].
  intros s' a Hl [_ Ha]. eapply safe_mono; [exact Hl|]. apply Hk, Hin, Ha, Hpos.
Qed.

Lemma safe_Observe m route st k s : safe k s -> safe (Observe m route st k) s.
Proof using Type.
  intros Hk. apply safe_ask; [apply Requests_labelled|]. apply safe_ask; [done|].
  by apply safe_ask; [apply RouteDuration_labelled|].
Qed.

(** A call of the store, answered. *)
Lemma safe_call o k s :
  call_permitted s o -> (forall s' a, later s s' -> replied s' o a -> safe (k a) s') -> safe (Ask (Call o) k) s.
Proof using Type. intros Hp Hk. split; [done|]. intros s' a Hl Ht. by apply Hk. Qed.

Lemma safe_on_result o k s :
  call_permitted s o ->
  (forall s' r, later s s' -> replied s' o (RpResult r) -> safe (k r) s') -> safe (on_result o k) s.
Proof using Type. intros Hp Hk. apply safe_call; [done|]. intros s' a Hl Ht. destruct a; try done. by apply Hk. Qed.

Lemma safe_on_wallet o k s :
  call_permitted s o ->
  (forall s' r, later s s' -> replied s' o (RpWallet r) -> safe (k r) s') -> safe (on_wallet o k) s.
Proof using Type. intros Hp Hk. apply safe_call; [done|]. intros s' a Hl Ht. destruct a; try done. by apply Hk. Qed.

Lemma safe_on_done o k s :
  call_permitted s o -> (forall s' r, later s s' -> safe (k r) s') -> safe (on_done o k) s.
Proof using Type. intros Hp Hk. apply safe_call; [done|]. intros s' a Hl Ht. destruct a; try done. by apply Hk. Qed.

Lemma safe_ProcessWager command inbox k s :
  (forall H, call_permitted s (OpProcessWager command inbox H)) ->
  (forall s' r H, later s s' -> replied s' (OpProcessWager command inbox H) (RpResult r) -> safe (k r) s') ->
  safe (ProcessWagerCall command inbox k) s.
Proof using Type.
  intros Hp Hk. unfold ProcessWagerCall. destruct (decide _) as [H|]; [|done].
  apply safe_on_result; [done|]. intros s' r Hl Hr. by apply (Hk s' r H).
Qed.

Lemma safe_each {A} (f : A -> task) l k s :
  Forall (fun x => safe (f x) s) l -> (forall bs, safe (k bs) s) -> safe (Par (f <$> l) k) s.
Proof using Type.
  intros Hf Hk. apply safe_par. split; [by apply Forall_fmap|]. intros s' bs Hl. by eapply safe_mono.
Qed.

Lemma safe_pause d l s : safe (pause d l) s.
Proof using Type. split; [done|]. by intros s' [] Hl _. Qed.

(** ** The workers *)

Lemma retryReason_labelled code : labelled Retries ["consumer"; retryReason code] = true.
Proof using Type. unfold retryReason. by repeat case_bool_decide. Qed.

Lemma retain_safe m err s : received s m -> safe (retain m err) s.
Proof using Type.
  intros Hm. apply safe_when; [done|]. apply safe_ask; [done|]. apply safe_ask; [apply retryReason_labelled|].
  apply safe_Backoff; [done|]. intros d Hd.
  split; [done|]. intros s' a Hl _. apply safe_ask; [|by apply safe_ask].
  split; [by destruct a|exists m; eauto with later].
Qed.

Lemma handle_safe m s : received s m -> safe (handle c m) s.
Proof using Type.
  intros Hm. unfold handle. destruct (Decode _ _) as [[command inbox]|e] eqn:Ed; [|by apply retain_safe].
  destruct (Decode_Ok _ _ _ _ Ed) as [_ Hn]. pose proof (externalKind_listed _ (nm_kind _ Hn)) as Hk.
  apply safe_ProcessWager; [by exists m|]. intros s1 r H Hl Hr. apply safe_ask; [by apply WagerDuration_labelled|].
  destruct r as [res|e]; [|apply retain_safe; eauto with later].
  apply safe_ask; [by apply Results_labelled|]. apply safe_when; [done|].
  split.
  - destruct Hr as (cm & Hr). exists m, command, inbox, H, res, cm. eauto with later.
  - intros s2 a Hl2 _. destruct a as [u|e]; [|apply retain_safe; eauto with later]. by do 2 (apply safe_ask; [done|]).
Qed.

Lemma consume_safe s : safe (consume c) s.
Proof using Type.
  split; [done|]. intros s1 stop Hl1 _. destruct stop; [done|].
  split; [done|]. intros s2 l Hl2 [Hr _]. destruct l as [ms|e].
  - apply safe_each; [|done]. apply Forall_forall. intros m Hm. apply handle_safe. by exists (Concurrency c), ms.
  - split; [done|]. intros s3 stop Hl3 _. destruct stop; [done|]. apply safe_ask; [done|]. apply safe_pause.
Qed.

Lemma publishOne_safe r s : claimed s r -> safe (publishOne r) s.
Proof using Type.
  intros Hr. unfold publishOne. cbv zeta.
  assert (Hagain : forall s', later s s' -> safe (Meter OutboxPublished [orEventType r; "retry"] ~;;
    Meter Retries ["outbox"; "publish"] ~;;
    Backoff (orAttempts r) Time.Hour (fun delay =>
    on_done (OpRetryOutbox (orEventID r) (orClaimToken r) delay) (fun _ => Done false)))%task s').
  { intros s' Hl. do 2 (apply safe_ask; [done|]). apply safe_Backoff; [done|]. intros d Hd.
    apply safe_on_done; [|done]. split; [done|]. exists r. eauto with later. }
  split; [exists r; eauto|]. intros s1 [u|e] Hl1 [Ht _]; [|by apply Hagain]. destruct u.
  apply safe_on_done; [exists r; eauto with later|]. intros s2 [u|e] Hl2; [by apply safe_ask|].
  apply Hagain. by etrans.
Qed.

Lemma arriving_safe {A} (rows : list A) err k s :
  (forall s' l, later s s' -> l ⊆ rows -> safe (k l) s') -> safe (arriving rows err k) s.
Proof using Type.
  intros Hk. unfold arriving. destruct err; [|by apply Hk]. split; [done|]. intros s' n Hl _.
  apply Hk; [done|]. intros x Hx. rewrite <- (take_drop n rows).
  apply elem_of_app. by left.
Qed.

Lemma publish_safe s : safe (publish c) s.
Proof using Type.
  split; [done|]. intros s1 stop Hl1 _. destruct stop; [done|].
  assert (Hdrain : forall s' rows, Forall (claimed s') rows ->
    safe (Par (publishOne <$> rows) (fun published =>
        if (Z.of_nat (length rows) =? publishBatch c)
           && (length (List.filter Datatypes.id published) =? length rows)%nat
        then Again PublishLoop else pause (PollInterval c) PublishLoop)) s').
  { intros s' rows Hrows. apply safe_each.
    - eapply Forall_impl; [exact Hrows|]. intros r. apply publishOne_safe.
    - intros bs. destruct (_ && _); [done|apply safe_pause]. }
  apply safe_call; [done|]. intros s2 a Hl2 (cm & Hr). destruct a as [| |rows err| | | | |]; try done.
  assert (Hrows : Forall (claimed s2) rows).
  { apply Forall_forall. intros r Hin. by exists (InstanceID c), (publishBatch c), (Lease c), rows, err, cm. }
  destruct err as [e|]; [|by apply Hdrain].
  split; [done|]. intros s3 stop Hl3 _. destruct stop; [done|]. apply safe_ask; [done|].
  apply arriving_safe. intros s4 l Hl4 Hl. apply Hdrain. apply Forall_forall. intros r Hin.
  rewrite Forall_forall in Hrows. eapply claimed_later; [|by apply Hrows, Hl]. by etrans.
Qed.

Lemma resolve_safe claim s : offered s claim -> safe (resolve c claim) s.
Proof using Type.
  intros Hc. apply safe_on_result; [done|]. intros s1 [res|e] Hl Hr.
  - case_bool_decide; repeat (apply safe_ask; [done|]); done.
  - by do 2 (apply safe_ask; [done|]).
Qed.

Lemma references_safe s : safe (references c) s.
Proof using Type.
  split; [done|]. intros s1 stop Hl1 _. destruct stop; [done|].
  apply safe_call; [done|]. intros s2 a Hl2 (cm & Hr). destruct a as [| | |rows err| | | |]; try done.
  apply arriving_safe. intros s3 l Hl3 Hl. apply safe_each; [|intros; apply safe_pause].
  apply Forall_forall. intros r Hin. apply resolve_safe. eapply offered_later; [exact Hl3|].
  exists (InstanceID c), (Concurrency c), (Lease c), rows, err, cm. split; [done|by apply Hl].
Qed.

Lemma set_depths_safe l k s : safe k s -> safe (set_depths l k) s.
Proof using Type. intros Hk. induction l as [|[q n] l IH]; [done|]. by apply safe_ask. Qed.

Lemma observe_safe s : safe observe s.
Proof using Type.
  split; [done|]. intros s1 stop Hl1 _. destruct stop; [done|].
  assert (Hd : forall s', safe (got <~ DLQDepths ;;
      match got : res (list (string * Z)) with
      | Ok l => set_depths l (pause (10 * Time.Second) ObserveLoop)
      | Err _ => pause (10 * Time.Second) ObserveLoop
      end)%task s').
  { intros s'. split; [done|]. intros s2 [l|e] Hl _; [apply set_depths_safe|]; apply safe_pause. }
  apply safe_call; [done|]. intros s2 a Hl2 _. destruct a as [| | | | |[]| |]; try done.
Qed.

Lemma round_safe l s : safe (round c l) s.
Proof using Type. destruct l; [apply consume_safe|apply publish_safe|apply references_safe|apply observe_safe]. Qed.

Lemma Start_safe s : safe (Start c) s.
Proof using Type.
  apply safe_each; [by repeat constructor|]. intros bs. apply safe_on_done; [done|].
  intros s' [u|e] Hl; [|done]. by apply safe_on_done.
Qed.

(** ** The HTTP requests *)

Section requests.
Context (rq : Request).
Local Notation came s := (incoming s rq).

Lemma came_later s s' : later s s' -> came s -> came s'.
Proof using Type. intros Hl H. by apply (lt_trace _ _ Hl). Qed.
Hint Resolve came_later : later.

Lemma respond_safe status b k s :
  came s -> reports s rq status b -> safe k s -> safe (Ask (Respond rq status b) (fun _ => k)) s.
Proof using Type. intros Hi Hr Hk. by apply safe_ask. Qed.

(** A body JSON can carry, or the text that replaces one it cannot. *)
Lemma writeJSON_safe status b s :
  came s -> reports s rq status b -> (forall e, render b = Err e -> says s rq status b) -> safe (writeJSON rq status b) s.
Proof using Type.
  intros Hi Hr He. unfold writeJSON. destruct (render b) as [t|e] eqn:Er.
  - apply respond_safe; [done..|by apply safe_Observe].
  - apply respond_safe; [done| |by apply safe_Observe]. split; [done|]. exists status, b, e. split; [by eapply He|done].
Qed.

Lemma answer_safe status b s : came s -> says s rq status b -> safe (writeJSON rq status b) s.
Proof using Type.
  intros Hi Hs. apply writeJSON_safe; [done| |done]. unfold reports.
  destruct b; try done; unfold says in Hs; by destruct (hrEndpoint rq).
Qed.

Lemma failure_safe corr status code msg s :
  came s -> fails BodyLimit s rq status code -> safe (failure rq corr status code msg) s.
Proof using Type. intros Hi H. by apply writeJSON_safe. Qed.

Lemma applicationError_safe corr err s :
  came s -> (forall status code, (status, code) = code_status (Code err) -> fails BodyLimit s rq status code) ->
  safe (applicationError rq corr err) s.
Proof using Type.
  intros Hi H. unfold applicationError. pose proof (error_answer_status (Code err)) as He.
  destruct (error_answer _) as [[st msg] code]. by apply failure_safe; [|apply H].
Qed.

(** What the request itself has wrong. *)
Lemma input_safe {A} corr (r : res A) k s :
  came s -> (forall e, r = Err e -> bad_input BodyLimit rq e) -> (forall a, r = Ok a -> safe (k a) s) ->
  safe (or_error rq corr r k) s.
Proof using Type.
  intros Hi He Hk. destruct r as [a|e]; [by apply Hk|]. apply applicationError_safe; [done|]. intros status code Hc.
  eapply fails_input; [by apply He|done].
Qed.

(** What the store answered. *)
Lemma reply_safe {A} corr (r : res A) o a k s :
  came s -> op_of BodyLimit rq o -> replied s o a -> (forall e, r = Err e -> reply_error a = Some e) ->
  (forall v, r = Ok v -> safe (k v) s) -> safe (or_error rq corr r k) s.
Proof using Type.
  intros Hi Ho (cm & Ha) He Hk. destruct r as [v|e]; [by apply Hk|]. apply applicationError_safe; [done|].
  intros status code Hc. eapply fails_call; [done|exact Ha|by apply He|done].
Qed.

Lemma refuse_early_safe status code msg s :
  came s -> fails BodyLimit s rq status code -> safe (refuse_early rq status code msg) s.
Proof using Type. intros Hi H. by apply respond_safe. Qed.

Lemma decode_safe {A} corr (d : decoder A) zero k s :
  came s -> has_body rq -> (Unmarshal d (hrBody rq) zero = None -> unreadable BodyLimit rq) ->
  (forall a, document BodyLimit d zero rq a -> safe (k a) s) -> safe (decode BodyLimit rq corr d zero k) s.
Proof using Type.
  intros Hi Hb Hu Hk. unfold decode.
  destruct (ParseMediaType (hrContentType rq)) as [mt|] eqn:Em; [|by apply failure_safe, fails_type; [..|congruence]].
  destruct (mt != "application/json") eqn:Et; bools; [by apply failure_safe, fails_type; [..|congruence]|]. subst mt.
  destruct (BodyLimit <? _) eqn:El; bools.
  - split; [done|]. intros s' [] Hl _; (apply failure_safe; [by eapply came_later|]);
      [by apply fails_size|by apply fails_json; [|left]].
  - destruct (Unmarshal _ _ _) as [a|] eqn:Eu; [by apply Hk|]. by apply failure_safe, fails_json; [..|apply Hu].
Qed.

(** The principal of a request, on a route that asks for [scope]. *)
Definition admitted (s : scene) (p : Principal) (scope : string) (providerRequired : bool) : Prop :=
  principal_of s rq p /\ HasScope p scope = true
  /\ (if providerRequired then prProviderID p <> "" else prProviderID p = "").

Lemma authorize_safe corr scope required next s :
  came s -> access (hrEndpoint rq) = Some (scope, required) ->
  (forall s' p, later s s' -> admitted s' p scope required -> safe (next p) s') ->
  safe (authorize rq corr scope required next) s.
Proof using Type.
  intros Hi Ha Hn. unfold authorize.
  assert (Hsec : access (hrEndpoint rq) <> None) by by rewrite Ha.
  assert (Hno : (forall sch token, Fields (hrAuthorization rq) <> [sch; token] \/ EqualFold sch "Bearer" = false) ->
    safe (failure rq corr 401 "UNAUTHENTICATED" "valid bearer token required") s).
  { intros Hf. apply failure_safe; [done|]. apply fails_no_token; [done|]. intros token (sch & Hs & Hb).
    destruct (Hf sch token); congruence. }
  destruct (Fields (hrAuthorization rq)) as [|sch [|token [|]]] eqn:Ef;
    try (apply Hno; intros; left; by rewrite Ef || done).
  destruct (EqualFold sch "Bearer") eqn:Eb; cbn [negb].
  2:{ apply Hno. intros sch' t'. destruct (decide (sch' = sch)) as [->|]; [by right|left]. congruence. }
  assert (Hbearer : bearer rq token) by by exists sch.
  split; [done|]. intros s' [p|e] Hl [Ht _].
  2:{ apply failure_safe; [by eapply came_later|]. by eapply fails_token. }
  assert (Hp : principal_of s' rq p) by by exists token.
  destruct (_ || _) eqn:E.
  - apply failure_safe; [by eapply came_later|]. eapply fails_scope; [exact Ha|exact Hp|].
    rewrite !orb_true_iff, !andb_true_iff, !negb_true_iff in E. destruct E as [[E|[-> E]]|[-> E]]; [by left|right..]; bools.
    + by rewrite bool_decide_eq_true_2.
    + by rewrite bool_decide_eq_false_2.
  - apply Hn; [done|]. bools. split; [done|]. split; [done|]. destruct required; cbn in *; by bools.
Qed.

Lemma admitted_provider s p scope : admitted s p scope true -> provider_may s rq scope (prProviderID p).
Proof using Type. intros (? & ? & ?). by exists p. Qed.
Lemma admitted_operator s p scope : admitted s p scope false -> operator_may s rq scope.
Proof using Type. intros (? & ? & ?). by exists p. Qed.

Section handlers.
Context (corr : string).

Lemma createWallet_safe s : came s -> hrEndpoint rq = PostWallet -> operator_may s rq "wallet:write" ->
  safe (createWallet BodyLimit rq corr) s.
Proof using Type.
  intros Hi Hep Hp. apply decode_safe; [done|by left|intros Hu; right; by rewrite Hep|]. intros body Hbody.
  apply input_safe; [done|unfold bad_input; rewrite Hep; intros e He; exists body; by split; [|left]|]. intros player Hpl.
  apply input_safe; [done|unfold bad_input; rewrite Hep; intros e He; exists body; by split; [|right]|]. intros money Hm.
  unfold CreateWalletCall. destruct (decide _) as [H|]; [|done]. set (cw := mkCreateWalletCommand _ _ _) in *.
  assert (Hcw : wallet_request BodyLimit rq cw).
  { split; [done|]. exists body. split; [done|]. split; [|done]. exists player. split; [done|]. by eapply ParseID_canonical. }
  assert (Hop : op_of BodyLimit rq (OpCreateWallet cw H)) by (unfold op_of; by rewrite Hep).
  apply safe_on_wallet; [by exists rq|]. intros s' r Hl Hr.
  eapply reply_safe; [by eapply came_later|exact Hop|exact Hr|by intros e ->|]. intros view ->.
  apply answer_safe; [by eapply came_later|]. unfold says. rewrite Hep. split; [done|]. exists cw, H. eauto with later.
Qed.

Lemma http_command_says p body wallet player money :
  dtProviderID body = prProviderID p -> ParseID (dtWalletID body) = Ok wallet -> ParseID (dtPlayerID body) = Ok player ->
  ParseMoney (dtAmount (dtMoney body)) (dtCurrency (dtMoney body)) = Ok money ->
  wager_says body (http_command rq corr p body wallet player money).
Proof using Type.
  intros Hp Hw Hpl Hm. constructor; cbn; try done.
  - exists wallet. split; [done|]. by eapply ParseID_canonical.
  - exists player. split; [done|]. by eapply ParseID_canonical.
Qed.

Lemma processWager_safe s p : came s -> hrEndpoint rq = PostTransaction -> principal_of s rq p ->
  provider_may s rq "wager:write" (prProviderID p) -> safe (processWager BodyLimit rq corr p) s.
Proof using Type.
  intros Hi Hep Hpr Hp. apply decode_safe; [done|by right|intros Hu; right; by rewrite Hep|]. intros body Hbody.
  destruct (_ != _) eqn:Eprov; bools; [by apply failure_safe; [|by eapply fails_provider]|].
  destruct (_ || _) eqn:Ekey.
  { apply failure_safe; [done|]. apply fails_key; [done|]. apply orb_true_iff in Ekey as [E|E]; bools; [by left|by right]. }
  apply input_safe; [done|unfold bad_input; rewrite Hep; intros e He; exists body; by split; [|left]|]. intros wallet Hw.
  apply input_safe; [done|unfold bad_input; rewrite Hep; intros e He; exists body; by split; [|right; left]|]. intros player Hpl.
  apply input_safe; [done|unfold bad_input; rewrite Hep; intros e He; exists body; by split; [|right; right]|]. intros money Hm.
  set (cmd := http_command rq corr p body wallet player money).
  assert (Hcmd : wager_request BodyLimit rq cmd).
  { split; [done|]. split; [done|]. exists body. split; [done|]. by apply http_command_says. }
  assert (Hop : forall H, op_of BodyLimit rq (OpProcessWager cmd None H)) by (intros H; unfold op_of; by rewrite Hep).
  apply safe_ProcessWager; [intros H; by exists rq|]. intros s' r H Hl Hr. cbn [is_some]. apply safe_ask; [done|].
  assert (Hend : safe (or_error rq corr r (fun r => writeJSON rq (result_status r) (BodyResult r))) s').
  { eapply reply_safe; [by eapply came_later|exact (Hop H)|exact Hr|by intros e ->|]. intros v ->.
    apply answer_safe; [by eapply came_later|]. unfold says. rewrite Hep. split; [done|]. exists cmd, H. eauto with later. }
  destruct r as [res|e]; [apply safe_ask; [done|]|]; by apply safe_when.
Qed.

Lemma names_op w id : ParseID w = Ok id -> exists i, ParseID w = Ok i /\ ID_String id = ID_String i.
Proof using Type. by exists id. Qed.
Hint Resolve names_op : core.

Lemma getWallet_safe s w : came s -> hrEndpoint rq = GetWalletByID w -> operator_may s rq "wallet:read" ->
  safe (getWallet rq corr w) s.
Proof using Type.
  intros Hi Hep Hp. apply input_safe; [done|unfold bad_input; by rewrite Hep|]. intros id Hid.
  assert (Hop : op_of BodyLimit rq (OpGetWallet (ID_String id))) by (unfold op_of; rewrite Hep; eauto).
  apply safe_on_wallet; [by exists rq|]. intros s' r Hl Hr.
  eapply reply_safe; [by eapply came_later|exact Hop|exact Hr|by intros e ->|]. intros view ->.
  apply answer_safe; [by eapply came_later|]. unfold says. rewrite Hep. split; [done|]. exists id. eauto with later.
Qed.

Lemma page_limit_refused text : page_limit text = None ->
  text <> "" /\ forall n, Atoi text = Some n -> n < 1 \/ 100 < n.
Proof using Type.
  unfold page_limit. destruct (text == "") eqn:E; [done|]. intros H. bools. split; [done|]. intros n Hn. rewrite Hn in H.
  destruct (_ || _) eqn:El; [|done]. apply orb_true_iff in El. lia.
Qed.

Lemma ledger_safe s w limit cursor : came s -> hrEndpoint rq = GetLedger w limit cursor ->
  operator_may s rq "wallet:read" -> safe (ledger rq corr w limit cursor) s.
Proof using Type.
  intros Hi Hep Hp. apply input_safe; [done|unfold bad_input; by rewrite Hep|]. intros id Hid.
  destruct (page_limit limit) as [n|] eqn:En.
  2:{ apply failure_safe; [done|]. destruct (page_limit_refused _ En). by eapply fails_limit. }
  destruct (_ <? _) eqn:Ec; bools; [by apply failure_safe; [|by eapply fails_cursor]|].
  assert (Hop : op_of BodyLimit rq (OpLedger (ID_String id) cursor n)) by (unfold op_of; rewrite Hep; eauto).
  apply safe_call; [by exists rq|]. intros s' a Hl Hr. destruct a as [| | | | | |r|]; try done.
  eapply reply_safe; [by eapply came_later|exact Hop|exact Hr|by intros e ->|]. intros page ->.
  apply answer_safe; [by eapply came_later|]. unfold says. rewrite Hep. split; [done|]. exists id, n. eauto with later.
Qed.

Lemma reconcile_safe s w : came s -> hrEndpoint rq = PostReconciliation w -> operator_may s rq "wallet:reconcile" ->
  safe (reconcile rq corr w) s.
Proof using Type.
  intros Hi Hep Hp. apply input_safe; [done|unfold bad_input; by rewrite Hep|]. intros id Hid.
  assert (Hop : op_of BodyLimit rq (OpReconcile (ID_String id))) by (unfold op_of; rewrite Hep; eauto).
  apply safe_call; [by exists rq|]. intros s' a Hl Hr. destruct a as [| | | | | | |r]; try done.
  assert (Hend : safe (or_error rq corr r (fun r => writeJSON rq 200 (BodyReconciliation r))) s').
  { eapply reply_safe; [by eapply came_later|exact Hop|exact Hr|by intros e ->|]. intros v ->.
    apply answer_safe; [by eapply came_later|]. unfold says. rewrite Hep. split; [done|]. exists id. eauto with later. }
  destruct r as [r|e]; [|done]. apply safe_ask; [by destruct (rcnConsistent r)|]. by apply safe_when.
Qed.

Lemma getTransaction_safe s p t : came s ->
  hrEndpoint rq = GetTransactionByID t -> provider_may s rq "wager:read" (prProviderID p) ->
  safe (getTransaction rq corr p t) s.
Proof using Type.
  intros Hi Hep Hp. apply input_safe; [done|unfold bad_input; by rewrite Hep|]. intros id Hid.
  assert (Hop : op_of BodyLimit rq (OpGetTransaction (prProviderID p) (ID_String id))) by (unfold op_of; rewrite Hep; eauto).
  apply safe_on_result; [by exists rq|]. intros s' r Hl Hr.
  eapply reply_safe; [by eapply came_later|exact Hop|exact Hr|by intros e ->|]. intros res ->.
  apply answer_safe; [by eapply came_later|]. unfold says. rewrite Hep. split; [done|]. exists (prProviderID p), id. eauto with later.
Qed.

Lemma getExternal_safe s p provider external : came s -> principal_of s rq p ->
  hrEndpoint rq = GetProviderTransaction provider external -> provider_may s rq "wager:read" (prProviderID p) ->
  safe (getExternal rq corr p provider external) s.
Proof using Type.
  intros Hi Hpr Hep Hp. unfold getExternal. case_bool_decide as E; cbn [negb].
  2:{ apply failure_safe; [done|]. by eapply fails_path. }
  subst provider. assert (Hop : op_of BodyLimit rq (OpGetExternalTransaction (prProviderID p) external))
    by (unfold op_of; by rewrite Hep).
  apply safe_on_result; [by exists rq|]. intros s' r Hl Hr.
  eapply reply_safe; [by eapply came_later|exact Hop|exact Hr|by intros e ->|]. intros res ->.
  apply answer_safe; [by eapply came_later|]. unfold says. rewrite Hep. split; [done|]. eauto with later.
Qed.

Lemma handler_safe s p : came s ->
  match access (hrEndpoint rq) with Some (scope, required) => admitted s p scope required | None => True end ->
  safe (handler BodyLimit rq corr p) s.
Proof using Type.
  intros Hi. unfold handler. destruct (hrEndpoint rq) eqn:Hep; cbn [access]; intros H; pose proof H as Ha;
    try apply admitted_operator in H; try apply admitted_provider in H.
  - by apply createWallet_safe.
  - by apply getWallet_safe.
  - by apply ledger_safe.
  - by apply reconcile_safe.
  - destruct Ha as [Ha _]. by apply processWager_safe.
  - by apply getTransaction_safe.
  - destruct Ha as [Ha _]. by apply getExternal_safe.
  - apply answer_safe; [done|]. unfold says. by rewrite Hep.
  - split; [done|]. intros s' [u|e] Hl [Ht _].
    + apply answer_safe; [by eapply came_later|]. unfold says. rewrite Hep. by destruct u.
    + apply failure_safe; [by eapply came_later|]. by eapply fails_ready.
Qed.
End handlers.

Lemma serve_safe s : came s -> safe (serve BodyLimit rq) s.
Proof using Type.
  intros Hi. assert (H : forall corr s', later s s' -> safe (match access (hrEndpoint rq) with
    | Some (scope, required) => authorize rq corr scope required (handler BodyLimit rq corr)
    | None => handler BodyLimit rq corr nobody
    end) s').
  { intros corr s' Hl. pose proof (handler_safe corr) as Hh. eapply came_later in Hi; [|exact Hl].
    destruct (access (hrEndpoint rq)) as [[scope required]|] eqn:Ea; [|by apply Hh].
    apply authorize_safe; [done..|]. intros s2 p Hl2 Hp. apply Hh; [by eapply came_later|done]. }
  unfold serve, requestContext. destruct (_ && _) eqn:Ec.
  { apply andb_true_iff in Ec as [E1 E2]. bools. apply refuse_early_safe; [done|]. by apply fails_correlation. }
  destruct (_ == _) eqn:Ee; bools; [|by apply H]. split; [done|].
  intros s' [id|e] Hl [Ht _]; [by apply H|]. apply refuse_early_safe; [by eapply came_later|]. by eapply fails_random.
Qed.
End requests.

(** ** The program *)

(** The runtime starts an engine, in any number of processes, and a goroutine
    for each request. *)
Definition starts (rq : option Request) (t : task) : Prop :=
  match rq with None => t = Start c | Some rq => t = serve BodyLimit rq end.

Definition runs (w : world) : Prop := arises (round c) starts w.

Lemma program_safe w : runs w -> world_safe permitted w.
Proof using Type.
  apply worlds_safe; [exact permitted_later|exact round_safe|].
  intros [rq|] t s; cbn; intros -> Hin; [by apply serve_safe|apply Start_safe].
Qed.
End program.

#[export] Hint Resolve received_later principal_of_later provider_may_later operator_may_later provider_asks_later
  operator_asks_later claimed_later offered_later sent_later processed_later replied_later fails_later says_later : later.
