(* ===== verification/Conduct.v ===== *)
(** * One goroutine, from its start to its end

    [follow] runs a goroutine that starts no others, against any outside.  A
    request is answered exactly once, and a delivered message is always either
    acknowledged or given back to the queue, whatever the store, the broker and
    the identity provider answer. *)

From S2P Require Import Prelude GoStd Codec JsonText MediaType Errors Ident Money Command Config.
From S2P Require Import Oidc Transport Session Machine Database Store Work Read Retry System Tasks.
From S2P Require Import Service Engine Http Program.
Import Str.

(** ** The type of a reply *)

(** The reply is one the method can return. *)
Definition fits (o : Op) (a : Reply) : bool :=
  match o, a with
  | OpCreateWallet _ _, RpWallet _ | OpGetWallet _, RpWallet _
  | OpProcessWager _ _ _, RpResult _ | OpGetTransaction _ _, RpResult _
  | OpGetExternalTransaction _ _, RpResult _ | OpRetryReference _ _ _, RpResult _
  | OpClaimOutbox _ _ _, RpOutbox _ _ | OpClaimReferences _ _ _, RpReferences _ _
  | OpMarkPublished _ _, RpDone _ | OpRetryOutbox _ _ _, RpDone _
  | OpReleaseOutbox _, RpDone _ | OpReleaseReferences _, RpDone _
  | OpBacklog, RpBacklog _ | OpLedger _ _ _, RpPage _ | OpReconcile _, RpReconciliation _ => true
  | _, _ => false
  end.

Lemma promise_fits o a cm d : promise o a cm d -> fits o a = true.
Proof. by destruct o, a. Qed.

Definition proper (r : request) : answer r -> Prop :=
  match r with
  | Call o => fun a : Reply => fits o a = true
  | r => may_answer r
  end.

(** ** Following a goroutine *)

Section follow.
Context (outside : list event -> forall r, answer r).

(** [tr] is what was said, newest first. *)
Fixpoint follow (t : task) (tr : list event) : option (bool * list event) :=
  match t with
  | Done b => Some (b, tr)
  | Ask r k => let a := outside tr r in follow (k a) (Answered r a :: Asked r :: tr)
  | Par _ _ | Again _ => None
  end.

Definition ends (Q : bool -> list event -> Prop) (t : task) (tr : list event) : Prop :=
  exists b tr', follow t tr = Some (b, tr') /\ Q b tr'.

Context (outside_proper : forall tr r, proper r (outside tr r)).

Lemma ends_done (Q : bool -> list event -> Prop) b tr : Q b tr -> ends Q (Done b) tr.
Proof using Type. intros H. by exists b, tr. Qed.

Lemma ends_ask Q r k tr :
  (forall a, proper r a -> ends Q (k a) (Answered r a :: Asked r :: tr)) -> ends Q (Ask r k) tr.
Proof using outside_proper. intros H. apply (H (outside tr r)), outside_proper. Qed.

Lemma ends_when Q b r k tr :
  ends Q k tr -> (forall a, ends Q k (Answered r a :: Asked r :: tr)) -> ends Q (when b r k) tr.
Proof using outside_proper. intros H1 H2. destruct b; [|done]. apply ends_ask. intros a _. apply H2. Qed.

(** ** Requests are answered once *)

Definition response (e : event) : option (Request * Z * Body) :=
  match e with Asked (Respond rq status b) => Some (rq, status, b) | _ => None end.
Definition answered_once (rq : Request) (b : bool) (tr : list event) : Prop :=
  b = true /\ exists status body, omap response tr = [(rq, status, body)].
Definition unanswered (tr : list event) : Prop := omap response tr = [].

Local Notation to rq := (ends (answered_once rq)).

(** What is not a response leaves the request unanswered. *)
Lemma unanswered_ask rq r k tr :
  unanswered tr -> response (Asked r) = None ->
  (forall a tr', proper r a -> unanswered tr' -> to rq (k a) tr') -> to rq (Ask r k) tr.
Proof using outside_proper.
  intros Ht Hr H. apply ends_ask. intros a Ha. apply H; [done|]. unfold unanswered in *.
  cbn [omap list_omap response]. cbn [response] in Hr. by rewrite Hr.
Qed.

Lemma answered_ask rq r k st b tr :
  omap response tr = [(rq, st, b)] -> response (Asked r) = None ->
  (forall a tr', omap response tr' = [(rq, st, b)] -> to rq (k a) tr') -> to rq (Ask r k) tr.
Proof using outside_proper.
  intros Ht Hr H. apply ends_ask. intros a Ha. apply H. cbn [omap list_omap response]. cbn [response] in Hr.
  by rewrite Hr.
Qed.

Lemma respond_to rq status b k tr :
  unanswered tr -> (forall tr', omap response tr' = [(rq, status, b)] -> to rq k tr') ->
  to rq (Ask (Respond rq status b) (fun _ => k)) tr.
Proof using outside_proper.
  intros Ht H. apply ends_ask. intros a _. apply H. unfold unanswered in Ht. cbn. by rewrite Ht.
Qed.

Lemma observed_to rq st b m tr : omap response tr = [(rq, st, b)] -> to rq (observed rq m) tr.
Proof using outside_proper.
  intros H. unfold observed, Observe. do 3 (eapply answered_ask; [exact H|done|]; clear H tr; intros _ tr H).
  apply ends_done. split; [done|]. by exists st, b.
Qed.

Lemma writeJSON_to rq status b tr : unanswered tr -> to rq (writeJSON rq status b) tr.
Proof using outside_proper.
  intros H. unfold writeJSON. destruct (render b); (apply respond_to; [done|]; intros tr' H'; by eapply observed_to).
Qed.

Lemma failure_to rq corr status code msg tr : unanswered tr -> to rq (failure rq corr status code msg) tr.
Proof using outside_proper. apply writeJSON_to. Qed.

Lemma or_error_to {A} rq corr (r : res A) k tr :
  unanswered tr -> (forall a, r = Ok a -> to rq (k a) tr) -> to rq (or_error rq corr r k) tr.
Proof using outside_proper.
  intros H Hk. destruct r as [a|e]; [by apply Hk|]. cbn. unfold applicationError.
  destruct (error_answer _) as [[status msg] code]. by apply failure_to.
Qed.

Lemma refuse_early_to rq status code msg tr : unanswered tr -> to rq (refuse_early rq status code msg) tr.
Proof using outside_proper.
  intros H. apply respond_to; [done|]. intros tr' H'. apply ends_done. split; [done|]. by eexists _, _.
Qed.

Lemma when_to rq b r k tr :
  unanswered tr -> response (Asked r) = None -> (forall tr', unanswered tr' -> to rq k tr') ->
  to rq (when b r k) tr.
Proof using outside_proper.
  intros H Hr Hk. destruct b; [|by apply Hk]. eapply unanswered_ask; [done|done|]. intros a tr' _. apply Hk.
Qed.

(** Calls of the store. *)
Lemma on_result_to rq o k tr : unanswered tr -> (forall a, fits o a = true -> exists r, a = RpResult r) ->
  (forall r tr', unanswered tr' -> to rq (k r) tr') -> to rq (on_result o k) tr.
Proof using outside_proper.
  intros H Ho Hk. eapply unanswered_ask; [done|done|]. intros a tr' Ha H'.
  destruct (Ho a Ha) as (r & ->). by apply Hk.
Qed.

Lemma on_wallet_to rq o k tr : unanswered tr -> (forall a, fits o a = true -> exists r, a = RpWallet r) ->
  (forall r tr', unanswered tr' -> to rq (k r) tr') -> to rq (on_wallet o k) tr.
Proof using outside_proper.
  intros H Ho Hk. eapply unanswered_ask; [done|done|]. intros a tr' Ha H'.
  destruct (Ho a Ha) as (r & ->). by apply Hk.
Qed.

(** An amount that was parsed is an [int64]. *)
Lemma parsed_in_range a cur m : ParseMoney a cur = Ok m -> Int64.in_range (minor m).
Proof using Type.
  intros H. apply ParseMoney_inv in H as (_ & v & Hv & Hm & ->). apply amount_text_nonneg in Hv.
  split; cbn; [unfold Int64.MinInt64; lia|done].
Qed.

Lemma decoded_in_range body providers command inbox :
  Decode body providers = Ok (command, inbox) -> Int64.in_range (minor (cMoney command)).
Proof using Type.
  unfold Decode. destruct (envelope_of body) as [e|]; [|done]. destruct (negb _); [done|].
  intros H. apply bind_Ok in H as (money & Hm & H). apply bind_Ok in H as (command' & Hn & H).
  apply bind_Ok in H as (hash & _ & [= <- _]). apply NormalizeCommand_inv in Hn as (_ & p & k & _ & _ & ->).
  by eapply parsed_in_range.
Qed.

Section requests.
Context (BodyLimit : Z) (rq : Request) (corr : string).

Lemma decode_to {A} (d : decoder A) zero k tr :
  unanswered tr -> (forall a, to rq (k a) tr) -> to rq (decode BodyLimit rq corr d zero k) tr.
Proof using outside_proper.
  intros H Hk. unfold decode. destruct (ParseMediaType _); [|by apply failure_to].
  destruct (_ != _); [by apply failure_to|]. destruct (_ <? _).
  - eapply unanswered_ask; [done|done|]. intros [] tr' _ H'; by apply failure_to.
  - destruct (Unmarshal _ _ _); [done|by apply failure_to].
Qed.

Lemma authorize_to scope required next tr :
  unanswered tr -> (forall p tr', unanswered tr' -> to rq (next p) tr') ->
  to rq (authorize rq corr scope required next) tr.
Proof using outside_proper.
  intros H Hn. unfold authorize. destruct (Fields _) as [|scheme [|token [|]]]; try by apply failure_to.
  destruct (negb _); [by apply failure_to|]. eapply unanswered_ask; [done|done|].
  intros [p|e] tr' _ H'; [|by apply failure_to]. destruct (_ || _); [by apply failure_to|]. by apply Hn.
Qed.

Lemma createWallet_to tr : unanswered tr -> to rq (createWallet BodyLimit rq corr) tr.
Proof using outside_proper.
  intros H. apply decode_to; [done|]. intros body. apply or_error_to; [done|]. intros player _.
  apply or_error_to; [done|]. intros money Hm. unfold CreateWalletCall.
  destruct (decide _) as [Hr|Hr]; [|by destruct Hr; eapply parsed_in_range]. apply on_wallet_to; [done| |].
  - intros a Ha. destruct a; try done. by eexists.
  - intros r tr' H'. apply or_error_to; [done|]. intros v _. by apply writeJSON_to.
Qed.

Lemma processWager_to p tr : unanswered tr -> to rq (processWager BodyLimit rq corr p) tr.
Proof using outside_proper.
  intros H. apply decode_to; [done|]. intros body. destruct (_ != _); [by apply failure_to|].
  destruct (_ || _); [by apply failure_to|].
  apply or_error_to; [done|]. intros wallet _. apply or_error_to; [done|]. intros player _.
  apply or_error_to; [done|]. intros money Hm. unfold ProcessWagerService, ProcessWagerCall.
  destruct (decide _) as [Hr|Hr]; [|by destruct Hr; eapply parsed_in_range]. apply on_result_to; [done| |].
  - intros a Ha. destruct a; try done. by eexists.
  - intros r tr' H'. cbn [is_some]. eapply unanswered_ask; [done|done|]. clear tr' H'. intros _ tr' _ H'.
    destruct r as [res|e].
    + eapply unanswered_ask; [done|done|]. clear tr' H'. intros _ tr' _ H'. apply when_to; [done|done|].
      intros tr2 H2. by apply writeJSON_to.
    + apply when_to; [done|done|]. intros tr2 H2. by apply or_error_to.
Qed.

Lemma reads_to o k tr : unanswered tr -> (forall a, fits o a = true -> exists r, a = RpResult r) ->
  (forall r, k r = or_error rq corr r (fun v => writeJSON rq 200 (BodyResult v))) -> to rq (on_result o k) tr.
Proof using outside_proper.
  intros H Ho Hk. apply on_result_to; [done|done|]. intros r tr' H'. rewrite Hk.
  apply or_error_to; [done|]. intros v _. by apply writeJSON_to.
Qed.

Lemma ledger_to w limit cursor tr : unanswered tr -> to rq (ledger rq corr w limit cursor) tr.
Proof using outside_proper.
  intros H. apply or_error_to; [done|]. intros id _. destruct (page_limit _); [|by apply failure_to].
  destruct (_ <? _); [by apply failure_to|]. eapply unanswered_ask; [done|done|]. intros a tr' Ha H'.
  destruct a; try done. apply or_error_to; [done|]. intros p _. by apply writeJSON_to.
Qed.

Lemma reconcile_to w tr : unanswered tr -> to rq (reconcile rq corr w) tr.
Proof using outside_proper.
  intros H. apply or_error_to; [done|]. intros id _. eapply unanswered_ask; [done|done|]. intros a tr' Ha H'.
  destruct a as [| | | | | | |[r|e]]; try done; [|by apply or_error_to].
  eapply unanswered_ask; [done|done|]. clear tr' H'. intros _ tr' _ H'. apply when_to; [done|done|].
  intros tr2 H2. apply or_error_to; [done|]. intros v _. by apply writeJSON_to.
Qed.

Lemma handler_to p tr : unanswered tr -> to rq (handler BodyLimit rq corr p) tr.
Proof using outside_proper.
  intros H. unfold handler. destruct (hrEndpoint rq).
  - by apply createWallet_to.
  - apply or_error_to; [done|]. intros id _. apply on_wallet_to; [done| |].
    + intros a Ha. destruct a; try done. by eexists.
    + intros r tr' H'. apply or_error_to; [done|]. intros v _. by apply writeJSON_to.
  - by apply ledger_to.
  - by apply reconcile_to.
  - by apply processWager_to.
  - apply or_error_to; [done|]. intros id _. apply reads_to; [done| |done].
    intros a Ha. destruct a; try done. by eexists.
  - unfold getExternal. destruct (_ != _); [by apply failure_to|]. apply reads_to; [done| |done].
    intros a Ha. destruct a; try done. by eexists.
  - by apply writeJSON_to.
  - eapply unanswered_ask; [done|done|]. intros [u|e] tr' _ H'; [by apply writeJSON_to|by apply failure_to].
Qed.
End requests.

Lemma serve_to BodyLimit rq tr : unanswered tr -> to rq (serve BodyLimit rq) tr.
Proof using outside_proper.
  intros H. unfold serve, requestContext.
  destruct (_ && _); [by apply refuse_early_to|].
  destruct (_ == _).
  - eapply unanswered_ask; [done|done|]. clear tr H. intros [id|e] tr _ H; [|by apply refuse_early_to].
    destruct (access _) as [[scope required]|]; [|by apply handler_to].
    apply authorize_to; [done|]. intros p tr' H'. by apply handler_to.
  - destruct (access _) as [[scope required]|]; [|by apply handler_to].
    apply authorize_to; [done|]. intros p tr' H'. by apply handler_to.
Qed.

(** ** Messages are settled *)

(** The broker did what it was asked. *)
Definition accepted (a : res unit) : bool := match a with Ok _ => true | Err _ => false end.

(** What a goroutine asked of the queue about a message, and whether the queue
    accepted, the newest first. *)
Definition said_to_queue (e : event) : option (request * bool) :=
  match e with
  | Answered (Delete receipt) a => Some (Delete receipt, accepted a)
  | Answered (Visibility receipt delay) a => Some (Visibility receipt delay, accepted a)
  | _ => None
  end.

(** The message was deleted; or it was not, and the last thing asked of the queue
    was to show it again after at most half a minute, which the queue accepted
    or refused.  Deletion was tried at most once. *)
Definition settled_message (m : Message) (b : bool) (tr : list event) : Prop :=
  b = true /\
  (omap said_to_queue tr = [(Delete (msReceipt m), true)]
   \/ exists delay given, 0 <= delay <= 30 * Time.Second
       /\ (omap said_to_queue tr = [(Visibility (msReceipt m) delay, given)]
           \/ omap said_to_queue tr = [(Visibility (msReceipt m) delay, given); (Delete (msReceipt m), false)])).

(** What is not said to the queue changes nothing. *)
Lemma aside_ask Q r k tr l :
  omap said_to_queue tr = l -> (forall a, said_to_queue (Answered r a) = None) ->
  (forall a tr', proper r a -> omap said_to_queue tr' = l -> ends Q (k a) tr') -> ends Q (Ask r k) tr.
Proof using outside_proper.
  intros Ht Hr H. apply ends_ask. intros a Ha. apply H; [done|]. specialize (Hr a).
  cbn [omap list_omap]. rewrite Hr. by cbn [said_to_queue].
Qed.

Lemma aside_when Q b r k tr l :
  omap said_to_queue tr = l -> (forall a, said_to_queue (Answered r a) = None) ->
  (forall tr', omap said_to_queue tr' = l -> ends Q k tr') -> ends Q (when b r k) tr.
Proof using outside_proper.
  intros Ht Hr H. destruct b; [|by apply H]. eapply aside_ask; [exact Ht|done|]. intros a tr' _. apply H.
Qed.

Ltac aside H := eapply aside_ask; [exact H|done|]; clear H.

Lemma retain_settles m e tr l :
  omap said_to_queue tr = l -> l = [] \/ l = [(Delete (msReceipt m), false)] ->
  ends (settled_message m) (retain m e) tr.
Proof using outside_proper.
  intros H Hl. eapply aside_when; [exact H|done|]. clear tr H. intros tr H.
  aside H. intros _ tr' _ H. aside H. intros _ tr2 _ H. aside H. intros j tr3 Hj H. aside H.
  intros stop tr4 _ H. apply ends_ask. intros u _.
  set (delay := if stop then 0 else _).
  assert (Hd : 0 <= delay <= 30 * Time.Second).
  { destruct (backoff_jitter (msReceiveCount m) (30 * Time.Second)) as [Hpos Hin]; [done|].
    unfold delay. destruct stop; [done|]. by apply Hin, Hj. }
  assert (Hu : omap said_to_queue (Answered (Visibility (msReceipt m) delay) u :: Asked (Visibility (msReceipt m) delay) :: tr4)
    = (Visibility (msReceipt m) delay, accepted u) :: l) by (cbn; by rewrite H).
  revert Hu. generalize (Answered (Visibility (msReceipt m) delay) u :: Asked (Visibility (msReceipt m) delay) :: tr4).
  intros tr5 Hu. aside Hu. intros _ tr6 _ Hu. apply ends_done. split; [done|]. right. exists delay, (accepted u). split; [done|].
  destruct Hl as [->| ->]; auto.
Qed.

Lemma handle_settles c m tr : omap said_to_queue tr = [] -> ends (settled_message m) (handle c m) tr.
Proof using outside_proper.
  intros H. unfold handle. destruct (Decode _ _) as [[command inbox]|e] eqn:Ed; [|eapply retain_settles; eauto].
  unfold ProcessWagerCall. destruct (decide _) as [Hr|Hr]; [|destruct Hr; by eapply decoded_in_range].
  aside H. intros a tr' Ha H. destruct a as [|r| | | | | |]; try done.
  aside H. intros _ tr2 _ H. destruct r as [v|e]; [|eapply retain_settles; eauto].
  aside H. intros _ tr3 _ H. eapply aside_when; [exact H|done|]. clear tr3 H. intros tr3 H.
  apply ends_ask. intros d _.
  assert (Hu : omap said_to_queue (Answered (Delete (msReceipt m)) d :: Asked (Delete (msReceipt m)) :: tr3)
    = [(Delete (msReceipt m), accepted d)]) by (cbn; by rewrite H).
  revert Hu. generalize (Answered (Delete (msReceipt m)) d :: Asked (Delete (msReceipt m)) :: tr3). intros tr4 Hu.
  destruct d as [u|e]; [|eapply retain_settles; eauto].
  aside Hu. intros _ tr5 _ Hu. aside Hu. intros _ tr6 _ Hu. apply ends_done. split; [done|by left].
Qed.

(** ** Events are published, or returned *)

(** What a goroutine was told of an event, the newest first: by the broker, by
    the store that marks it and by the store that takes it back. *)
Inductive word_of_event : Type :=
| Sent (accepted : bool)
| Marked (done : bool)
| Returned (delay : Z) (done : bool).

Definition said_of_event (r : OutboxRecord) (e : event) : option word_of_event :=
  match e with
  | Answered (Publish eventID aggregateID payload) a =>
      if (eventID == orEventID r) && (aggregateID == orAggregateID r) && (payload == orPayload r)
      then Some (Sent (accepted a)) else None
  | Answered (Call (OpMarkPublished eventID token)) (RpDone a) =>
      if (eventID == orEventID r) && (token == orClaimToken r)
      then Some (Marked (accepted a)) else None
  | Answered (Call (OpRetryOutbox eventID token delay)) (RpDone a) =>
      if (eventID == orEventID r) && (token == orClaimToken r) then Some (Returned delay (accepted a)) else None
  | _ => None
  end.

(** The wait before the next attempt: doubled with each one, an hour at most. *)
Definition retry_wait (attempts : Z) : Z :=
  Z.min (Time.Second * 2 ^ Z.max 0 (Z.min attempts 20)) Time.Hour.

(** Offered to the broker exactly once; progress is what was accepted and marked,
    and for anything else the store was asked once to take it back, to be due
    again within [retry_wait], which the store did or refused. *)
Definition settled_event (r : OutboxRecord) (b : bool) (tr : list event) : Prop :=
  let said := rev (omap (said_of_event r) tr) in
  (b = true /\ said = [Sent true; Marked true])
  \/ (b = false /\ exists delay done, retry_wait (orAttempts r) / 2 <= delay <= retry_wait (orAttempts r)
       /\ (said = [Sent false; Returned delay done] \/ said = [Sent true; Marked false; Returned delay done])).

Lemma backoff_delay_wait attempts : backoff_delay attempts Time.Hour = retry_wait attempts.
Proof using Type.
  unfold backoff_delay, retry_wait. cbv zeta. rewrite Z.shiftl_1_l.
  replace (if 20 <? (if attempts <? 0 then 0 else attempts) then 20 else if attempts <? 0 then 0 else attempts)
    with (Z.max 0 (Z.min attempts 20)) by (destruct (attempts <? 0) eqn:E; destruct (20 <? _) eqn:E2; bools; lia).
  destruct (_ <? _) eqn:E; bools; lia.
Qed.

(** [Backoff], on the delay it comes to. *)
Lemma ends_backoff Q attempts k tr :
  (forall delay tr', retry_wait attempts / 2 <= delay <= retry_wait attempts ->
     omap said_to_queue tr' = omap said_to_queue tr ->
     (forall r, omap (said_of_event r) tr' = omap (said_of_event r) tr) -> ends Q (k delay) tr') ->
  ends Q (Backoff attempts Time.Hour k) tr.
Proof using outside_proper.
  intros H. unfold Backoff. rewrite backoff_delay_wait. apply ends_ask. intros j Hj. apply H; [|done..].
  assert (Hw : 0 <= retry_wait attempts).
  { rewrite <- backoff_delay_wait. by apply backoff_range. }
  cbn in Hj. rewrite Z.quot_div_nonneg in * by lia.
  pose proof (Z.div_mod (retry_wait attempts) 2). pose proof (Z.mod_pos_bound (retry_wait attempts) 2). lia.
Qed.

Lemma returned_settles r tr said :
  said = [Sent false] \/ said = [Sent true; Marked false] -> rev (omap (said_of_event r) tr) = said ->
  ends (settled_event r)
    (Backoff (orAttempts r) Time.Hour (fun delay =>
       on_done (OpRetryOutbox (orEventID r) (orClaimToken r) delay) (fun _ => Done false))) tr.
Proof using outside_proper.
  intros Hs Ht. apply ends_backoff. intros delay tr' Hd _ Hr. apply ends_ask. intros a Ha.
  destruct a as [| | | |a| | |]; try done. apply ends_done. right. split; [done|]. exists delay, (accepted a). split; [done|].
  cbn [omap list_omap said_of_event]. rewrite !bool_decide_eq_true_2 by done. cbn [andb].
  cbn [rev]. change (omap _ tr') with (omap (said_of_event r) tr'). rewrite Hr, Ht.
  destruct Hs as [->| ->]; auto.
Qed.

Lemma publishOne_settles r : ends (settled_event r) (publishOne r) [].
Proof using outside_proper.
  unfold publishOne. cbv zeta. apply ends_ask. intros sent _.
  assert (Hs : forall a, said_of_event r (Answered (Publish (orEventID r) (orAggregateID r) (orPayload r)) a)
    = Some (Sent (accepted a))).
  { intros a. cbn. by rewrite !bool_decide_eq_true_2. }
  destruct sent as [u|e].
  - apply ends_ask. intros a Ha. destruct a as [| | | |[u'|e]| | |]; try done.
    + apply ends_ask. intros m _. apply ends_done. left. split; [done|].
      cbn [omap list_omap]. rewrite Hs. cbn. by rewrite !bool_decide_eq_true_2.
    + apply ends_ask. intros m _. apply ends_ask. intros m' _. eapply returned_settles; [by right|].
      cbn [omap list_omap]. rewrite Hs. cbn. by rewrite !bool_decide_eq_true_2.
  - apply ends_ask. intros m _. apply ends_ask. intros m' _. eapply returned_settles; [by left|].
    cbn [omap list_omap]. rewrite Hs. done.
Qed.
End follow.
