(* ===== verification/Scenario.v ===== *)
(** * A day at the tables: a concrete run of the system

    A small world in which every operation is exercised: [play] runs calls one
    after another, and [play_reaches] shows the state it computes is one the
    interleaved machine reaches.  The theorems about the machine are applied to
    this run. *)

From S2P Require Import Prelude GoStd Errors Ident Money Wallet Ledger Wager Command Session.
From S2P Require Import Machine Database Sql Store Work Read Books System.
Import Str.

(** ** The world *)

(** The [n]-th identifier the server generates. *)
Definition nth_id (n : Z) : ID :=
  default zeroID (ID_of_bytes (Str.bytes (replicate 14 1 ++ [n / 256; n mod 256]))).

(** 2026-01-01, counted from the zero time. *)
Definition start_of_day : Z := 63902822400000000000.
Definition tick (n : Z) : Z := start_of_day + n * 1000000000.

(** Step [n] of call [k]. *)
Definition moment (k n : nat) : Z := 100 * Z.of_nat k + Z.of_nat n.

(** Call [k] of the day: nothing fails, no one else is there. *)
Definition quiet_day (k : nat) : env Db Cx :=
  mkEnv (fun n => mkCx (fun _ => tick (moment k n)) (fun _ _ => tick (moment k n)) (fun _ => nth_id (moment k n)) (fun _ => false))
    (fun n => tick (moment k n)) (fun _ => NoFault) (fun _ d => d).

(** The identifier is new. *)
Definition is_new (i : ID) (d : Db) (L : list lock) : bool :=
  negb (is_some (wallets d !! i)) && negb (is_some (wagers d !! i)) && negb (is_some (outbox d !! i))
  && forallb (fun e => lr_id e != i) (ledger d) && (i != zeroID)
  && forallb (fun l => match l with LId j => j != i | _ => true end) L.

Lemma is_new_ok i d L : is_new i d L = true -> unused i d /\ i <> zeroID /\ LId i ∉ L.
Proof.
  unfold is_new. intros H. rewrite !andb_true_iff in H. destruct H as [[[[[H1 H2] H3] H4] H5] H6].
  apply negb_true_iff, is_some_None in H1, H2, H3.
  rewrite forallb_forall in H4, H6. split_and!; [unfold unused; split_and!; [done..|]| |].
  - intros Hin. apply list_elem_of_fmap in Hin as (e & E & He). apply list_elem_of_In in He.
    specialize (H4 e He). rewrite E, bool_decide_refl in H4. done.
  - by bools.
  - intros Hin. apply list_elem_of_In in Hin. specialize (H6 _ Hin). cbn in H6. by rewrite bool_decide_refl in H6.
Qed.

Definition new_id (k n : nat) (d : Db) (L : list lock) : bool := is_new (nth_id (moment k n)) d L.

Definition past_epoch (t : Z) : bool := 1000 <=? t.

Lemma new_id_ok k n d L : new_id k n d L = true -> cx_ok (env_cx (quiet_day k) n) d L.
Proof. intros H m. by apply is_new_ok in H. Qed.

Lemma past_epoch_ok t : past_epoch t = true -> clock_ok t.
Proof. apply Z.leb_le. Qed.

(** Calls one after another: the database and the log they leave. *)
Fixpoint play (k : nat) (ops : list Op) (d : Db) (lg : list (Op * Reply)) : option (Db * list (Op * Reply)) :=
  match ops with
  | [] => Some (d, lg)
  | o :: ops =>
      if legal (quiet_day k) (new_id k) past_epoch (code o) 0 d fresh_sess then
        let '(a, d', _) := run (quiet_day k) (code o) 0 d fresh_sess in play (S k) ops d' ((o, a) :: lg)
      else None
  end.

Lemma play_reaches ops k d lg m d' lg' :
  play k ops d lg = Some (d', lg') -> reaches m -> m_db m = d -> m_sessions m = [] -> (m_log m).*1 = lg ->
  exists m', reaches m' /\ m_db m' = d' /\ m_sessions m' = [] /\ (m_log m').*1 = lg'.
Proof.
  revert k d lg m. induction ops as [|o ops IH]; cbn; intros k d lg m H Hr Hd Hs Hl.
  - injection H as <- <-. by exists m.
  - destruct (legal _ _ _ _ _ _ _) eqn:El; [|done]. destruct (run _ _ _ _ _) as [[a d1] n] eqn:Er.
    destruct m as [d0 ss lg0 cm]. cbn in *. subst.
    destruct (drive code (quiet_day k) (new_id k) past_epoch (new_id_ok k) past_epoch_ok
      empty_db d lg0 cm o a d1 n) as (c & cm' & Hr'); try done.
    by eapply IH; [exact H|exact Hr'|..].
Qed.

Lemma calls_reach ops d lg :
  play 0 ops empty_db [] = Some (d, lg) ->
  exists m, reaches m /\ m_db m = d /\ m_sessions m = [] /\ (m_log m).*1 = lg.
Proof.
  intros H. eapply play_reaches; [exact H|apply reach_init|done..].
Qed.

(** ** The calls *)

Definition ana : ID := nth_id 9999.
(** The wallet the first call creates. *)
Definition anas_wallet : ID := nth_id 1.

Definition open_account : Op :=
  OpCreateWallet (mkCreateWalletCommand (ID_String ana) (mkMoney 10000 "BRL") "") ltac:(by vm_compute).

Definition wager (external kind reference : string) (amount : Z) : Command :=
  mkCommand "acme" external external (ID_String ana) (ID_String anas_wallet) "round-1" "game-1" kind
    (mkMoney amount "BRL") reference "" "".
Definition delivery (id : string) (c : Command) : option InboxMessage :=
  match PayloadHash c with Ok h => Some (mkInboxMessage "engine" id h) | Err _ => None end.

Definition bet : Command := wager "bet-1" "BET" "" 3000.
Definition refund : Command := wager "refund-1" "REFUND" "bet-1" 3000.
Definition orphan : Command := wager "refund-2" "REFUND" "bet-9" 500.

Definition place_bet : Op := OpProcessWager bet (delivery "m-1" bet) ltac:(by vm_compute).
Definition repeat_bet : Op := OpProcessWager bet None ltac:(by vm_compute).
Definition refund_bet : Op := OpProcessWager refund None ltac:(by vm_compute).
Definition refund_unknown : Op := OpProcessWager orphan None ltac:(by vm_compute).

Definition morning : list Op := [open_account; place_bet; repeat_bet; refund_bet; refund_unknown].

Definition second : Z := 1000000000.
Definition anas_row : wallet_row :=
  mkWalletRow ana "BRL" 10000 3 (tick 2) (tick 309).

Definition claim_waiting : Op := OpClaimReferences "worker-1" 10 (3600 * second).
(** What it answers. *)
Definition waiting_claim : ReferenceClaim :=
  mkReferenceClaim (ID_String (nth_id 403)) (ID_String anas_wallet) (ID_String (nth_id 501)) 0 (tick 404).
Definition retry_waiting : Op := OpRetryReference waiting_claim 1 (3600 * second).
Definition claim_events : Op := OpClaimOutbox "worker-1" 2 (3600 * second).
Definition publish_first : Op := OpMarkPublished (ID_String (nth_id 8)) (ID_String (nth_id 701)).
Definition read_wallet : Op := OpGetWallet (ID_String anas_wallet).
Definition audit : Op := OpReconcile (ID_String anas_wallet).
Definition read_bet : Op := OpGetExternalTransaction "acme" "bet-1".

(** The second publication is refused, and the bet's message is redelivered.
    The books are compared at the end. *)
Definition afternoon : list Op :=
  [claim_waiting; retry_waiting; claim_events; publish_first; publish_first; read_wallet; read_bet;
   place_bet; audit].

Definition day : list Op := morning ++ afternoon.

(** ** The day, played *)

Definition day_played : option (Db * list (Op * Reply)) := play 0 day empty_db [].
Definition day_end : Db * list (Op * Reply) := default (empty_db, []) day_played.
Definition day_db : Db := day_end.1.
Definition day_log : list (Op * Reply) := day_end.2.

(** The machine at the end of the day. *)
Definition is_day (m : system) : Prop := reaches m /\ m_db m = day_db /\ (m_log m).*1 = day_log.

Lemma day_plays : day_played = Some day_end.
Proof.
  assert (H : is_some day_played = true) by (vm_compute; reflexivity).
  unfold day_end. revert H. generalize day_played. by intros [[d l]|].
Qed.

Lemma day_exists : exists m, is_day m.
Proof.
  pose proof day_plays as H. unfold is_day, day_db, day_log. destruct day_end as [d lg].
  unfold day_played in H. apply calls_reach in H as (m & H1 & H2 & _ & H3).
  exists m. exact (conj H1 (conj H2 H3)).
Qed.

(** What is in the books and in the log then. *)
Lemma day_reaches m : is_day m -> reaches m.
Proof. by intros [? _]. Qed.

Lemma day_finds {A} (f : Db -> A) (x : A) m : is_day m -> f day_db = x -> f (m_db m) = x.
Proof. intros (_ & -> & _) H. exact H. Qed.

Lemma day_logged m n x : is_day m -> day_log !! n = Some x -> exists c, (x.1, x.2, c) ∈ m_log m.
Proof.
  intros (_ & _ & Hl) Hn. rewrite <- Hl, list_lookup_fmap in Hn.
  destruct (m_log m !! n) as [[[o' a'] c]|] eqn:E; [|done]. injection Hn as <-.
  exists c. by eapply list_elem_of_lookup_2.
Qed.

(** ** The record of the day, computed once *)

Definition bet_result (replay : bool) : Result :=
  mkResult (ID_String (nth_id 104)) "PROCESSED" (mkMoney 7000 "BRL") 2 "" replay.
Definition refund_result : Result :=
  mkResult (ID_String (nth_id 303)) "PROCESSED" (mkMoney 10000 "BRL") 3 "" false.
Definition orphan_result : Result :=
  mkResult (ID_String (nth_id 403)) "REJECTED" (mkMoney 10000 "BRL") 3 "REFERENCE_NOT_FOUND" false.
Definition opened_view : WalletView :=
  mkWalletView (ID_String anas_wallet) (ID_String ana) (mkMoney 10000 "BRL") 1 (tick 2) (tick 2).

Definition audited : Reconciliation :=
  mkReconciliation (ID_String anas_wallet) (mkMoney 10000 "BRL") (mkMoney 10000 "BRL") (mkMoney 0 "BRL") true 3.

(** Calls of the day with their replies, and where the log has them. *)
Definition day_calls : list (Op * Reply) :=
  [(open_account, RpWallet (Ok opened_view));
   (place_bet, RpResult (Ok (bet_result false)));
   (repeat_bet, RpResult (Ok (bet_result true)));
   (refund_bet, RpResult (Ok refund_result));
   (claim_waiting, RpReferences [waiting_claim] None);
   (retry_waiting, RpResult (Ok orphan_result));
   (publish_first, RpDone (Ok tt));
   (publish_first, RpDone (Err (AppError "CLAIM_LOST")));
   (place_bet, RpResult (Ok (bet_result true)));
   (audit, RpReconciliation (Ok audited))].
Definition day_calls_at : list nat := [13; 12; 11; 10; 8; 7; 5; 4; 1; 0]%nat.

(** The generated values of an entry are ones a page can carry. *)
Definition well_stamped (e : ledger_row) : bool :=
  (lr_id e != zeroID) && (0 <? lr_created e) && (lr_created e <? Time.year_10000).

(** A transaction's status, kind and reference. *)
Definition wager_key (r : wager_row) : Status * Kind * option ID :=
  (status_of r, rq_kind (tr_request r), oc_reference (tr_outcome r)).
Definition refund_key : Status * Kind * option ID := (StatusProcessed, KindREFUND, Some (nth_id 104)).

Lemma day_record :
  (fun n => day_log !! n) <$> day_calls_at = Some <$> day_calls
  /\ wallets day_db !! anas_wallet = Some anas_row
  /\ length (ledger day_db) = 3%nat
  /\ forallb well_stamped (ledger day_db) = true
  /\ is_some (wagers day_db !! nth_id 403) = true
  /\ wager_key <$> wagers day_db !! nth_id 303 = Some refund_key.
Proof. vm_compute. repeat split. Qed.

#[global] Opaque is_day day_db day_log.

Section record.
Context (m : system) (Hm : is_day m).

(** The [k]-th call of the record is in the log. *)
Lemma day_called k x : day_calls !! k = Some x -> exists c, (x.1, x.2, c) ∈ m_log m.
Proof using Hm.
  intros Hk. destruct day_record as [E _]. apply (f_equal (fun l => l !! k)) in E.
  rewrite !list_lookup_fmap, Hk in E. destruct (day_calls_at !! k) as [n|]; [|done].
  apply (inj Some) in E. exact (day_logged m n x Hm E).
Qed.

Lemma day_wallet : wallets (m_db m) !! anas_wallet = Some anas_row.
Proof using Hm. apply (day_finds (fun d => wallets d !! anas_wallet) _ m Hm), day_record. Qed.

Lemma day_entries : length (ledger (m_db m)) = 3%nat.
Proof using Hm. apply (day_finds (fun d => length (ledger d)) _ m Hm), day_record. Qed.

Lemma day_stamped : forallb well_stamped (ledger (m_db m)) = true.
Proof using Hm. apply (day_finds (fun d => forallb well_stamped (ledger d)) _ m Hm), day_record. Qed.

Lemma day_orphan : is_some (wagers (m_db m) !! nth_id 403) = true.
Proof using Hm. apply (day_finds (fun d => is_some (wagers d !! nth_id 403)) _ m Hm), day_record. Qed.

Lemma day_refund : wager_key <$> wagers (m_db m) !! nth_id 303 = Some refund_key.
Proof using Hm. apply (day_finds (fun d => wager_key <$> wagers d !! nth_id 303) _ m Hm), day_record. Qed.
End record.
