(* ===== verification/Rehearsal.v ===== *)
(** * A rehearsal: the whole program, run

    [perform] runs one goroutine alone, against a store without rivals and an
    outside given as a function of what has been asked; [perform_runs] shows
    that what it computes is a run of the program.  The rehearsal itself is a
    client that opens a wallet, then an engine that drains its queue and its
    outbox once and stops. *)

From S2P Require Import Prelude GoStd Codec Errors Ident Money Command Config Oidc Session Machine.
From S2P Require Import Database Store Work Read System Tasks Service Engine Http Program Scenario.
Import Str.

(** ** Running a goroutine *)

Record stage : Type := mkStage {
  sg_db : Db; sg_trace : list event; sg_log : list (Op * Reply)
}.

Definition may_answerb (r : request) : answer r -> bool :=
  match r with
  | Int64N n => fun x => (0 <=? x) && (x <? n)
  | _ => fun _ => true
  end.

Lemma may_answerb_ok r a : may_answerb r a = true -> may_answer r a.
Proof. destruct r; cbn; try done. intros H _. bools. lia. Qed.

Section perform.
Context (c : Config) (BodyLimit : Z).
Context (outside : list event -> forall r, answer r).

(** A call of the store, to its end. *)
Definition call_store (o : Op) (g : stage) : option (Reply * stage) :=
  let k := length (sg_log g) in
  if legal (quiet_day k) (new_id k) past_epoch (code o) 0 (sg_db g) fresh_sess then
    let '(a, d, _) := run (quiet_day k) (code o) 0 (sg_db g) fresh_sess in
    Some (a, mkStage d (Asked (Call o) :: sg_trace g) ((o, a) :: sg_log g))
  else None.

Definition ask_outside (r : request) (g : stage) : option (answer r * stage) :=
  let a := outside (sg_trace g) r in
  if may_answerb r a then Some (a, mkStage (sg_db g) (Answered r a :: Asked r :: sg_trace g) (sg_log g)) else None.

Definition asks_for (r : request) (g : stage) : option (answer r * stage) :=
  match r with
  | Call o => call_store o g
  | r => ask_outside r g
  end.

(** [fuel] bounds the requests and rounds along one branch. *)
Fixpoint perform (fuel : nat) (t : task) (g : stage) : option (bool * stage) :=
  match fuel with
  | O => None
  | S fuel =>
      match t with
      | Done b => Some (b, g)
      | Ask r k => '(a, g) ← asks_for r g; perform fuel (k a) g
      | Par ts k =>
          '(bs, g) ← (fix each (ts : list task) (g : stage) : option (list bool * stage) :=
             match ts with
             | [] => Some ([], g)
             | t :: ts => '(b, g) ← perform fuel t g; '(bs, g) ← each ts g; Some (b :: bs, g)
             end) ts g;
          perform fuel (k bs) g
      | Again l => perform fuel (round c l) g
      end
  end.

(** A place in the threads of a world where a thread may run. *)
Definition place (E : thread -> list thread) : Prop :=
  forall m tr th m' tr' th', tstep (round c) (m, tr) th (m', tr') th' ->
  runs c BodyLimit (mkWorld m (E th) tr) -> runs c BodyLimit (mkWorld m' (E th') tr').

Lemma place_front ths : place (fun th => th :: ths).
Proof using Type.
  intros m tr th m' tr' th' Hst Hr. eapply ar_step; [exact Hr|]. by apply (ws_thread _ _ [] ths).
Qed.

Lemma place_child E ths1 ths2 k : place E -> place (fun th => E (Joining (ths1 ++ th :: ths2) k)).
Proof using Type. intros HE m tr th m' tr' th' Hst. apply HE. by apply ts_child. Qed.

(** The world with this stage and nobody in the store. *)
Definition staged (ths : list thread) (g : stage) : Prop :=
  exists lg cm, runs c BodyLimit (mkWorld (mkMachine (sg_db g) [] lg cm) ths (sg_trace g)) /\ lg.*1 = sg_log g.

Lemma call_store_runs E o k g a g' :
  place E -> staged (E (Running (Ask (Call o) k))) g -> call_store o g = Some (a, g') ->
  staged (E (Running (k a))) g'.
Proof using Type.
  intros HE (lg & cm & Hr & Hlg) H. unfold call_store in H. destruct (legal _ _ _ _ _ _ _) eqn:El; [|done].
  destruct (run _ _ _ _ _) as [[a1 d1] n] eqn:Er. injection H as <- <-. destruct g as [d tr l]. cbn in *.
  set (K := fun m : system => runs c BodyLimit (mkWorld m (E (Calling 0 o k)) (Asked (Call o) :: tr))).
  assert (Hmove : forall d cm p s d' p' s', K (mkMachine d [(0%nat, (o, p, s))] lg cm) ->
    moves [] d p s d' p' s' -> K (mkMachine d' [(0%nat, (o, p', s'))] lg (commit_of o s s' ++ cm))).
  { intros d0 cm0 p s d' p' s' HK Hm. eapply ar_step; [exact HK|]. apply ws_store.
    by apply (bg_move d0 [] []). }
  assert (Hstart : K (mkMachine d [(0%nat, (o, code o, fresh_sess))] lg cm)).
  { eapply HE; [|exact Hr]. apply ts_call. by intros ?%elem_of_nil. }
  destruct (drive_session (quiet_day (length l)) (new_id (length l)) past_epoch (new_id_ok _) past_epoch_ok
    K 0 o lg Hmove (code o) (fun n d => eq_refl) 0 d fresh_sess cm a1 d1 n Hstart El Er) as (s' & cm' & Hend).
  exists ((o, a1, ss_done s') :: lg), cm'. split; [|cbn; by rewrite Hlg].
  eapply HE; [|exact Hend]. apply (ts_return _ d1 [] []).
Qed.

Lemma ask_outside_runs E r k g a g' :
  place E -> is_call r = false -> staged (E (Running (Ask r k))) g -> ask_outside r g = Some (a, g') ->
  staged (E (Running (k a))) g'.
Proof using Type.
  intros HE Hc (lg & cm & Hr & Hlg) H. unfold ask_outside in H. destruct (may_answerb _ _) eqn:Ea; [|done].
  injection H as <- <-. exists lg, cm. split; [|done]. cbn.
  eapply HE; [apply ts_answer; by apply may_answerb_ok|]. eapply HE; [|exact Hr]. by apply ts_ask.
Qed.

Lemma asks_for_runs E r k g a g' :
  place E -> staged (E (Running (Ask r k))) g -> asks_for r g = Some (a, g') -> staged (E (Running (k a))) g'.
Proof using Type.
  intros HE Hs H. destruct r; try (by eapply ask_outside_runs). by eapply call_store_runs.
Qed.

Lemma perform_runs fuel E t g b g' :
  place E -> staged (E (Running t)) g -> perform fuel t g = Some (b, g') -> staged (E (Running (Done b))) g'.
Proof using Type.
  revert E t g b g'. induction fuel as [|fuel IH]; intros E t g b g' HE Hs H; [done|].
  destruct t as [b0|r k|ts k|l]; cbn [perform] in H.
  - by injection H as <- <-.
  - apply bind_Some in H as ([a g1] & Ha & H). eapply IH; [done| |exact H]. by eapply asks_for_runs.
  - apply bind_Some in H as ([bs g1] & Ha & H). eapply IH; [done| |exact H]. clear H.
    destruct Hs as (lg & cm & Hr & Hlg).
    assert (Hj : staged (E (Joining ((Running ∘ Done <$> []) ++ (Running <$> ts)) k)) g).
    { exists lg, cm. split; [|done]. eapply HE; [apply ts_par|exact Hr]. }
    assert (Hall : forall bs0, staged (E (Joining ((Running ∘ Done <$> bs0) ++ (Running <$> ts)) k)) g ->
      staged (E (Joining (Running ∘ Done <$> bs0 ++ bs) k)) g1).
    { clear Hr Hlg lg cm Hj. revert g bs Ha. induction ts as [|t ts IHts]; intros g bs Ha bs0 Hj.
      - injection Ha as <- <-. cbn [fmap list_fmap] in Hj. by rewrite List.app_nil_r in *.
      - apply bind_Some in Ha as ([b1 g2] & Hb & Ha). apply bind_Some in Ha as ([bs1 g3] & Hbs & Ha).
        injection Ha as <- <-.
        pose proof (IH _ _ _ _ _ (place_child E (fmap (M:=list) (Running ∘ Done) bs0) (fmap (M:=list) Running ts) k HE) Hj Hb) as Hj'.
        cbn beta in Hj'. specialize (IHts g2 bs1 Hbs (bs0 ++ [b1])).
        rewrite fmap_app, <- !List.app_assoc in IHts. by apply IHts. }
    specialize (Hall [] Hj). clear Hr Hlg lg cm Hj.
    destruct Hall as (lg & cm & Hr & Hlg). exists lg, cm. split; [|done]. eapply HE; [apply ts_join|exact Hr].
  - eapply IH; [done| |exact H]. destruct Hs as (lg & cm & Hr & Hlg). exists lg, cm. split; [|done].
    eapply HE; [apply ts_again|exact Hr].
Qed.

(** One goroutine after another: an engine, or a request's. *)
Definition goroutine (rq : option Request) : task :=
  match rq with None => Start c | Some rq => serve BodyLimit rq end.
Definition begun (rq : option Request) (g : stage) : stage :=
  mkStage (sg_db g) (Started rq :: sg_trace g) (sg_log g).

Fixpoint play_tasks (fuel : nat) (rqs : list (option Request)) (g : stage) : option stage :=
  match rqs with
  | [] => Some g
  | rq :: rqs => '(_, g) ← perform fuel (goroutine rq) (begun rq g); play_tasks fuel rqs g
  end.

Lemma play_tasks_runs fuel rqs ths g g' :
  staged ths g -> play_tasks fuel rqs g = Some g' -> exists ths', staged ths' g'.
Proof using Type.
  revert ths g. induction rqs as [|rq rqs IH]; intros ths g Hs H; cbn in H.
  - injection H as <-. by exists ths.
  - apply bind_Some in H as ([b g1] & Hb & H). eapply IH; [|exact H].
    eapply (perform_runs fuel (fun th => th :: ths)); [apply place_front| |exact Hb].
    destruct Hs as (lg & cm & Hr & Hlg). exists lg, cm. split; [|done].
    eapply ar_step; [exact Hr|]. apply ws_start. by destruct rq.
Qed.

Lemma tasks_run fuel rqs g :
  play_tasks fuel rqs (mkStage empty_db [] []) = Some g ->
  exists w, runs c BodyLimit w /\ m_db (w_store w) = sg_db g /\ w_trace w = sg_trace g.
Proof using Type.
  intros H. destruct (play_tasks_runs fuel rqs [] (mkStage empty_db [] []) g) as (ths & lg & cm & Hr & _).
  - exists [], []. split; [apply ar_first|done].
  - done.
  - eexists. split; [exact Hr|done].
Qed.
End perform.

(** ** The rehearsal *)

Definition environment (key : string) : string :=
  if key == "DATABASE_URL" then "postgres://localhost/jungle"
  else if key == "OIDC_ISSUER" then "https://idp.example"
  else if key == "INSTANCE_ID" then "engine-1"
  else if key == "PROCESS_TIMEOUT" then "1m30s"
  else if key == "SHUTDOWN_TIMEOUT" then "100s"
  else if key == "SQS_VISIBILITY_TIMEOUT" then "3m"
  else if key == "CLAIM_LEASE" then "1.75m"
  else "".

Definition loaded : res Config := Load environment (Some "host") 7.
Definition settings : Config :=
  match loaded with Ok c => c | Err _ => mkConfig "" "" "" "" "" "" false "" "" "" "" "" "" [] 0 0 0 0 0 0 0 0 0 0 end.
Definition body_limit : Z := 128 * 1024.

(** The operator opens Ana's wallet, a message bets, the provider reads the bet. *)
Definition text (s : string) : string := Json.string_lit s.
Definition open_wallet : Request :=
  mkHttpRequest "POST" "/v1/wallets" PostWallet "Bearer operator" "corr-1" "application/json; charset=utf-8" ""
    (Json.object [("playerId", text (ID_String ana));
                  ("initialBalance", Json.object [("amount", text "100.00"); ("currency", text "BRL")])]).
Definition bet_data : string :=
  Json.object
    [("providerId", text "provider-a"); ("externalTransactionId", text "bet-1"); ("idempotencyKey", text "key-1");
     ("playerId", text (ID_String ana)); ("walletId", text (ID_String anas_wallet)); ("roundId", text "round-1");
     ("gameId", text "game-1"); ("kind", text "BET");
     ("money", Json.object [("amount", text "30.00"); ("currency", text "BRL")])].
Definition bet_message : Message :=
  mkMessage "sqs-1"
    (Json.object [("messageId", text "m-1"); ("type", text "WagerTransactionRequested");
                  ("occurredAt", text "2026-01-01T09:00:00.25-03:00"); ("data", bet_data)]) "receipt-1" 1.
Definition read_back : Request :=
  mkHttpRequest "GET" "/v1/providers/{providerId}/transactions/{externalTransactionId}"
    (GetProviderTransaction "provider-a" "bet-1") "bearer provider" "" "" "" "".

Definition operator : Principal := mkPrincipal "ops" "" {["wallet:write"; "wallet:read"]}.
Definition provider : Principal := mkPrincipal "a" "provider-a" {["wager:write"; "wager:read"]}.

(** One message, then none; the loops are told to stop at their first pause. *)
Definition is_receive (e : event) : bool := match e with Answered (Receive _) _ => true | _ => false end.
Definition outside (tr : list event) (r : request) : answer r :=
  match r with
  | Call _ => RpDone (Ok tt)
  | Receive _ => if existsb is_receive tr then Err (OtherError "no message") else Ok [bet_message]
  | Delete _ | Visibility _ _ | Publish _ _ _ | Ready => Ok tt
  | DLQDepths => Ok [("input", 0); ("output", 0)]
  | Cancelled _ | Wait _ | TooLarge => false
  | Int64N _ => 0
  | Arrived => 0%nat
  | Validate token =>
      if token == "operator" then Ok operator
      else if token == "provider" then Ok provider else Err (OtherError "invalid access token")
  | RandomID => Ok (Str.bytes (replicate 16 9))
  | Meter _ _ | Respond _ _ _ => tt
  end.

Definition rehearsed_requests : list (option Request) := [Some open_wallet; None; Some read_back].
Notation rehearsal := (play_tasks settings body_limit outside 60 rehearsed_requests (mkStage empty_db [] [])).

(** ** What was asked, and what is in the books then *)

Definition responses (tr : list event) : list (Request * Z * Body) :=
  omap (fun e => match e with Asked (Respond rq status b) => Some (rq, status, b) | _ => None end) tr.
Definition deleted (tr : list event) : list string :=
  omap (fun e => match e with Asked (Delete receipt) => Some receipt | _ => None end) tr.
Definition published (tr : list event) : list (string * string) :=
  omap (fun e => match e with Asked (Publish e a _) => Some (e, a) | _ => None end) tr.

Definition measured (tr : list event) : list (string * list string) :=
  omap (fun e => match e with Asked (Meter m labels) => Some (m, labels) | _ => None end) tr.

Lemma measured_asked tr m labels : (m, labels) ∈ measured tr -> Asked (Meter m labels) ∈ tr.
Proof. intros H. apply list_elem_of_omap in H as ([|[]|] & Hin & E); try done. by injection E as -> ->. Qed.

Lemma responses_asked tr rq status b n :
  responses tr !! n = Some (rq, status, b) -> Asked (Respond rq status b) ∈ tr.
Proof.
  intros H%list_elem_of_lookup_2. apply list_elem_of_omap in H as ([|[]|] & Hin & E); try done.
  by injection E as -> -> ->.
Qed.
Lemma deleted_asked tr receipt n : deleted tr !! n = Some receipt -> Asked (Delete receipt) ∈ tr.
Proof.
  intros H%list_elem_of_lookup_2. apply list_elem_of_omap in H as ([|[]|] & Hin & E); try done. by injection E as ->.
Qed.

Definition the_bet : ID := nth_id 104.
Definition read_answer : Body :=
  BodyResult (mkResult (ID_String the_bet) "PROCESSED" (mkMoney 7000 "BRL") 2 "" false).
Definition wallet_event : ID := nth_id 114.

Definition queue_measure : string * list string := (WagerDuration, ["sqs"; "BET"; "PROCESSED"]).

(** The end of the rehearsal, as the theorems about it need it. *)
Definition summary (d : Db) (tr : list event) :=
  (responses tr !! 0%nat, deleted tr !! 0%nat, published tr !! 0%nat,
   ob_published <$> outbox d !! wallet_event, rq_kind ∘ tr_request <$> wagers d !! the_bet,
   bool_decide (queue_measure ∈ measured tr)).
Definition expected : option (Request * Z * Body) * option string * option (string * string)
    * option (option Z) * option string * bool :=
  (Some (read_back, 200, read_answer), Some "receipt-1", Some (ID_String wallet_event, ID_String anas_wallet),
   Some (Some (tick 600)), Some "BET", true).
Definition rehearsed (d : Db) (tr : list event) : Prop := summary d tr = expected.

Lemma rehearsal_record : option_map (fun g => summary (sg_db g) (sg_trace g)) rehearsal = Some expected.
Proof. vm_compute. reflexivity. Qed.

Lemma rehearsal_runs : exists w, runs settings body_limit w /\ rehearsed (m_db (w_store w)) (w_trace w).
Proof.
  unfold rehearsed. pose proof rehearsal_record as H. revert H. generalize expected. intros e H.
  destruct rehearsal as [g|] eqn:E; [|done].
  destruct (tasks_run _ _ _ _ _ _ E) as (w & Hw & Hdb & Htr).
  exists w. rewrite Hdb, Htr. split; [exact Hw|]. by injection H.
Qed.

Lemma rehearsed_facts d tr : rehearsed d tr ->
  responses tr !! 0%nat = Some (read_back, 200, read_answer) /\ deleted tr !! 0%nat = Some "receipt-1"
  /\ published tr !! 0%nat = Some (ID_String wallet_event, ID_String anas_wallet)
  /\ ob_published <$> outbox d !! wallet_event = Some (Some (tick 600))
  /\ rq_kind ∘ tr_request <$> wagers d !! the_bet = Some "BET"
  /\ bool_decide (queue_measure ∈ measured tr) = true.
Proof.
  unfold rehearsed, expected, summary. generalize read_answer (ID_String wallet_event) (ID_String anas_wallet) (tick 600).
  intros b e a t. rewrite !pair_equal_spec. tauto.
Qed.

Section facts.
Context (d : Db) (tr : list event) (H : rehearsed d tr).
Lemma rehearsed_response : Asked (Respond read_back 200 read_answer) ∈ tr.
Proof using H. apply (responses_asked tr _ _ _ 0). by apply (rehearsed_facts d tr). Qed.
Lemma rehearsed_deleted : Asked (Delete "receipt-1") ∈ tr.
Proof using H. apply (deleted_asked tr _ 0). by apply (rehearsed_facts d tr). Qed.
Lemma rehearsed_published : published tr !! 0%nat = Some (ID_String wallet_event, ID_String anas_wallet).
Proof using H. by apply (rehearsed_facts d tr). Qed.
Lemma rehearsed_marked : exists r, outbox d !! wallet_event = Some r /\ ob_published r <> None.
Proof using H.
  destruct (rehearsed_facts d tr H) as (_ & _ & _ & E & _). destruct (outbox d !! wallet_event) as [r|]; [|done].
  exists r. split; [done|]. injection E as ->. done.
Qed.
Lemma rehearsed_bet : exists r, wagers d !! the_bet = Some r /\ rq_kind (tr_request r) = "BET".
Proof using H.
  destruct (rehearsed_facts d tr H) as (_ & _ & _ & _ & E & _). destruct (wagers d !! the_bet) as [r|]; [|done].
  exists r. split; [done|]. by injection E.
Qed.
Lemma rehearsed_measured : Asked (Meter WagerDuration ["sqs"; "BET"; "PROCESSED"]) ∈ tr.
Proof using H.
  destruct (rehearsed_facts d tr H) as (_ & _ & _ & _ & _ & E). apply bool_decide_eq_true in E.
  exact (measured_asked _ _ _ E).
Qed.
End facts.
