(* ===== verification/Delivery.v ===== *)
(** * What the whole program guarantees

    The facts of Program.v about what is asked of the outside, read in the
    books: acknowledgements, publications, responses, and who caused them. *)

From S2P Require Import Prelude GoStd Codec JsonText Errors Ident Money Wallet Ledger Wager Evaluate.
From S2P Require Import Command Config Oidc Transport Events Session Rules Machine Database Sql Store.
From S2P Require Import Work Rows Books Settle Pending Delivering Replaying Processing Read Opening.
From S2P Require Import Reading Paging Auditing Tending Leases Retry System Tasks Service Metrics Engine Http.
From S2P Require Import Answers Program Rehearsal Conduct.
Import Str.

Section delivery.
Context (c : Config) (BodyLimit : Z) (w : world) (Hw : runs c BodyLimit w).
Local Notation s := (scene_of w).
Local Notation db := (m_db (w_store w)).

Lemma run_asked r : Asked r ∈ w_trace w -> permitted c BodyLimit s r.
Proof using Hw. apply (wf_asked _ _ (program_safe _ _ _ Hw)). Qed.

Lemma run_reaches : reaches (w_store w).
Proof using Hw. apply (wf_reaches _ _ (program_safe _ _ _ Hw)). Qed.

Lemma run_called o : called (w_store w) o -> call_permitted c BodyLimit s o.
Proof using Hw. intros H. by apply (run_asked (Call o)), (wf_called _ _ (program_safe _ _ _ Hw)). Qed.

Lemma run_committed o b v : (o, b, v) ∈ m_commits (w_store w) -> call_permitted c BodyLimit s o.
Proof using Hw. intros H. apply run_called. right. right. by exists b, v. Qed.

(** A reply keeps its promise. *)
Lemma run_replied o a : Program.replied s o a -> exists cm, promise o a cm db.
Proof using Hw. intros (cm & H). exists cm. by apply reached_promise; [apply run_reaches|]. Qed.

(** ** Messages *)

(** What a reply to a command says of the provider. *)
Lemma replied_provider c' hash m res bv d :
  Processing.replied c' hash m res bv d -> exists i row, stands d res i row
    /\ (forall m', m = Some m' -> delivered_before d m' i)
    /\ rq_provider (tr_request row) = Some (cProviderID c')
    /\ (m = None -> answers c' hash row).
Proof using Type.
  intros (i & row & Hs & Hd & H). exists i, row. split; [done|]. split; [done|].
  assert (Ha : answers c' hash row -> rq_provider (tr_request row) = Some (cProviderID c')).
  { intros [Hk _]. unfold has_key in Hk. by bools. }
  destruct (rsIdempotentReplay res); [destruct H as [[_ H]|(_ & (m' & -> & _) & H)]|destruct H as [_ H]];
    split; auto; done.
Qed.

(** C7: a message is acknowledged to the broker only when it was received,
    names a provider the queue is trusted with, and its outcome is in the books
    for good: a transaction of that provider the delivery is recorded for,
    whose result is the one the store answered. *)
Theorem acknowledged_is_committed receipt :
  Asked (Delete receipt) ∈ w_trace w ->
  exists m command inbox res i row,
    received s m /\ msReceipt m = receipt /\ message_says c m command inbox
    /\ cProviderID command ∈ TrustedProviders c
    /\ stands db res i row /\ delivered_before db inbox i
    /\ rq_provider (tr_request row) = Some (cProviderID command).
Proof using Hw.
  intros H. apply run_asked in H as (m & command & inbox & Hr & res & cm & Hm & He & Hs & Hlog).
  destruct (Decode_Ok _ _ _ _ Hs) as (Ht & Hn).
  destruct (reached_promise _ _ _ _ run_reaches Hlog) as (c' & hash & bv & Hc' & _ & _ & Hp).
  rewrite (NormalizeCommand_normal _ Hn) in Hc'. injection Hc' as <-.
  destruct (replied_provider _ _ _ _ _ _ Hp) as (i & row & Hst & Hd & Hprov & _).
  exists m, command, inbox, res, i, row. by split_and!; [..|apply Hd|].
Qed.

(** ** Publications *)

Lemma claimed_offers_event r : claimed s r -> offers_event db r.
Proof using Hw.
  intros (owner & limit & lease & rows & err & cm & Hlog & Hin).
  destruct (reached_promise _ _ _ _ run_reaches Hlog) as [Ho _]. by rewrite Forall_forall in Ho; apply Ho.
Qed.

(** C8: what goes to the broker is the outbox: every event published is a row
    of it, with the row's aggregate and payload, and a row marked published was
    accepted by the broker, as it stands. *)
Theorem publication_is_faithful :
  (forall e a p, Asked (Publish e a p) ∈ w_trace w ->
     exists i r, outbox db !! i = Some r /\ e = ID_String i
       /\ a = ID_String (ob_aggregate r) /\ p = ob_payload r)
  /\ forall i r, outbox db !! i = Some r -> ob_published r <> None ->
     sent s (ID_String i) (ID_String (ob_aggregate r)) (ob_payload r).
Proof using Hw.
  split.
  - intros e a p H. apply run_asked in H as (x & Hx & <- & <- & <-).
    destruct (claimed_offers_event x Hx) as (i & r & ? & ? & _ & ? & ?). by exists i, r.
  - intros i r Hi Hp. destruct (published_by _ _ _ run_reaches Hi Hp) as (id & token & b & v & Hin & Hid).
    destruct (run_committed _ _ _ Hin) as (x & Hx & <- & _ & Hsent).
    destruct (claimed_offers_event x Hx) as (j & r' & Hj & Ej & _ & Ea & Epay). rewrite Ej in *.
    assert (i = j) as <-.
    { apply (inj ID_String). pose proof (ParseID_nonzero _ _ Hid) as Hz. unfold ParseID in Hid.
      destruct (_ || _); [done|]. destruct (ID_String_shape j) as (_ & _ & _ & _ & _ & E). rewrite E in Hid.
      rewrite Hex.decode_encode in Hid. cbn in Hid. rewrite ID_of_bytes_id in Hid.
      case_bool_decide; [done|]. by injection Hid as ->. }
    rewrite Hi in Hj. injection Hj as <-. by rewrite <- Ea, <- Epay.
Qed.

(** ** Measurements *)

(** C24: no measurement can make a process panic, and the labels a collector
    limits stay within its limits: collectors have distinct names; whatever a
    run measures names one of them, with a value for each of its labels and no
    other, each within the values it is limited to; and the commands of the
    queue are measured under the five kinds. *)
Theorem measurements_are_declared name labels :
  Asked (Meter name labels) ∈ w_trace w ->
  NoDup (co_name <$> registry)
  /\ (exists c, c ∈ registry /\ co_name c = name
      /\ Forall2 (fun d v => forall l, limits name d = Some l -> v ∈ l) (co_labels c) labels)
  /\ forall kind rest, labels = "sqs" :: kind :: rest -> name = WagerDuration \/ name = Results -> kind ∈ kinds.
Proof using Hw.
  intros H. apply run_asked in H. cbn in H. unfold labelled in H.
  destruct (find_collector name) as [col|] eqn:Ef; [|done]. apply andb_true_iff in H as [Hv Hk].
  apply List.find_some in Ef as [Hin En]. apply list_elem_of_In in Hin. bools.
  split; [exact registry_distinct|]. split.
  - exists col. split; [done|]. split; [done|]. by apply values_ok_spec.
  - intros kind rest -> Hn. unfold queue_kind_ok in Hk.
    destruct ((name == WagerDuration) || (name == Results)) eqn:E.
    + by apply among_spec.
    + apply orb_false_iff in E as [E1 E2]. bools. by destruct Hn.
Qed.

(** ** Who moves money *)

(** What a message of a trusted provider asks for: the members of its data, the
    key among them. *)
Definition message_request (m : Message) (command : Command) : Prop :=
  exists e, envelope_of (msBody m) = Some e /\ dtProviderID (rqeData e) ∈ TrustedProviders c
    /\ wager_says (rqeData e) command /\ cIdempotencyKey command = dtIdempotencyKey (rqeData e).

Lemma message_says_request m command inbox : message_says c m command inbox -> message_request m command.
Proof using Type.
  unfold message_says, Decode. destruct (envelope_of (msBody m)) as [e|] eqn:Ee; [|done].
  destruct (negb _) eqn:Ep; [done|]. apply negb_false_iff, existsb_exists in Ep as (x & Hx & E). bools.
  intros H. apply bind_Ok in H as (money & Hm & H). apply bind_Ok in H as (command' & Hn & H).
  apply bind_Ok in H as (hash & _ & [= <- _]). exists e. split; [done|].
  split; [rewrite E; by apply list_elem_of_In|].
  apply NormalizeCommand_inv in Hn as (Hn & player & wallet & Hp & Hwal & ->). cbn in Hp, Hwal. split; [|done].
  constructor; cbn; try done.
  - exists wallet. split; [done|]. by eapply ParseID_canonical.
  - exists player. split; [done|]. by eapply ParseID_canonical.
  - apply externalKind_upper. apply (nm_kind _ Hn).
Qed.

(** Somebody entitled to asked for the command: an HTTP request that came in with
    a verified token of its provider, or a received message of a trusted one. *)
Definition requested (command : Command) : Prop :=
  (exists rq, incoming s rq /\ provider_may s rq "wager:write" (cProviderID command)
     /\ wager_request BodyLimit rq command)
  \/ exists m, received s m /\ message_request m command.

(** An operator asked for the wallet. *)
Definition ordered (cw : CreateWalletCommand) : Prop :=
  exists rq, incoming s rq /\ operator_may s rq "wallet:write" /\ wallet_request BodyLimit rq cw.

Lemma run_ordered cw H b v : (OpCreateWallet cw H, b, v) ∈ m_commits (w_store w) -> ordered cw.
Proof using Hw.
  intros Hin. destruct (run_committed _ _ _ Hin) as (rq & Hi & Hp & Ho). exists rq. split; [done|]. split; [done|].
  unfold op_of in Ho. by destruct (hrEndpoint rq).
Qed.

(** C9: money has a cause: every transaction other than an opening carries, field
    for field (provider, external identity, key, wallet, player, round, game,
    kind, amount and currency, reference, and the hash of the command), what an
    HTTP request that came in with a verified token of its provider with
    [wager:write] says in its body and its key header, or what a received message
    of a trusted provider says; every opening, and every wallet, is the player's
    and of the amount and currency that a request with an operator's verified
    token with [wallet:write] asked for. *)
Theorem money_is_authorized :
  (forall i r, wagers db !! i = Some r ->
     if rq_kind (tr_request r) == KindOpening then exists cw, ordered cw /\ asks_opening cw (tr_request r)
     else exists command, requested command /\ asks command (tr_request r))
  /\ forall k row, wallets db !! k = Some row ->
     exists cw, ordered cw /\ ParseID (cwPlayerID cw) = Ok (wr_player row)
       /\ currency (cwInitialBalance cw) = wr_currency row.
Proof using Hw.
  split.
  - intros i r Hi. destruct (brought_by _ _ _ run_reaches Hi) as (o & b & v & Hin & Hb).
    destruct o as [cw H|command [inbox|] H| | | | | | | | | | | | |]; try done; cbn in Hb.
    + rewrite bool_decide_eq_true_2 by apply Hb. exists cw. split; [by eapply run_ordered|done].
    + rewrite bool_decide_eq_false_2 by (intros E; destruct (as_kind _ _ Hb) as [_ Hx]; by rewrite E in Hx).
      exists command. split; [right|done]. destruct (run_committed _ _ _ Hin) as (m & Hm & Hs).
      exists m. split; [done|]. by eapply message_says_request.
    + rewrite bool_decide_eq_false_2 by (intros E; destruct (as_kind _ _ Hb) as [_ Hx]; by rewrite E in Hx).
      exists command. split; [left|done]. destruct (run_committed _ _ _ Hin) as (rq & Hc & Hp & Ho).
      exists rq. split; [done|]. split; [done|]. unfold op_of in Ho. by destruct (hrEndpoint rq).
  - intros k row Hk. destruct (opened_by _ _ _ run_reaches Hk) as (cw & H & b & v & Hin & Hp & Hc).
    exists cw. split; [by eapply run_ordered|done].
Qed.

(** ** What clients are told *)

(** The books' view of a report to a client, for a request whose own token
    was verified with the scope of its route: it is of a wallet, a transaction or
    a ledger as the books had them. *)
Definition truthful (rq : Request) (status : Z) (b : Body) : Prop :=
  match hrEndpoint rq, b with
  | PostWallet, BodyWallet v => status = 201 /\ operator_may s rq "wallet:write"
      /\ exists cw k player now row n, wallet_request BodyLimit rq cw /\ ParseID (cwPlayerID cw) = Ok player
        /\ v = mkWalletView (ID_String k) (ID_String player) (cwInitialBalance cw) 1 now now
        /\ wallets db !! k = Some row
        /\ wallet_grows (new_row player (currency (cwInitialBalance cw)) (minor (cwInitialBalance cw)) now) row
        /\ minor (cwInitialBalance cw) = ledger_sum (take n (entries k db))
  | GetWalletByID w, BodyWallet v => status = 200 /\ operator_may s rq "wallet:read"
      /\ exists k, ParseID w = Ok k /\ wallet_had db k v
  | PostTransaction, BodyResult r => status = result_status r
      /\ exists command c' hash i row, wager_request BodyLimit rq command
        /\ provider_may s rq "wager:write" (cProviderID command)
        /\ NormalizeCommand command = Ok c' /\ PayloadHash c' = Ok hash
        /\ stands db r i row /\ answers c' hash row
  | GetTransactionByID t, BodyResult r => status = 200
      /\ exists provider i row, provider_may s rq "wager:read" provider /\ ParseID t = Ok i
        /\ stands db r i row /\ rq_provider (tr_request row) = Some provider
  | GetProviderTransaction provider external, BodyResult r => status = 200
      /\ provider_may s rq "wager:read" provider
      /\ exists i row, stands db r i row /\ rq_provider (tr_request row) = Some provider
        /\ rq_external (tr_request row) = Some external
  | GetLedger w limit cursor, BodyPage p => status = 200 /\ operator_may s rq "wallet:read"
      /\ exists k n d0, ParseID w = Ok k /\ page_limit limit = Some n /\ 1 <= n <= 100
        /\ consistent d0 /\ evolves d0 db /\ ledger_page d0 (ID_String k) k n cursor = Ok p
        /\ Z.of_nat (length (lpEntries p)) <= n
        /\ forall v, v ∈ lpEntries p -> exists e, e ∈ entries k db /\ v = entry_view (ID_String k) e
  | PostReconciliation w, BodyReconciliation r => status = 200 /\ operator_may s rq "wallet:reconcile"
      /\ exists k n, ParseID w = Ok k /\ rcnWalletID r = ID_String k /\ rcnConsistent r = true
        /\ rcnStoredBalance r = rcnCalculatedBalance r /\ rcnCheckedEntries r = Z.of_nat n
        /\ minor (rcnStoredBalance r) = ledger_sum (take n (entries k db))
  | HealthLive, BodyHealth text => status = 200 /\ text = "live"
  | HealthReady, BodyHealth text => status = 200 /\ text = "ready" /\ Answered Ready (Ok tt) ∈ s.2
  | _, _ => False
  end.

(** Failures have their cause, and a report JSON cannot carry is replaced. *)
Definition honest (rq : Request) (status : Z) (b : Body) : Prop :=
  match b with
  | BodyFailure code _ _ => 400 <= status < 600 /\ fails BodyLimit s rq status code
  | BodyText _ => status = 500 /\ exists status' b' e, truthful rq status' b' /\ render b' = Err e
  | b => truthful rq status b
  end.

Lemma entries_evolve d d' k e : evolves d d' -> e ∈ entries k d -> e ∈ entries k d'.
Proof using Type.
  intros He H. apply list_elem_of_filter in H as [Hk H]. apply list_elem_of_filter. split; [done|].
  destruct (ev_ledger _ _ He) as [l ->]. apply elem_of_app. by left.
Qed.

Lemma created_truthfully rq cw H v :
  wallet_request BodyLimit rq cw -> Program.replied s (OpCreateWallet cw H) (RpWallet (Ok v)) ->
  exists k player now row n, ParseID (cwPlayerID cw) = Ok player
    /\ v = mkWalletView (ID_String k) (ID_String player) (cwInitialBalance cw) 1 now now
    /\ wallets db !! k = Some row
    /\ wallet_grows (new_row player (currency (cwInitialBalance cw)) (minor (cwInitialBalance cw)) now) row
    /\ minor (cwInitialBalance cw) = ledger_sum (take n (entries k db)).
Proof using Hw.
  intros _ (cm & Hlog). pose proof (reached_promise _ _ _ _ run_reaches Hlog) as Hp.
  destruct Hp as (b & d & k & player & now & row & -> & Hcs & Hv & Hrow & Hgrows).
  pose proof (snd_logged _ _ _ _ (store_sound _ run_reaches) _ _ _ _ Hlog) as Hcm.
  destruct (reached_commit _ _ _ _ run_reaches Hcm) as (_ & _ & Hc & _ & He).
  destruct (cs_wallet _ Hc _ _ (Opening.ct_row _ _ _ _ _ _ Hcs)) as (_ & Hch & _). pose proof (chained_sum _ _ _ Hch) as Hsum.
  exists k, player, now, row, (length (entries k d)). split_and!; [apply (Opening.ct_player _ _ _ _ _ _ Hcs)|done..|].
  rewrite <- entries_taken by done. cbn in Hsum. lia.
Qed.

Lemma says_truthful rq status b : says BodyLimit s rq status b -> truthful rq status b.
Proof using Hw.
  unfold says, truthful. destruct (hrEndpoint rq) as [|k|k lim cur|k| |t|p ext| |], b as [v|r|pg|rc|cd msg corr|st|txt]; try done.
  - intros (-> & cw & Hr & Hreq & Hp & H). split; [done|]. split; [done|].
    destruct (created_truthfully rq cw Hr v Hreq H) as (k & player & now & row & n & H').
    by exists cw, k, player, now, row, n.
  - intros (-> & id & Hid & Hp & H). split; [done|]. split; [done|].
    apply run_replied in H as (cm & _ & k' & Hk' & Hv). exists id. split; [done|].
    rewrite (ParseID_canonical _ _ Hid) in Hk'. injection Hk' as <-. by apply wallet_seen_had.
  - intros (-> & id & n & Hid & Hn & Hp & H). split; [done|]. split; [done|].
    apply run_replied in H as (cm & _ & k' & d0 & Hk' & Hm & Hc & He & _ & Hpage).
    rewrite (ParseID_canonical _ _ Hid) in Hk'. injection Hk' as <-.
    destruct (page_shows _ _ _ _ _ _ Hc (proj1 Hm) Hpage) as [Hlen Hin]. exists id, n, d0.
    split_and!; try done; try lia. intros v Hv. destruct (Hin v Hv) as (e & Hentry & ->). exists e.
    split; [by eapply entries_evolve|done].
  - intros (-> & id & Hid & Hp & H). split; [done|]. split; [done|].
    apply run_replied in H as (cm & _ & d0 & Hc & He & k' & row & Hk' & Hrow & ->). cbn.
    rewrite (ParseID_canonical _ _ Hid) in Hk'. injection Hk' as <-.
    destruct (reconcile_row _ _ _ Hc Hrow) as (Hsum & _). exists id, (length (entries id d0)).
    rewrite <- entries_taken by done. rewrite <- Hsum. by split_and!.
  - intros (-> & command & Hr & Hreq & Hp & H). split; [done|].
    apply run_replied in H as (cm & c' & hash & bv & Hn & Hh & _ & H).
    destruct (replied_provider _ _ _ _ _ _ H) as (i & row & Hs & _ & _ & Ha).
    exists command, c', hash, i, row. split_and!; try done. by apply Ha.
  - intros (-> & provider & id & Hid & Hp & H). split; [done|].
    apply run_replied in H as (cm & _ & i & row & Hs & Hprov & Hi).
    rewrite (ParseID_canonical _ _ Hid) in Hi. injection Hi as <-. by exists provider, id, row.
  - intros (-> & Hp & H). split; [done|]. split; [done|].
    apply run_replied in H as (cm & _ & i & row & Hs & Hprov & Hid). by exists i, row.
Qed.

(** C10: what a client is told is true and his to know.  The answer is to a
    request that came in.  A report follows the verification of that request's own
    bearer token, of a principal with the route's scope (its own provider, or an
    operator): a result stands in the books for that provider (for what the
    request's body and key ask, when it was posted); a wallet just opened is the
    one the body asked for, a wallet read is one the books have, at a version it
    has had and with a balance that the first entries of its ledger add up to; a
    page is the page of its wallet's ledger, of at most the entries asked for; a
    reconciliation is consistent, over the first entries of the ledger.  A
    failure has the status and the code of its cause in this request: its
    correlation, token, scope, provider, content type, size, JSON, key, limit,
    cursor or identities, or the error the store answered to the call it asks
    for. *)
Theorem responses_are_true rq status b :
  Asked (Respond rq status b) ∈ w_trace w -> incoming s rq /\ honest rq status b.
Proof using Hw.
  intros H. apply run_asked in H as [Hi H]. split; [done|]. unfold reports in H.
  destruct b as [v|r|pg|rc|cd msg corr|st|txt]; cbn [honest]; try by apply says_truthful.
  - split; [by eapply fails_range|done].
  - destruct H as (-> & status' & b' & e & Hs & He). split; [done|]. exists status', b', e.
    split; [by apply says_truthful|done].
Qed.
End delivery.

(** ** One goroutine at a time *)

(** C25: every HTTP request is answered, exactly once: whatever is in it and
    whatever the store, the identity provider and the clock answer, its
    goroutine comes to an end, having written one response, to that request;
    the replies it relies on are of the types the store's methods return, and
    so are all the replies of any run. *)
Theorem every_request_is_answered BodyLimit rq outside :
  (forall tr r, proper r (outside tr r)) ->
  (exists tr status b, follow outside (serve BodyLimit rq) [] = Some (true, tr)
     /\ omap response tr = [(rq, status, b)])
  /\ forall m o a cm, reaches m -> (o, a, cm) ∈ m_log m -> fits o a = true.
Proof.
  intros Ho. split.
  - destruct (serve_to outside Ho BodyLimit rq [] eq_refl) as (b & tr & H & -> & status & body & Hr).
    by exists tr, status, body.
  - intros m o a cm Hr Hin. eapply promise_fits, reached_promise; [exact Hr|exact Hin].
Qed.



(** C36: a configuration that loads is well formed: its process, shutdown and
    visibility times are in order with ten seconds to spare, leases outlive
    the work, no sum of them overflows, and the claims the engine makes with it
    are ones the store accepts. *)
Theorem loaded_is_well_formed Getenv host pid c :
  Load Getenv host pid = Ok c ->
  config_ok c /\ publishBatch c = PublishBatch c
  /\ bad_claim (InstanceID c) (publishBatch c) (Lease c) = false
  /\ bad_claim (InstanceID c) (Concurrency c) (Lease c) = false.
Proof.
  intros H. apply Load_ok in H as Hc.
  destruct Hc as [Ho Hb Hcc Hn Ha Ht Hor Hv Hs Hl Hp].
  assert (Hpb : publishBatch c = PublishBatch c) by (unfold publishBatch; destruct (_ <? 1) eqn:E; bools; lia).
  split; [by constructor|]. split; [done|]. rewrite Hpb. unfold bad_claim, Time.Second, MaxOutboxBatch in *.
  rewrite bool_decide_eq_false_2 by done.
  split; rewrite !orb_false_iff, !Z.ltb_ge, Z.leb_gt; lia.
Qed.

(** ** At the rehearsal *)

(** An outside that answers, and a store that does not. *)
Definition outage (_ : list event) (r : request) : answer r :=
  let down := AppError "UNAVAILABLE" in
  match r with
  | Call o =>
      match o with
      | OpCreateWallet _ _ | OpGetWallet _ => RpWallet (Err down)
      | OpProcessWager _ _ _ | OpGetTransaction _ _ | OpGetExternalTransaction _ _ | OpRetryReference _ _ _ =>
          RpResult (Err down)
      | OpClaimOutbox _ _ _ => RpOutbox [] (Some down)
      | OpClaimReferences _ _ _ => RpReferences [] (Some down)
      | OpMarkPublished _ _ | OpRetryOutbox _ _ _ | OpReleaseOutbox _ | OpReleaseReferences _ => RpDone (Err down)
      | OpBacklog => RpBacklog (Err down)
      | OpLedger _ _ _ => RpPage (Err down)
      | OpReconcile _ => RpReconciliation (Err down)
      end
  | r => outside [] r
  end.

Lemma outage_proper tr r : proper r (outage tr r).
Proof. destruct r; try done. by destruct o. Qed.

Lemma every_request_is_answered_witness :
  (forall tr r, proper r (outage tr r))
  /\ exists tr status b, follow outage (serve body_limit open_wallet) [] = Some (true, tr)
       /\ omap response tr = [(open_wallet, status, b)].
Proof.
  split; [exact outage_proper|].
  exact (proj1 (every_request_is_answered body_limit open_wallet outage outage_proper)).
Defined.


Definition claimed_event : OutboxRecord := mkOutboxRecord "event-1" "wallet.updated" "wallet-1" "token-1" "{}" 3.


Lemma loaded_is_well_formed_witness :
  loaded = Ok settings /\ config_ok settings /\ bad_claim "engine-1" 100 (105 * Time.Second) = false.
Proof.
  assert (H : Load environment (Some "host") 7 = Ok settings) by (vm_compute; reflexivity).
  destruct (loaded_is_well_formed environment (Some "host") 7 settings H) as (Hc & _ & _).
  split; [exact H|]. split; [exact Hc|reflexivity].
Defined.

Lemma acknowledged_is_committed_witness :
  exists w m command inbox res i row, runs settings body_limit w
    /\ received (scene_of w) m /\ msReceipt m = "receipt-1" /\ message_says settings m command inbox
    /\ stands (m_db (w_store w)) res i row /\ delivered_before (m_db (w_store w)) inbox i.
Proof.
  destruct rehearsal_runs as (w & Hw & Hr). pose proof (rehearsed_deleted _ _ Hr) as Hd.
  destruct (acknowledged_is_committed settings body_limit w Hw "receipt-1" Hd)
    as (m & command & inbox & res & i & row & H1 & H2 & H3 & _ & H4 & H5 & _).
  exists w, m, command, inbox, res, i, row. exact (conj Hw (conj H1 (conj H2 (conj H3 (conj H4 H5))))).
Defined.

Lemma publication_is_faithful_witness :
  exists w r, runs settings body_limit w /\ outbox (m_db (w_store w)) !! wallet_event = Some r
    /\ sent (scene_of w) (ID_String wallet_event) (ID_String (ob_aggregate r)) (ob_payload r).
Proof.
  destruct rehearsal_runs as (w & Hw & Hr). destruct (rehearsed_marked _ _ Hr) as (r & Hi & Hp).
  exists w, r. split; [exact Hw|]. split; [exact Hi|].
  exact (proj2 (publication_is_faithful settings body_limit w Hw) wallet_event r Hi Hp).
Defined.

Lemma money_is_authorized_witness :
  exists w r command, runs settings body_limit w /\ wagers (m_db (w_store w)) !! the_bet = Some r
    /\ requested settings body_limit w command /\ asks command (tr_request r).
Proof.
  destruct rehearsal_runs as (w & Hw & Hr). destruct (rehearsed_bet _ _ Hr) as (r & Hi & Hk).
  pose proof (proj1 (money_is_authorized settings body_limit w Hw) the_bet r Hi) as H.
  rewrite Hk in H. destruct H as (command & H1 & H2).
  exists w, r, command. exact (conj Hw (conj Hi (conj H1 H2))).
Defined.

Lemma responses_are_true_witness :
  exists w, runs settings body_limit w
    /\ incoming (scene_of w) read_back /\ honest body_limit w read_back 200 read_answer.
Proof.
  destruct rehearsal_runs as (w & Hw & Hr). exists w. split; [exact Hw|].
  exact (responses_are_true settings body_limit w Hw read_back 200 read_answer (rehearsed_response _ _ Hr)).
Defined.

Lemma measurements_are_declared_witness :
  exists w, runs settings body_limit w
    /\ Asked (Meter WagerDuration ["sqs"; "BET"; "PROCESSED"]) ∈ w_trace w /\ "BET" ∈ kinds.
Proof.
  destruct rehearsal_runs as (w & Hw & Hr). pose proof (rehearsed_measured _ _ Hr) as Hm.
  destruct (measurements_are_declared settings body_limit w Hw _ _ Hm) as (_ & _ & H).
  exists w. split; [exact Hw|]. split; [exact Hm|]. exact (H "BET" _ eq_refl (or_introl eq_refl)).
Defined.
