(* ===== verification/Stopping.v ===== *)
(** * The engine stops when it is told to

    [Engine.Stop] of [internal/workers/engine.go] cancels the intake and waits
    for the loops.  From then on every goroutine of the engine takes finitely
    many steps, however they interleave and whatever the store and the broker
    answer, and is never stuck on its own; and as long as the intake is open no
    loop ends. *)

From S2P Require Import Prelude GoStd Errors Command Config Session Machine Read System Oidc Tasks Service.
From S2P Require Import Transport Engine Http Program Conduct.

(** ** One step of a list *)

Section lists.
Context {A : Type} (R : A -> A -> Prop).

(** One element steps down. *)
Definition one_less (l' l : list A) : Prop :=
  exists l1 x x' l2, l = l1 ++ x :: l2 /\ l' = l1 ++ x' :: l2 /\ R x' x.

Lemma one_less_cons l' x l :
  one_less l' (x :: l) -> (exists x', R x' x /\ l' = x' :: l) \/ (exists l2, one_less l2 l /\ l' = x :: l2).
Proof using Type.
  intros ([|y l1] & z & z' & l2 & E & -> & Hz); cbn in E; injection E as -> ->.
  - left. by exists z'.
  - right. exists (l1 ++ z' :: l2). split; [by exists l1, z, z', l2|done].
Qed.

Lemma Acc_list l : Forall (Acc R) l -> Acc one_less l.
Proof using Type.
  induction 1 as [|x l Hx _ IH].
  - constructor. intros l' ([|] & x & x' & l2 & E & _); done.
  - revert l IH. induction Hx as [x _ IHx]. intros l Hl. induction Hl as [l Hl IHl].
    constructor. intros l' H. apply one_less_cons in H as [(x' & Hx & ->)|(l2 & H & ->)].
    + apply IHx; [done|]. by constructor.
    + by apply IHl.
Qed.
End lists.

Section stopping.
Context (c : Config).
Local Notation tstep := (tstep (round c)).

(** ** Every step is one of the last *)

(** The intake has been cancelled: whoever asks is told so. *)
Definition cancelled (s s' : scene) : Prop := forall b, s'.2 = Answered (Cancelled Intake) b :: s.2 -> b = true.

Definition stop_step (th' th : thread) : Prop := exists s s', tstep s th s' th' /\ cancelled s s'.

(** What one step of a thread can be. *)
Definition step_view (s : scene) (th : thread) (s' : scene) (th' : thread) : Prop :=
  match th with
  | Running (Done _) => False
  | Running (Ask r k) =>
      th' = Waiting r k
      \/ match r return (answer r -> task) -> Prop with
         | Call o => fun k => exists n, th' = Calling n o k
         | _ => fun _ => False
         end k
  | Running (Par ts k) => th' = Joining (Running <$> ts) k
  | Running (Again l) => th' = Running (round c l)
  | Waiting r k => exists a, th' = Running (k a) /\ s'.2 = Answered r a :: s.2
  | Calling n o k => exists a, th' = Running (k a)
  | Joining ths k =>
      (exists bs, th' = Running (k bs))
      \/ exists ths1 x x' ths2, ths = ths1 ++ x :: ths2 /\ th' = Joining (ths1 ++ x' :: ths2) k /\ tstep s x s' x'
  end.

Lemma tstep_view s th s' th' : tstep s th s' th' -> step_view s th s' th'.
Proof using Type.
  destruct 1 as [m tr r k Hr|m tr r k a Ha|d ss lg cm tr n o k Hn|d ss1 ss2 lg cm tr n o a s0 k|s0 l|s0 ts k
    |s0 th0 s' th' ths1 ths2 k Hst|s0 bs k]; cbn; eauto 10.
Qed.

(** What a stopping thread can become. *)
Lemma stop_view th' th : stop_step th' th ->
  match th with
  | Running (Done _) => False
  | Running (Ask r k) =>
      th' = Waiting r k
      \/ match r return (answer r -> task) -> Prop with
         | Call o => fun k => exists n, th' = Calling n o k
         | _ => fun _ => False
         end k
  | Running (Par ts k) => th' = Joining (Running <$> ts) k
  | Running (Again l) => th' = Running (round c l)
  | Waiting r k => exists a, th' = Running (k a)
  | Calling n o k => exists a, th' = Running (k a)
  | Joining ths k => (exists bs, th' = Running (k bs)) \/ exists ths', th' = Joining ths' k /\ one_less stop_step ths' ths
  end.
Proof using Type.
  intros (s & s' & H & Hc). apply tstep_view in H. destruct th as [[]| | |]; cbn in H; try done.
  - destruct H as (a & -> & _). by exists a.
  - destruct H as [H|(ths1 & x & x' & ths2 & -> & -> & H)]; [by left|]. right. eexists. split; [done|].
    exists ths1, x, x', ths2. split_and!; [done|done|]. by exists s, s'.
Qed.

Lemma stops_if th : (forall th', stop_step th' th -> Acc stop_step th') -> Acc stop_step th.
Proof using Type. by constructor. Qed.

Lemma done_stops b : Acc stop_step (Running (Done b)).
Proof using Type. apply stops_if. intros th H. by apply stop_view in H. Qed.

(** Every round begins by looking at the intake. *)
Lemma round_looks l : exists k, round c l = Ask (Cancelled Intake) k /\ k true = Done true.
Proof using Type. destruct l; by eexists. Qed.

Lemma round_stops l : Acc stop_step (Running (round c l)).
Proof using Type.
  destruct (round_looks l) as (k & -> & Hk). apply stops_if. intros th H. apply stop_view in H as [->|[]].
  apply stops_if. intros th (s & s' & H & Hc). apply tstep_view in H as (a & -> & Ha).
  apply Hc in Ha as ->. rewrite Hk. apply done_stops.
Qed.

Lemma joining_stops ths k :
  Acc (one_less stop_step) ths -> (forall bs, Acc stop_step (Running (k bs))) -> Acc stop_step (Joining ths k).
Proof using Type.
  intros H Hk. induction H as [ths _ IH]. apply stops_if. intros th H.
  apply stop_view in H as [(bs & ->)|(ths' & -> & H)]; [apply Hk|by apply IH].
Qed.

Lemma task_stops t : Acc stop_step (Running t).
Proof using Type.
  revert t. fix IH 1. intros [b|r k|ts k|l].
  - apply done_stops.
  - apply stops_if. intros th H. apply stop_view in H.
    assert (Hw : Acc stop_step (Waiting r k)).
    { apply stops_if. intros th' H'. apply stop_view in H' as (a & ->). apply IH. }
    destruct H as [->|H]; [exact Hw|]. clear Hw. destruct r; [|contradiction..]. destruct H as (n & ->).
    apply stops_if. intros th' H'. apply stop_view in H' as (a & ->). apply IH.
  - apply stops_if. intros th H. apply stop_view in H as ->. apply joining_stops; [|intros bs; apply IH].
    apply Acc_list. induction ts as [|t ts IHts]; cbn; [constructor|]. constructor; [apply IH|apply IHts].
  - apply stops_if. intros th H. apply stop_view in H as ->. apply round_stops.
Qed.

(** Wherever a goroutine is, what is left of it is finite. *)
Lemma thread_stops th : Acc stop_step th.
Proof using Type.
  revert th. fix IH 1. intros [t|r k|n o k|ths k].
  - apply task_stops.
  - apply stops_if. intros th H. apply stop_view in H as (a & ->). apply task_stops.
  - apply stops_if. intros th H. apply stop_view in H as (a & ->). apply task_stops.
  - apply joining_stops; [|intros bs; apply task_stops].
    apply Acc_list. induction ths as [|th ths IHts]; [constructor|]. constructor; [apply IH|apply IHts].
Qed.

(** ** It is not stuck *)

(** It waits for a call of the store that is under way. *)
Fixpoint at_store (th : thread) : Prop :=
  match th with
  | Calling _ _ _ => True
  | Joining ths _ =>
      (fix any (ths : list thread) : Prop := match ths with [] => False | th :: ths => at_store th \/ any ths end) ths
  | _ => False
  end.

Lemma at_store_joining ths k : at_store (Joining ths k) <-> Exists at_store ths.
Proof using Type. induction ths as [|th ths IH]; [by rewrite Exists_nil|]. by rewrite Exists_cons, <- IH. Qed.

(** What the event says of the intake. *)
Definition intake_said (e : event) : bool :=
  match e with
  | Answered r a => match r return answer r -> bool with Cancelled Intake => fun b => b | _ => fun _ => true end a
  | Asked _ | Started _ => true
  end.

(** An answer that is always allowed then. *)
Definition stopping_answer (r : request) : answer r :=
  match r with
  | Call _ => RpDone (Ok tt)
  | Receive _ | DLQDepths | Validate _ | RandomID => Err (OtherError "context canceled")
  | Delete _ | Visibility _ _ | Publish _ _ _ | Ready => Err (OtherError "context canceled")
  | Cancelled _ => true
  | Wait _ | TooLarge => false
  | Int64N _ => 0
  | Arrived => 0%nat
  | Meter _ _ | Respond _ _ _ => tt
  end.

Definition can_go (s : scene) (th : thread) : Prop := exists s' th', tstep s th s' th' /\ cancelled s s'.

Lemma same_cancelled s : cancelled s s.
Proof using Type. intros b H. apply (f_equal length) in H. cbn in H. lia. Qed.

Lemma task_goes t s : (exists b, t = Done b) \/ can_go s (Running t).
Proof using Type.
  destruct s as [m tr], t as [b|r k|ts k|l]; [left; by exists b|right..].
  - destruct (is_call r) eqn:E.
    + destruct r as [o| | | | | | | | | | | | | | |]; try done. destruct m as [d ss lg cm].
      pose proof (infinite_is_fresh (ss.*1)) as Hn.
      eexists _, _. split; [exact (ts_call _ d ss lg cm tr _ o k Hn)|by intros b [=]].
    + eexists _, _. split; [by apply ts_ask|by intros b [=]].
  - eexists _, _. split; [apply ts_par|apply same_cancelled].
  - eexists _, _. split; [apply ts_again|apply same_cancelled].
Qed.

Lemma waiting_goes r k s : can_go s (Waiting r k).
Proof using Type.
  destruct s as [m tr]. eexists _, _. split; [by apply (ts_answer _ m tr r k (stopping_answer r)); destruct r|].
  intros b E. apply (f_equal (from_option intake_said true ∘ head)) in E. cbn in E. rewrite <- E.
  by destruct r as [| | | | | |[]| | | | | | | | |].
Qed.

Definition is_done (th : thread) : Prop := exists b, th = Running (Done b).

Lemma all_done ths : Forall is_done ths -> exists bs, ths = (Running ∘ Done <$> bs : list thread).
Proof using Type.
  induction 1 as [|th ths (b & ->) _ (bs & ->)]; [by exists []|]. by exists (b :: bs).
Qed.

Lemma children_go ths s (H : Forall (fun th => is_done th \/ at_store th \/ can_go s th) ths) :
  Forall is_done ths \/ Exists at_store ths \/ Exists (can_go s) ths.
Proof using Type.
  induction H as [|th ths H _ IH]; [by left; constructor|].
  destruct H as [H|[H|H]]; [|right; left; by left|right; right; by left].
  destruct IH as [IH|[IH|IH]]; [left; by constructor|right; left; by right|right; right; by right].
Qed.

Lemma thread_goes th s : is_done th \/ at_store th \/ can_go s th.
Proof using Type.
  revert th. fix IH 1. intros [t|r k|n o k|ths k].
  - destruct (task_goes t s) as [(b & ->)|H]; [left; by exists b|by right; right].
  - right. right. apply waiting_goes.
  - right. by left.
  - assert (H : Forall (fun th => is_done th \/ at_store th \/ can_go s th) ths).
    { induction ths as [|th ths IHts]; [constructor|]. constructor; [apply IH|apply IHts]. }
    clear IH. right. apply children_go in H as [H|[H|H]].
    + right. apply all_done in H as (bs & ->). eexists _, _. split; [apply ts_join|apply same_cancelled].
    + left. by apply at_store_joining.
    + right. apply Exists_exists in H as (x & Hx & s' & x' & Hst & Hc).
      apply list_elem_of_split in Hx as (ths1 & ths2 & ->). eexists _, _. split; [by apply ts_child|done].
Qed.

(** ** And does not end before *)

Definition still_open (r : request) : answer r -> Prop :=
  match r with
  | Cancelled Intake => fun b => b = false
  | Wait _ => fun fired => fired = true
  | _ => fun _ => True
  end.

(** It comes back for another round. *)
Fixpoint keeps_on (t : task) : Prop :=
  match t with
  | Done _ => False
  | Again _ => True
  | Ask r k => forall a, proper r a -> still_open r a -> keeps_on (k a)
  | Par _ k => forall bs, keeps_on (k bs)
  end.

Lemma pause_keeps_on d l : keeps_on (pause d l).
Proof using Type. by intros [] _ H. Qed.

Lemma set_depths_keeps_on l k : keeps_on k -> keeps_on (set_depths l k).
Proof using Type. intros H. induction l as [|[q n] l IH]; [done|]. by intros ? _ _. Qed.

Lemma arriving_keeps_on {A} (rows : list A) err k : (forall l, keeps_on (k l)) -> keeps_on (arriving rows err k).
Proof using Type. intros H. destruct err; [|apply H]. intros n _ _. apply H. Qed.

Lemma round_keeps_on l : keeps_on (round c l).
Proof using Type.
  destruct l; intros stop _ ->.
  - intros [ms|e] _ _; [by intros bs|]. intros stop _ ->. intros ? _ _. apply pause_keeps_on.
  - assert (Hd : forall rows, keeps_on (Par (publishOne <$> rows) (fun published =>
      if (Z.of_nat (length rows) =? publishBatch c)
         && (length (List.filter Datatypes.id published) =? length rows)%nat
      then Again PublishLoop else pause (PollInterval c) PublishLoop))).
    { intros rows bs. cbv beta. case (_ && _); [done|apply pause_keeps_on]. }
    intros a Ha _. destruct a as [| |rows [e|]| | | | |]; try done.
    intros stop _ ->. intros ? _ _. by apply arriving_keeps_on.
  - intros a Ha _. destruct a as [| | |rows err| | | |]; try done. apply arriving_keeps_on.
    intros l bs. apply pause_keeps_on.
  - assert (Hd : keeps_on (got <~ DLQDepths ;;
      match got : res (list (string * Z)) with
      | Ok l => set_depths l (pause (10 * Time.Second) ObserveLoop)
      | Err _ => pause (10 * Time.Second) ObserveLoop
      end)%task).
    { intros [l|e] _ _; [apply set_depths_keeps_on|]; apply pause_keeps_on. }
    intros a Ha _. destruct a as [| | | | |[b|e]| |]; try done. by intros ? _ _ ? _ _ ? _ _.
Qed.

(** C29: the engine stops when it is told to, and only then: once the intake is
    cancelled every goroutine, wherever it is, has finitely many steps left,
    however they interleave and whatever is answered, and until it is done it
    can take one, or waits for a call of the store; while the intake is open
    every loop comes back for another round. *)
Theorem engine_stops_when_told :
  (forall th, Acc stop_step th)
  /\ (forall th s, is_done th \/ at_store th \/ can_go s th)
  /\ forall l, keeps_on (round c l).
Proof using Type. split_and!; [exact thread_stops|exact thread_goes|exact round_keeps_on]. Qed.
End stopping.
