(* ===== verification/Broker.v ===== *)
(** * The client of the queues: [internal/adapters/sqs/client.go]

    The calls of the AWS SDK a method of [Client] makes, as a tree that branches
    on what the SDK answers.  The SDK is outside: nothing is assumed of its
    answers, and pointers in them are the texts [aws.ToString] reads.
    [net/url] is outside too: [rehost] is the rewriting of a queue's address to
    the host of a development endpoint. *)

From S2P Require Import Prelude Io GoStd Codec Errors Ident Money Command Config Transport Events Session.
From S2P Require Import Machine Database Work Books Leases Tending Retry System Tasks Engine Program Delivery.
From S2P Require Import Rehearsal Scenario.
Import Str.

(** ** The SDK *)

(** [types.Message]. *)
Record SdkMessage : Type := mkSdkMessage {
  smMessageId : string; smBody : string; smReceiptHandle : string; smAttributes : gmap string string
}.

Inductive call : Type :=
| GetQueueUrl (QueueName : string)
| GetQueueAttributes (QueueUrl Attribute : string)
| ReceiveMessage (QueueUrl : string) (MaxNumberOfMessages WaitTimeSeconds VisibilitySeconds : Z) (Attribute : string)
| DeleteMessage (QueueUrl ReceiptHandle : string)
| ChangeMessageVisibility (QueueUrl ReceiptHandle : string) (VisibilitySeconds : Z)
| SendMessage (QueueUrl MessageBody MessageGroupId MessageDeduplicationId : string).

Definition output (q : call) : Type :=
  match q with
  | GetQueueUrl _ => string
  | GetQueueAttributes _ _ => gmap string string
  | ReceiveMessage _ _ _ _ _ => list SdkMessage
  | DeleteMessage _ _ | ChangeMessageVisibility _ _ _ | SendMessage _ _ _ _ => unit
  end.

(** Methods of the client: calls of the SDK, each of which may fail. *)
#[local] Notation io := (io call (fun q => res (output q))).
#[local] Open Scope io_scope.

(** An [int32] conversion. *)
Definition int32 (z : Z) : Z := (z + 2 ^ 31) mod 2 ^ 32 - 2 ^ 31.

(** [n, _ := strconv.Atoi(s)]: an error leaves zero, or the nearest [int]. *)
Definition atoi (s : string) : Z :=
  match Strconv.ParseInt s with
  | Ok n => n
  | Err Strconv.ErrSyntax => 0
  | Err Strconv.ErrRange => if HasPrefix s "-" then Int64.MinInt64 else Int64.MaxInt64
  end.

(** ** The client *)

(** The addresses of the four queues; empty until [Start]. *)
Record Client : Type := mkClient {
  clInput : string; clOutput : string; clInputDLQ : string; clOutputDLQ : string
}.
Definition new_client : Client := mkClient "" "" "" "".

Definition LongPollWait : Z := 20 * Time.Second.

Section client.
Context (c : Config) (rehost : string -> string -> res string).

Definition targets : list (string * (string -> Client -> Client)) :=
  [(InputQueue c, fun u cl => mkClient u (clOutput cl) (clInputDLQ cl) (clOutputDLQ cl));
   (OutputQueue c, fun u cl => mkClient (clInput cl) u (clInputDLQ cl) (clOutputDLQ cl));
   (InputDLQ c, fun u cl => mkClient (clInput cl) (clOutput cl) u (clOutputDLQ cl));
   (OutputDLQ c, fun u cl => mkClient (clInput cl) (clOutput cl) (clInputDLQ cl) u)].

Fixpoint check_all (queues : list string) : io (res unit) :=
  match queues with
  | [] => Return (Ok tt)
  | q :: queues =>
      found <~ GetQueueAttributes q "QueueArn" ;;
      match found with
      | Err e => Return (Err (Wrapped "SQS readiness" e))
      | Ok _ => check_all queues
      end
  end.

Definition Check (cl : Client) : io (res unit) :=
  if (clInput cl == "") || (clOutput cl == "") then Return (Err (OtherError "SQS not initialized"))
  else check_all [clInput cl; clOutput cl].

(** Only a development endpoint has the addresses rewritten to its host. *)
Definition address (url : string) : res string :=
  if SQSEndpoint c == "" then Ok url else rehost url (SQSEndpoint c).

(** The target keeps the address as it came when the rewriting fails. *)
Fixpoint resolve_all (queues : list (string * (string -> Client -> Client))) (cl : Client)
    : io (Client * res unit) :=
  match queues with
  | [] => io_map (pair cl) (Check cl)
  | (name, set) :: queues =>
      found <~ GetQueueUrl name ;;
      match found with
      | Err e => Return (cl, Err (Wrapped ("resolve queue " +:+ name) e))
      | Ok url =>
          match address url with
          | Err e => Return (set url cl, Err e)
          | Ok u => resolve_all queues (set u cl)
          end
      end
  end.

Definition Start (cl : Client) : io (Client * res unit) := resolve_all targets cl.

Definition message_of (m : SdkMessage) : Message :=
  mkMessage (smMessageId m) (smBody m) (smReceiptHandle m)
    (atoi (default "" (smAttributes m !! "ApproximateReceiveCount"))).

Definition Receive (cl : Client) (max : Z) : io (res (list Message)) :=
  r <~ ReceiveMessage (clInput cl) (int32 max) (int32 (Z.quot LongPollWait Time.Second))
         (int32 (Z.quot (VisibilityTimeout c) Time.Second)) "ApproximateReceiveCount" ;;
  Return (match r with Err e => Err e | Ok l => Ok (message_of <$> l) end).

Definition Delete (cl : Client) (receipt : string) : io (res unit) :=
  r <~ DeleteMessage (clInput cl) receipt ;; Return r.

Definition Visibility (cl : Client) (receipt : string) (delay : Z) : io (res unit) :=
  r <~ ChangeMessageVisibility (clInput cl) receipt (int32 (Z.quot delay Time.Second)) ;; Return r.

Definition Publish (cl : Client) (eventID aggregateID payload : string) : io (res unit) :=
  r <~ SendMessage (clOutput cl) payload aggregateID eventID ;; Return r.

Fixpoint depths_of (queues : list (string * string)) (depths : list (string * Z))
    : io (list (string * Z) * res unit) :=
  match queues with
  | [] => Return (depths, Ok tt)
  | (name, url) :: queues =>
      if url == "" then depths_of queues depths
      else
        r <~ GetQueueAttributes url "ApproximateNumberOfMessages" ;;
        match r with
        | Err e => Return (depths, Err e)
        | Ok attributes =>
            match Strconv.ParseInt (default "" (attributes !! "ApproximateNumberOfMessages")) with
            | Err _ => Return (depths, Err (OtherError "strconv.ParseInt"))
            | Ok n => depths_of queues (depths ++ [(name, n)])
            end
        end
  end.

Definition DLQDepths (cl : Client) : io (list (string * Z) * res unit) :=
  depths_of [("input", clInputDLQ cl); ("output", clOutputDLQ cl)] [].

(** What the client does for a request of the engine, which reads the depths
    only when there is no error, or for a probe of readiness that comes to it
    (the process is ready and its pool answers). *)
Definition client_call (cl : Client) (r : request) : option (io (answer r)) :=
  match r with
  | Tasks.Receive max => Some (Receive cl max)
  | Tasks.Delete receipt => Some (Delete cl receipt)
  | Tasks.Visibility receipt delay => Some (Visibility cl receipt delay)
  | Tasks.Publish event aggregate payload => Some (Publish cl event aggregate payload)
  | Tasks.Ready => Some (Check cl)
  | Tasks.DLQDepths =>
      Some (io_map (fun '(depths, e) => match (e : res unit) with Ok _ => Ok depths | Err e => Err e end) (DLQDepths cl))
  | _ => None
  end.
End client.

(** ** [Start]: what it asks, and what it leaves *)

Section started.
Context (c : Config) (rehost : string -> string -> res string).

(** The address is the one the SDK gave for the queue of this name. *)
Definition resolved_to (l : list (exchange call (fun q => res (output q)))) (name url : string) : Prop :=
  exists found, Exchange (GetQueueUrl name) (Ok found) ∈ l /\ address c rehost found = Ok url.
Definition reachable_queue (l : list (exchange call (fun q => res (output q)))) (url : string) : Prop :=
  url <> "" /\ exists a, Exchange (GetQueueAttributes url "QueueArn") (Ok a) ∈ l.

Lemma resolve_all_ok queues cl l cl' :
  returns (resolve_all c rehost queues cl) l (cl', Ok tt) ->
  exists urls l', Forall2 (resolved_to l) queues.*1 urls
    /\ cl' = foldl (fun cl '(set, u) => set u cl) cl (zip queues.*2 urls)
    /\ l' ⊆ l /\ returns (Check cl') l' (Ok tt).
Proof using Type.
  revert cl l. induction queues as [|[name set] queues IH]; intros cl l H.
  - apply io_map_returns in H as (a & H & [= -> <-]). exists [], l. by split_and!.
  - cbn [resolve_all returns] in H. destruct H as (r & l1 & -> & H). destruct r as [url|e]; [|by destruct H].
    destruct (address c rehost url) as [u|e] eqn:Eu; [|by destruct H].
    apply IH in H as (urls & l' & Hu & -> & Hl & Hc). exists (u :: urls), l'. split_and!; [|done|set_solver|done].
    cbn. constructor; [exists url; split; [by left|done]|].
    eapply Forall2_impl; [exact Hu|]. intros x y (f & Hf & Ha). exists f. split; [by right|done].
Qed.

(** [Start] asks for the addresses of the configured queues, one after another,
    and then whether the two it was given for input and output are there. *)
Definition start_call (l : list (exchange call (fun q => res (output q)))) (q : call) : Prop :=
  match q with
  | GetQueueUrl name => name ∈ [InputQueue c; OutputQueue c; InputDLQ c; OutputDLQ c]
  | GetQueueAttributes url a =>
      a = "QueueArn" /\ url <> "" /\ exists name, name ∈ [InputQueue c; OutputQueue c] /\ resolved_to l name url
  | _ => False
  end.

Lemma check_all_calls queues l q : next_call (check_all queues) l q ->
  exists url, url ∈ queues /\ q = GetQueueAttributes url "QueueArn".
Proof using Type.
  revert l. induction queues as [|u queues IH]; intros l; cbn [check_all next_call]; [done|].
  intros [[_ ->]|(r & l' & -> & H)]; [exists u; split; [by left|done]|].
  destruct r as [a|e]; [|done]. apply IH in H as (v & Hv & ->). exists v. split; [by right|done].
Qed.

Lemma Check_calls cl l q : next_call (Check cl) l q ->
  exists url, url <> "" /\ url ∈ [clInput cl; clOutput cl] /\ q = GetQueueAttributes url "QueueArn".
Proof using Type.
  unfold Check. destruct (_ || _) eqn:E; [done|]. intros H. apply check_all_calls in H as (u & Hu & ->). bools.
  exists u. split_and!; [|done|done]. rewrite !elem_of_cons in Hu. by destruct Hu as [->|[->|?%elem_of_nil]].
Qed.

Lemma resolve_all_calls queues cl l q :
  next_call (resolve_all c rehost queues cl) l q ->
  (exists name, name ∈ queues.*1 /\ q = GetQueueUrl name)
  \/ exists urls l', Forall2 (resolved_to l) queues.*1 urls
     /\ next_call (Check (foldl (fun cl '(set, u) => set u cl) cl (zip queues.*2 urls))) l' q.
Proof using Type.
  revert cl l. induction queues as [|[name set] queues IH]; intros cl l H.
  - apply io_map_next in H. right. exists [], l. by split.
  - cbn [resolve_all next_call] in H. destruct H as [[_ ->]|(r & l1 & -> & H)]; [left; exists name; split; [by left|done]|].
    destruct r as [url|e]; [|done]. destruct (address c rehost url) as [u|e] eqn:Eu; [|done].
    apply IH in H as [(n & Hn & ->)|(urls & l' & Hu & H)]; [left; exists n; split; [by right|done]|right].
    exists (u :: urls), l'. split; [|done]. cbn. constructor; [exists url; split; [by left|done]|].
    eapply Forall2_impl; [exact Hu|]. intros x y (f & Hf & Ha). exists f. split; [by right|done].
Qed.

Lemma Start_calls cl l q : next_call (Start c rehost cl) l q -> start_call l q.
Proof using Type.
  intros H. apply resolve_all_calls in H as [(name & Hn & ->)|(urls & l' & Hu & H)]; [exact Hn|]. cbn in Hu.
  repeat (apply Forall2_cons_inv_l in Hu as (? & ? & ? & Hu & ->)). apply Forall2_nil_inv_l in Hu as ->.
  apply Check_calls in H as (u & Hne & Hin & ->). cbn in Hin. split; [done|]. split; [done|].
  rewrite !elem_of_cons in Hin. destruct Hin as [->|[->|?%elem_of_nil]]; [..|done];
    [exists (InputQueue c)|exists (OutputQueue c)]; split; [set_solver|done|set_solver|done].
Qed.

Lemma check_all_ok queues l : returns (check_all queues) l (Ok tt) ->
  Forall (fun q => exists a, Exchange (GetQueueAttributes q "QueueArn") (Ok a) ∈ l) queues.
Proof using Type.
  revert l. induction queues as [|q queues IH]; intros l H; [done|].
  cbn [check_all returns] in H. destruct H as (r & l1 & -> & H). destruct r as [a|e]; [|by destruct H].
  constructor; [exists a; by left|]. eapply Forall_impl; [by apply IH|].
  intros x (b & Hb). exists b. by right.
Qed.

Lemma Check_ok cl l : returns (Check cl) l (Ok tt) ->
  reachable_queue l (clInput cl) /\ reachable_queue l (clOutput cl).
Proof using Type.
  unfold Check. destruct (_ || _) eqn:E; [by intros [_ [=]]|]. intros H. apply check_all_ok in H. bools.
  rewrite !Forall_cons in H. unfold reachable_queue. tauto.
Qed.

(** A client that started has each of its four queues at the address the
    broker gave for the configured name (moved to the development endpoint's
    host only when one is configured), and the two it reads and writes are
    there and answer. *)
Theorem started_at_the_queues cl0 l cl :
  returns (Start c rehost cl0) l (cl, Ok tt) ->
  resolved_to l (InputQueue c) (clInput cl) /\ resolved_to l (OutputQueue c) (clOutput cl)
  /\ resolved_to l (InputDLQ c) (clInputDLQ cl) /\ resolved_to l (OutputDLQ c) (clOutputDLQ cl)
  /\ reachable_queue l (clInput cl) /\ reachable_queue l (clOutput cl).
Proof using Type.
  intros H. apply resolve_all_ok in H as (urls & l' & Hu & -> & Hl & Hc). cbn in Hu.
  repeat (apply Forall2_cons_inv_l in Hu as (? & ? & ? & Hu & ->)). apply Forall2_nil_inv_l in Hu as ->.
  apply Check_ok in Hc as [[Hin (a & Ha)] [Hout (b & Hb)]]. cbn in *.
  split_and!; try done; (split; [done|]); [exists a|exists b]; by apply Hl.
Qed.
End started.

(** ** What the engine makes it do *)

Lemma int32_id z : 0 <= z < 2 ^ 31 -> int32 z = z.
Proof. intros H. unfold int32. rewrite Z.mod_small; lia. Qed.

Lemma seconds_int32 d n : 0 <= d <= n * Time.Second -> 0 <= n < 2 ^ 31 ->
  0 <= int32 (Z.quot d Time.Second) <= n.
Proof.
  intros H Hn. assert (Hq : 0 <= Z.quot d Time.Second <= n).
  { unfold Time.Second in *. rewrite Z.quot_div_nonneg by lia. split; [apply Z.div_pos; lia|].
    apply Z.div_le_upper_bound; lia. }
  by rewrite int32_id by lia.
Qed.

Section calls.
Context (c : Config) (BodyLimit : Z) (w : world) (Hw : runs c BodyLimit w).
Context (rehost : string -> string -> res string) (cl : Client).

(** Within what SQS documents, at the right queue: at most ten messages a call,
    waits of at most twenty seconds, a visibility of at most twelve hours that is
    the configured one to the nanosecond and outlasts the processing; a message
    given back is out of sight for at most half a minute; and what is sent is
    an event of the outbox, in the group of its aggregate, under its own
    deduplication identifier, each of 36 characters, and its body a text of UTF-8
    that is the document of that event. *)
Definition valid_call (q : call) : Prop :=
  match q with
  | GetQueueUrl _ => False
  | GetQueueAttributes url a => url <> ""
      /\ ((a = "QueueArn" /\ url ∈ [clInput cl; clOutput cl])
          \/ (a = "ApproximateNumberOfMessages" /\ url ∈ [clInputDLQ cl; clOutputDLQ cl]))
  | ReceiveMessage url max wait seconds a =>
      url = clInput cl /\ url <> "" /\ 1 <= max <= 10 /\ max = Concurrency c /\ wait = 20 /\ 0 < seconds <= 43200
      /\ seconds * Time.Second = VisibilityTimeout c /\ ProcessTimeout c + 10 * Time.Second < seconds * Time.Second
      /\ a = "ApproximateReceiveCount"
  | DeleteMessage url receipt => url = clInput cl /\ url <> "" /\ processed c (scene_of w) receipt
  | ChangeMessageVisibility url receipt seconds =>
      url = clInput cl /\ url <> "" /\ 0 <= seconds <= 30 /\ exists m, received (scene_of w) m /\ msReceipt m = receipt
  | SendMessage url body group id =>
      url = clOutput cl /\ url <> "" /\ exists i r, outbox (m_db (w_store w)) !! i = Some r /\ body = ob_payload r
        /\ stored_event i r /\ body <> "" /\ text_in body = true
        /\ group = ID_String (ob_aggregate r) /\ id = ID_String i /\ len group = 36%nat /\ len id = 36%nat
  end.

Lemma depths_calls queues depths q : invokes (depths_of queues depths) q ->
  exists url, q = GetQueueAttributes url "ApproximateNumberOfMessages" /\ url <> "" /\ url ∈ queues.*2.
Proof using Type.
  revert depths. induction queues as [|[name url] queues IH]; intros depths; cbn; [done|].
  destruct (url == "") eqn:E; bools.
  - intros H. apply IH in H as (u & -> & Hu & Hin). exists u. split_and!; [done|done|by right].
  - intros [->|[r H]]; [exists url; split_and!; [done|done|by left]|].
    destruct r as [a|e]; [|done]. destruct (Strconv.ParseInt _); [|done].
    apply IH in H as (u & -> & Hu & Hin). exists u. split_and!; [done|done|by right].
Qed.

Lemma visibility_seconds : config_ok c ->
  let n := int32 (Z.quot (VisibilityTimeout c) Time.Second) in
  0 < n <= 43200 /\ n * Time.Second = VisibilityTimeout c.
Proof using Type.
  intros Hc. destruct (cfg_visibility _ Hc) as [Hlo Hhi]. destruct (cfg_times _ Hc) as (_ & _ & Hp).
  pose proof (cfg_seconds _ Hc) as Hs. pose proof (Z.quot_rem' (VisibilityTimeout c) Time.Second) as Hq.
  rewrite Hs in Hq. unfold Time.Hour, Time.Minute in Hhi. cbv zeta.
  assert (H : 0 < Z.quot (VisibilityTimeout c) Time.Second <= 43200).
  { revert Hq. generalize (Z.quot (VisibilityTimeout c) Time.Second). unfold Time.Second in *. lia. }
  rewrite int32_id by lia. split; [done|]. lia.
Qed.

Lemma stored_text i r : stored_event i r -> ob_payload r <> "" /\ text_in (ob_payload r) = true.
Proof using Type.
  intros (_ & l & H & _). unfold jsonb_in in H. destruct (text_in (ob_payload r)) eqn:E; [|done]. split; [|done].
  intros Hp. by rewrite Hp in H.
Qed.

(** C30: whatever the program asks of the queues, the client stays within what
    SQS documents.  [Start] asks for the addresses of the four configured queues
    and, at the addresses it was given, whether input and output are there; no
    address asked is empty.  From then on, in any run with a configuration that
    loads: to the input queue go receives of one to ten messages, hidden for
    exactly the configured time, deletions of messages whose outcome is committed
    and returns within half a minute; to the output queue only events of the
    outbox, each under its own identifier, with its document as the body;
    readiness asks for the two queues, and the depths of the dead letters are
    read where an address is known. *)
Theorem queue_calls_are_valid cl0 l0 :
  config_ok c -> returns (Start c rehost cl0) l0 (cl, Ok tt) ->
  (forall l q, next_call (Start c rehost cl0) l q -> start_call c rehost l q)
  /\ forall r p q, Asked r ∈ w_trace w -> client_call c cl r = Some p -> invokes p q -> valid_call q.
Proof using Hw.
  intros Hc Hs. split; [intros l q; apply Start_calls|]. intros r p q Hr Hp Hq.
  apply started_at_the_queues in Hs as (_ & _ & _ & _ & [Hin _] & [Hout _]).
  apply (run_asked _ _ _ Hw) in Hr.
  destruct r as [|max|receipt|receipt delay|e a payload| | | | | | | | | | |]; try done; cbn [client_call] in Hp; injection Hp as <-.
  - destruct Hq as [->|[? []]]. cbn in Hr. subst max. pose proof (cfg_concurrency _ Hc) as Hn.
    pose proof (visibility_seconds Hc) as [Hv Hs]. destruct (cfg_visibility _ Hc) as [Hlo _]. cbn.
    rewrite (int32_id (Concurrency c)) by lia. rewrite Hs. split_and!; try done; lia.
  - by destruct Hq as [->|[? []]].
  - destruct Hq as [->|[? []]]. destruct Hr as (Hd & Hm). split; [done|]. split; [done|].
    split; [by apply seconds_int32|done].
  - destruct Hq as [->|[? []]]. destruct Hr as (x & Hx & <- & <- & <-). split; [done|]. split; [done|].
    destruct (claimed_offers_event _ _ _ Hw x Hx) as (i & row & Hi & Ei & _ & Ea & Ep). exists i, row.
    pose proof (cs_event _ (reached_consistent _ (run_reaches _ _ _ Hw)) _ _ Hi) as Hst.
    destruct (stored_text _ _ Hst) as [Hne Htx]. rewrite Ei, Ea, Ep. split_and!; try done; apply ID_String_shape.
  - apply io_map_invokes, depths_calls in Hq as (url & -> & Hu & Hin'). split; [done|]. by right.
  - apply invokes_next in Hq as [l Hq]. apply Check_calls in Hq as (url & Hu & Hin' & ->). split; [done|]. by left.
Qed.
End calls.

(** ** At the rehearsal, and against a local broker *)

Definition at_hand : Client := mkClient "https://sqs/in" "https://sqs/out" "https://sqs/in-dlq" "".
Definition at_hand_start : list (exchange call (fun q => res (output q))) :=
  [Exchange (GetQueueUrl "wager-transactions.fifo") (Ok "https://sqs/in");
   Exchange (GetQueueUrl "wager-events.fifo") (Ok "https://sqs/out");
   Exchange (GetQueueUrl "wager-transactions-dlq.fifo") (Ok "https://sqs/in-dlq");
   Exchange (GetQueueUrl "wager-events-dlq.fifo") (Ok "");
   Exchange (GetQueueAttributes "https://sqs/in" "QueueArn") (Ok ∅);
   Exchange (GetQueueAttributes "https://sqs/out" "QueueArn") (Ok ∅)].

Lemma published_asked tr e a n : published tr !! n = Some (e, a) -> exists p, Asked (Tasks.Publish e a p) ∈ tr.
Proof.
  intros H%list_elem_of_lookup_2. apply list_elem_of_omap in H as ([|[]|] & Hin & E); try done.
  injection E as -> ->. by eexists.
Qed.

Lemma settings_ok : config_ok settings.
Proof. apply (Load_ok environment (Some "host") 7). vm_compute. reflexivity. Qed.

Lemma queue_calls_are_valid_witness :
  exists w payload, runs settings body_limit w
    /\ valid_call settings w at_hand
         (SendMessage "https://sqs/out" payload (ID_String anas_wallet) (ID_String wallet_event)).
Proof.
  destruct rehearsal_runs as (w & Hw & Hr). destruct (published_asked _ _ _ _ (rehearsed_published _ _ Hr)) as (p & Hp).
  exists w, p. split; [exact Hw|].
  assert (Hs : returns (Start settings (fun u _ => Ok u) new_client) at_hand_start (at_hand, Ok tt)).
  { do 6 (eexists _, _; split; [reflexivity|]). split; reflexivity. }
  destruct (queue_calls_are_valid settings body_limit w Hw (fun u _ => Ok u) at_hand new_client at_hand_start
    settings_ok Hs) as [_ H].
  exact (H _ _ _ Hp eq_refl (or_introl eq_refl)).
Defined.

Definition local_settings : Config :=
  mkConfig "" "" "engine-1" "" "" "" true "us-east-1" "http://localhost:4566" "in.fifo" "out.fifo" "in-dlq.fifo"
    "out-dlq.fifo" [] 4 100 20 0 0 0 0 0 0 0.
Definition local_host (url endpoint : string) : res string := Ok (endpoint +:+ "/" +:+ url).
Definition local_start : list (exchange call (fun q => res (output q))) :=
  [Exchange (GetQueueUrl "in.fifo") (Ok "1"); Exchange (GetQueueUrl "out.fifo") (Ok "2");
   Exchange (GetQueueUrl "in-dlq.fifo") (Ok "3"); Exchange (GetQueueUrl "out-dlq.fifo") (Ok "4");
   Exchange (GetQueueAttributes "http://localhost:4566/1" "QueueArn") (Ok ∅);
   Exchange (GetQueueAttributes "http://localhost:4566/2" "QueueArn") (Ok ∅)].
Definition local_client : Client :=
  mkClient "http://localhost:4566/1" "http://localhost:4566/2" "http://localhost:4566/3" "http://localhost:4566/4".

Lemma started_at_the_queues_witness :
  returns (Start local_settings local_host new_client) local_start (local_client, Ok tt)
  /\ resolved_to local_settings local_host local_start "out.fifo" "http://localhost:4566/2"
  /\ reachable_queue local_start "http://localhost:4566/1".
Proof.
  assert (H : returns (Start local_settings local_host new_client) local_start (local_client, Ok tt)).
  { do 6 (eexists _, _; split; [reflexivity|]). split; reflexivity. }
  destruct (started_at_the_queues local_settings local_host new_client local_start local_client H)
    as (_ & H2 & _ & _ & H5 & _).
  exact (conj H (conj H2 H5)).
Defined.
