(* ===== verification/Runtime.v ===== *)
(** * The life of a process: [internal/modules/app.go]

    The hooks of [newPool] and [newRuntime] as calls of the parts they start
    and stop, over the state of one process: the pool, readiness, the HTTP
    server, the engine ([Engine.Start], [StopIntake] and [Stop] of
    [internal/workers/engine.go]).  Requests and loops come and go beside them.
    fx calls the hooks as it documents: [OnStart] in the order they were
    appended, [OnStop] in reverse and only for those that started; and
    [Shutdown] of [net/http] returns, when no request is left, the error of
    closing its listener, or nil, and otherwise that of its context. *)

From S2P Require Import Prelude Io GoStd Errors.
#[local] Open Scope io_scope.

(** ** The state of a process *)

(** [http.Server]: it listens once [OnStart] has its listener, serves in its own
    goroutine, breaks when [Accept] fails ([Serve] closes the listener and
    returns, and the goroutine asks fx to shut down), and is closed by [Shutdown]
    or [Close]. *)
Inductive server_state : Type := Down | Listening | Serving | Broken | Closed.

Record server : Type := mkServer {
  sv_state : server_state;
  sv_requests : nat;         (* accepted, not yet answered *)
  sv_cut : bool;             (* [Close]: their connections are closed *)
  sv_reported : bool         (* [shutdown.Shutdown] was called *)
}.

(** The contexts of [Engine] and its [done]. *)
Record engine : Type := mkEngine {
  en_started : bool; en_intake : bool; en_work : bool;   (* cancelled? *)
  en_done : bool; en_released : bool
}.

Record process : Type := mkProcess {
  pr_ready : bool;
  pr_verified : bool;        (* [identity.Check] loaded the keys *)
  pr_resolved : bool;        (* [broker.Start] found the queues *)
  pr_server : server;
  pr_engine : engine;
  pr_pool : bool;            (* the pool is open *)
  pr_expired : bool          (* the context of [OnStop] has ended *)
}.

Definition new_process : process :=
  mkProcess false false false (mkServer Down 0 false false) (mkEngine false false false false false) true false.

(** What one part becomes, the rest as it is. *)
Definition set_ready b p := mkProcess b (pr_verified p) (pr_resolved p) (pr_server p) (pr_engine p) (pr_pool p) (pr_expired p).
Definition set_verified p := mkProcess (pr_ready p) true (pr_resolved p) (pr_server p) (pr_engine p) (pr_pool p) (pr_expired p).
Definition set_resolved p := mkProcess (pr_ready p) (pr_verified p) true (pr_server p) (pr_engine p) (pr_pool p) (pr_expired p).
Definition with_server f p :=
  mkProcess (pr_ready p) (pr_verified p) (pr_resolved p) (f (pr_server p)) (pr_engine p) (pr_pool p) (pr_expired p).
Definition with_engine f p :=
  mkProcess (pr_ready p) (pr_verified p) (pr_resolved p) (pr_server p) (f (pr_engine p)) (pr_pool p) (pr_expired p).
Definition expire p :=
  mkProcess (pr_ready p) (pr_verified p) (pr_resolved p) (pr_server p) (pr_engine p) (pr_pool p) true.
Definition close_pool p :=
  mkProcess (pr_ready p) (pr_verified p) (pr_resolved p) (pr_server p) (pr_engine p) false (pr_expired p).

Definition set_state st s := mkServer st (sv_requests s) (sv_cut s) (sv_reported s).
Definition cut s := mkServer Closed (sv_requests s) true (sv_reported s).
Definition accept s := mkServer (sv_state s) (S (sv_requests s)) (sv_cut s) (sv_reported s).
Definition finish s := mkServer (sv_state s) (pred (sv_requests s)) (sv_cut s) (sv_reported s).
Definition report s := mkServer (sv_state s) (sv_requests s) (sv_cut s) true.

Definition stop_intake e :=
  mkEngine (en_started e) (en_started e || en_intake e) (en_work e) (en_done e) (en_released e).
Definition cancel_work e := mkEngine (en_started e) (en_intake e) true (en_done e) (en_released e).
Definition loops_end e := mkEngine (en_started e) (en_intake e) (en_work e) true (en_released e).
Definition release e := mkEngine (en_started e) (en_intake e) (en_work e) (en_done e) true.

(** ** The hooks *)

Inductive effect : Type :=
| CheckIdentity            (* identity.Check(ctx) *)
| StartBroker              (* broker.Start(ctx) *)
| Listen                   (* net.Listen *)
| StartEngine              (* engine.Start() *)
| StoreReady (b : bool)    (* r.ready.Store(b) *)
| GoServe                  (* go r.Server.Serve(listener) *)
| StopIntake               (* e.stopIntake() *)
| Shutdown                 (* r.Server.Shutdown(ctx) *)
| CloseServer              (* r.Server.Close() *)
| Started                  (* e.done == nil *)
| AwaitDone                (* select: <-e.done, or <-ctx.Done() *)
| CancelWork               (* e.cancelWork() *)
| WaitDone                 (* <-e.done *)
| ReleaseClaims.           (* e.store.ReleaseClaims(cleanup, id) *)

Definition outcome (e : effect) : Type :=
  match e with
  | CheckIdentity | StartBroker | Listen | Shutdown | ReleaseClaims => res unit
  | Started | AwaitDone => bool
  | _ => unit
  end.
#[local] Notation io := (io effect outcome).

Definition ctx_error : GoError := OtherError "context deadline exceeded".

(** [errors.Join]: nil when both are; of two errors, the first stands for both. *)
Definition Join (a b : res unit) : res unit :=
  match a, b with Ok _, b => b | Err e, Ok _ => Err e | Err e, Err _ => Err e end.

Definition OnStart : io (res unit) :=
  checked <~ CheckIdentity ;;
  match checked : res unit with
  | Err e => Return (Err e)
  | Ok _ =>
      started <~ StartBroker ;;
      match started : res unit with
      | Err e => Return (Err e)
      | Ok _ =>
          listener <~ Listen ;;
          match listener : res unit with
          | Err e => Return (Err e)
          | Ok _ => StartEngine ~;; StoreReady true ~;; GoServe ~;; Return (Ok tt)
          end
      end
  end.

(** [Engine.Stop]. *)
Definition Stop : io (res unit) :=
  StopIntake ~;;
  started <~ Started ;;
  if negb (started : bool) then Return (Ok tt)
  else
    stopped <~ AwaitDone ;;
    if stopped : bool then CancelWork ~;; released <~ ReleaseClaims ;; Return released
    else CancelWork ~;; WaitDone ~;; Return (Err ctx_error).

Definition OnStop : io (res unit) :=
  StoreReady false ~;;
  StopIntake ~;;
  httpErr <~ Shutdown ;;
  let stop := io_map (Join httpErr) Stop in
  match httpErr : res unit with Ok _ => stop | Err _ => CloseServer ~;; stop end.

(** [Ready] of [httpapi.Dependencies]. *)
Definition Ready (p : process) (ping check : res unit) : res unit :=
  if negb (pr_ready p) then Err (OtherError "draining")
  else match ping with Err e => Err e | Ok _ => check end.

(** ** What the calls do *)

(** [None]: not now. *)
Definition does (e : effect) (p : process) : outcome e -> option process :=
  match e with
  | CheckIdentity => fun r => Some (match r with Ok _ => set_verified p | Err _ => p end)
  | StartBroker => fun r => Some (match r with Ok _ => set_resolved p | Err _ => p end)
  | Listen => fun r => Some (match r with Ok _ => with_server (set_state Listening) p | Err _ => p end)
  | StartEngine => fun _ => Some (with_engine (fun _ => mkEngine true false false false false) p)
  | StoreReady b => fun _ => Some (set_ready b p)
  | GoServe => fun _ => Some (with_server (set_state Serving) p)
  | StopIntake => fun _ => Some (with_engine stop_intake p)
  | Shutdown => fun r =>
      if (sv_requests (pr_server p) =? 0)%nat || match r with Ok _ => false | Err _ => pr_expired p end
      then Some (with_server (set_state Closed) p) else None
  | CloseServer => fun _ => Some (with_server cut p)
  | Started => fun b => if Bool.eqb b (en_started (pr_engine p)) then Some p else None
  | AwaitDone => fun b => if b : bool then if en_done (pr_engine p) then Some p else None
                          else if pr_expired p then Some p else None
  | CancelWork => fun _ => Some (with_engine cancel_work p)
  | WaitDone => fun _ => if en_done (pr_engine p) then Some p else None
  | ReleaseClaims => fun r => Some (match r with Ok _ => with_engine release p | Err _ => p end)
  end.

(** What happens beside the hooks: requests, the loops, the deadline, a listener
    that fails.  The loops end once the intake is cancelled, and not before
    (Stopping.v). *)
Inductive beside : process -> process -> Prop :=
| be_accept p : sv_state (pr_server p) = Serving -> beside p (with_server accept p)
| be_finish p : sv_requests (pr_server p) <> 0%nat -> beside p (with_server finish p)
| be_break p : sv_state (pr_server p) = Serving -> beside p (with_server (set_state Broken) p)
| be_report p : sv_state (pr_server p) = Broken -> sv_reported (pr_server p) = false -> beside p (with_server report p)
| be_end p : en_started (pr_engine p) = true -> en_intake (pr_engine p) = true -> beside p (with_engine loops_end p)
| be_expire p : beside p (expire p).

(** Where fx is: the pool is pinged before [OnStart], and closed last, if it
    answered. *)
Inductive stage : Type :=
| Idle | Starting (k : io (res unit)) | Failed (e : GoError)
| Up | Stopping (k : io (res unit)) | Stopped (r : res unit) | Exited (r : res unit).

Definition stopping (st : stage) : bool := match st with Stopping _ | Stopped _ | Exited _ => true | _ => false end.

Inductive lives : process * stage -> process * stage -> Prop :=
| lv_ping p : lives (p, Idle) (p, Starting OnStart)
| lv_no_ping p e : lives (p, Idle) (p, Exited (Err e))
| lv_starting p e k a p' : does e p a = Some p' -> lives (p, Starting (Invoke e k)) (p', Starting (k a))
| lv_up p : lives (p, Starting (Return (Ok tt))) (p, Up)
| lv_failed p e : lives (p, Starting (Return (Err e))) (p, Failed e)
| lv_stop p : lives (p, Up) (p, Stopping OnStop)
| lv_stopping p e k a p' : does e p a = Some p' -> lives (p, Stopping (Invoke e k)) (p', Stopping (k a))
| lv_stopped p r : lives (p, Stopping (Return r)) (p, Stopped r)
| lv_give_up p e : lives (p, Failed e) (close_pool p, Exited (Err e))
| lv_exit p r : lives (p, Stopped r) (close_pool p, Exited r)
| lv_beside p p' st :
    beside p p' -> (stopping st = false -> pr_expired p' = pr_expired p) -> lives (p, st) (p', st).

Inductive lived : process * stage -> Prop :=
| lived_new : lived (new_process, Idle)
| lived_step x y : lived x -> lives x y -> lived y.

(** ** What stays while the hooks wait *)

Record rely (p p' : process) : Prop := {
  rl_ready : pr_ready p' = pr_ready p;
  rl_verified : pr_verified p' = pr_verified p;
  rl_resolved : pr_resolved p' = pr_resolved p;
  rl_pool : pr_pool p' = pr_pool p;
  rl_cut : sv_cut (pr_server p') = sv_cut (pr_server p);
  rl_state : sv_state (pr_server p') = sv_state (pr_server p)
             \/ (sv_state (pr_server p) = Serving /\ sv_state (pr_server p') = Broken);
  rl_requests : sv_state (pr_server p) <> Serving ->
                (sv_requests (pr_server p') <= sv_requests (pr_server p))%nat;
  rl_started : en_started (pr_engine p') = en_started (pr_engine p);
  rl_intake : en_intake (pr_engine p') = en_intake (pr_engine p);
  rl_work : en_work (pr_engine p') = en_work (pr_engine p);
  rl_released : en_released (pr_engine p') = en_released (pr_engine p);
  rl_done : en_done (pr_engine p') = en_done (pr_engine p)
            \/ (en_done (pr_engine p') = true /\ en_started (pr_engine p) = true /\ en_intake (pr_engine p) = true);
  rl_expired : pr_expired p = true -> pr_expired p' = true
}.

#[global] Instance rely_preorder : PreOrder rely.
Proof.
  split; [intros p; by constructor; auto|]. intros p1 p2 p3 [] []. constructor; try congruence.
  - destruct rl_state0 as [E|[E1 E2]], rl_state1 as [E'|[E1' E2']]; try congruence; rewrite ?E, ?E' in *; auto.
  - intros H. etrans; [|by apply rl_requests0]. apply rl_requests1. destruct rl_state0 as [->|[]]; congruence.
  - destruct rl_done1 as [->|(-> & ? & ?)]; [destruct rl_done0 as [->|]; auto|]. right. by split_and!; congruence.
  - auto.
Qed.

Lemma beside_rely p p' : beside p p' -> rely p p'.
Proof.
  intros H. destruct H as [p H|p H|p H|p H H1|p H1 H2|p]; constructor; cbn; auto; try done; lia.
Qed.

Section safe.
Context (pre : effect -> process -> Prop) (Inv : process -> Prop).
Context (pre_stable : forall e p p', rely p p' -> pre e p -> pre e p').
Context (Inv_stable : forall p p', rely p p' -> Inv p -> Inv p').

(** A hook keeps [Inv], calls what it may call, and returns with [Q]. *)
Fixpoint safe {A} (Q : A -> process -> Prop) (k : io A) (p : process) : Prop :=
  Inv p /\
  match k with
  | Return a => Q a p
  | Invoke e k => pre e p /\ forall p1 a p2, rely p p1 -> does e p1 a = Some p2 -> safe Q (k a) p2
  end.

Lemma safe_stable {A} (Q : A -> process -> Prop) k p p' :
  (forall a q q', rely q q' -> Q a q -> Q a q') -> rely p p' -> safe Q k p -> safe Q k p'.
Proof using pre_stable Inv_stable.
  intros HQ Hr H. destruct k as [a|e k]; destruct H as [Hi H]; (split; [by eapply Inv_stable|]).
  - by eapply HQ.
  - destruct H as [Hp H]. split; [by eapply pre_stable|]. intros p1 a p2 H1. apply H. by etrans.
Qed.

Lemma safe_Inv {A} (Q : A -> process -> Prop) k p : safe Q k p -> Inv p.
Proof using Type. by destruct k as [a|e k]; intros []. Qed.
End safe.

(** ** The invariants *)

(** Everything the process needs is up, and nothing has been told to stop. *)
Record running (p : process) : Prop := {
  rn_verified : pr_verified p = true;
  rn_resolved : pr_resolved p = true;
  rn_pool : pr_pool p = true;
  rn_server : sv_state (pr_server p) ∈ [Listening; Serving; Broken];
  rn_cut : sv_cut (pr_server p) = false;
  rn_started : en_started (pr_engine p) = true;
  rn_intake : en_intake (pr_engine p) = false;
  rn_work : en_work (pr_engine p) = false;
  rn_done : en_done (pr_engine p) = false;
  rn_released : en_released (pr_engine p) = false
}.

(** At any time: ready is running; a request's connection is cut, and work under
    way cancelled, only past the deadline; leases are given back after the
    loops. *)
Record always (p : process) : Prop := {
  al_ready : pr_ready p = true -> running p;
  al_cut : sv_cut (pr_server p) = true -> sv_state (pr_server p) = Closed
           /\ (sv_requests (pr_server p) = 0%nat \/ pr_expired p = true);
  al_work : en_work (pr_engine p) = true -> en_done (pr_engine p) = true \/ pr_expired p = true;
  al_released : en_released (pr_engine p) = true -> en_done (pr_engine p) = true
}.

(** Who waits for the loops has told them to end. *)
Definition told (e : effect) (p : process) : Prop :=
  match e with
  | AwaitDone | WaitDone => en_started (pr_engine p) = true /\ en_intake (pr_engine p) = true
  | _ => True
  end.

(** Before [OnStart], and what is left after [OnStop]. *)
Record untouched (p : process) : Prop := {
  ut_ready : pr_ready p = false;
  ut_verified : pr_verified p = false;
  ut_resolved : pr_resolved p = false;
  ut_pool : pr_pool p = true;
  ut_server : pr_server p = mkServer Down 0 false false;
  ut_engine : pr_engine p = mkEngine false false false false false
}.

Record drained (r : res unit) (p : process) : Prop := {
  dr_ready : pr_ready p = false;
  dr_server : sv_state (pr_server p) = Closed;
  dr_intake : en_intake (pr_engine p) = true;
  dr_done : en_done (pr_engine p) = true;
  dr_requests : pr_expired p = true \/ sv_requests (pr_server p) = 0%nat;
  dr_ok : r = Ok tt -> sv_requests (pr_server p) = 0%nat /\ sv_cut (pr_server p) = false
                       /\ en_released (pr_engine p) = true
}.

Lemma running_stable p p' : rely p p' -> running p -> running p'.
Proof.
  intros [] []. constructor; try congruence.
  - destruct rl_state0 as [->|[_ ->]]; set_solver.
  - destruct rl_done0 as [->|(_ & _ & ?)]; congruence.
Qed.

Lemma always_stable p p' : rely p p' -> always p -> always p'.
Proof.
  intros Hr []. pose proof Hr as []. constructor.
  - intros E. eapply running_stable; [done|]. apply al_ready0. congruence.
  - intros E. destruct al_cut0 as [Hc Hq]; [congruence|]. assert (Hs : sv_state (pr_server p) <> Serving) by congruence.
    specialize (rl_requests0 Hs). split; [destruct rl_state0 as [|[]]; congruence|].
    destruct Hq as [Hq|Hq]; [left; lia|right; auto].
  - intros E. destruct rl_done0 as [Ed|(-> & _)]; [|by left]. rewrite Ed.
    destruct al_work0; [congruence|by left|right; auto].
  - intros E. destruct rl_done0 as [->|(-> & _)]; [|done]. apply al_released0. congruence.
Qed.

Lemma told_stable e p p' : rely p p' -> told e p -> told e p'.
Proof. intros [] H. destruct e; cbn in *; try done; destruct H; split; congruence. Qed.

Lemma untouched_stable p p' : beside p p' -> untouched p -> untouched p'.
Proof. intros H []. destruct H as [p H|p H|p H|p H H1|p H1 H2|p]; try (rewrite ut_server0 in H; done); [|done].
  by rewrite ut_engine0 in H1. Qed.

Lemma drained_stable r p p' : rely p p' -> drained r p -> drained r p'.
Proof.
  intros [] []. assert (Hs : sv_state (pr_server p) <> Serving) by by rewrite dr_server0.
  specialize (rl_requests0 Hs). constructor; try congruence.
  - destruct rl_state0 as [->|[]]; [done|congruence].
  - by destruct rl_done0 as [->|(-> & _)].
  - destruct dr_requests0 as [|Hq]; [left; auto|right; lia].
  - intros E. destruct (dr_ok0 E) as (? & ? & ?). split_and!; [lia|congruence..].
Qed.

Notation proper := (safe told always).

(** ** The hooks keep them *)

Ltac facts :=
  repeat match goal with
  | H : rely _ _ |- _ => destruct H
  | H : untouched _ |- _ => destruct H
  | H : running _ |- _ => destruct H
  | H : always _ |- _ => destruct H
  end.

Section rules.
Context {A : Type} (Q : A -> process -> Prop).

(** A call, from any state a stable [S] describes. *)
Lemma proper_Invoke (S : process -> Prop) e k p :
  (forall q q', rely q q' -> S q -> S q') -> S p -> always p -> told e p ->
  (forall q a q', S q -> always q -> does e q a = Some q' -> proper Q (k a) q') ->
  proper Q (Invoke e k) p.
Proof.
  intros HS Hp Ha Ht H. split; [done|]. split; [done|]. intros q a q' Hr. apply H; [by eapply HS|by eapply always_stable].
Qed.
End rules.

(** As [OnStart] goes: what is up so far. *)
Record rising (verified resolved : bool) (st : server_state) (ready started : bool) (p : process) : Prop := {
  ri_ready : pr_ready p = ready;
  ri_verified : pr_verified p = verified;
  ri_resolved : pr_resolved p = resolved;
  ri_pool : pr_pool p = true;
  ri_server : sv_state (pr_server p) = st;
  ri_cut : sv_cut (pr_server p) = false;
  ri_requests : sv_requests (pr_server p) = 0%nat;
  ri_engine : pr_engine p = mkEngine started false false false false
}.

Lemma rising_stable v r st rd sd p p' : st <> Serving -> rely p p' -> rising v r st rd sd p -> rising v r st rd sd p'.
Proof.
  intros Hst [] []. constructor; try congruence.
  - destruct rl_state0 as [?|[? ?]]; congruence.
  - rewrite <- ri_server0 in Hst. specialize (rl_requests0 Hst). lia.
  - rewrite ri_engine0 in *. destruct (pr_engine p') as [e1 e2 e3 e4 e5]. cbn in *. subst.
    by destruct rl_done0 as [->|(_ & _ & ?)].
Qed.

Lemma rising_running rd p : rising true true Listening rd true p -> running p.
Proof. intros []. constructor; rewrite ?ri_engine0; try done. rewrite ri_server0. set_solver. Qed.

Lemma rising_always v r st rd sd p :
  (rd = true -> running p) -> rising v r st rd sd p -> always p.
Proof.
  intros Hr []. constructor; rewrite ?ri_engine0; try done; [|intros; congruence].
  intros E. apply Hr. congruence.
Qed.

(** No loop runs, nor a request; past the deadline a handler may, and the pool
    waits for the connection it holds. *)
Definition unused (p : process) : Prop :=
  (en_started (pr_engine p) = false \/ en_done (pr_engine p) = true)
  /\ (sv_requests (pr_server p) = 0%nat \/ pr_expired p = true).

Definition up (r : res unit) (p : process) : Prop :=
  match r with
  | Ok _ => running p
  | Err _ => pr_ready p = false /\ sv_state (pr_server p) <> Serving /\ unused p
  end.

(** The next call of [OnStart], and where it leads; an error ends it. *)
Lemma rising_Invoke v r st rd sd e k p :
  st <> Serving -> (rd = true -> running p) -> rising v r st rd sd p -> told e p ->
  (forall q, (rd = true -> running q) -> rising v r st rd sd q -> forall a q', does e q a = Some q' -> proper up (k a) q') ->
  proper up (Invoke e k) p.
Proof.
  intros Hst Hr Hs Ht H.
  apply (proper_Invoke up (fun q => (rd = true -> running q) /\ rising v r st rd sd q)); [|done|by eapply rising_always|done|].
  - intros q q' Hq [H1 H2]. split; [|by eapply rising_stable]. intros E. by eapply running_stable, H1.
  - intros q a q' [H1 H2] _. by apply H.
Qed.

Lemma rising_fails v r e p : rising v r Down false false p -> proper up (Return (Err e)) p.
Proof.
  intros H. split; [by apply (rising_always v r Down false false)|]. destruct H. unfold up, unused.
  rewrite ri_server0, ri_engine0. auto.
Qed.

Ltac call := eapply rising_Invoke; [| |eassumption| |]; [done|first [done|intros _; assumption]|done|].

Lemma OnStart_proper p : untouched p -> proper up OnStart p.
Proof.
  intros H. assert (Hs : rising false false Down false false p) by (destruct H; constructor; try done; by rewrite ut_server0).
  clear H. call. clear p Hs. intros p _ Hs [u|e] q [= <-]; [|by eapply rising_fails].
  assert (H : rising true false Down false false (set_verified p)) by by destruct Hs.
  call. clear p Hs H. intros p _ Hs [v|e] q [= <-]; [|by eapply rising_fails].
  assert (H : rising true true Down false false (set_resolved p)) by by destruct Hs.
  call. clear p Hs H. intros p _ Hs [w|e] q [= <-]; [|by eapply rising_fails].
  assert (H : rising true true Listening false false (with_server (set_state Listening) p)) by by destruct Hs.
  call. clear p Hs H. intros p _ Hs [] q [= <-].
  assert (H : rising true true Listening false true (with_engine (fun _ => mkEngine true false false false false) p)) by by destruct Hs.
  call. clear p Hs H. intros p _ Hs [] q [= <-].
  assert (H : rising true true Listening true true (set_ready true p)) by by destruct Hs.
  pose proof (rising_running _ _ H) as Hr. call. clear p Hs H Hr. intros p Hr Hs [] q [= <-].
  specialize (Hr eq_refl). assert (H : running (with_server (set_state Serving) p)).
  { destruct Hr. constructor; try done. cbn. set_solver. }
  split; [|done]. destruct H. constructor; try done; intros; congruence.
Qed.

(** As [OnStop] goes. *)
Record falling (closed : bool) (asked : bool) (p : process) : Prop := {
  fa_ready : pr_ready p = false;
  fa_started : en_started (pr_engine p) = true;
  fa_intake : asked = true -> en_intake (pr_engine p) = true;
  fa_server : closed = true -> sv_state (pr_server p) = Closed
              /\ (pr_expired p = true \/ sv_requests (pr_server p) = 0%nat)
}.

Lemma falling_stable b a p p' : rely p p' -> falling b a p -> falling b a p'.
Proof.
  intros [] []. constructor; try congruence.
  - intros E. rewrite rl_intake0. auto.
  - intros E. destruct (fa_server0 E) as [Hc Hq]. assert (Hs : sv_state (pr_server p) <> Serving) by congruence.
    specialize (rl_requests0 Hs). split; [destruct rl_state0 as [|[]]; congruence|].
    destruct Hq as [Hq|Hq]; [left; auto|right; lia].
Qed.

Lemma falling_always b a p :
  falling b a p ->
  (sv_cut (pr_server p) = true -> sv_state (pr_server p) = Closed
     /\ (sv_requests (pr_server p) = 0%nat \/ pr_expired p = true)) ->
  (en_work (pr_engine p) = true -> en_done (pr_engine p) = true \/ pr_expired p = true) ->
  (en_released (pr_engine p) = true -> en_done (pr_engine p) = true) -> always p.
Proof. intros [] Hc Hw Hr. constructor; [congruence|done..]. Qed.

(** What [Shutdown] said is true of the closed server. *)
Definition shut (r : res unit) (p : process) : Prop :=
  falling true true p /\ (r = Ok tt -> sv_requests (pr_server p) = 0%nat /\ sv_cut (pr_server p) = false).

Lemma shut_stable r p p' : rely p p' -> shut r p -> shut r p'.
Proof.
  intros Hr [H1 H2]. split; [by eapply falling_stable|]. intros E. destruct (H2 E) as [H3 H4].
  destruct (fa_server _ _ _ H1 eq_refl) as [Hc _]. destruct Hr.
  assert (Hs : sv_state (pr_server p) <> Serving) by congruence. specialize (rl_requests0 Hs). split; [lia|congruence].
Qed.

Lemma done_stable p p' : rely p p' -> en_done (pr_engine p) = true -> en_done (pr_engine p') = true.
Proof. intros [] H. destruct rl_done0 as [->|(-> & _)]; done. Qed.

Lemma shut_engine f r p :
  (forall e, en_started (f e) = en_started e /\ (en_intake e = true -> en_intake (f e) = true)) ->
  shut r p -> shut r (with_engine f p).
Proof.
  intros Hf [[] H]. destruct (Hf (pr_engine p)) as [H1 H2]. split; [|done]. constructor; cbn; try done; [congruence|auto].
Qed.

(** The loops ended in time: the leases are given back. *)
Lemma stopped_proper r p : shut r p -> en_done (pr_engine p) = true -> always p ->
  proper drained (io_map (Join r) (CancelWork ~;; released <~ ReleaseClaims ;; Return released)) p.
Proof.
  intros Hs Hd Ha. set (S := fun q => shut r q /\ en_done (pr_engine q) = true).
  assert (HS : forall q q', rely q q' -> S q -> S q').
  { intros q q' Hq [H1 H2]. split; [by eapply shut_stable|by eapply done_stable]. }
  apply (proper_Invoke drained S); [done|done|done|done|]. clear p Hs Hd Ha. intros p [] q [Hs Hd] Ha [= <-].
  apply (proper_Invoke drained S); [done|split; [by apply shut_engine|done]| |done|].
  { destruct Ha. eapply falling_always; [by apply (shut_engine _ r)|done|by left|done]. }
  clear p Hs Hd Ha. intros p [u|e] q [Hs Hd] Ha [= <-].
  - assert (Hs' : shut r (with_engine release p)) by by apply shut_engine.
    destruct Ha, Hs as [[] Hr], Hs' as [Hf _]. destruct (fa_server0 eq_refl). split.
    + by eapply falling_always.
    + constructor; cbn; auto. destruct u, r as [[]|]; [|done]. intros _. destruct (Hr eq_refl). done.
  - destruct Hs as [[] Hr]. destruct (fa_server0 eq_refl). split; [done|]. constructor; cbn; auto. by destruct r.
Qed.

(** The deadline came first: their I/O is cancelled, and they are waited for. *)
Lemma overdue_proper r p : shut r p -> pr_expired p = true -> always p ->
  proper drained (io_map (Join r) (CancelWork ~;; WaitDone ~;; Return (Err ctx_error))) p.
Proof.
  intros Hs He Ha. set (S := fun q => shut r q /\ pr_expired q = true).
  assert (HS : forall q q', rely q q' -> S q -> S q').
  { intros q q' Hq [H1 H2]. split; [by eapply shut_stable|]. by apply (rl_expired _ _ Hq). }
  apply (proper_Invoke drained S); [done|done|done|done|]. clear p Hs He Ha. intros p [] q [Hs He] Ha [= <-].
  assert (Hs' : shut r (with_engine cancel_work p)) by by apply shut_engine.
  apply (proper_Invoke drained S); [done|done|..].
  { destruct Ha, Hs' as [Hf _]. eapply falling_always; [done|done|by right|done]. }
  { destruct Hs' as [[] _]. split; [done|by apply fa_intake0]. }
  clear p Hs He Ha Hs'. intros p [] q [[[] _] He] Ha H. cbn in H. destruct (en_done _) eqn:Ed; [|done].
  injection H as <-. destruct (fa_server0 eq_refl). split; [done|]. constructor; auto. by destruct r.
Qed.

(** [Engine.Stop], once the server is closed. *)
Lemma Stop_proper r p : shut r p -> always p -> proper drained (io_map (Join r) Stop) p.
Proof.
  intros Hs Ha. apply (proper_Invoke drained (shut r)); [intros; by eapply shut_stable|done|done|done|].
  clear p Hs Ha. intros p [] q Hs Ha [= <-].
  assert (Hs' : shut r (with_engine stop_intake p)).
  { apply shut_engine; [|done]. intros e. split; [done|]. intros E. cbn. rewrite E. apply orb_true_r. }
  apply (proper_Invoke drained (shut r)); [intros; by eapply shut_stable|done| |done|].
  { destruct Ha, Hs' as [Hf _]. by eapply falling_always. }
  clear p Hs Ha Hs'. intros p b q Hs Ha H. cbn in H. rewrite (fa_started _ _ _ (proj1 Hs)) in H.
  destruct b; [|done]. injection H as <-. cbn [negb].
  apply (proper_Invoke drained (shut r)); [intros; by eapply shut_stable|done|done| |].
  { destruct Hs as [[] _]. split; [done|by apply fa_intake0]. }
  clear p Hs Ha. intros p b q Hs Ha H. cbn in H. destruct b.
  - destruct (en_done _) eqn:Ed; [|done]. injection H as <-. by apply stopped_proper.
  - destruct (pr_expired p) eqn:Ee; [|done]. injection H as <-. by apply overdue_proper.
Qed.

Lemma OnStop_proper p : running p -> always p -> proper drained OnStop p.
Proof.
  intros Hr Ha. apply (proper_Invoke drained running); [intros; by eapply running_stable|done|done|done|].
  clear p Hr Ha. intros p [] q Hr Ha [= <-]. set (S := fun q => running q /\ pr_ready q = false).
  assert (Hq : S (set_ready false p)) by (split; [by destruct Hr|done]).
  apply (proper_Invoke drained S).
  { intros q q' Hq' [H1 H2]. split; [by eapply running_stable|]. destruct Hq'. congruence. }
  { done. }
  { destruct Ha. by constructor. }
  { done. }
  clear p Hr Ha Hq. intros p [] q [Hr Hd] Ha [= <-]. clear S.
  set (S := fun q => falling false true q /\ sv_cut (pr_server q) = false /\ en_work (pr_engine q) = false
                     /\ en_released (pr_engine q) = false).
  assert (Hall : forall q, S q -> always q).
  { intros q (Hf & Hc & Hw & Hl). eapply falling_always; [done|congruence..]. }
  assert (Hs : S (with_engine stop_intake p)).
  { destruct Hr. split_and!; [|done..]. constructor; try done. intros _. cbn. by rewrite rn_started0. }
  apply (proper_Invoke drained S); [|done|by apply Hall|done|].
  { intros q q' Hq (H1 & H2 & H3 & H4). split; [by eapply falling_stable|]. destruct Hq. split_and!; congruence. }
  clear p Hr Hd Ha Hs. intros p r q (Hf & Hc & Hw & Hl) Ha H. cbn in H.
  destruct r as [[]|e]; (destruct (_ : bool) eqn:E in H; [|done]); injection H as <-.
  - rewrite orb_false_r in E. apply Nat.eqb_eq in E.
    apply Stop_proper; [|destruct Ha; by constructor; [destruct Hf; cbn; congruence|cbn; congruence|..]].
    split; [|done]. destruct Hf. constructor; try done. intros _. split; [done|by right].
  - apply orb_true_iff in E. rewrite Nat.eqb_eq in E.
    assert (He : shut (Err e) (with_server (set_state Closed) p)).
    { split; [|done]. destruct Hf. constructor; try done. intros _. split; [done|]. cbn. by destruct E; [right|left]. }
    apply (proper_Invoke drained (shut (Err e))); [intros; by eapply shut_stable|done| |done|].
    { destruct Ha, Hf. constructor; try done. cbn. congruence. }
    clear p Hf Hc Hw Hl Ha E He. intros p [] q [[] _] Ha [= <-]. destruct (fa_server0 eq_refl) as [Hc Hq].
    assert (Hq' : sv_requests (pr_server p) = 0%nat \/ pr_expired p = true) by by destruct Hq; [right|left].
    apply Stop_proper; [|destruct Ha; constructor; [cbn; congruence|by split|done..]].
    split; [|done]. constructor; [done..|]. intros _. by split.
Qed.

(** ** Every life *)

Lemma unused_stable p p' : rely p p' -> sv_state (pr_server p) <> Serving -> unused p -> unused p'.
Proof.
  intros [] Hs [H1 H2]. specialize (rl_requests0 Hs). split.
  - destruct H1 as [H1|H1]; [left; congruence|right]. by destruct rl_done0 as [->|(-> & _)].
  - destruct H2 as [H2|H2]; [left; lia|right; auto].
Qed.

Lemma up_stable r p p' : rely p p' -> up r p -> up r p'.
Proof.
  intros Hr. destruct r as [u|e]; [by apply running_stable|]. intros (H1 & H2 & H3).
  assert (Hs : sv_state (pr_server p') <> Serving) by (destruct Hr; destruct rl_state0 as [->|[? ?]]; congruence).
  split; [|split; [done|by eapply unused_stable]]. destruct Hr. congruence.
Qed.

Lemma drained_unused r p : drained r p -> sv_state (pr_server p) <> Serving /\ unused p.
Proof.
  intros []. split; [congruence|]. split; [by right|]. destruct dr_requests0 as [|]; auto.
Qed.

Definition stage_ok (x : process * stage) : Prop :=
  let '(p, st) := x in
  match st with
  | Idle => untouched p
  | Starting k => proper up k p
  | Failed e => always p /\ up (Err e) p
  | Up => always p /\ running p
  | Stopping k => proper drained k p
  | Stopped r => always p /\ drained r p
  | Exited r => always p /\ pr_ready p = false /\ sv_state (pr_server p) <> Serving /\ unused p
  end.

Lemma untouched_always p : untouched p -> always p.
Proof. intros []. constructor; rewrite ?ut_server0, ?ut_engine0; try done. congruence. Qed.

Lemma stage_beside p p' st : beside p p' -> stage_ok (p, st) -> stage_ok (p', st).
Proof.
  intros Hb. pose proof (beside_rely _ _ Hb) as Hr. destruct st; cbn [stage_ok].
  - by apply untouched_stable.
  - eapply safe_stable; [exact told_stable|exact always_stable|exact up_stable|done].
  - intros [Ha H]. split; [by eapply always_stable|by eapply up_stable].
  - intros [Ha H]. split; [by eapply always_stable|by eapply running_stable].
  - eapply safe_stable; [exact told_stable|exact always_stable|exact drained_stable|done].
  - intros [Ha H]. split; [by eapply always_stable|by eapply drained_stable].
  - intros (Ha & H1 & H2 & H3). split; [by eapply always_stable|]. split; [destruct Hr; congruence|].
    split; [|by eapply unused_stable]. destruct Hr. destruct rl_state0 as [->|[? ?]]; congruence.
Qed.

Lemma always_closed p : pr_ready p = false -> always p -> always (close_pool p).
Proof. intros H []. constructor; try done. cbn. congruence. Qed.

Lemma lives_ok x y : lives x y -> stage_ok x -> stage_ok y.
Proof.
  intros H. destruct H as [p|p e|p e k a p' Hd|p|p e|p|p e k a p' Hd|p r|p e|p r|p p' st Hb _]; cbn [stage_ok].
  - apply OnStart_proper.
  - intros H. split; [by apply untouched_always|]. destruct H. unfold unused. rewrite ut_server0, ut_engine0. auto.
  - intros (_ & _ & H). by apply (H p a p').
  - by intros [].
  - by intros [].
  - intros [Ha H]. by apply OnStop_proper.
  - intros (_ & _ & H). by apply (H p a p').
  - by intros [].
  - intros (Ha & H1 & H2 & H3). split; [by apply always_closed|done].
  - intros [Ha H]. apply drained_unused in H as Hu. destruct H. split; [by apply always_closed|done].
  - by apply stage_beside.
Qed.

Lemma lived_ok x : lived x -> stage_ok x.
Proof. induction 1 as [|x y _ IH H]; [by constructor|by eapply lives_ok]. Qed.

Lemma lived_always p st : lived (p, st) -> always p.
Proof.
  intros H. apply lived_ok in H. destruct st; cbn in H; try by destruct H.
  - by apply untouched_always.
  - by apply safe_Inv in H.
  - by apply safe_Inv in H.
Qed.

Lemma does_pool e p a p' : does e p a = Some p' -> pr_pool p' = pr_pool p.
Proof. destruct e; cbn; intros H; repeat case_match; by simplify_eq. Qed.

(** The pool is open until fx is through with the hooks. *)
Lemma lived_pool p st : lived (p, st) -> pr_pool p = false -> exists r, st = Exited r.
Proof.
  intros H. remember (p, st) as x eqn:E. revert p st E. induction H as [|x y _ IH H]; intros p st E.
  - by injection E as <- <-.
  - destruct H as [q|q e|q e k a q' Hd|q|q e|q|q e k a q' Hd|q r|q e|q r|q q' st' Hb _]; injection E as <- <-; intros Hp;
      try (by destruct (IH _ _ eq_refl Hp)); try by eexists.
    + rewrite (does_pool _ _ _ _ Hd) in Hp. by destruct (IH _ _ eq_refl Hp).
    + rewrite (does_pool _ _ _ _ Hd) in Hp. by destruct (IH _ _ eq_refl Hp).
    + rewrite (rl_pool _ _ (beside_rely _ _ Hb)) in Hp. by apply (IH _ _ eq_refl).
Qed.



Lemma does_some e p : told e p ->
  (exists a p', does e p a = Some p')
  \/ (sv_requests (pr_server p) <> 0%nat /\ pr_expired p = false)
  \/ (en_intake (pr_engine p) = true /\ en_done (pr_engine p) = false).
Proof.
  intros Ht. destruct e as [| | | |b| | | | | | | | |]; cbn in *; try (left; exists tt; by eexists); try (left; exists (Ok tt); by eexists).
  - destruct (sv_requests (pr_server p)) as [|n] eqn:En; [left; exists (Ok tt); by eexists|].
    destruct (pr_expired p) eqn:Ee; [left; exists (Err ctx_error); rewrite orb_true_r; by eexists|]. by right; left.
  - left. exists (en_started (pr_engine p)). rewrite Bool.eqb_reflx. by eexists.
  - destruct Ht as [_ Ht]. destruct (en_done (pr_engine p)) eqn:Ed; [left; exists true; by eexists|]. by right; right.
  - destruct Ht as [_ Ht]. destruct (en_done (pr_engine p)) eqn:Ed; [left; exists tt; by eexists|]. by right; right.
Qed.

Lemma Stop_length h l r : returns (io_map (Join h) Stop) l r -> (length l <= 5)%nat.
Proof.
  intros H. apply io_map_returns in H as (a & H & _). destruct H as ([] & l1 & -> & [] & l2 & -> & H); cbn in H.
  - destruct H as ([] & l3 & -> & [] & l4 & -> & H); cbn in H; destruct H as (r5 & l5 & -> & -> & _); cbn; lia.
  - destruct H as [-> _]. cbn. lia.
Qed.

(** [OnStop] never hangs by itself: at any point of it, it returns or goes
    on, or it waits for requests before the deadline, or for loops that have
    been told to stop; and it makes at most nine calls. *)
Theorem stop_goes_on p k :
  lived (p, Stopping k) ->
  ((exists r, k = Return r)
   \/ (exists e k' a p', k = Invoke e k' /\ does e p a = Some p' /\ lives (p, Stopping k) (p', Stopping (k' a)))
   \/ (sv_requests (pr_server p) <> 0%nat /\ pr_expired p = false)
   \/ (en_intake (pr_engine p) = true /\ en_done (pr_engine p) = false))
  /\ forall l r, returns OnStop l r -> (length l <= 9)%nat.
Proof.
  intros H. split.
  - apply lived_ok in H. destruct k as [r|e k]; [left; by exists r|right]. destruct H as (_ & Ht & _).
    destruct (does_some e p Ht) as [(a & p' & Hd)|H]; [left|by right].
    exists e, k, a, p'. split; [done|]. split; [done|]. by apply lv_stopping.
  - clear H. intros l r (a & l1 & -> & b & l2 & -> & h & l3 & -> & H). destruct h as [u|e].
    + apply Stop_length in H. cbn. lia.
    + destruct H as (d & l4 & -> & H). apply Stop_length in H. cbn. lia.
Qed.

(** ** A life *)

(** It starts, serves a request, is told to stop, and drains in time. *)
Definition just_up : process :=
  mkProcess true true true (mkServer Serving 0 false false) (mkEngine true false false false false) true false.
Definition while_up : process :=
  mkProcess true true true (mkServer Serving 1 false false) (mkEngine true false false false false) true false.
Definition while_stopping : process :=
  mkProcess false true true (mkServer Serving 1 false false) (mkEngine true true false false false) true false.
Definition after_exit : process :=
  mkProcess false true true (mkServer Closed 0 false false) (mkEngine true true true true true) false false.

Ltac next H step := let H' := fresh in pose proof (lived_step _ _ H step) as H'; clear H; rename H' into H.
Ltac starting e a :=
  match goal with
  | H : lived (?p, Starting ?k) |- _ =>
      match eval hnf in k with Invoke _ ?k' => next H (lv_starting p e k' a _ eq_refl); cbn beta iota in H end
  end.
Ltac stopping e a :=
  match goal with
  | H : lived (?p, Stopping ?k) |- _ =>
      match eval hnf in k with Invoke _ ?k' => next H (lv_stopping p e k' a _ eq_refl); cbn beta iota in H end
  end.

Lemma lived_up : lived (while_up, Up).
Proof.
  pose proof lived_new as H. next H (lv_ping new_process).
  starting CheckIdentity (Ok tt : res unit).
  starting StartBroker (Ok tt : res unit).
  starting Listen (Ok tt : res unit).
  starting StartEngine tt.
  starting (StoreReady true) tt.
  starting GoServe tt.
  match goal with H : lived (?p, _) |- _ => next H (lv_up p) end. exact (lived_step _ _ H (lv_beside just_up while_up Up (be_accept just_up eq_refl) (fun _ => eq_refl))).
Qed.

Definition shutting_down : io (res unit) :=
  Invoke Shutdown (fun r => match (r : res unit) with Ok _ => io_map (Join r) Stop | Err _ => CloseServer ~;; io_map (Join r) Stop end).

Lemma lived_stopping : lived (while_stopping, Stopping shutting_down).
Proof.
  pose proof lived_up as H. next H (lv_stop while_up).
  stopping (StoreReady false) tt.
  exact (lived_step _ _ H (lv_stopping _ StopIntake _ tt _ eq_refl)).
Qed.

Definition answered : process :=
  mkProcess false true true (mkServer Serving 0 false false) (mkEngine true true false false false) true false.
Definition settled : process :=
  mkProcess false true true (mkServer Serving 0 false false) (mkEngine true true false true false) true false.

Lemma lived_exit : lived (after_exit, Exited (Ok tt)).
Proof.
  pose proof lived_stopping as H.
  assert (H1 : beside while_stopping answered) by (apply (be_finish while_stopping); done).
  next H (lv_beside while_stopping answered (Stopping shutting_down) H1 (fun _ => eq_refl)).
  next H (lv_beside answered settled (Stopping shutting_down) (be_end answered eq_refl eq_refl) (fun _ => eq_refl)).
  stopping Shutdown (Ok tt : res unit).
  stopping StopIntake tt.
  stopping Started true.
  stopping AwaitDone true.
  stopping CancelWork tt.
  stopping ReleaseClaims (Ok tt : res unit).
  match goal with H : lived (?p, _) |- _ => next H (lv_stopped p (Ok tt : res unit)); exact (lived_step _ _ H (lv_exit p (Ok tt : res unit))) end.
Qed.



Lemma stop_goes_on_witness :
  lived (while_stopping, Stopping shutting_down)
  /\ ((exists r, shutting_down = Return r)
      \/ (exists e k' a p', shutting_down = Invoke e k' /\ does e while_stopping a = Some p'
           /\ lives (while_stopping, Stopping shutting_down) (p', Stopping (k' a)))
      \/ (sv_requests (pr_server while_stopping) <> 0%nat /\ pr_expired while_stopping = false)
      \/ (en_intake (pr_engine while_stopping) = true /\ en_done (pr_engine while_stopping) = false)).
Proof.
  split; [exact lived_stopping|]. exact (proj1 (stop_goes_on while_stopping shutting_down lived_stopping)).
Defined.
