(* ===== verification/Guarantees.v ===== *)
(** * What the system guarantees

    Theorems about every state any interleaving of calls can reach from an
    empty database, and about every reply it has given.  Each has a witness in
    the run of Scenario.v. *)

From stdpp Require Import sorting.
From S2P Require Import Prelude GoStd Codec Errors Ident Money Wallet Ledger Wager Evaluate.
From S2P Require Import Command Events Session Rules Machine Database Sql Store Work Rows Books.
From S2P Require Import Settle Pending Verdict Apply Committing Delivering Replaying Processing.
From S2P Require Import Read Opening Reading Paging Auditing Tending Leases Retry System Guards Scenario.
Import Str.

(** ** Money *)

(** C1: in every reachable state a wallet's balance is exactly what its ledger
    entries add up to, entry by entry from zero, and it is never negative nor
    beyond an [int64]. *)
Theorem balance_is_ledger m w r :
  reaches m -> wallets (m_db m) !! w = Some r ->
  chained 0 (entries w (m_db m)) (wr_balance r)
  /\ wr_balance r = ledger_sum (entries w (m_db m))
  /\ 0 <= wr_balance r <= Int64.MaxInt64 /\ 1 <= wr_version r.
Proof.
  intros Hr Hw. destruct (cs_wallet _ (reached_consistent _ Hr) _ _ Hw) as (Hok & Hc & _).
  destruct (wallet_ok_ranged _ Hok) as [[_ Hmax] _]. pose proof (wok_nonneg _ Hok) as Hn.
  destruct (wok_version _ Hok) as [Hv _]. pose proof (chained_sum _ _ _ Hc) as Hsum. cbn in *.
  split_and!; try done; lia.
Qed.

Lemma balance_is_ledger_witness :
  exists m, reaches m /\ wallets (m_db m) !! anas_wallet = Some anas_row
    /\ wr_balance anas_row = ledger_sum (entries anas_wallet (m_db m)).
Proof.
  destruct day_exists as (m & Hm). exists m.
  assert (Hw : wallets (m_db m) !! anas_wallet = Some anas_row)
    by apply (day_wallet m Hm).
  split; [by apply day_reaches|]. split; [exact Hw|].
  apply (balance_is_ledger m anas_wallet anas_row (day_reaches m Hm) Hw).
Defined.

(** C5: in every reachable state money moved exactly for the processed
    transactions other than a loss: each has one ledger entry, with its wallet,
    amount, direction and resulting balance, no other transaction has any, and
    every entry is the entry of such a transaction. *)
Theorem money_moves_once m :
  reaches m ->
  (forall i r, wagers (m_db m) !! i = Some r ->
     if moving r
     then exists e, e ∈ ledger (m_db m) /\ entry_matches i r e
          /\ expected_direction (m_db m) r = Some (lr_direction e)
          /\ forall e', e' ∈ ledger (m_db m) -> lr_tx e' = i -> e' = e
     else forall e, e ∈ ledger (m_db m) -> lr_tx e <> i)
  /\ forall e, e ∈ ledger (m_db m) -> exists r,
       wagers (m_db m) !! lr_tx e = Some r /\ moving r = true /\ entry_matches (lr_tx e) r e.
Proof.
  intros Hr. pose proof (reached_consistent _ Hr) as Hc.
  assert (Hone : forall e e', e ∈ ledger (m_db m) -> e' ∈ ledger (m_db m) -> lr_tx e' = lr_tx e -> e' = e).
  { intros e e' He He' Ht. apply list_elem_of_lookup in He as [n Hn], He' as [k Hk].
    assert (k = n) as ->; [|congruence].
    eapply NoDup_lookup; [apply (cs_tx _ Hc)| |]; rewrite list_lookup_fmap; [by rewrite Hk|].
    rewrite Hn. cbn. by rewrite Ht. }
  split.
  - intros i r Hi. pose proof (cs_recorded _ Hc _ _ Hi) as Hrec. unfold recorded in Hrec.
    destruct (moving r); [|done]. destruct Hrec as (e & He & Hm & Hd). exists e. split_and!; try done.
    intros e' He' Ht. apply Hone; try done. rewrite Ht. symmetry. apply (em_tx _ _ _ Hm).
  - intros e He. destruct (cs_ledger _ Hc e He) as (_ & (r & Hi & _) & _). exists r. split; [done|].
    pose proof (cs_recorded _ Hc _ _ Hi) as Hrec. unfold recorded in Hrec. destruct (moving r).
    + destruct Hrec as (e' & He' & Hm & _). split; [done|].
      pose proof (Hone _ _ He He' (em_tx _ _ _ Hm)) as E. by rewrite E in Hm.
    + by destruct (Hrec e He).
Qed.

Lemma money_moves_once_witness :
  exists m, reaches m /\ length (ledger (m_db m)) = 3%nat
    /\ forall e, e ∈ ledger (m_db m) -> exists r,
         wagers (m_db m) !! lr_tx e = Some r /\ moving r = true /\ entry_matches (lr_tx e) r e.
Proof.
  destruct day_exists as (m & Hm). exists m. split; [by apply day_reaches|]. split.
  - apply (day_entries m Hm).
  - apply (money_moves_once m (day_reaches m Hm)).
Defined.

(** C19: in every reachable state every transaction's state and every ledger
    entry is announced by an event of the outbox whose payload is its
    envelope, the deferred triggers of the migrations hold of every row, and
    every inbox row is completed for a transaction that exists; and at every
    point of every method, in any database, the statement it issues writes
    only what the row triggers let through: the ledger is appended to, an
    event's snapshot and a transaction's request are kept, and a terminal
    transaction is left alone. *)
Theorem announced_and_guarded m :
  reaches m ->
  (forall i r, wagers (m_db m) !! i = Some r -> announced (outbox (m_db m)) i r)
  /\ (forall e, e ∈ ledger (m_db m) -> entry_announced (outbox (m_db m)) e)
  /\ (forall i r, wagers (m_db m) !! i = Some r -> verify_wager_ledger i (m_db m) = true)
  /\ (forall k r, inbox (m_db m) !! k = Some r -> validate_inbox_commit k (m_db m) = true
        /\ exists i, ib_wager r = Some i /\ is_Some (wagers (m_db m) !! i))
  /\ (forall o, issues guarded (code o)).
Proof.
  intros Hr. pose proof (reached_consistent _ Hr) as Hc. split_and!; [| | | |apply code_let_through].
  - apply (cs_announced _ Hc).
  - apply (cs_moved _ Hc).
  - intros i r Hi. by eapply consistent_verify.
  - intros k r Hk. split; [by apply inbox_guard_passes|].
    destruct (cs_inbox _ Hc _ _ Hk) as (i & c & ? & _ & ?). by exists i.
Qed.

Lemma announced_and_guarded_witness :
  exists m, reaches m /\ is_some (wagers (m_db m) !! nth_id 403) = true
    /\ forall r, wagers (m_db m) !! nth_id 403 = Some r -> announced (outbox (m_db m)) (nth_id 403) r.
Proof.
  destruct day_exists as (m & Hm). exists m. split; [by apply day_reaches|]. split.
  - apply (day_orphan m Hm).
  - intros r Hr. by apply (announced_and_guarded m (day_reaches m Hm)).
Defined.

(** ** Requests and replies *)

(** The commit a successful reply reports is one of the history. *)
Lemma reached_logged m o a b v : reaches m -> (o, a, Some (b, v)) ∈ m_log m -> (o, b, v) ∈ m_commits m.
Proof. intros Hr. apply (snd_logged _ _ _ _ (store_sound _ Hr)). Qed.

Definition delivery_key (d : InboxMessage) : string * string := (imConsumerName d, imMessageID d).

(** The delivery [d] was first completed by a commit for the request [n]. *)
Definition first_delivered (m : system) (d : InboxMessage) (n : Command) : Prop :=
  exists c0 d0 H0 b0 v0, (OpProcessWager c0 (Some d0) H0, b0, v0) ∈ m_commits m
    /\ delivery_key d0 = delivery_key d /\ NormalizeCommand c0 = Ok n
    /\ inbox b0 !! delivery_key d = None /\ is_Some (inbox v0 !! delivery_key d).

(** The request [n] a successful reply answers: the call's own, or, for a message
    its commit [cm] found already delivered, the one it was first delivered with. *)
Definition request_of (m : system) (c : Command) (mi : option InboxMessage) (cm : option (Db * Db)) (n : Command) : Prop :=
  exists b v, cm = Some (b, v) /\
    match (fun d => (d, inbox b !! delivery_key d)) <$> mi with
    | Some (d, Some _) => first_delivered m d n
    | _ => NormalizeCommand c = Ok n
    end.

(** A commit that found the delivery completed names its transaction, which
    answers the request of the first delivery. *)
Lemma first_answers m d n b i irow :
  reaches m -> first_delivered m d n -> evolves b (m_db m) -> inbox b !! delivery_key d = Some irow ->
  ib_wager irow = Some i ->
  exists hash row, PayloadHash n = Ok hash /\ wagers (m_db m) !! i = Some row /\ answers n hash row.
Proof.
  intros Hr (c0 & d0 & H0 & b0 & v0 & Hin & _ & Hn & Hnone & irow0 & Hk0) He Hk Hw.
  destruct (reached_commit _ _ _ _ Hr Hin) as (Hs & _ & _ & _ & He0).
  destruct (ev_inbox _ _ He _ _ Hk) as (r1 & E1 & <-). destruct (ev_inbox _ _ He0 _ _ Hk0) as (r2 & E2 & <-).
  rewrite E1 in E2. injection E2 as <-.
  destruct (process_completes _ _ _ _ _ _ Hs Hk0) as [E|(c' & d' & hash & j & r & _ & _ & _ & _ & Hn' & Hh & Hj & _ & Hrow & Ha)];
    [congruence|].
  rewrite Hn in Hn'. injection Hn' as <-. rewrite Hw in Hj. injection Hj as <-.
  destruct (ev_wagers _ _ He0 _ _ Hrow) as (r' & Hr' & (Hq & _)). exists hash, r'. split_and!; [done..|].
  by eapply answers_grows.
Qed.

(** The books' view of a successful reply of [ProcessWager]: its transaction
    carries the identity of the request it answers. *)
Lemma answered m c H mi res cm n :
  reaches m -> (OpProcessWager c mi H, RpResult (Ok res), cm) ∈ m_log m -> request_of m c mi cm n ->
  exists hash i row, PayloadHash n = Ok hash /\ stands (m_db m) res i row /\ answers n hash row.
Proof.
  intros Hr Hin (b & v & -> & Hreq). pose proof (reached_promise _ _ _ _ Hr Hin) as Hp. cbn in Hp.
  apply (reached_logged _ _ _ _ _ Hr) in Hin as Hcm. destruct (reached_commit _ _ _ _ Hr Hcm) as (_ & _ & _ & Hbv & Hv).
  destruct Hp as (c' & hash & bv & Hn & Hh & [= <-] & (i & row & Hs & Hdel & Hrep)). cbn [fst snd] in Hrep.
  assert (Hown : forall d, mi = Some d -> inbox b !! delivery_key d = None -> NormalizeCommand c = Ok n).
  { intros d -> E. cbn in Hreq. by rewrite E in Hreq. }
  assert (Hnew : NormalizeCommand c = Ok n -> answers c' hash row ->
    exists hash i row, PayloadHash n = Ok hash /\ stands (m_db m) res i row /\ answers n hash row).
  { intros E Ha. rewrite Hn in E. injection E as <-. by exists hash, i, row. }
  destruct (rsIdempotentReplay res).
  - destruct Hrep as [[Hrd Ha]|(-> & (d & -> & irow & Hk & Hw & _) & _)].
    + apply Hnew; [|done]. destruct mi as [d|]; [|done]. destruct Hrd as (irow & Hk & _). by eapply Hown.
    + cbn in Hreq. unfold delivery_key in Hreq at 1. rewrite Hk in Hreq.
      destruct (first_answers m d n b i irow Hr Hreq) as (hash' & row' & Hh' & Hrow' & Ha'); [by etrans|done..|].
      exists hash', i, row. split_and!; [done..|]. pose proof (sn_row _ _ _ _ Hs) as E. rewrite Hrow' in E. by injection E as <-.
  - destruct Hrep as [Hset Ha]. apply Hnew; [|done]. destruct mi as [d|]; [|done].
    apply (Hown d eq_refl). by eapply settled_undelivered.
Qed.

(** Every successful reply answers a request, of its own provider. *)
Lemma request_exists m c H mi res cm :
  reaches m -> (OpProcessWager c mi H, RpResult (Ok res), cm) ∈ m_log m ->
  exists n c', request_of m c mi cm n /\ NormalizeCommand c = Ok c' /\ cProviderID n = cProviderID c'.
Proof.
  intros Hr Hin. pose proof (reached_promise _ _ _ _ Hr Hin) as Hp. cbn in Hp.
  destruct Hp as (c' & hash & [b v] & Hn & Hh & -> & (i & row & Hs & Hdel & Hrep)). cbn [fst snd] in Hrep.
  apply (reached_logged _ _ _ _ _ Hr) in Hin as Hcm. destruct (reached_commit _ _ _ _ Hr Hcm) as (_ & _ & _ & Hbv & Hv).
  assert (Hown : (forall d, mi = Some d -> inbox b !! delivery_key d = None) ->
    exists n c', request_of m c mi (Some (b, v)) n /\ NormalizeCommand c = Ok c' /\ cProviderID n = cProviderID c').
  { intros E. exists c', c'. split_and!; [|done..]. exists b, v. split; [done|].
    destruct mi as [d|]; [|done]. cbn. by rewrite (E d). }
  destruct (rsIdempotentReplay res).
  - destruct Hrep as [[Hrd Ha]|(-> & (d & -> & irow & Hk & Hw & _) & Hprov)].
    + apply Hown. intros d ->. by destruct Hrd as (irow & Hk & _).
    + assert (Hev : evolves b (m_db m)) by by etrans. destruct (ev_inbox _ _ Hev _ _ Hk) as (r1 & E1 & <-).
      destruct (delivered_by m _ _ Hr E1) as (c0 & m0 & H0 & b0 & v0 & n & Hin0 & Hc0).
      destruct Hc0 as (d0 & hash0 & j & r & -> & Hkey & Hnone & Hk0 & Hn0 & Hh0 & Hj & _ & Hrow & Ha).
      assert (Hfirst : first_delivered m d n).
      { exists c0, d0, H0, b0, v0. split_and!; [done|by symmetry|done..|by eexists]. }
      exists n, c'. split_and!; [|done|].
      * exists b, b. split; [done|]. cbn. unfold delivery_key at 1. by rewrite Hk.
      * destruct (first_answers m d n b i irow Hr Hfirst Hev Hk Hw) as (_ & row' & _ & Hrow' & [Ha' _]).
        pose proof (sn_row _ _ _ _ Hs) as E. rewrite Hrow' in E. injection E as <-.
        unfold has_key in Ha'. bools. congruence.
  - apply Hown. intros d ->. destruct Hrep as [Hset _]. by eapply settled_undelivered.
Qed.

(** Two accounts of one transaction with a terminal result are the same. *)
Lemma stands_same d res res' i row :
  stands d res i row -> stands d res' i row ->
  Terminal (rsStatus res) = true -> Terminal (rsStatus res') = true ->
  rsStatus res = rsStatus res' /\ rsBalance res = rsBalance res'
  /\ rsWalletVersion res = rsWalletVersion res' /\ rsFailureCode res = rsFailureCode res'.
Proof.
  intros [_ _ H] [_ _ H'] T T'. rewrite T in H. rewrite T' in H'.
  destruct H as (H1 & H2 & H3), H' as (H1' & H2' & H3'). rewrite H2 in H2'. injection H2' as E1 E2.
  split_and!; congruence.
Qed.

(** C3: whatever the interleaving, every successful reply answers a request: its
    call's own, or, when its commit found the message already delivered, the one
    that message was first delivered with, always of the caller's provider.  Two
    successful replies that answer requests with the same provider and
    idempotency key, over HTTP or the queue, new, repeated or redelivered, are
    about the same transaction, the requests have the same payload hash, and
    terminal results agree field by field: a key is answered once and for all. *)
Theorem one_answer_per_key m c1 H1 m1 res1 cm1 c2 H2 m2 res2 cm2 :
  reaches m ->
  (OpProcessWager c1 m1 H1, RpResult (Ok res1), cm1) ∈ m_log m ->
  (OpProcessWager c2 m2 H2, RpResult (Ok res2), cm2) ∈ m_log m ->
  (exists n c', request_of m c1 m1 cm1 n /\ NormalizeCommand c1 = Ok c' /\ cProviderID n = cProviderID c')
  /\ forall n1 n2, request_of m c1 m1 cm1 n1 -> request_of m c2 m2 cm2 n2 ->
     cProviderID n1 = cProviderID n2 -> cIdempotencyKey n1 = cIdempotencyKey n2 ->
     rsTransactionID res1 = rsTransactionID res2 /\ PayloadHash n1 = PayloadHash n2
     /\ (Terminal (rsStatus res1) = true -> Terminal (rsStatus res2) = true ->
         rsStatus res1 = rsStatus res2 /\ rsBalance res1 = rsBalance res2
         /\ rsWalletVersion res1 = rsWalletVersion res2 /\ rsFailureCode res1 = rsFailureCode res2).
Proof.
  intros Hr Hin1 Hin2. split; [by eapply request_exists|]. intros n1 n2 Q1 Q2 Hp Hk.
  destruct (answered _ _ _ _ _ _ _ Hr Hin1 Q1) as (h1 & i1 & r1 & Hh1 & S1 & [K1 A1]).
  destruct (answered _ _ _ _ _ _ _ Hr Hin2 Q2) as (h2 & i2 & r2 & Hh2 & S2 & [K2 A2]).
  rewrite <- Hp, <- Hk in K2.
  assert (i2 = i1) as ->.
  { eapply (cs_key _ (reached_consistent _ Hr)); [apply S2|apply S1|exact K2|exact K1]. }
  assert (r2 = r1) as -> by (pose proof (sn_row _ _ _ _ S1); pose proof (sn_row _ _ _ _ S2); congruence).
  split_and!.
  - by rewrite (sn_id _ _ _ _ S1), (sn_id _ _ _ _ S2).
  - rewrite Hh1, Hh2. congruence.
  - by eapply stands_same.
Qed.

(** A reply that settled its request answers its own. *)
Lemma new_request_of m c H mi res cm n :
  reaches m -> (OpProcessWager c mi H, RpResult (Ok res), cm) ∈ m_log m -> rsIdempotentReplay res = false ->
  NormalizeCommand c = Ok n -> request_of m c mi cm n.
Proof.
  intros Hr Hin Hrep Hn. pose proof (reached_promise _ _ _ _ Hr Hin) as (c' & hash & [b v] & _ & _ & -> & (i & row & _ & _ & Hs)).
  rewrite Hrep in Hs. exists b, v. split; [done|]. destruct mi as [d|]; [|done]. cbn.
  by rewrite (settled_undelivered _ _ _ _ _ _ _ (proj1 Hs) : inbox b !! delivery_key d = None).
Qed.

(** A bet taken from the queue, then repeated over HTTP. *)
Lemma one_answer_per_key_witness :
  exists m c1 c2, reaches m
    /\ (place_bet, RpResult (Ok (bet_result false)), c1) ∈ m_log m
    /\ (repeat_bet, RpResult (Ok (bet_result true)), c2) ∈ m_log m
    /\ rsTransactionID (bet_result false) = rsTransactionID (bet_result true).
Proof.
  destruct day_exists as (m & Hm). pose proof (day_reaches m Hm) as Hr.
  destruct (day_called m Hm 1 (place_bet, RpResult (Ok (bet_result false))) eq_refl) as (c1 & H1).
  destruct (day_called m Hm 2 (repeat_bet, RpResult (Ok (bet_result true))) eq_refl) as (c2 & H2).
  exists m, c1, c2. split; [exact Hr|]. split; [exact H1|]. split; [exact H2|].
  destruct (NormalizeCommand bet) as [n|e] eqn:En; [|vm_compute in En; discriminate En].
  refine (proj1 (proj2 (one_answer_per_key m _ _ _ _ _ _ _ _ _ _ Hr H1 H2) n n _ _ eq_refl eq_refl)).
  - exact (new_request_of m _ _ _ _ _ n Hr H1 eq_refl En).
  - pose proof (reached_promise _ _ _ _ Hr H2) as (c' & hash & [b v] & _ & _ & E & _). exists b, v. by split.
Defined.

(** A transaction reaches its terminal result in at most one commit of the
    whole history, whichever calls, retries or redeliveries compete for it. *)
Theorem settled_in_one_commit m i o1 b1 v1 o2 b2 v2 :
  reaches m -> (o1, b1, v1) ∈ m_commits m -> (o2, b2, v2) ∈ m_commits m ->
  let final d := exists r, wagers d !! i = Some r /\ terminal r = true in
  ~ final b1 -> final v1 -> ~ final b2 -> final v2 -> (o1, b1, v1) = (o2, b2, v2).
Proof.
  intros Hr H1 H2 final Hb1 Hv1 Hb2 Hv2.
  assert (Hkeep : forall d d', evolves d d' -> final d -> final d').
  { intros d d' He (r & Hi & Ht). destruct (ev_wagers _ _ He _ _ Hi) as (r' & Hi' & Hg).
    exists r'. split; [done|]. by destruct (data_of_grown i _ _ Hg Ht) as (_ & ? & _). }
  destruct (reached_order _ _ _ _ _ _ _ Hr H1 H2) as [?|[He|He]]; [done|..].
  - destruct Hb2. by eapply Hkeep.
  - destruct Hb1. by eapply Hkeep.
Qed.

Lemma settled_in_one_commit_witness :
  exists m b v, reaches m /\ (place_bet, b, v) ∈ m_commits m
    /\ (exists r, wagers v !! nth_id 104 = Some r /\ terminal r = true)
    /\ forall o b' v', (o, b', v') ∈ m_commits m ->
       ~ (exists r, wagers b' !! nth_id 104 = Some r /\ terminal r = true) ->
       (exists r, wagers v' !! nth_id 104 = Some r /\ terminal r = true) -> (place_bet, b, v) = (o, b', v').
Proof.
  destruct day_exists as (m & Hm). pose proof (day_reaches m Hm) as Hr.
  destruct (day_called m Hm 1 (place_bet, RpResult (Ok (bet_result false))) eq_refl) as (c & Hin).
  pose proof (reached_promise _ _ _ _ Hr Hin) as (c' & hash & [b v] & _ & _ & E & (i & row & Hs & _ & Hst & _)).
  cbn [fst snd] in *. rewrite E in Hin. apply (reached_logged _ _ _ _ _ Hr) in Hin as Hcm.
  destruct Hst as (h & w & wrow & now & u & x & ib & Hst).
  assert (i = nth_id 104) as ->.
  { pose proof (sn_id _ _ _ _ Hs) as Hid. apply (inj ID_String). by rewrite <- Hid. }
  assert (Hfinal : exists r, wagers v !! nth_id 104 = Some r /\ terminal r = true).
  { pose proof (settled_stands _ _ _ _ _ _ _ _ _ _ _ _ _ _ Hst) as [_ Hrow [Hterm _]].
    eexists. split; [exact Hrow|]. unfold terminal. by rewrite Hterm. }
  assert (Hnew : ~ exists r, wagers b !! nth_id 104 = Some r /\ terminal r = true).
  { intros (r & Hrow & _). by rewrite (sd_new _ _ _ _ _ _ _ _ _ _ _ _ _ _ Hst) in Hrow. }
  exists m, b, v. split; [exact Hr|]. split; [exact Hcm|]. split; [exact Hfinal|].
  intros o b' v' Hcm' Hb' Hv'. by apply (settled_in_one_commit m (nth_id 104)).
Defined.

(** C16: two successful replies to deliveries of one message (same consumer,
    same message identifier) are about the same transaction, and the deliveries
    had the same payload hash: a redelivered message is processed once. *)
Theorem one_answer_per_delivery m c1 H1 d1 res1 cm1 c2 H2 d2 res2 cm2 :
  reaches m ->
  (OpProcessWager c1 (Some d1) H1, RpResult (Ok res1), cm1) ∈ m_log m ->
  (OpProcessWager c2 (Some d2) H2, RpResult (Ok res2), cm2) ∈ m_log m ->
  imConsumerName d1 = imConsumerName d2 -> imMessageID d1 = imMessageID d2 ->
  rsTransactionID res1 = rsTransactionID res2
  /\ Hex.decode (imPayloadHash d1) = Hex.decode (imPayloadHash d2).
Proof.
  intros Hr Hin1 Hin2 Hc Hmi.
  destruct (reached_promise _ _ _ _ Hr Hin1) as (? & ? & ? & _ & _ & _ & (i1 & r1 & S1 & D1 & _)).
  destruct (reached_promise _ _ _ _ Hr Hin2) as (? & ? & ? & _ & _ & _ & (i2 & r2 & S2 & D2 & _)).
  destruct (D1 d1 eq_refl) as (row1 & X1 & W1 & P1), (D2 d2 eq_refl) as (row2 & X2 & W2 & P2).
  rewrite Hc, Hmi, X2 in X1. injection X1 as <-. rewrite W2 in W1. injection W1 as ->.
  by rewrite (sn_id _ _ _ _ S1), (sn_id _ _ _ _ S2), P1, P2.
Qed.

Lemma one_answer_per_delivery_witness :
  exists m c c', reaches m /\ (place_bet, RpResult (Ok (bet_result false)), c) ∈ m_log m
    /\ (place_bet, RpResult (Ok (bet_result true)), c') ∈ m_log m
    /\ rsTransactionID (bet_result false) = rsTransactionID (bet_result true).
Proof.
  destruct day_exists as (m & Hm). pose proof (day_reaches m Hm) as Hr.
  destruct (day_called m Hm 1 (place_bet, RpResult (Ok (bet_result false))) eq_refl) as (c & H1).
  destruct (day_called m Hm 8 (place_bet, RpResult (Ok (bet_result true))) eq_refl) as (c' & H2).
  exists m, c, c'. split; [exact Hr|]. split; [exact H1|]. split; [exact H2|].
  revert H1 H2. unfold place_bet. destruct (delivery "m-1" bet) as [d|] eqn:Ed; [|vm_compute in Ed; discriminate Ed].
  intros H1 H2. by apply (one_answer_per_delivery m _ _ d _ _ _ _ d _ _ Hr H1 H2).
Defined.

(** C31: every successful reply about a transaction, of [ProcessWager],
    [RetryReference] or a read, is true from then on: its transaction exists,
    and a terminal status, balance, version and failure code are the ones on
    record in every later state. *)
Theorem replies_stand m o res cm :
  reaches m -> (o, RpResult (Ok res), cm) ∈ m_log m ->
  exists i row, stands (m_db m) res i row.
Proof.
  intros Hr Hin. pose proof (reached_promise _ _ _ _ Hr Hin) as Hp. destruct o; cbn in Hp; try done.
  - destruct Hp as (c' & hash & bv & _ & _ & _ & (i & row & Hs & _)). by exists i, row.
  - destruct Hp as (_ & i & row & Hs & _). by exists i, row.
  - destruct Hp as (_ & i & row & Hs & _). by exists i, row.
  - destruct Hp as (b & v & w & i & wrow & r & since & x & row & _ & _ & Hs). by exists i, row.
Qed.

Lemma replies_stand_witness :
  exists m c i row, reaches m /\ (place_bet, RpResult (Ok (bet_result false)), c) ∈ m_log m
    /\ stands (m_db m) (bet_result false) i row.
Proof.
  destruct day_exists as (m & Hm). pose proof (day_reaches m Hm) as Hr.
  destruct (day_called m Hm 1 (place_bet, RpResult (Ok (bet_result false))) eq_refl) as (c & Hin).
  destruct (replies_stand m place_bet (bet_result false) c Hr Hin) as (i & row & Hs).
  by exists m, c, i, row.
Defined.

Definition reply_error (a : Reply) : option GoError :=
  match a with
  | RpWallet (Err e) | RpResult (Err e) | RpOutbox _ (Some e) | RpReferences _ (Some e) | RpDone (Err e)
  | RpBacklog (Err e) | RpPage (Err e) | RpReconciliation (Err e) => Some e
  | _ => None
  end.

(** C6: a call that returns an error changed nothing, unless the error is
    [UNAVAILABLE], the one code of a commit whose acknowledgement was lost. *)
Theorem errors_change_nothing m o a cm e :
  reaches m -> (o, a, cm) ∈ m_log m -> reply_error a = Some e ->
  cm = None \/ (exists b, cm = Some (b, b)) \/ Code e = "UNAVAILABLE".
Proof.
  intros Hr Hin He. pose proof (reached_promise _ _ _ _ Hr Hin) as Hp.
  assert (Hor : cm = None \/ Code e = "UNAVAILABLE" -> cm = None \/ (exists b, cm = Some (b, b)) \/ Code e = "UNAVAILABLE")
    by tauto.
  assert (Hup : forall id token f, update_post id token f (Err e) cm ->
    cm = None \/ (exists b, cm = Some (b, b)) \/ Code e = "UNAVAILABLE").
  { intros id token f [?|[?|(_ & d & b & ? & _)]]; [by left|by right; right|right; left; by exists b]. }
  destruct o, a as [[]|[]|? []|? []|[]|[]|[]|[]]; try done; cbn in He; injection He as ->; cbn in Hp;
    first [by apply Hor|by apply Hor, Hp|by eapply (Hup _ _ (fun _ _ => True))|by left; apply Hp|by left].
Qed.

Lemma errors_change_nothing_witness :
  exists m c e, reaches m /\ (publish_first, RpDone (Err e), c) ∈ m_log m /\ e = AppError "CLAIM_LOST"
    /\ (c = None \/ (exists b, c = Some (b, b)) \/ Code e = "UNAVAILABLE").
Proof.
  destruct day_exists as (m & Hm). pose proof (day_reaches m Hm) as Hr.
  destruct (day_called m Hm 7 (publish_first, RpDone (Err (AppError "CLAIM_LOST"))) eq_refl) as (c & Hin).
  exists m, c, (AppError "CLAIM_LOST"). split; [exact Hr|]. split; [exact Hin|]. split; [reflexivity|].
  by apply (errors_change_nothing m publish_first (RpDone (Err (AppError "CLAIM_LOST"))) c).
Defined.

(** ** Order *)

(** The abstract store: one atomic transition after another, each one its
    operation permits, on consistent books. *)
Inductive sequential : list (Op * Db * Db) -> Db -> Prop :=
| seq_start : sequential [] empty_db
| seq_commit cm o b v :
    sequential cm b -> consistent b -> spec o b v -> evolves b v -> sequential ((o, b, v) :: cm) v.

(** C4: the interleaved system refines the abstract store: whatever sessions
    run at once, the committed database is the result of atomic transitions in
    the order of the commits, each permitted by its operation. *)
Theorem refines_sequential m : reaches m -> sequential (m_commits m) (m_db m).
Proof.
  intros Hr. pose proof (store_sound _ Hr) as [_ _ _ _ Hc _ _ Hst Hh].
  revert Hc Hst Hh. generalize (m_db m). generalize (m_commits m). intros cm.
  induction cm as [|[[o b] v] cm IH]; intros d Hc Hst Hh; [rewrite Hh; constructor|].
  destruct Hh as [-> Hh]. destruct (Hst o b v) as [Hb [_ He _]]; [apply list_elem_of_here|].
  constructor; [|done|by apply (Hc o b v), list_elem_of_here|done].
  apply IH; [| |done].
  - intros o' b' v' Hin. apply Hc. by right.
  - intros o' b' v' Hin. apply (Hst o'). by right.
Qed.

Lemma refines_sequential_witness :
  exists m b v, reaches m /\ (place_bet, b, v) ∈ m_commits m /\ sequential (m_commits m) (m_db m).
Proof.
  destruct day_exists as (m & Hm). pose proof (day_reaches m Hm) as Hr.
  destruct (day_called m Hm 1 (place_bet, RpResult (Ok (bet_result false))) eq_refl) as (c & Hin).
  pose proof (reached_promise _ _ _ _ Hr Hin) as (c' & hash & [b v] & _ & _ & E & _).
  rewrite E in Hin. exists m, b, v. split; [exact Hr|].
  split; [by apply (reached_logged _ _ _ _ _ Hr Hin)|by apply (refines_sequential m)].
Defined.

(** C32: nothing committed is ever taken back: from any commit on, no wallet,
    transaction, ledger entry, delivery or event disappears; a wallet keeps its
    owner and currency and its version never decreases; a transaction keeps its
    request, and a terminal one its whole result; entries and deliveries do
    not change at all; an event keeps its payload, and stays published. *)
Theorem history_only_grows m o b v :
  reaches m -> (o, b, v) ∈ m_commits m -> evolves b v /\ evolves v (m_db m).
Proof. intros Hr Hin. by destruct (reached_commit _ _ _ _ Hr Hin) as (_ & _ & _ & ? & ?). Qed.

Lemma history_only_grows_witness :
  exists m b v, reaches m /\ (place_bet, b, v) ∈ m_commits m /\ evolves b v /\ evolves v (m_db m).
Proof.
  destruct day_exists as (m & Hm). pose proof (day_reaches m Hm) as Hr.
  destruct (day_called m Hm 1 (place_bet, RpResult (Ok (bet_result false))) eq_refl) as (c & Hin).
  pose proof (reached_promise _ _ _ _ Hr Hin) as (c' & hash & [b v] & _ & _ & E & _).
  rewrite E in Hin. apply (reached_logged _ _ _ _ _ Hr) in Hin.
  exists m, b, v. split; [exact Hr|]. split; [exact Hin|]. by apply (history_only_grows m place_bet).
Defined.

(** ** Reversals and references *)

(** C17: in every reachable state a processed refund or rollback points at a
    processed transaction of the same provider, player, wallet, round, currency
    and amount, of a kind it may reverse, and no other processed refund or
    rollback points at it. *)
Theorem reversed_once m i r :
  reaches m -> wagers (m_db m) !! i = Some r -> status_of r = StatusProcessed ->
  reversal_kind (rq_kind (tr_request r)) = true ->
  exists j r', oc_reference (tr_outcome r) = Some j /\ wagers (m_db m) !! j = Some r'
    /\ status_of r' = StatusProcessed /\ reference_matches (data_of i r) (data_of j r')
    /\ forall i' r'', wagers (m_db m) !! i' = Some r'' -> reverses j r'' = true -> i' = i.
Proof.
  intros Hr Hi Hs Hk. pose proof (reached_consistent _ Hr) as Hc.
  destruct (cs_row _ Hc _ _ Hi) as [Hok _]. pose proof (cs_resolved _ Hc _ _ Hi Hs) as Hres.
  destruct (rq_refext (tr_request r)) as [x|] eqn:Ex.
  - destruct Hres as (j & r' & Hj & Hr' & Hp & Hm). exists j, r'. split_and!; try done.
    intros i' r'' Hi' Hrev. eapply (cs_reversal _ Hc i' i r'' r j); try done.
    unfold reverses. rewrite Hj, Hk. unfold status_of in Hs. rewrite Hs. by rewrite !bool_decide_refl.
  - destruct (rk_valid _ _ Hok) as ([_ _ _ _ _ _ Hkind] & _). cbn in Hkind.
    unfold reversal_kind in Hk. apply orb_true_iff in Hk. rewrite !bool_decide_eq_true in Hk.
    unfold validate_external in Hkind. cbn in Hkind. rewrite Ex in Hkind.
    destruct Hk as [Hk|Hk]; rewrite Hk in Hkind; cbn in Hkind;
      repeat (apply bind_Ok in Hkind as (? & ? & Hkind)); repeat match goal with H : guard_err _ _ = Ok _ |- _ => apply guard_err_Ok in H end; done.
Qed.

Lemma reversed_once_witness :
  exists m r, reaches m /\ wagers (m_db m) !! nth_id 303 = Some r
    /\ oc_reference (tr_outcome r) = Some (nth_id 104)
    /\ forall i r', wagers (m_db m) !! i = Some r' -> reverses (nth_id 104) r' = true -> i = nth_id 303.
Proof.
  destruct day_exists as (m & Hm). pose proof (day_reaches m Hm) as Hr.
  pose proof (day_refund m Hm) as Hf.
  destruct (wagers (m_db m) !! nth_id 303) as [r|] eqn:E; [|done].
  injection Hf as H1 H2 H3.
  exists m, r. split; [exact Hr|]. split; [exact E|]. split; [exact H3|].
  destruct (reversed_once m (nth_id 303) r Hr E H1) as (j & r' & Hj & _ & _ & _ & Hu);
    [by unfold reversal_kind; rewrite H2|].
  assert (j = nth_id 104) as -> by congruence. exact Hu.
Defined.

(** ** Workers *)

(** C14: a successful attempt at a waiting transaction commits exactly one
    settlement of the claimed transaction, on the claim's own lease: the
    domain's verdict with the wait expired or not, a recorded permanent failure,
    or another wait; it counts the attempt and gives the claim up.  Once the
    attempts or the time are exhausted the wait is over: the result is terminal. *)
Theorem retry_ends_the_wait m claim maxAttempts ttl res cm :
  reaches m -> (OpRetryReference claim maxAttempts ttl, RpResult (Ok res), cm) ∈ m_log m ->
  exists b v w i wrow r since x,
    cm = Some (b, v) /\ (OpRetryReference claim maxAttempts ttl, b, v) ∈ m_commits m
    /\ retried claim maxAttempts ttl res b v w i wrow r since x
    /\ (exhausts maxAttempts ttl r since = true -> Terminal (rsStatus res) = true)
    /\ (Terminal (rsStatus res) = false -> status_of (en_row x) = StatusPendingReference
        /\ is_some (tr_next (en_row x)) = true /\ tr_lease (en_row x) = None).
Proof.
  intros Hr Hin. pose proof (reached_promise _ _ _ _ Hr Hin) as Hp. cbn in Hp.
  destruct Hp as (b & v & w & i & wrow & r & since & x & row & -> & Hrt & Hst).
  exists b, v, w, i, wrow, r, since, x. split_and!; [done|by eapply reached_logged|done|..].
  - intros Hex. pose proof (rt_outcome _ _ _ _ _ _ _ _ _ _ _ _ Hrt) as Ho. rewrite Hex in Ho.
    assert (Hres : forall d wd, rsStatus (resultOf d wd false) = wgStatus d)
      by (intros; unfold resultOf; by destruct (Terminal _)).
    destruct Ho as [u row' Hv _ _ _|row' now clock d _ -> _ _|row' Hf _]; [..|done]; rewrite Hres.
    + inversion Hv as [dec H1 H2 H3|dec code H1 H2 H3|dec w' H1 H2 H3 H4 H5]; subst; [done|done|done].
    + done.
  - intros Ht. pose proof (outcome_status _ _ _ _ _ _ _ _ (rt_waits _ _ _ _ _ _ _ _ _ _ _ _ Hrt)
      (rt_outcome _ _ _ _ _ _ _ _ _ _ _ _ Hrt)) as Est.
    pose proof (sn_status _ _ _ _ Hst) as Hs. rewrite Ht in Hs. rewrite Hs in Est.
    split_and!; [done|by apply (rt_next _ _ _ _ _ _ _ _ _ _ _ _ Hrt)|apply (rt_lease _ _ _ _ _ _ _ _ _ _ _ _ Hrt)].
Qed.

Lemma retry_ends_the_wait_witness :
  exists m c b v w i wrow r since x, reaches m
    /\ (retry_waiting, RpResult (Ok orphan_result), c) ∈ m_log m
    /\ retried waiting_claim 1 (3600 * second) orphan_result b v w i wrow r since x.
Proof.
  destruct day_exists as (m & Hm). pose proof (day_reaches m Hm) as Hr.
  destruct (day_called m Hm 5 (retry_waiting, RpResult (Ok orphan_result)) eq_refl) as (c & Hin).
  destruct (retry_ends_the_wait m _ _ _ _ _ Hr Hin) as (b & v & w & i & wrow & r & since & x & _ & _ & H & _).
  by exists m, c, b, v, w, i, wrow, r, since, x.
Defined.

(** An attempt that leaves its transaction waiting says so: a successful reply
    never has an empty status. *)
Lemma retry_names_status m claim maxAttempts ttl res cm :
  reaches m -> (OpRetryReference claim maxAttempts ttl, RpResult (Ok res), cm) ∈ m_log m -> rsStatus res <> "".
Proof.
  intros Hr Hin. pose proof (reached_promise _ _ _ _ Hr Hin) as (b & v & w & i & wrow & r & since & x & row & _ & _ & Hs).
  pose proof (sn_status _ _ _ _ Hs) as H. intros E. rewrite E in H. discriminate H.
Qed.

(** C15: a claim hands out at most the number of rows asked for, each once,
    each of them due, unpublished or waiting, and free: a row under a lease that
    has not run out is never claimed by another worker; each row claimed is
    under the caller's lease from that commit on, and no other row changed. *)
Theorem claims_are_exclusive m cm :
  reaches m ->
  (forall owner limit lease l, (OpClaimOutbox owner limit lease, RpOutbox l None, cm) ∈ m_log m ->
     exists b v, cm = Some (b, v) /\ (OpClaimOutbox owner limit lease, b, v) ∈ m_commits m
       /\ tends b v /\ outbox_claimed owner limit lease l b v)
  /\ (forall owner limit lease l, (OpClaimReferences owner limit lease, RpReferences l None, cm) ∈ m_log m ->
     exists b v, cm = Some (b, v) /\ (OpClaimReferences owner limit lease, b, v) ∈ m_commits m
       /\ tends b v /\ references_claimed owner limit lease l b v).
Proof.
  intros Hr. split; intros owner limit lease l Hin;
    destruct (reached_promise _ _ _ _ Hr Hin) as (_ & b & v & -> & H);
    pose proof (reached_logged _ _ _ _ _ Hr Hin) as Hcm;
    destruct (reached_commit _ _ _ _ Hr Hcm) as ([Hs _] & _); by exists b, v.
Qed.

Lemma claims_are_exclusive_witness :
  exists m c b v, reaches m
    /\ (claim_waiting, RpReferences [waiting_claim] None, c) ∈ m_log m
    /\ references_claimed "worker-1" 10 (3600 * second) [waiting_claim] b v.
Proof.
  destruct day_exists as (m & Hm). pose proof (day_reaches m Hm) as Hr.
  destruct (day_called m Hm 4 (claim_waiting, RpReferences [waiting_claim] None) eq_refl) as (c & Hin).
  destruct (proj2 (claims_are_exclusive m c Hr) _ _ _ _ Hin) as (b & v & _ & _ & _ & H).
  by exists m, c, b, v.
Defined.

(** C18: [MarkPublished] succeeds only with the token of the current claim on
    an event not published yet, and from then on the event is published, with
    the payload it had. *)
Theorem published_for_good m id token cm :
  reaches m -> (OpMarkPublished id token, RpDone (Ok tt), cm) ∈ m_log m ->
  exists b v i t row row', cm = Some (b, v) /\ claim_current id token b i t row
    /\ outbox (m_db m) !! i = Some row' /\ is_some (ob_published row') = true
    /\ ob_payload row' = ob_payload row.
Proof.
  intros Hr Hin. destruct (reached_promise _ _ _ _ Hr Hin)
    as (b & v & i & t & row & row1 & -> & Hcl & (at_ & ->) & Hv).
  pose proof (reached_logged _ _ _ _ _ Hr Hin) as Hcm.
  destruct (reached_commit _ _ _ _ Hr Hcm) as (_ & _ & _ & _ & He).
  destruct (ev_outbox _ _ He i (outbox_published at_ row)) as (row' & Hrow' & (_ & _ & _ & _ & _ & Hp & _ & Hpub)).
  { rewrite Hv. cbn. apply lookup_insert_eq. }
  exists b, v, i, t, row, row'. split_and!; try done. by rewrite Hpub.
Qed.

Lemma published_for_good_witness :
  exists m c b v i t row row', reaches m
    /\ (publish_first, RpDone (Ok tt), c) ∈ m_log m
    /\ claim_current (ID_String (nth_id 8)) (ID_String (nth_id 701)) b i t row
    /\ outbox (m_db m) !! i = Some row' /\ is_some (ob_published row') = true /\ c = Some (b, v).
Proof.
  destruct day_exists as (m & Hm). pose proof (day_reaches m Hm) as Hr.
  destruct (day_called m Hm 6 (publish_first, RpDone (Ok tt)) eq_refl) as (c & Hin).
  destruct (published_for_good m _ _ c Hr Hin) as (b & v & i & t & row & row' & H1 & H2 & H3 & H4 & _).
  exists m, c, b, v, i, t, row, row'. exact (conj Hr (conj Hin (conj H2 (conj H3 (conj H4 H1))))).
Defined.

(** ** The domain decides *)

(** C2: a successful reply to a new request reports one commit, which inserts
    the transaction of the request's identity, that no transaction had, and
    settles it as the domain's [Evaluate] decides on the locked wallet and the
    locked reference: waiting, refused with its code, or executed, with the row,
    the wallet, the entry, the events and the delivery in the same commit; the
    transaction is on record ever after. *)
Theorem new_request_is_decided m c H d res cm :
  reaches m -> (OpProcessWager c d H, RpResult (Ok res), cm) ∈ m_log m -> rsIdempotentReplay res = false ->
  exists c' hash i b v h w wrow now u x ib,
    NormalizeCommand c = Ok c' /\ PayloadHash c' = Ok hash /\ cm = Some (b, v)
    /\ (OpProcessWager c d H, b, v) ∈ m_commits m
    /\ settled_as c' hash d i res b v h w wrow now u x ib
    /\ exists row, stands (m_db m) res i row /\ wager_grows (en_row x) row.
Proof.
  intros Hr Hin Hrep. destruct (reached_promise _ _ _ _ Hr Hin)
    as (c' & hash & [b v] & Hn & Hh & -> & (i & row & Hs & _ & Hst)).
  rewrite Hrep in Hst. destruct Hst as [(h & w & wrow & now & u & x & ib & Hst) _]. cbn [fst snd] in Hst.
  pose proof (reached_logged _ _ _ _ _ Hr Hin) as Hcm.
  destruct (reached_commit _ _ _ _ Hr Hcm) as (_ & _ & _ & _ & He).
  exists c', hash, i, b, v, h, w, wrow, now, u, x, ib. split_and!; try done.
  eapply stands_evolves; [by eapply settled_stands|done].
Qed.

Lemma new_request_is_decided_witness :
  exists m cm c' hash i b v h w wrow now u x ib, reaches m
    /\ (refund_bet, RpResult (Ok refund_result), cm) ∈ m_log m
    /\ cm = Some (b, v)
    /\ settled_as c' hash None i refund_result
         b v h w wrow now u x ib.
Proof.
  destruct day_exists as (m & Hm). pose proof (day_reaches m Hm) as Hr.
  destruct (day_called m Hm 3 (refund_bet, RpResult (Ok refund_result)) eq_refl) as (cm & Hin).
  destruct (new_request_is_decided m _ _ _ _ _ Hr Hin eq_refl)
    as (c' & hash & i & b & v & h & w & wrow & now & u & x & ib & _ & _ & H3 & _ & H5 & _).
  exists m, cm, c', hash, i, b, v, h, w, wrow, now, u, x, ib. exact (conj Hr (conj Hin (conj H3 H5))).
Defined.

(** C35: a wallet is created once per player and currency, whatever creations
    compete, and a successful creation commits the wallet with its opening
    balance, settled by a processed opening transaction when it is positive. *)
Theorem one_wallet_per_account m :
  reaches m ->
  (forall v w r r', wallets (m_db m) !! v = Some r -> wallets (m_db m) !! w = Some r' ->
     wr_player r = wr_player r' -> wr_currency r = wr_currency r' -> v = w)
  /\ forall c H view cm, (OpCreateWallet c H, RpWallet (Ok view), cm) ∈ m_log m ->
     exists b v w player now row, cm = Some (b, v) /\ (OpCreateWallet c H, b, v) ∈ m_commits m
       /\ creates_as c b v w player now
       /\ view = mkWalletView (ID_String w) (ID_String player) (cwInitialBalance c) 1 now now
       /\ wallets (m_db m) !! w = Some row
       /\ wallet_grows (new_row player (currency (cwInitialBalance c)) (minor (cwInitialBalance c)) now) row.
Proof.
  intros Hr. split; [apply (cs_account _ (reached_consistent _ Hr))|].
  intros c H view cm Hin. destruct (reached_promise _ _ _ _ Hr Hin) as (b & v & w & player & now & row & -> & H2 & H3 & H4 & H5).
  exists b, v, w, player, now, row. split_and!; try done. by eapply reached_logged.
Qed.

Lemma one_wallet_per_account_witness :
  exists m c b v w player now row, reaches m
    /\ (open_account, RpWallet (Ok opened_view), c) ∈ m_log m
    /\ c = Some (b, v) /\ wallets (m_db m) !! w = Some row
    /\ creates_as (mkCreateWalletCommand (ID_String ana) (mkMoney 10000 "BRL") "") b v w player now.
Proof.
  destruct day_exists as (m & Hm). pose proof (day_reaches m Hm) as Hr.
  destruct (day_called m Hm 0 (open_account, RpWallet (Ok opened_view)) eq_refl) as (c & Hin).
  destruct (proj2 (one_wallet_per_account m Hr) _ _ _ _ Hin)
    as (b & v & w & player & now & row & H1 & _ & H3 & _ & H5 & _).
  exists m, c, b, v, w, player, now, row. exact (conj Hr (conj Hin (conj H1 (conj H5 H3)))).
Defined.

(** ** The ledger as it is read *)

(** C34: whatever runs beside it, every successful reconciliation finds the
    stored balance equal to what the entries of the wallet add up to, in the
    wallet's currency, and so reports a zero difference and consistency; and
    none ever answers [RECONCILIATION_OVERFLOW]. *)
Theorem reconciliation_agrees m id r cm :
  reaches m -> (OpReconcile id, RpReconciliation r, cm) ∈ m_log m ->
  match r with
  | Ok rc => rcnConsistent rc = true /\ rcnStoredBalance rc = rcnCalculatedBalance rc
      /\ rcnDifference rc = mkMoney 0 (currency (rcnStoredBalance rc))
      /\ 0 <= minor (rcnStoredBalance rc) <= Int64.MaxInt64
      /\ (exists w row, ParseID id = Ok w /\ rcnWalletID rc = ID_String w
            /\ wallets (m_db m) !! w = Some row /\ wr_currency row = currency (rcnStoredBalance rc))
  | Err e => Code e <> "RECONCILIATION_OVERFLOW"
  end.
Proof.
  intros Hr Hin. pose proof (reached_promise _ _ _ _ Hr Hin) as Hp. cbn [promise] in Hp. destruct Hp as [_ Hp].
  destruct r as [rc|e]; [|exact Hp]. destruct Hp as (d0 & Hc & He & w & row & Hid & Hrow & ->).
  destruct (reconcile_row d0 w row Hc Hrow) as (Hsum & _ & Hrange).
  destruct (cs_wallet _ Hc _ _ Hrow) as (Hok & _). pose proof (wok_nonneg _ Hok) as Hn.
  destruct (ev_wallets _ _ He _ _ Hrow) as (row' & Hrow' & _ & Hcur & _).
  cbn [rcnConsistent rcnStoredBalance rcnCalculatedBalance rcnDifference rcnWalletID currency minor] in *.
  rewrite <- Hsum. destruct Hrange. split_and!; try done. by exists w, row'.
Qed.

Lemma reconciliation_agrees_witness :
  exists (m : system) cm, (audit, RpReconciliation (Ok audited), cm) ∈ m_log m
    /\ rcnStoredBalance audited = rcnCalculatedBalance audited.
Proof.
  destruct day_exists as (m & Hm). destruct (day_called m Hm 9 (audit, RpReconciliation (Ok audited)) eq_refl) as (cm & Hin).
  exists m, cm. split; [exact Hin|].
  apply (reconciliation_agrees m _ (Ok audited) cm (day_reaches m Hm) Hin).
Defined.

(** C33: in every reachable state a client that follows the cursors of the
    ledger from the first page, undisturbed, is shown every entry of the wallet
    exactly once, the newest first (entries of one instant by descending
    identifier), and then an empty cursor: with any page size allowed it
    finishes after at most one page more than there are entries.  That
    PostgreSQL's generated identifiers are not nil and its clock is in the
    years JSON can carry is assumed. *)
Theorem every_entry_once m e id w row limit :
  reaches m -> calm e -> ParseID id = Ok w -> wallets (m_db m) !! w = Some row -> 1 <= limit <= 100 ->
  (forall x, x ∈ ledger (m_db m) -> stamped x) ->
  exists l, l ≡ₚ entries w (m_db m) /\ StronglySorted newest_first l /\ NoDup (lr_id <$> l)
    /\ walk (S (length (entries w (m_db m)))) (fun cursor => answer e (Ledger id cursor limit) (m_db m)) ""
       = Ok (entry_view id <$> l).
Proof.
  intros Hr He Hid Hrow Hlimit Hst. pose proof (reached_consistent _ Hr) as Hc.
  exists (listed (m_db m) w). split; [apply listed_perm|]. split; [apply listed_sorted|].
  split; [by apply listed_ids|].
  rewrite (walk_ext _ (ledger_page (m_db m) id w limit)).
  - apply walk_all; [done..|lia|done|lia].
  - intros cursor. by eapply Ledger_answers.
Qed.

Lemma every_entry_once_witness :
  exists m l, reaches m /\ length (ledger (m_db m)) = 3%nat /\ l ≡ₚ entries anas_wallet (m_db m)
    /\ walk (S (length (entries anas_wallet (m_db m))))
         (fun cursor => answer (quiet_day 50) (Ledger (ID_String anas_wallet) cursor 2) (m_db m)) ""
       = Ok (entry_view (ID_String anas_wallet) <$> l).
Proof.
  destruct day_exists as (m & Hm). exists m.
  assert (Hid : ParseID (ID_String anas_wallet) = Ok anas_wallet) by (apply ParseID_String; by vm_compute).
  assert (Hst : forall x, x ∈ ledger (m_db m) -> stamped x).
  { intros x Hx. pose proof (day_stamped m Hm) as H. rewrite forallb_forall in H.
    apply list_elem_of_In in Hx. specialize (H x Hx). unfold well_stamped in H. bools. unfold stamped. auto. }
  destruct (every_entry_once m (quiet_day 50) (ID_String anas_wallet) anas_wallet anas_row 2
    (day_reaches m Hm)) as (l & Hl & _ & _ & Hw);
    [by split|exact Hid|exact (day_wallet m Hm)|lia|exact Hst|].
  exists l. exact (conj (day_reaches m Hm) (conj (day_entries m Hm) (conj Hl Hw))).
Defined.
